(* ===== verification/_CoqProject ===== *)
-Q . S2P
Prelude.v
Options.v
Message.v
LeaseStore.v
ArrayPool.v
HashTab.v
HashPool.v
BitmapOps.v
BitmapVar.v
BitmapUni.v
Nprc.v
Server.v
CQueue.v
Frame.v
Adapter.v
Client.v
EndToEnd.v
Network.v
XidTab.v
Workers.v
RawSocket.v
Bootloader.v
Flashy.v
Periph.v
Heap.v
Genet.v
Board.v
Site.v
Phy.v
Boot.v
