(* ===== verification/Prelude.v ===== *)
(** * A verification of the bare-metal DHCP server

    The repository is a DHCP server for bare-metal Raspberry Pis: a library that
    turns DHCP messages into DHCP messages ([src/dhcp-lib], over the containers of
    [src/ds-lib]), a Circle program that runs it on Ethernet frames
    ([src/circle/sample/06-ethernet-dhcp-lib]), and a load-test client for a Linux
    host ([src/bench-live]).  The program reaches the board through Circle's serial
    bootloader and flash tool ([src/circle/tools]), and runs on Circle's heap and
    its driver of the Raspberry Pi 4's Ethernet controller ([src/circle/lib]).

    ** The parts, and where they are modelled

    - [Prelude] (this file): machine words with their wrap-around, outcomes of C
      code, array accesses with their bounds, little-endian words, and the tactics
      and lemmas the other files share.
    - [Options], [Message]: the 308-byte options field and the reply builders of
      [dhcp_server.c].
    - [LeaseStore]: the contract of a lease pool, a class over a finite map from
      MAC addresses to leases.  [ArrayPool] ([dhcp_array.c]) and [HashPool]
      ([dhcp_hashmap.c]) implement it, the latter over [HashTab]
      ([ds-lib/hash.c]).
    - [BitmapOps], [BitmapVar], [BitmapUni], [Nprc]: the three pools that do not
      know the client ([dhcp_bitmap_ops.c], [dhcp_bitmap_vartime.c],
      [dhcp_bitmap_unitime.c], [dhcp_nprc.c]).
    - [Server]: the five [dhcp_process_message_*] handlers of [dhcp_server.c].
      The ARRAY and HASHMAP handlers are one definition over [LeaseStore].
    - [Adapter]: the Circle program from a received frame to the frame it sends
      ([CDHCPServer], the packet loop of [CKernel::Run], [mystring.cpp]).
    - [CQueue]: the byte ring of [ds-lib/cqueue.c].
    - [Frame], [Client]: the client's frames ([frame.c]) and session
      ([dhcp-client.c]).
    - [EndToEnd]: client and server on one network.  [Network]: the server and any
      number of clients on a network that loses, delays, repeats and reorders
      frames.
    - [XidTab], [Workers]: the concurrent client ([xid-tab.c], [lib/hash.c],
      [client-queue.c], [lib/cqueue.c], [workers-async.c],
      [dhcp-client-async.c]): every interleaving of the worker threads and the
      receive manager.
    - [Bootloader], [Flashy]: the two ends of the serial line
      ([bootloader07.c], [cflashy.c]).  [Periph]: the UART, the timer, the mailbox
      and the divisions below the bootloader ([periph.c]), over a device that
      loads and stores reach and may change.
    - [Heap]: Circle's heap ([heapallocator.cpp]), and the contract of a heap, a
      class.  [Genet]: the rings of the Ethernet driver ([bcm54213.cpp]), over any
      heap that keeps the contract, with the controller as the environment.
      [Board]: the packet loop over the driver.  [Site]: a board and any number of
      clients on a network, the composition of [Board], [Adapter], [Server] and
      [Client].  [Phy]: the rest of the driver, the MAC and the PHY, its set-up, and
      the clock it waits by ([timer.cpp]).  [Boot]: the start of the kernel up to
      the packet loop, over [Phy], [Genet] and [Site].
    - [RawSocket]: the packet capture of the load-test client ([raw_socket.c]).

    Each file follows one shape: the data and the operations in the order of the
    source and under its names, then the abstract view of the state and the
    invariant, a lemma per operation, the theorems, and small concrete runs.

    ** How C is modelled

    A [w]-bit unsigned integer is a [Z] whose wrap-around is written where the C
    expression wraps; a buffer is the list of its bytes, and a pointer into it an
    offset.  A function that can fail returns an [outcome]: [Ret], [Ub] for an
    access outside the object or another undefined operation, [Diverge] for a loop
    out of fuel.  Mutated objects are passed and returned.  The network, the
    clock, [rand], the serial port, the Ethernet controller and the scheduler are
    arguments, so a theorem that does not restrict them holds for all their
    behaviours.  Registers are reached through a class of loads and stores
    ([Device] in [Periph]), what they promise is a further class.

    Fuel is a number the loop cannot exceed: the length of the field, table,
    buffer or file it runs over, the bits of a word, or the 150 resets of the
    flash tool.  The theorems that give an operation's result say [Ret], so they
    include that the fuel is enough; [flash_terminates], [client_session_ends],
    [workers_complete] and [option_scans_terminate] say so by themselves.  A loop that
    waits for a register or for the clock has no such number: [ends] in [Periph]
    says that all large enough fuel gives the result.

    ** What the theorems show

    - Containers: [hash_table_refines_map], [cq_refines_fifo] and
      [xid_table_refines_map]: runs of calls behave as on a finite map or a
      bounded FIFO.
    - Messages and frames: [dhcp_get_option_correct], [dhcp_add_option_get],
      [dhcp_build_replies_correct], [build_frame_correct],
      [parse_frame_correct], [parse_xid_demultiplexes], [wire_roundtrip]: what
      is written is what the formats say, and is read back.
    - Pools: [array_pool_invariant], [hash_pool_invariant] and the two
      refinements of the lease contract; [var_commit_once], [uni_commit_once],
      [nprc_never_twice] for the others.
    - Server: [server_refines_lease_spec] (the handlers implement a short
      specification over the lease map), [no_double_lease],
      [handshake_completes], [nprc_server_never_twice], [bmvar_lease_window],
      [bmuni_process_correct]; [frame_exchange] carries the specification to
      Ethernet frames.
    - Client: [run_client_refines] (the session is a protocol machine on what the
      frames mean), [client_lease_sound], [client_session_ends], and
      [end_to_end_lease]: against the server, the session ends with a lease the
      server has recorded.
    - Network: [network_runs] (every step that is possible returns, and every
      frame sent is one the parties handle), [network_leases_backed] (a session
      that ended with an address has an acknowledgement of the server that named
      it) and [network_no_double_lease], for all runs, by an invariant.
    - Board: [heap_refines_contract], [heap_reuses_freed]; [board_refines_queues]
      (rings, registers and buffers amount to two queues with the server between
      them, whatever the controller does within its contract: [nic_stored],
      [nic_sent]) and [board_serves_client] (from the receive ring to the
      transmit ring, a round of the loop performs a step of the specification).
      A heap with room for 291 frames is enough for ever: 256 are in the receive
      ring, two hold the control blocks, at most 32 wait to be sent, and one is
      being exchanged.
    - Site: [site_no_double_lease], [site_refines_network] (a site, down to the
      registers and the heap of the board, does what the network of [Network]
      does) and [site_follows_network] (and whatever the network can do, the site
      can).
    - Link: [update_phy_follows_link] (the MAC is programmed with the best mode
      both ends advertise), [wait_for_link_up], [receive_filter],
      [initialize_ends], [delay_waits].
    - Start: [kernel_starts]: from the set-up of the Ethernet device, with frames
      arriving as soon as its rings are ready, the kernel comes to its packet loop
      in bounded time, in a state a site can reach (or halts for want of a MAC
      address).  With the theorems about sites this covers the server from there
      to the leases.
    - Concurrency: [workers_safe] and [workers_complete], by an invariant over
      all interleavings ([sys_inv]): no bad access, no client with two workers,
      replies reach the client they belong to, the workers can always finish, and
      then every session is over.
    - Deployment: [bootloader_record], [bootloader_reset], [bootloader_typed],
      [flash_terminates], and [flash_runs_image]: if the flash tool ends with
      exit code 0, the bytes it has sent make the bootloader run the image of the
      hex file.  [uart_carries_bootloader] has the bootloader run on the registers
      of the UART; [div_correct], [baud_divisor_rounds] and [get_clock_rate] are
      about its set-up.
    - Conditions.  The theorems about leases hold for well-formed messages, as long
      as no expiry exceeds 32 bits; with the clock of the board, which counts
      microseconds in 32 bits, as long as it does not wrap (71 minutes), and for
      clients whose transaction ids differ (the client draws them with [rand] and
      does not check).  [workers_safe] and [workers_complete] need the last as
      well.  The doc comment of each theorem names its conditions; the theorems
      of the next group say what the code does beyond them.
    - Where the code does not do what it means to: [clock_wrap_lease_never_ends],
      [offer_loses_options], [bmvar_lease_underflow], [bmuni_double_lease],
      [uni_starvation], [uni_init_correct], [dhcp_get_option_reads_past_end],
      [xid_collision], [empty_record_swallows_file],
      [flash_without_file_starts_nothing], [option_without_value],
      [empty_file_divides_by_zero], [heap_huge_request], [heap_size_truncated],
      [heap_base_alignment], [send_too_long], [get_clock_rate],
      [link_without_mode], [init_twice_leaks].

    ** Not modelled

    The Circle framework under [src/circle] apart from the files named: it is
    vendored, and the program uses it as a driver library.  Of the files named,
    cache maintenance and the locks of driver and heap are left out, so a step of
    the board is a whole call, an interrupt handled or a packet stored; so are the
    connection of the interrupt handlers, the kernel timers and the time of day of
    [timer.cpp], and the mailbox through which the driver asks for its MAC address
    (the answer is an argument).  Further, what the kernel does
    before it sets up the Ethernet device (screen, serial port, logger, interrupt
    system, timer; the configuration the constructor of [CDHCPServer] installs is in
    [Adapter]); the Windows half and the terminal
    settings of [cflashy.c]; logging, printing and the [DEBUG] builds; the test
    programs beside the containers; [src/pi-connect], a Python script.  Threads
    are interleaved at their locked sections; data races inside the C memory model
    are not considered, the step of a worker outside the locks uses data of its
    own. *)
From Stdlib Require Import ZArith Lia.
From stdpp Require Export prelude list list_numbers gmap.

Declare Scope word_scope.
Delimit Scope word_scope with word.

(** ** Machine integers

    A [w]-bit unsigned C integer is a [Z] kept in range by writing the
    wrap-around out where the C expression wraps. *)

Definition wrap (w z : Z) : Z := (z `mod` 2 ^ w)%Z.
Abbreviation u8 := (wrap 8).
Abbreviation u16 := (wrap 16).
Abbreviation u32 := (wrap 32).
Abbreviation u64 := (wrap 64).

(** 32-bit unsigned addition and subtraction, as C computes them. *)
Notation "x ⊞ y" := (u32 (x + y)%Z) (at level 50, left associativity) : word_scope.
Notation "x ⊟ y" := (u32 (x - y)%Z) (at level 50, left associativity) : word_scope.
Open Scope word_scope.

Definition uword (w z : Z) : Prop := (0 ≤ z < 2 ^ w)%Z.
Abbreviation byte := (uword 8).
Abbreviation is_u16 := (uword 16).
Abbreviation is_u32 := (uword 32).

#[export] Instance uword_dec w z : Decision (uword w z).
Proof. unfold uword. apply _. Defined.

(** ** Outcomes of C code

    [Ret a] is a normal return, [Ub] an access outside the object the code
    addresses (undefined behaviour), [Diverge] a loop that used up the fuel
    the model gives it.  The development shows for every loop that [Diverge]
    is never the answer. *)

Inductive outcome (A : Type) : Type :=
  | Ret (a : A)
  | Ub
  | Diverge.
Arguments Ret {A} a.
Arguments Ub {A}.
Arguments Diverge {A}.

#[export] Instance outcome_ret : MRet outcome := λ A a, Ret a.
#[export] Instance outcome_bind : MBind outcome := λ A B f m,
  match m with Ret a => f a | Ub => Ub | Diverge => Diverge end.
#[export] Instance outcome_fmap : FMap outcome := λ A B f m,
  match m with Ret a => Ret (f a) | Ub => Ub | Diverge => Diverge end.

(** Reads and writes of an array that lives at a known object. *)
Definition deref {A} (l : list A) (i : nat) : outcome A :=
  match l !! i with Some a => Ret a | None => Ub end.

Definition store {A} (l : list A) (i : nat) (a : A) : outcome (list A) :=
  if decide (i < length l)%nat then Ret (<[i := a]> l) else Ub.

(** [memcpy (l + i, src, length src)] *)
Definition store_n {A} (l : list A) (i : nat) (src : list A) : outcome (list A) :=
  if decide (i + length src ≤ length l)%nat then Ret (list_inserts i src l) else Ub.

(** The [n] elements at [l + i]. *)
Definition load_n {A} (l : list A) (i n : nat) : outcome (list A) :=
  if decide (i + n ≤ length l)%nat then Ret (take n (drop i l)) else Ub.

(** C truth values *)
Definition truth (z : Z) : bool := negb (z =? 0)%Z.

(** ** Lemmas on outcomes and array accesses *)

Create HintDb dhcp.

Lemma bind_Ret {A B} (a : A) (f : A → outcome B) : (Ret a ≫= f) = f a.
Proof. done. Qed.

Lemma bind_Ret_inv {A B} (m : outcome A) (f : A → outcome B) b :
  (m ≫= f) = Ret b ↔ ∃ a, m = Ret a ∧ f a = Ret b.
Proof. split; [destruct m; naive_solver | by intros (a & -> & ?)]. Qed.

Lemma deref_Ret {A} (l : list A) i a : deref l i = Ret a ↔ l !! i = Some a.
Proof. unfold deref. destruct (l !! i); naive_solver. Qed.

Lemma deref_lookup {A} (l : list A) i a : l !! i = Some a → deref l i = Ret a.
Proof. by rewrite deref_Ret. Qed.

Lemma deref_lt {A} (l : list A) i : (i < length l)%nat → ∃ a, l !! i = Some a ∧ deref l i = Ret a.
Proof.
  intros [a Ha]%lookup_lt_is_Some. exists a. by rewrite deref_Ret.
Qed.

Lemma deref_ge {A} (l : list A) i : (length l ≤ i)%nat → deref l i = Ub.
Proof. intros H. unfold deref. by rewrite lookup_ge_None_2. Qed.

Lemma deref_cases {A} (l : list A) i :
  deref l i = Ub ∨ ∃ a, l !! i = Some a ∧ deref l i = Ret a.
Proof. unfold deref. destruct (l !! i); naive_solver. Qed.

Lemma store_lt {A} (l : list A) i a : (i < length l)%nat → store l i a = Ret (<[i := a]> l).
Proof. intros. unfold store. by rewrite decide_True. Qed.

Lemma store_n_le {A} (l : list A) i src :
  (i + length src ≤ length l)%nat → store_n l i src = Ret (list_inserts i src l).
Proof. intros. unfold store_n. by rewrite decide_True. Qed.

Lemma load_n_le {A} (l : list A) i n :
  (i + n ≤ length l)%nat → load_n l i n = Ret (take n (drop i l)).
Proof. intros. unfold load_n. by rewrite decide_True. Qed.

#[export] Hint Resolve deref_lookup : dhcp.

(** Open a hypothesis saying that a sequence of statements returned. *)
Ltac inv_ret :=
  repeat match goal with
  | H : (_ ≫= _) = Ret _ |- _ =>
      let a := fresh "v" in let H1 := fresh "Hv" in
      apply bind_Ret_inv in H as (a & H1 & H)
  | H : Ret _ = Ret _ |- _ => injection H; clear H; intros; subst
  | H : Ub = Ret _ |- _ => discriminate H
  | H : Diverge = Ret _ |- _ => discriminate H
  end.

(** Case analysis on the integer comparisons of the goal and the hypotheses. *)
Ltac zcases :=
  repeat match goal with
  | |- context [Z.leb ?a ?b] => destruct (Z.leb_spec a b)
  | |- context [Z.ltb ?a ?b] => destruct (Z.ltb_spec a b)
  | |- context [Z.eqb ?a ?b] => destruct (Z.eqb_spec a b)
  | H : context [Z.leb ?a ?b] |- _ => destruct (Z.leb_spec a b)
  | H : context [Z.ltb ?a ?b] |- _ => destruct (Z.ltb_spec a b)
  | H : context [Z.eqb ?a ?b] |- _ => destruct (Z.eqb_spec a b)
  end.

(** Lengths of appends, inserts and replicates. *)
Ltac solve_length :=
  repeat first
    [ progress rewrite ?length_app, ?length_insert, ?length_inserts, ?length_replicate,
        ?length_take, ?length_drop, ?length_fmap in *
    | progress simpl in * ]; lia.

(** Writing [src] over a list, as an append of three pieces. *)
Lemma list_inserts_app {A} (l1 l2 l3 src : list A) :
  length src = length l2 →
  list_inserts (length l1) src (l1 ++ l2 ++ l3) = l1 ++ src ++ l3.
Proof.
  intros Hlen. apply list_eq. intros i.
  destruct (decide (i < length l1)%nat).
  { rewrite list_lookup_inserts_lt, !lookup_app_l by lia. done. }
  destruct (decide (i < length l1 + length src)%nat).
  - rewrite list_lookup_inserts; [|lia|rewrite !length_app; lia].
    rewrite lookup_app_r, lookup_app_l by lia. done.
  - rewrite list_lookup_inserts_ge by lia.
    rewrite !lookup_app_r by lia. f_equal. lia.
Qed.

Lemma insert_app_cons {A} (l1 l2 : list A) x y :
  <[length l1 := y]> (l1 ++ x :: l2) = l1 ++ y :: l2.
Proof.
  replace (length l1) with (length l1 + 0)%nat by lia.
  by rewrite insert_app_r.
Qed.

(** ** Word arithmetic *)

Open Scope Z_scope.

Lemma wrap_small w z : uword w z → wrap w z = z.
Proof. apply Z.mod_small. Qed.

Lemma wrap_range w z : 0 ≤ w → uword w (wrap w z).
Proof. intros. apply Z.mod_pos_bound, Z.pow_pos_nonneg; lia. Qed.

Lemma wrap_add_l w a b : 0 ≤ w → wrap w (wrap w a + b) = wrap w (a + b).
Proof. intros. unfold wrap. apply Z.add_mod_idemp_l. lia. Qed.

Lemma wrap_sub_small w a b : 0 ≤ b ≤ a → a < 2 ^ w → wrap w (a - b) = a - b.
Proof. intros. apply wrap_small. unfold uword. lia. Qed.

#[export] Hint Resolve wrap_range : dhcp.

Lemma lor_shiftl_add a b n :
  0 ≤ n → 0 ≤ b < 2 ^ n → Z.lor (a ≪ n) b = a * 2 ^ n + b.
Proof.
  intros Hn Hb.
  assert (Hl : Z.land (a ≪ n) b = 0).
  { apply Z.bits_inj'. intros i Hi. rewrite Z.land_spec, Z.bits_0.
    destruct (decide (i < n)).
    - rewrite Z.shiftl_spec_low by lia. done.
    - rewrite <- (Z.mod_small b (2 ^ n)) by lia.
      rewrite Z.mod_pow2_bits_high by lia. apply andb_false_r. }
  rewrite <- Z.lxor_lor, <- Z.add_nocarry_lxor by done.
  by rewrite Z.shiftl_mul_pow2.
Qed.

Lemma land_255 z : Z.land z 255 = z `mod` 256.
Proof. change 255 with (Z.ones 8). by rewrite Z.land_ones. Qed.

(** ** Little-endian words in byte arrays (the targets are little-endian ARM) *)

Fixpoint le_split (n : nat) (z : Z) : list Z :=
  match n with
  | O => []
  | S n => z `mod` 256 :: le_split n (z / 256)
  end.

Fixpoint le_combine (l : list Z) : Z :=
  match l with
  | [] => 0
  | b :: l => b + 256 * le_combine l
  end.

Lemma le_split_length n z : length (le_split n z) = n.
Proof. revert z. induction n as [|n IH]; intros z; cbn; [done|]. by rewrite IH. Qed.

Lemma le_split_bytes n z : Forall byte (le_split n z).
Proof.
  revert z. induction n as [|n IH]; intros z; cbn; constructor; [|done].
  pose proof (Z.mod_pos_bound z 256). unfold uword. lia.
Qed.

Lemma le_combine_split n : ∀ z, 0 ≤ z < 256 ^ Z.of_nat n → le_combine (le_split n z) = z.
Proof.
  induction n as [|n IH]; intros z Hz; cbn; [lia|].
  rewrite IH; [pose proof (Z.div_mod z 256); lia|].
  rewrite Nat2Z.inj_succ, Z.pow_succ_r in Hz by lia.
  pose proof (Z.div_pos z 256). pose proof (Z.div_lt_upper_bound z 256 (256 ^ Z.of_nat n)). lia.
Qed.

Lemma le_combine_split4 z : is_u32 z → le_combine (le_split 4 z) = z.
Proof. intros. apply le_combine_split. unfold uword in *. lia. Qed.

Lemma le_split_combine l : Forall byte l → le_split (length l) (le_combine l) = l.
Proof.
  induction 1 as [|b l Hb Hl IH]; cbn; [done|]. unfold uword in Hb.
  rewrite Z.mul_comm, Z.mod_add, Z.div_add by lia.
  rewrite Z.mod_small, Z.div_small by lia. by rewrite Z.add_0_l, IH.
Qed.

Lemma le_combine_range l : Forall byte l → 0 ≤ le_combine l < 256 ^ Z.of_nat (length l).
Proof.
  induction 1 as [|b l Hb Hl IH]; cbn [le_combine length]; [lia|]. unfold uword in Hb.
  rewrite Nat2Z.inj_succ, Z.pow_succ_r by lia. lia.
Qed.

Lemma le_split4_inj a b : is_u32 a → is_u32 b → le_split 4 a = le_split 4 b → a = b.
Proof. intros Ha Hb E. by rewrite <- (le_combine_split4 a), <- (le_combine_split4 b), E. Qed.
