(* ===== verification/Options.v ===== *)
(** * The DHCP message and its options field

    [dhcp-lib/dhcp_server.h] (constants and [dhcp_message_t]) and the option
    functions of [dhcp-lib/dhcp_server.c].  An option pointer [ptr] is its
    offset from [msg->options]; a read or write outside the 308 bytes of the
    field is [Ub]. *)
From S2P Require Import Prelude.

Open Scope Z_scope.

(** DHCP message types *)
Definition DHCP_DISCOVER : Z := 1.
Definition DHCP_OFFER : Z := 2.
Definition DHCP_REQUEST : Z := 3.
Definition DHCP_DECLINE : Z := 4.
Definition DHCP_ACK : Z := 5.
Definition DHCP_NAK : Z := 6.

(** DHCP option codes *)
Definition DHCP_OPT_PAD : Z := 0.
Definition DHCP_OPT_SUBNET_MASK : Z := 1.
Definition DHCP_OPT_ROUTER : Z := 3.
Definition DHCP_OPT_DNS_SERVER : Z := 6.
Definition DHCP_OPT_REQUESTED_IP : Z := 50.
Definition DHCP_OPT_LEASE_TIME : Z := 51.
Definition DHCP_OPT_MESSAGE_TYPE : Z := 53.
Definition DHCP_OPT_SERVER_ID : Z := 54.
Definition DHCP_OPT_END : Z := 255.

Definition DHCP_MAGIC_COOKIE : Z := 0x63825363.

(** [uint8_t options[308]] *)
Definition OPTIONS_LEN : nat := 308.

Record dhcp_message_t := mkMsg {
  m_op : Z;
  m_htype : Z;
  m_hlen : Z;
  m_hops : Z;
  m_xid : Z;
  m_secs : Z;
  m_flags : Z;
  m_ciaddr : Z;
  m_yiaddr : Z;
  m_siaddr : Z;
  m_giaddr : Z;
  m_chaddr : list Z;
  m_sname : list Z;
  m_file : list Z;
  m_magic_cookie : Z;
  m_options : list Z
}.

(** [kmemset (msg, 0, sizeof (dhcp_message_t))] *)
Definition zero_msg : dhcp_message_t :=
  mkMsg 0 0 0 0 0 0 0 0 0 0 0 (replicate 16 0) (replicate 64 0)
    (replicate 128 0) 0 (replicate OPTIONS_LEN 0).

Definition set_options (m : dhcp_message_t) (o : list Z) : dhcp_message_t :=
  mkMsg (m_op m) (m_htype m) (m_hlen m) (m_hops m) (m_xid m) (m_secs m)
    (m_flags m) (m_ciaddr m) (m_yiaddr m) (m_siaddr m) (m_giaddr m)
    (m_chaddr m) (m_sname m) (m_file m) (m_magic_cookie m) o.

(** ** IP address helpers *)

Definition uint32_to_ip (ip : Z) : list Z :=
  [Z.land (ip ≫ 24) 255; Z.land (ip ≫ 16) 255; Z.land (ip ≫ 8) 255; Z.land ip 255].

Definition ip_to_uint32 (a b c d : Z) : Z :=
  Z.lor (Z.lor (Z.lor (a ≪ 24) (b ≪ 16)) (c ≪ 8)) d.

(** ** Finding the end of the options

    The [while] loop of [dhcp_add_option]: from [ptr], skip PAD bytes and
    whole options until an END byte or the end of the field. *)
Fixpoint find_end (fuel : nat) (opts : list Z) (ptr : nat) : outcome nat :=
  match fuel with
  | O => Diverge
  | S fuel =>
      if decide (ptr < OPTIONS_LEN)%nat then
        c ← deref opts ptr;
        if c =? DHCP_OPT_END then Ret ptr
        else if c =? DHCP_OPT_PAD then find_end fuel opts (ptr + 1)
        else l ← deref opts (ptr + 1);
             find_end fuel opts (ptr + 2 + Z.to_nat l)
      else Ret ptr
  end.

(** [ptr] grows by at least one per iteration and the loop stops at 308. *)
Definition scan_fuel : nat := S OPTIONS_LEN.

(** [if (ptr[0] == 0) ptr[0] = DHCP_OPT_END;] *)
Definition mark_end (opts : list Z) : outcome (list Z) :=
  c ← deref opts 0;
  if c =? 0 then store opts 0 DHCP_OPT_END else Ret opts.

(** [dhcp_add_option]; [data = None] is the null pointer. *)
Definition add_option (opts : list Z) (option length : Z) (data : Datatypes.option (list Z))
    : outcome (list Z) :=
  opts ← mark_end opts;
  ptr ← find_end scan_fuel opts 0;
  if decide (ptr + 2 + Z.to_nat length + 1 ≤ OPTIONS_LEN)%nat then
    opts ← store opts ptr option;
    opts ← store opts (ptr + 1) length;
    opts ← (match data with
            | Some src =>
                if 0 <? length
                then src ← load_n src 0 (Z.to_nat length); store_n opts (ptr + 2) src
                else Ret opts
            | None => Ret opts
            end);
    let ptr := (ptr + 2 + Z.to_nat length)%nat in
    if decide (ptr < OPTIONS_LEN)%nat then store opts ptr DHCP_OPT_END else Ret opts
  else Ret opts.

Definition dhcp_add_option (msg : dhcp_message_t) (option length : Z)
    (data : Datatypes.option (list Z)) : outcome dhcp_message_t :=
  opts ← add_option (m_options msg) option length data;
  Ret (set_options msg opts).

Definition dhcp_set_message_type (msg : dhcp_message_t) (type : Z) : outcome dhcp_message_t :=
  dhcp_add_option msg DHCP_OPT_MESSAGE_TYPE 1 (Some [type]).

(** ** Looking an option up

    The [while] loop of [dhcp_get_option].  The loop condition reads [*ptr]
    before it compares [ptr] with the end of the field.  The result is the
    offset of the option's data and its length, or null. *)
Fixpoint get_option_loop (fuel : nat) (opts : list Z) (option : Z) (ptr : nat)
    : outcome (Datatypes.option (nat * Z)) :=
  match fuel with
  | O => Diverge
  | S fuel =>
      c ← deref opts ptr;
      if negb (c =? DHCP_OPT_END) && bool_decide (ptr < OPTIONS_LEN)%nat then
        if c =? option then
          l ← deref opts (ptr + 1); Ret (Some ((ptr + 2)%nat, l))
        else if c =? DHCP_OPT_PAD then get_option_loop fuel opts option (ptr + 1)
        else l ← deref opts (ptr + 1);
             get_option_loop fuel opts option (ptr + 2 + Z.to_nat l)
      else Ret None
  end.

Definition get_option (opts : list Z) (option : Z) : outcome (Datatypes.option (nat * Z)) :=
  get_option_loop scan_fuel opts option 0.

Definition dhcp_get_option (msg : dhcp_message_t) (option : Z)
    : outcome (Datatypes.option (nat * Z)) :=
  get_option (m_options msg) option.

Definition dhcp_get_message_type (msg : dhcp_message_t) : outcome Z :=
  r ← dhcp_get_option msg DHCP_OPT_MESSAGE_TYPE;
  match r with
  | Some (opt, length) =>
      if 1 <=? length then deref (m_options msg) opt else Ret 0
  | None => Ret 0
  end.

(** ** Specification: a field of tagged options

    An options field is a sequence of PAD bytes and options, closed by an END
    byte; what follows END is ignored. *)

Inductive item :=
  | Pad
  | Opt (code : Z) (data : list Z).

Definition enc_item (i : item) : list Z :=
  match i with
  | Pad => [DHCP_OPT_PAD]
  | Opt c d => c :: Z.of_nat (length d) :: d
  end.

Definition encode (its : list item) : list Z := its ≫= enc_item.

Definition item_ok (i : item) : Prop :=
  match i with
  | Pad => True
  | Opt c d => DHCP_OPT_PAD < c < DHCP_OPT_END ∧ (length d < 256)%nat
  end.

Definition represents (opts : list Z) (its : list item) : Prop :=
  length opts = OPTIONS_LEN ∧ Forall item_ok its ∧
  ∃ rest, opts = encode its ++ DHCP_OPT_END :: rest.

(** The first option with code [code], as (offset of its data, length). *)
Fixpoint find_item (code : Z) (off : nat) (its : list item) : option (nat * Z) :=
  match its with
  | [] => None
  | Pad :: its => find_item code (off + 1) its
  | Opt c d :: its =>
      if c =? code then Some ((off + 2)%nat, Z.of_nat (length d))
      else find_item code (off + 2 + length d) its
  end.

(** The data of that option. *)
Fixpoint item_data (code : Z) (its : list item) : option (list Z) :=
  match its with
  | [] => None
  | Pad :: its => item_data code its
  | Opt c d :: its => if c =? code then Some d else item_data code its
  end.

Definition no_leading_pad (its : list item) : Prop :=
  match its with Pad :: _ => False | _ => True end.

(** *** Lemmas *)

Lemma encode_cons i its : encode (i :: its) = enc_item i ++ encode its.
Proof. done. Qed.

Lemma encode_snoc its i : encode (its ++ [i]) = encode its ++ enc_item i.
Proof. unfold encode. by rewrite bind_app, bind_singleton. Qed.

Lemma deref_app {A} (pre l : list A) k : deref (pre ++ l) (length pre + k) = deref l k.
Proof. unfold deref. by rewrite lookup_app_r, Nat.add_comm, Nat.add_sub by lia. Qed.

Lemma deref_app_0 {A} (pre l : list A) x : deref (pre ++ x :: l) (length pre) = Ret x.
Proof. by rewrite <- (Nat.add_0_r (length pre)), deref_app. Qed.

Lemma app_cons_2 {A} (pre l : list A) (x y : A) : pre ++ x :: y :: l = (pre ++ [x; y]) ++ l.
Proof. by rewrite <- app_assoc. Qed.

Lemma find_end_encode its : ∀ fuel pre rest,
  Forall item_ok its →
  length (pre ++ encode its ++ DHCP_OPT_END :: rest) = OPTIONS_LEN →
  (OPTIONS_LEN - length pre < fuel)%nat →
  find_end fuel (pre ++ encode its ++ DHCP_OPT_END :: rest) (length pre)
  = Ret (length pre + length (encode its))%nat.
Proof.
  induction its as [|[|c d] its IH]; intros [|fuel] pre rest Hok Hlen Hf;
    try (rewrite !length_app in Hlen; simpl in *; lia).
  all: assert (length pre < OPTIONS_LEN)%nat by (rewrite !length_app in Hlen; simpl in *; lia).
  all: cbn [find_end]; rewrite decide_True by done.
  - simpl. rewrite deref_app_0. cbn. f_equal. lia.
  - rewrite encode_cons. cbn [enc_item app]. rewrite deref_app_0. cbn -[find_end length].
    replace (pre ++ DHCP_OPT_PAD :: encode its ++ DHCP_OPT_END :: rest)
      with ((pre ++ [DHCP_OPT_PAD]) ++ encode its ++ DHCP_OPT_END :: rest)
      by (by rewrite <- app_assoc).
    replace (length pre + 1)%nat with (length (pre ++ [DHCP_OPT_PAD]))
      by (rewrite length_app; simpl; lia).
    rewrite IH; [| by inversion Hok | |].
    + f_equal. solve_length.
    + rewrite <- Hlen. solve_length.
    + solve_length.
  - apply Forall_cons in Hok as [[Hc Hd] Hok'].
    rewrite encode_cons. cbn [enc_item app].
    rewrite deref_app_0, bind_Ret.
    rewrite (proj2 (Z.eqb_neq c _)), (proj2 (Z.eqb_neq c _)) by (unfold DHCP_OPT_PAD in *; lia).
    rewrite deref_app. cbn [deref lookup list_lookup]. rewrite bind_Ret, Nat2Z.id.
    set (pre' := pre ++ c :: Z.of_nat (length d) :: d).
    replace (pre ++ c :: Z.of_nat (length d) :: (d ++ encode its) ++ DHCP_OPT_END :: rest)
      with (pre' ++ encode its ++ DHCP_OPT_END :: rest).
    2:{ unfold pre'. by rewrite <- !app_assoc. }
    assert (Hpre' : length pre' = (length pre + 2 + length d)%nat).
    { unfold pre'. rewrite length_app. simpl. lia. }
    rewrite <- Hpre', IH; [| done | |].
    + f_equal. solve_length.
    + rewrite <- Hlen, encode_cons. solve_length.
    + rewrite Hpre'. lia.
Qed.

Lemma get_option_encode its : ∀ fuel code pre rest,
  Forall item_ok its → code ≠ DHCP_OPT_PAD →
  length (pre ++ encode its ++ DHCP_OPT_END :: rest) = OPTIONS_LEN →
  (OPTIONS_LEN - length pre < fuel)%nat →
  get_option_loop fuel (pre ++ encode its ++ DHCP_OPT_END :: rest) code (length pre)
  = Ret (find_item code (length pre) its).
Proof.
  induction its as [|[|c d] its IH]; intros [|fuel] code pre rest Hok Hcode Hlen Hf;
    try (rewrite !length_app in Hlen; simpl in *; lia).
  all: assert (length pre < OPTIONS_LEN)%nat by (rewrite !length_app in Hlen; simpl in *; lia).
  all: cbn [get_option_loop].
  - simpl. by rewrite deref_app_0.
  - rewrite encode_cons. cbn [enc_item app]. rewrite deref_app_0, bind_Ret.
    rewrite bool_decide_true by done. cbn [negb andb Z.eqb].
    rewrite (proj2 (Z.eqb_neq _ code)) by done. cbn [find_item].
    replace (pre ++ DHCP_OPT_PAD :: encode its ++ DHCP_OPT_END :: rest)
      with ((pre ++ [DHCP_OPT_PAD]) ++ encode its ++ DHCP_OPT_END :: rest)
      by (by rewrite <- app_assoc).
    replace (length pre + 1)%nat with (length (pre ++ [DHCP_OPT_PAD])) by solve_length.
    apply IH; [by inversion Hok | done | rewrite <- Hlen; solve_length | solve_length].
  - apply Forall_cons in Hok as [[Hc Hd] Hok'].
    rewrite encode_cons. cbn [enc_item app find_item].
    rewrite deref_app_0, bind_Ret, bool_decide_true by done.
    rewrite (proj2 (Z.eqb_neq c DHCP_OPT_END)), (proj2 (Z.eqb_neq c DHCP_OPT_PAD)) by lia.
    cbn [negb andb].
    rewrite deref_app. cbn [deref lookup list_lookup]. rewrite !bind_Ret, Nat2Z.id.
    destruct (c =? code); [done|].
    set (pre' := pre ++ c :: Z.of_nat (length d) :: d).
    replace (pre ++ c :: Z.of_nat (length d) :: (d ++ encode its) ++ DHCP_OPT_END :: rest)
      with (pre' ++ encode its ++ DHCP_OPT_END :: rest)
      by (unfold pre'; by rewrite <- !app_assoc).
    assert (Hpre' : length pre' = (length pre + 2 + length d)%nat)
      by (unfold pre'; solve_length).
    rewrite <- Hpre'.
    apply IH; [done | done | rewrite <- Hlen, encode_cons; solve_length | solve_length].
Qed.

(** Where [find_item] points, the field holds the option's data. *)
Lemma find_item_data its : ∀ code pre rest o l,
  find_item code (length pre) its = Some (o, l) →
  ∃ d, item_data code its = Some d ∧ l = Z.of_nat (length d) ∧
    load_n (pre ++ encode its ++ rest) o (length d) = Ret d.
Proof.
  induction its as [|[|c d] its IH]; intros code pre rest o l Hf; [done| |].
  - cbn [find_item item_data] in *.
    replace (length pre + 1)%nat with (length (pre ++ [DHCP_OPT_PAD])) in Hf by solve_length.
    destruct (IH _ _ rest _ _ Hf) as (d & ? & ? & Hl). exists d.
    by rewrite <- app_assoc in Hl.
  - cbn [find_item item_data] in *. destruct (c =? code).
    + simplify_eq. exists d. split_and!; [done..|].
      rewrite load_n_le by (rewrite encode_cons; solve_length). f_equal.
      rewrite encode_cons. cbn [enc_item app]. rewrite app_cons_2.
      rewrite drop_app_length' by solve_length.
      by rewrite <- app_assoc, take_app_length.
    + set (pre' := pre ++ c :: Z.of_nat (length d) :: d).
      assert (Hpre' : length pre' = (length pre + 2 + length d)%nat)
        by (unfold pre'; solve_length).
      rewrite <- Hpre' in Hf. destruct (IH _ _ rest _ _ Hf) as (d' & ? & ? & Hl).
      exists d'. split_and!; [done..|]. rewrite <- Hl. f_equal. unfold pre'.
      by rewrite encode_cons, <- !app_assoc.
Qed.

Lemma find_item_None code its : ∀ off, find_item code off its = None ↔ item_data code its = None.
Proof. induction its as [|[|c d] its IH]; intros off; cbn; [done | done |]. by destruct (c =? code). Qed.

(** *** Reading an option *)

Lemma get_option_represents opts its code :
  represents opts its → code ≠ DHCP_OPT_PAD →
  get_option opts code = Ret (find_item code 0 its).
Proof.
  intros (Hlen & Hok & rest & ->) Hcode.
  apply (get_option_encode its scan_fuel code [] rest); unfold scan_fuel; auto with lia.
Qed.

Lemma represents_load opts its code o l :
  represents opts its → find_item code 0 its = Some (o, l) →
  ∃ d, item_data code its = Some d ∧ l = Z.of_nat (length d) ∧
    load_n opts o (length d) = Ret d.
Proof.
  intros (Hlen & Hok & rest & ->) Hf.
  by apply (find_item_data its code [] (DHCP_OPT_END :: rest)).
Qed.

(** A message type option is read back. *)
Lemma get_message_type_represents msg its t d :
  represents (m_options msg) its →
  item_data DHCP_OPT_MESSAGE_TYPE its = Some (t :: d) →
  dhcp_get_message_type msg = Ret t.
Proof.
  intros Hr Hd. unfold dhcp_get_message_type, dhcp_get_option.
  rewrite (get_option_represents _ _ _ Hr) by done. rewrite bind_Ret.
  destruct (find_item _ 0 its) as [[o l]|] eqn:Hf.
  2:{ apply find_item_None in Hf. congruence. }
  destruct (represents_load _ _ _ _ _ Hr Hf) as (d' & Hd' & -> & Hl). simplify_eq.
  rewrite (proj2 (Z.leb_le _ _)) by solve_length.
  unfold load_n in Hl. case_decide; [|done]. injection Hl as Hl.
  apply deref_lookup. rewrite <- (Nat.add_0_r o), <- lookup_drop.
  rewrite <- (lookup_take_lt _ (S (length d))) by lia. by rewrite Hl.
Qed.

(** *** The loops terminate on every 308-byte field *)

Lemma find_end_terminates opts : ∀ fuel ptr,
  (OPTIONS_LEN - ptr < fuel)%nat → find_end fuel opts ptr ≠ Diverge.
Proof.
  induction fuel as [|fuel IH]; intros ptr Hf; [lia|]. cbn [find_end].
  case_decide; [|done].
  destruct (deref_cases opts ptr) as [-> | (c & _ & ->)]; [done | rewrite bind_Ret].
  destruct (c =? DHCP_OPT_END); [done|]. destruct (c =? DHCP_OPT_PAD); [apply IH; lia|].
  destruct (deref_cases opts (ptr + 1)) as [-> | (l & _ & ->)]; [done|].
  rewrite bind_Ret. apply IH. lia.
Qed.

Lemma get_option_loop_terminates opts code : ∀ fuel ptr,
  length opts = OPTIONS_LEN → (OPTIONS_LEN - ptr < fuel)%nat →
  get_option_loop fuel opts code ptr ≠ Diverge.
Proof.
  induction fuel as [|fuel IH]; intros ptr Hlen Hf; [lia|]. cbn [get_option_loop].
  destruct (deref_cases opts ptr) as [-> | (c & Hc & ->)]; [done | rewrite bind_Ret].
  apply lookup_lt_Some in Hc.
  destruct (_ && _); [|done].
  destruct (deref_cases opts (ptr + 1)) as [-> | (l & _ & ->)].
  all: destruct (c =? code); [done|].
  all: destruct (c =? DHCP_OPT_PAD); [apply IH; lia|].
  - done.
  - rewrite bind_Ret. apply IH; lia.
Qed.

(** A search that answers "absent" has walked a well-formed field to its END. *)
Lemma get_option_loop_None_inv opts code : ∀ fuel ptr,
  length opts = OPTIONS_LEN → Forall byte opts →
  get_option_loop fuel opts code ptr = Ret None →
  ∃ its rest, drop ptr opts = encode its ++ DHCP_OPT_END :: rest ∧
    Forall item_ok its ∧ item_data code its = None.
Proof.
  induction fuel as [|fuel IH]; intros ptr Hlen Hb Hg; [done|]. cbn [get_option_loop] in Hg.
  apply bind_Ret_inv in Hg as (c & Hc & Hg). apply deref_Ret in Hc.
  pose proof (lookup_lt_Some _ _ _ Hc) as Hlt.
  assert (Hcb : byte c) by (eapply Forall_lookup_1; eauto).
  rewrite bool_decide_true, andb_true_r in Hg by lia.
  destruct (c =? DHCP_OPT_END) eqn:Hend.
  { exists [], (drop (S ptr) opts). split_and!; [|done..].
    apply Z.eqb_eq in Hend as <-. by apply drop_S. }
  cbn [negb] in Hg. destruct (c =? code) eqn:Hcc.
  { by apply bind_Ret_inv in Hg as (? & ? & ?). }
  destruct (c =? DHCP_OPT_PAD) eqn:Hpad.
  - apply IH in Hg as (its & rest & Hd & Hok & Hn); [|done..].
    exists (Pad :: its), rest. split_and!; [|by constructor|done].
    apply Z.eqb_eq in Hpad. rewrite (drop_S _ c) by done. subst c.
    rewrite Nat.add_1_r in Hd. by rewrite Hd.
  - apply bind_Ret_inv in Hg as (l & Hl & Hg). apply deref_Ret in Hl.
    assert (Hlb : byte l) by (eapply Forall_lookup_1; eauto).
    apply IH in Hg as (its & rest & Hd & Hok & Hn); [|done..].
    assert (Hlt' : (ptr + 2 + Z.to_nat l < length opts)%nat).
    { apply (f_equal length) in Hd. rewrite length_drop, length_app in Hd. simpl in Hd. lia. }
    set (d := take (Z.to_nat l) (drop (ptr + 2) opts)).
    assert (Hdl : length d = Z.to_nat l) by (unfold d; rewrite length_take, length_drop; lia).
    exists (Opt c d :: its), rest. unfold uword in *.
    split_and!; [| constructor; [|done] | cbn; by rewrite Hcc].
    + rewrite encode_cons, (drop_S _ c) by done. cbn [enc_item app]. f_equal.
      rewrite Nat.add_1_r in Hl. rewrite (drop_S _ l) by done. f_equal; [lia|].
      rewrite <- app_assoc, <- Hd.
      rewrite <- (take_drop (Z.to_nat l) (drop (S (S ptr)) opts)) at 1.
      rewrite drop_drop. unfold d. f_equal; f_equal; [f_equal; lia | lia].
    + cbn. rewrite Hdl. split; [|lia]. apply Z.eqb_neq in Hend, Hpad.
      unfold DHCP_OPT_END, DHCP_OPT_PAD in *. lia.
Qed.

(** *** Adding an option *)

Lemma represents_intro its rest :
  Forall item_ok its → length (encode its ++ DHCP_OPT_END :: rest) = OPTIONS_LEN →
  represents (encode its ++ DHCP_OPT_END :: rest) its.
Proof. intros. split_and!; [done..|by eexists]. Qed.

(** A field that does not start with PAD is left alone by the END marking. *)
Lemma mark_end_represents opts its :
  represents opts its → no_leading_pad its → mark_end opts = Ret opts.
Proof.
  intros (Hlen & Hok & rest & ->) Hp. destruct its as [|[|c d] its]; [done..|].
  apply Forall_cons in Hok as [[Hc _] _]. unfold mark_end.
  rewrite encode_cons. cbn [enc_item app deref lookup list_lookup]. rewrite bind_Ret.
  by rewrite (proj2 (Z.eqb_neq c 0)) by (unfold DHCP_OPT_PAD in *; lia).
Qed.

Lemma find_end_represents opts its :
  represents opts its → find_end scan_fuel opts 0 = Ret (length (encode its)).
Proof.
  intros (Hlen & Hok & rest & ->).
  apply (find_end_encode its scan_fuel [] rest); unfold scan_fuel; auto with lia.
Qed.

(** What the writes at the end of the field do. *)
Lemma append_represents its rest c d :
  represents (encode its ++ DHCP_OPT_END :: rest) its →
  item_ok (Opt c d) →
  (length (encode its) + 2 + length d + 1 ≤ OPTIONS_LEN)%nat →
  let ptr := length (encode its) in
  let o := list_inserts (ptr + 2) d
             (<[(ptr + 1)%nat := Z.of_nat (length d)]> (<[ptr := c]> (encode its ++ DHCP_OPT_END :: rest))) in
  represents (<[(ptr + 2 + length d)%nat := DHCP_OPT_END]> o) (its ++ [Opt c d]).
Proof.
  intros (Hlen & Hok & _) Hi Hfit. cbn zeta.
  rewrite insert_app_cons.
  assert (Hr : ∃ y r1 z r2, rest = y :: r1 ++ z :: r2 ∧ length r1 = length d).
  { destruct rest as [|y r]; [solve_length|].
    destruct (drop (length d) r) as [|z r2] eqn:Hz.
    { apply (f_equal length) in Hz. solve_length. }
    exists y, (take (length d) r), z, r2. split.
    - by rewrite <- Hz, take_drop.
    - apply (f_equal length) in Hz. solve_length. }
  destruct Hr as (y & r1 & z & r2 & -> & Hr1).
  replace (encode its ++ c :: y :: r1 ++ z :: r2)
    with ((encode its ++ [c]) ++ y :: r1 ++ z :: r2) by (by rewrite <- app_assoc).
  replace (length (encode its) + 1)%nat with (length (encode its ++ [c])) by solve_length.
  rewrite insert_app_cons.
  replace ((encode its ++ [c]) ++ Z.of_nat (length d) :: r1 ++ z :: r2)
    with ((encode its ++ [c; Z.of_nat (length d)]) ++ r1 ++ z :: r2) by (by rewrite <- !app_assoc).
  replace (length (encode its) + 2)%nat
    with (length (encode its ++ [c; Z.of_nat (length d)])) by solve_length.
  rewrite list_inserts_app by done.
  assert (He : (encode its ++ [c; Z.of_nat (length d)]) ++ d = encode (its ++ [Opt c d]))
    by (rewrite encode_snoc, <- app_assoc; done).
  rewrite app_assoc, He.
  replace (length (encode its ++ [c; Z.of_nat (length d)]) + length d)%nat
    with (length (encode (its ++ [Opt c d]))) by (rewrite <- He; solve_length).
  rewrite insert_app_cons. apply represents_intro.
  - apply Forall_app. split; [done | by constructor].
  - rewrite <- He, <- Hlen. solve_length.
Qed.

Lemma add_option_represents opts its c d :
  represents opts its → no_leading_pad its → item_ok (Opt c d) →
  (length (encode its) + 2 + length d + 1 ≤ OPTIONS_LEN)%nat →
  ∃ opts', add_option opts c (Z.of_nat (length d)) (Some d) = Ret opts' ∧
    represents opts' (its ++ [Opt c d]).
Proof.
  intros Hr Hp Hi Hfit. pose proof Hr as (Hlen & Hok & rest & Hopts).
  unfold add_option. rewrite (mark_end_represents _ _ Hr Hp), bind_Ret.
  rewrite (find_end_represents _ _ Hr), bind_Ret, Nat2Z.id, decide_True by done.
  rewrite store_lt by lia. rewrite bind_Ret.
  rewrite store_lt by solve_length. rewrite bind_Ret.
  set (w := <[_ := Z.of_nat (length d)]> _).
  assert (Hw : length w = OPTIONS_LEN) by (unfold w; solve_length).
  assert (Hd : (if 0 <? Z.of_nat (length d)
                then src ← load_n d 0 (length d); store_n w (length (encode its) + 2) src
                else Ret w) = Ret (list_inserts (length (encode its) + 2) d w)).
  { destruct d as [|x d]; [done|].
    rewrite (proj2 (Z.ltb_lt _ _)) by (simpl; lia).
    rewrite load_n_le by done. rewrite bind_Ret, drop_0, firstn_all.
    by rewrite store_n_le by solve_length. }
  rewrite Hd, bind_Ret. cbn zeta. rewrite decide_True by lia.
  rewrite store_lt by solve_length. eexists. split; [done|]. subst w opts.
  by apply append_represents.
Qed.

(** An option that does not fit is dropped without touching the field. *)
Lemma add_option_full opts its c d :
  represents opts its → no_leading_pad its →
  (OPTIONS_LEN < length (encode its) + 2 + length d + 1)%nat →
  add_option opts c (Z.of_nat (length d)) (Some d) = Ret opts.
Proof.
  intros Hr Hp Hfit. unfold add_option.
  rewrite (mark_end_represents _ _ Hr Hp), bind_Ret, (find_end_represents _ _ Hr), bind_Ret.
  by rewrite Nat2Z.id, decide_False by lia.
Qed.

(** A zeroed field is the empty field after the END marking. *)
Lemma add_option_zero c d :
  item_ok (Opt c d) →
  ∃ opts', add_option (replicate OPTIONS_LEN 0) c (Z.of_nat (length d)) (Some d) = Ret opts' ∧
    represents opts' [Opt c d].
Proof.
  intros Hi.
  assert (Hr : represents (DHCP_OPT_END :: replicate 307 0) []).
  { apply (represents_intro []); done. }
  destruct (add_option_represents _ [] c d Hr) as (opts' & Ha & Hr'); [done..| |].
  { destruct Hi as [_ Hd]. change OPTIONS_LEN with 308%nat. simpl. lia. }
  exists opts'. split; [|done]. rewrite <- Ha. done.
Qed.

(** ** Properties of the option functions *)

Lemma find_item_snoc code c d its : ∀ off,
  find_item code off (its ++ [Opt c d]) =
  match find_item code off its with
  | Some r => Some r
  | None => if c =? code then Some ((off + length (encode its) + 2)%nat, Z.of_nat (length d)) else None
  end.
Proof.
  induction its as [|[|c' d'] its IH]; intros off; cbn [app find_item].
  - by rewrite Nat.add_0_r.
  - rewrite IH. destruct (find_item _ _ _); [done|]. rewrite encode_cons.
    destruct (c =? code); [|done]. do 2 f_equal. solve_length.
  - destruct (c' =? code); [done|]. rewrite IH. destruct (find_item _ _ _); [done|].
    rewrite encode_cons. destruct (c =? code); [|done]. do 2 f_equal. solve_length.
Qed.

Lemma item_data_snoc code c d its :
  item_data code (its ++ [Opt c d]) =
  match item_data code its with Some r => Some r | None => if c =? code then Some d else None end.
Proof. induction its as [|[|c' d'] its IH]; cbn; [done | done |]. by destruct (c' =? code). Qed.

Lemma dhcp_add_option_represents msg its c d :
  represents (m_options msg) its → no_leading_pad its → item_ok (Opt c d) →
  (length (encode its) + 2 + length d + 1 ≤ OPTIONS_LEN)%nat →
  ∃ opts', dhcp_add_option msg c (Z.of_nat (length d)) (Some d) = Ret (set_options msg opts') ∧
    represents opts' (its ++ [Opt c d]).
Proof.
  intros Hr Hp Hi Hfit. unfold dhcp_add_option.
  destruct (add_option_represents _ _ _ _ Hr Hp Hi Hfit) as (opts' & -> & Hr').
  by exists opts'.
Qed.

(** C36: Looking an option other than PAD up in any well-formed field returns the offset and the
    length of the first option with that code, the bytes at that offset are its
    data, and null is returned when no such option is present; no byte outside
    the field is read. *)
Theorem dhcp_get_option_correct (msg : dhcp_message_t) (its : list item) (code : Z) :
  represents (m_options msg) its → code ≠ DHCP_OPT_PAD →
  match item_data code its with
  | Some d => ∃ o, dhcp_get_option msg code = Ret (Some (o, Z.of_nat (length d))) ∧
                load_n (m_options msg) o (length d) = Ret d
  | None => dhcp_get_option msg code = Ret None
  end.
Proof.
  intros Hr Hc. unfold dhcp_get_option. rewrite (get_option_represents _ _ _ Hr Hc).
  destruct (find_item code 0 its) as [[o l]|] eqn:Hf.
  - destruct (represents_load _ _ _ _ _ Hr Hf) as (d & -> & -> & ?). by exists o.
  - apply find_item_None in Hf. by rewrite Hf.
Qed.

Definition sample_opts : list Z := [53; 1; 3; 50; 4; 192; 168; 4; 101; 255] ++ replicate 298 0.
Definition sample_msg : dhcp_message_t := set_options zero_msg sample_opts.
Definition sample_items : list item := [Opt 53 [3]; Opt 50 [192; 168; 4; 101]].

Lemma sample_represents : represents (m_options sample_msg) sample_items.
Proof.
  apply (represents_intro sample_items (replicate 298 0)); [|done].
  unfold sample_items. repeat constructor; simpl; lia.
Qed.

Lemma dhcp_get_option_correct_witness :
  ∃ o, dhcp_get_option sample_msg 50 = Ret (Some (o, 4)) ∧
       load_n (m_options sample_msg) o 4 = Ret [192; 168; 4; 101].
Proof.
  exact (dhcp_get_option_correct sample_msg sample_items 50 sample_represents ltac:(done)).
Defined.

(** C37: Adding an option to a well-formed field that has room for it, no
    option with that code and no PAD as its first byte (such a field is taken for a
    fresh one and cut off) appends it: afterwards the added code reads back with
    exactly the added data, and every other code reads back as before. *)
Theorem dhcp_add_option_get (msg : dhcp_message_t) (its : list item) (c : Z) (d : list Z) :
  represents (m_options msg) its → no_leading_pad its → item_ok (Opt c d) →
  item_data c its = None →
  (length (encode its) + 2 + length d + 1 ≤ OPTIONS_LEN)%nat →
  ∃ msg', dhcp_add_option msg c (Z.of_nat (length d)) (Some d) = Ret msg' ∧
    represents (m_options msg') (its ++ [Opt c d]) ∧
    (∃ o, dhcp_get_option msg' c = Ret (Some (o, Z.of_nat (length d))) ∧
          load_n (m_options msg') o (length d) = Ret d) ∧
    (∀ code, code ≠ DHCP_OPT_PAD → code ≠ c →
          dhcp_get_option msg' code = dhcp_get_option msg code).
Proof.
  intros Hr Hp Hi Hn Hfit.
  destruct (dhcp_add_option_represents _ _ _ _ Hr Hp Hi Hfit) as (opts' & Ha & Hr').
  exists (set_options msg opts'). split_and!; [done|done| |].
  - assert (Hc : c ≠ DHCP_OPT_PAD) by (destruct Hi; lia).
    apply (find_item_None c its 0%nat) in Hn.
    assert (Hf : find_item c 0 (its ++ [Opt c d])
                 = Some ((length (encode its) + 2)%nat, Z.of_nat (length d)))
      by (by rewrite find_item_snoc, Hn, Z.eqb_refl).
    exists (length (encode its) + 2)%nat. unfold dhcp_get_option. cbn [m_options set_options].
    rewrite (get_option_represents _ _ _ Hr' Hc), Hf. split; [done|].
    destruct (represents_load _ _ _ _ _ Hr' Hf) as (d' & Hd' & Hd & Hl).
    rewrite (Nat2Z.inj _ _ Hd), Hl. f_equal. rewrite item_data_snoc, Z.eqb_refl in Hd'.
    rewrite (proj1 (find_item_None _ _ _) Hn) in Hd'. by simplify_eq.
  - intros code Hcode Hne. unfold dhcp_get_option. cbn [m_options set_options].
    rewrite (get_option_represents _ _ _ Hr' Hcode), (get_option_represents _ _ _ Hr Hcode).
    rewrite find_item_snoc, (proj2 (Z.eqb_neq c code)) by done. by destruct (find_item _ _ _).
Qed.

Lemma dhcp_add_option_get_witness :
  ∃ msg', dhcp_add_option sample_msg 51 4 (Some [0; 0; 14; 16]) = Ret msg' ∧
    represents (m_options msg') (sample_items ++ [Opt 51 [0; 0; 14; 16]]) ∧
    (∃ o, dhcp_get_option msg' 51 = Ret (Some (o, 4)) ∧
          load_n (m_options msg') o 4 = Ret [0; 0; 14; 16]) ∧
    (∀ code, code ≠ DHCP_OPT_PAD → code ≠ 51 →
          dhcp_get_option msg' code = dhcp_get_option sample_msg code).
Proof.
  apply (dhcp_add_option_get sample_msg sample_items 51 [0; 0; 14; 16] sample_represents).
  - exact I.
  - cbn. unfold DHCP_OPT_PAD, DHCP_OPT_END. lia.
  - reflexivity.
  - vm_compute. lia.
Defined.

(** The option scan answers "absent" exactly for the fields that are a
    well-formed sequence of options closed by END within the 308 bytes and lack
    the code: on every other field the scan finds the code or reads past the
    field. *)
Theorem dhcp_get_option_absent_iff (msg : dhcp_message_t) (code : Z) :
  length (m_options msg) = OPTIONS_LEN → Forall byte (m_options msg) → code ≠ DHCP_OPT_PAD →
  dhcp_get_option msg code = Ret None ↔
  ∃ its, represents (m_options msg) its ∧ item_data code its = None.
Proof.
  intros Hlen Hb Hc. unfold dhcp_get_option, get_option. split.
  - intros Hg. destruct (get_option_loop_None_inv _ _ _ _ Hlen Hb Hg) as (its & rest & Hd & Hok & Hn).
    exists its. split; [|done]. split_and!; [done..|]. by exists rest.
  - intros (its & Hr & Hn). unfold get_option in *.
    pose proof (get_option_represents _ _ _ Hr Hc) as Hg. unfold get_option in Hg. rewrite Hg.
    f_equal. by apply find_item_None.
Qed.

Lemma dhcp_get_option_absent_iff_witness :
  dhcp_get_option sample_msg 51 = Ret None ↔
  ∃ its, represents (m_options sample_msg) its ∧ item_data 51 its = None.
Proof.
  apply (dhcp_get_option_absent_iff sample_msg 51); [done| |done].
  apply Forall_forall. intros x Hx%list_elem_of_In. vm_compute in Hx. unfold uword. lia.
Defined.

(** On every 308-byte options field, whatever its bytes, the scans of
    [dhcp_get_option] and [dhcp_add_option] stop within 308 iterations. *)
Theorem option_scans_terminate (msg : dhcp_message_t) (code : Z) :
  length (m_options msg) = OPTIONS_LEN →
  dhcp_get_option msg code ≠ Diverge ∧ find_end scan_fuel (m_options msg) 0 ≠ Diverge.
Proof.
  intros Hlen. split.
  - apply get_option_loop_terminates; [done | unfold scan_fuel; lia].
  - apply find_end_terminates. unfold scan_fuel. lia.
Qed.

Lemma option_scans_terminate_witness :
  length (m_options sample_msg) = OPTIONS_LEN ∧
  dhcp_get_option sample_msg 51 ≠ Diverge ∧ find_end scan_fuel (m_options sample_msg) 0 ≠ Diverge.
Proof.
  split; [reflexivity|]. apply (option_scans_terminate sample_msg 51). reflexivity.
Defined.

(** The loop condition of [dhcp_get_option] reads [*ptr] before it compares
    [ptr] with the end of the field, so a message whose options are all PAD (a
    request with no options at all) makes the scan read one byte past the
    field. *)
Theorem dhcp_get_option_reads_past_end : dhcp_get_message_type zero_msg = Ub.
Proof. vm_compute. reflexivity. Qed.
