(* ===== verification/Message.v ===== *)
(** * Building DHCP replies

    [dhcp_config_t] of [dhcp-lib/dhcp_server.h] and [dhcp_build_offer],
    [dhcp_build_ack], [dhcp_build_nak] of [dhcp-lib/dhcp_server.c].  A builder
    zeroes its output message first, so it is a function of the request, the
    configuration and the address. *)
From S2P Require Import Prelude Options.

Open Scope Z_scope.

Record dhcp_config_t := mkConfig {
  server_ip : Z;
  subnet_mask : Z;
  gateway_ip : Z;
  dns_ip : Z;
  pool_start : Z;
  pool_end : Z;
  lease_time : Z
}.

(** The four bytes of a lease time, computed in place by the builders. *)
Definition lease_bytes (t : Z) : list Z :=
  [Z.land (t ≫ 24) 255; Z.land (t ≫ 16) 255; Z.land (t ≫ 8) 255; Z.land t 255].

(** The five configuration options every OFFER and ACK carries, in order. *)
Definition add_config_options (cfg : dhcp_config_t) (msg : dhcp_message_t)
    : outcome dhcp_message_t :=
  msg ← dhcp_add_option msg DHCP_OPT_SERVER_ID 4 (Some (uint32_to_ip (server_ip cfg)));
  msg ← dhcp_add_option msg DHCP_OPT_SUBNET_MASK 4 (Some (uint32_to_ip (subnet_mask cfg)));
  msg ← dhcp_add_option msg DHCP_OPT_ROUTER 4 (Some (uint32_to_ip (gateway_ip cfg)));
  msg ← dhcp_add_option msg DHCP_OPT_DNS_SERVER 4 (Some (uint32_to_ip (dns_ip cfg)));
  dhcp_add_option msg DHCP_OPT_LEASE_TIME 4 (Some (lease_bytes (lease_time cfg))).

Definition dhcp_build_offer (cfg : dhcp_config_t) (request : dhcp_message_t) (offered_ip : Z)
    : outcome dhcp_message_t :=
  let offer := zero_msg in
  let offer := mkMsg 2 (m_htype request) (m_hlen request) 0 (m_xid request) 0
    (m_flags request) 0 offered_ip (server_ip cfg) (m_giaddr request)
    (take 16 (m_chaddr request)) (m_sname offer) (m_file offer)
    DHCP_MAGIC_COOKIE (m_options offer) in
  offer ← dhcp_set_message_type offer DHCP_OFFER;
  add_config_options cfg offer.

Definition dhcp_build_ack (cfg : dhcp_config_t) (request : dhcp_message_t) (assigned_ip : Z)
    : outcome dhcp_message_t :=
  let ack := zero_msg in
  let ack := mkMsg 2 (m_htype request) (m_hlen request) 0 (m_xid request) 0
    (m_flags request) (m_ciaddr request) assigned_ip (server_ip cfg) (m_giaddr request)
    (take 16 (m_chaddr request)) (m_sname ack) (m_file ack)
    DHCP_MAGIC_COOKIE (m_options ack) in
  ack ← dhcp_set_message_type ack DHCP_ACK;
  add_config_options cfg ack.

Definition dhcp_build_nak (request : dhcp_message_t) : outcome dhcp_message_t :=
  let nak := zero_msg in
  let options := replicate OPTIONS_LEN 0 in
  options ← store options 0 DHCP_OPT_MESSAGE_TYPE;
  options ← store options 1 1;
  options ← store options 2 DHCP_NAK;
  options ← store options 3 DHCP_OPT_END;
  Ret (mkMsg 2 (m_htype request) (m_hlen request) 0 (m_xid request) 0
    (m_flags request) 0 0 0 (m_giaddr request)
    (take 16 (m_chaddr request)) (m_sname nak) (m_file nak)
    DHCP_MAGIC_COOKIE options).

(** ** What a reply is

    [reply_to request m]: [m] is a BOOTREPLY that answers [request]. *)
Definition reply_to (request m : dhcp_message_t) : Prop :=
  m_op m = 2 ∧ m_htype m = m_htype request ∧ m_hlen m = m_hlen request ∧
  m_xid m = m_xid request ∧ m_flags m = m_flags request ∧
  m_giaddr m = m_giaddr request ∧ m_chaddr m = take 16 (m_chaddr request) ∧
  m_magic_cookie m = DHCP_MAGIC_COOKIE.

(** The options of an OFFER or ACK, in order. *)
Definition config_items (type : Z) (cfg : dhcp_config_t) : list item :=
  [Opt DHCP_OPT_MESSAGE_TYPE [type];
   Opt DHCP_OPT_SERVER_ID (uint32_to_ip (server_ip cfg));
   Opt DHCP_OPT_SUBNET_MASK (uint32_to_ip (subnet_mask cfg));
   Opt DHCP_OPT_ROUTER (uint32_to_ip (gateway_ip cfg));
   Opt DHCP_OPT_DNS_SERVER (uint32_to_ip (dns_ip cfg));
   Opt DHCP_OPT_LEASE_TIME (lease_bytes (lease_time cfg))].

(** ** Lemmas *)

Ltac item_ok_tac := split; [split; reflexivity | vm_compute; lia].

(** One [dhcp_add_option] of four bytes, as it occurs in the builders. *)
Lemma add_option_4 msg its c a1 a2 a3 a4 :
  represents (m_options msg) its → no_leading_pad its → item_ok (Opt c [a1; a2; a3; a4]) →
  (length (encode its) + 7 ≤ OPTIONS_LEN)%nat →
  ∃ opts', dhcp_add_option msg c 4 (Some [a1; a2; a3; a4]) = Ret (set_options msg opts') ∧
    represents opts' (its ++ [Opt c [a1; a2; a3; a4]]).
Proof.
  intros Hr Hp Hi Hfit.
  apply (dhcp_add_option_represents msg its c [a1; a2; a3; a4]); [done..|]. simpl. lia.
Qed.

Lemma set_message_type_zero msg t :
  m_options msg = replicate OPTIONS_LEN 0 →
  ∃ opts', dhcp_set_message_type msg t = Ret (set_options msg opts') ∧
    represents opts' [Opt DHCP_OPT_MESSAGE_TYPE [t]].
Proof.
  intros Hz. unfold dhcp_set_message_type, dhcp_add_option. rewrite Hz.
  destruct (add_option_zero DHCP_OPT_MESSAGE_TYPE [t]) as (opts' & Ha & Hr); [item_ok_tac|].
  change (Z.of_nat (length [t])) with 1 in Ha. rewrite Ha. by exists opts'.
Qed.

Lemma set_options_twice msg o1 o2 : set_options (set_options msg o1) o2 = set_options msg o2.
Proof. done. Qed.

(** Apply [add_option_4] to the next call of a builder. *)
Ltac step_add Hr :=
  match type of Hr with
  | represents ?o ?its =>
      match goal with
      | |- context [dhcp_add_option ?m ?c 4 (Some [?a1; ?a2; ?a3; ?a4])] =>
          let o' := fresh "o" in let Ha := fresh "Ha" in let Hr' := fresh "Hr" in
          destruct (add_option_4 m its c a1 a2 a3 a4) as (o' & Ha & Hr');
          [exact Hr | exact I | item_ok_tac | vm_compute; lia |];
          rewrite Ha; clear Ha; rewrite ?bind_Ret, ?set_options_twice; clear Hr; rename Hr' into Hr
      end
  end.

Lemma add_config_options_spec cfg msg t :
  represents (m_options msg) [Opt DHCP_OPT_MESSAGE_TYPE [t]] →
  ∃ opts, add_config_options cfg msg = Ret (set_options msg opts) ∧
    represents opts (config_items t cfg).
Proof.
  intros Hr. unfold add_config_options, uint32_to_ip, lease_bytes.
  step_add Hr. cbn [app] in Hr. step_add Hr. cbn [app] in Hr. step_add Hr. cbn [app] in Hr.
  step_add Hr. cbn [app] in Hr. step_add Hr. cbn [app] in Hr.
  eexists. split; [done|]. exact Hr.
Qed.

Lemma build_with_options cfg msg t :
  m_options msg = replicate OPTIONS_LEN 0 →
  ∃ opts, (m ← dhcp_set_message_type msg t; add_config_options cfg m) = Ret (set_options msg opts) ∧
    represents opts (config_items t cfg).
Proof.
  intros Hz. destruct (set_message_type_zero msg t Hz) as (o & -> & Hr). rewrite bind_Ret.
  destruct (add_config_options_spec cfg (set_options msg o) t Hr) as (opts & -> & Hr').
  by exists opts.
Qed.

Lemma build_offer_spec cfg request ip :
  ∃ m, dhcp_build_offer cfg request ip = Ret m ∧ reply_to request m ∧
    m_yiaddr m = ip ∧ m_siaddr m = server_ip cfg ∧ m_ciaddr m = 0 ∧
    represents (m_options m) (config_items DHCP_OFFER cfg).
Proof.
  unfold dhcp_build_offer. cbv zeta.
  match goal with |- context [dhcp_set_message_type ?m _] => set (m0 := m) end.
  destruct (build_with_options cfg m0 DHCP_OFFER) as (opts & -> & Hr); [done|].
  exists (set_options m0 opts). unfold reply_to. split_and!; done.
Qed.

Lemma build_ack_spec cfg request ip :
  ∃ m, dhcp_build_ack cfg request ip = Ret m ∧ reply_to request m ∧
    m_yiaddr m = ip ∧ m_siaddr m = server_ip cfg ∧ m_ciaddr m = m_ciaddr request ∧
    represents (m_options m) (config_items DHCP_ACK cfg).
Proof.
  unfold dhcp_build_ack. cbv zeta.
  match goal with |- context [dhcp_set_message_type ?m _] => set (m0 := m) end.
  destruct (build_with_options cfg m0 DHCP_ACK) as (opts & -> & Hr); [done|].
  exists (set_options m0 opts). unfold reply_to. split_and!; done.
Qed.

Lemma build_nak_spec request :
  ∃ m, dhcp_build_nak request = Ret m ∧ reply_to request m ∧
    m_yiaddr m = 0 ∧ m_siaddr m = 0 ∧
    represents (m_options m) [Opt DHCP_OPT_MESSAGE_TYPE [DHCP_NAK]].
Proof.
  eexists. split; [reflexivity|]. unfold reply_to. split_and!; try done.
  apply (represents_intro [Opt DHCP_OPT_MESSAGE_TYPE [DHCP_NAK]] (replicate 304 0)); [|done].
  constructor; [item_ok_tac | done].
Qed.

(** ** Addresses and bytes *)

Lemma byte_land z : byte (Z.land z 255).
Proof. rewrite land_255. apply (Z.mod_pos_bound z 256). lia. Qed.

Lemma uint32_to_ip_bytes ip : Forall byte (uint32_to_ip ip).
Proof. unfold uint32_to_ip. repeat constructor; apply byte_land. Qed.

Lemma ip_to_uint32_sum a b c d :
  byte a → byte b → byte c → byte d →
  ip_to_uint32 a b c d = a * 2 ^ 24 + b * 2 ^ 16 + c * 2 ^ 8 + d.
Proof.
  unfold uword, ip_to_uint32. intros Ha Hb Hc Hd.
  rewrite (Z.shiftl_mul_pow2 b), (Z.shiftl_mul_pow2 c) by lia.
  rewrite (lor_shiftl_add a (b * 2 ^ 16) 24) by lia.
  replace (a * 2 ^ 24 + b * 2 ^ 16) with ((a * 2 ^ 8 + b) ≪ 16)
    by (rewrite Z.shiftl_mul_pow2 by lia; lia).
  rewrite lor_shiftl_add by lia.
  replace ((a * 2 ^ 8 + b) * 2 ^ 16 + c * 2 ^ 8) with (((a * 2 ^ 8 + b) * 2 ^ 8 + c) ≪ 8)
    by (rewrite Z.shiftl_mul_pow2 by lia; lia).
  rewrite lor_shiftl_add, Z.shiftl_mul_pow2 by lia. lia.
Qed.

Lemma land_shiftr_255 z n : 0 ≤ n → Z.land (z ≫ n) 255 = (z `div` 2 ^ n) `mod` 256.
Proof. intros. by rewrite land_255, Z.shiftr_div_pow2. Qed.

Definition ip_of_bytes (l : list Z) : Z :=
  match l with [a; b; c; d] => ip_to_uint32 a b c d | _ => 0 end.

Lemma ip_of_uint32_to_ip ip : is_u32 ip → ip_of_bytes (uint32_to_ip ip) = ip.
Proof.
  intros Hip. unfold uint32_to_ip, ip_of_bytes.
  rewrite ip_to_uint32_sum by apply byte_land.
  rewrite !land_shiftr_255, land_255 by lia. unfold uword in Hip.
  change (2 ^ 24) with 16777216. change (2 ^ 16) with 65536. change (2 ^ 8) with 256.
  change (2 ^ 32) with 4294967296 in Hip.
  Z.to_euclidean_division_equations; lia.
Qed.

Lemma uint32_to_ip_of_bytes a b c d :
  byte a → byte b → byte c → byte d → uint32_to_ip (ip_to_uint32 a b c d) = [a; b; c; d].
Proof.
  intros. rewrite ip_to_uint32_sum by done. unfold uint32_to_ip, uword in *.
  rewrite !land_shiftr_255, land_255 by lia.
  change (2 ^ 24) with 16777216. change (2 ^ 16) with 65536. change (2 ^ 8) with 256 in *.
  repeat f_equal; Z.to_euclidean_division_equations; lia.
Qed.

(** ** Properties *)

(** Reading a configuration option of a built reply back. *)
Definition carries (m : dhcp_message_t) (code : Z) (d : list Z) : Prop :=
  ∃ o, dhcp_get_option m code = Ret (Some (o, Z.of_nat (length d))) ∧
       load_n (m_options m) o (length d) = Ret d.

Lemma carries_items m its code d :
  represents (m_options m) its → code ≠ DHCP_OPT_PAD → item_data code its = Some d →
  carries m code d.
Proof.
  intros Hr Hc Hd. unfold carries, dhcp_get_option.
  rewrite (get_option_represents _ _ _ Hr Hc).
  destruct (find_item code 0 its) as [[o l]|] eqn:Hf.
  - destruct (represents_load _ _ _ _ _ Hr Hf) as (d' & Hd' & -> & Hl).
    rewrite Hd in Hd'. simplify_eq. by exists o.
  - apply find_item_None in Hf. congruence.
Qed.

Definition carries_config (m : dhcp_message_t) (cfg : dhcp_config_t) : Prop :=
  carries m DHCP_OPT_SERVER_ID (uint32_to_ip (server_ip cfg)) ∧
  carries m DHCP_OPT_SUBNET_MASK (uint32_to_ip (subnet_mask cfg)) ∧
  carries m DHCP_OPT_ROUTER (uint32_to_ip (gateway_ip cfg)) ∧
  carries m DHCP_OPT_DNS_SERVER (uint32_to_ip (dns_ip cfg)) ∧
  carries m DHCP_OPT_LEASE_TIME (uint32_to_ip (lease_time cfg)).

Lemma config_items_carried m t cfg :
  represents (m_options m) (config_items t cfg) →
  dhcp_get_message_type m = Ret t ∧ carries_config m cfg.
Proof.
  intros Hr. split.
  - by apply (get_message_type_represents _ _ t [] Hr).
  - split_and!; apply (carries_items _ _ _ _ Hr); done.
Qed.

(** The three builders always succeed and build BOOTREPLYs that answer the
    request (same transaction id, hardware address, flags and relay); the OFFER
    and the ACK carry the address, are read back by [dhcp_get_message_type] with
    their own type and by [dhcp_get_option] with the five configured values; the
    NAK carries no address. *)
Theorem dhcp_build_replies_correct (cfg : dhcp_config_t) (request : dhcp_message_t) (ip : Z) :
  (∃ m, dhcp_build_offer cfg request ip = Ret m ∧ reply_to request m ∧
     m_yiaddr m = ip ∧ m_siaddr m = server_ip cfg ∧ m_ciaddr m = 0 ∧
     dhcp_get_message_type m = Ret DHCP_OFFER ∧ carries_config m cfg) ∧
  (∃ m, dhcp_build_ack cfg request ip = Ret m ∧ reply_to request m ∧
     m_yiaddr m = ip ∧ m_siaddr m = server_ip cfg ∧ m_ciaddr m = m_ciaddr request ∧
     dhcp_get_message_type m = Ret DHCP_ACK ∧ carries_config m cfg) ∧
  (∃ m, dhcp_build_nak request = Ret m ∧ reply_to request m ∧
     m_yiaddr m = 0 ∧ m_siaddr m = 0 ∧ dhcp_get_message_type m = Ret DHCP_NAK).
Proof.
  split_and!.
  - destruct (build_offer_spec cfg request ip) as (m & ? & ? & ? & ? & ? & Hr).
    apply config_items_carried in Hr as [? ?]. exists m. split_and!; assumption.
  - destruct (build_ack_spec cfg request ip) as (m & ? & ? & ? & ? & ? & Hr).
    apply config_items_carried in Hr as [? ?]. exists m. split_and!; assumption.
  - destruct (build_nak_spec request) as (m & ? & ? & ? & ? & Hr).
    exists m. split_and!; [done..|]. by apply (get_message_type_represents _ _ _ [] Hr).
Qed.

(** [uint32_to_ip] and [ip_to_uint32] are inverse to each other: an address
    survives the way through its four bytes, and four bytes survive the way
    through an address. *)
Theorem ip_conversion_roundtrip :
  (∀ ip, is_u32 ip → ip_of_bytes (uint32_to_ip ip) = ip) ∧
  (∀ a b c d, byte a → byte b → byte c → byte d →
     uint32_to_ip (ip_to_uint32 a b c d) = [a; b; c; d]).
Proof. split; [exact ip_of_uint32_to_ip | exact uint32_to_ip_of_bytes]. Qed.
