(* ===== verification/LeaseStore.v ===== *)
(** * The contract between the server and a MAC-keyed lease pool

    The ARRAY and HASHMAP modes of [dhcp-lib] keep a lease per client.  This
    file states what the server relies on: a pool is a finite map from MAC
    addresses to (address, absolute expiry time), and its three operations act
    on that map.  [ArrayPool] and [HashPool] implement the contract; the
    server's theorems are proved from it. *)
From S2P Require Import Prelude.

Open Scope Z_scope.

(** The six bytes of an Ethernet address. *)
Definition is_mac (m : list Z) : Prop := length m = 6%nat ∧ Forall byte m.

#[export] Instance is_mac_dec m : Decision (is_mac m).
Proof. unfold is_mac. apply _. Defined.

Abbreviation lease_map := (gmap (list Z) (Z * Z)).

(** [held ip M]: some client has a lease on [ip]. *)
Definition held (ip : Z) (M : lease_map) : Prop :=
  ∃ m e, M !! m = Some (ip, e).

(** [M'] is [M] with only leases removed that had expired at time [now]. *)
Definition pruned (now : Z) (M M' : lease_map) : Prop :=
  M' ⊆ M ∧ ∀ m ip e, M !! m = Some (ip, e) → M' !! m = None → e ≤ now.

(** No address is leased to two clients. *)
Definition lease_inj (M : lease_map) : Prop :=
  ∀ m1 m2 ip e1 e2, M !! m1 = Some (ip, e1) → M !! m2 = Some (ip, e2) → m1 = m2.

Definition in_pool (s e : Z) (M : lease_map) : Prop :=
  ∀ m ip x, M !! m = Some (ip, x) → s ≤ ip ≤ e.

(** What granting [ip] to [mac] until [x] does to the leases [M]. *)
Definition grant (cap : nat) (ip : Z) (mac : list Z) (x : Z) (M : lease_map)
    (b : bool) (M' : lease_map) : Prop :=
  match M !! mac with
  | Some (ip0, _) => (ip0 = ip ∧ b = true ∧ M' = <[mac := (ip, x)]> M) ∨
                     (ip0 ≠ ip ∧ b = false ∧ M' = M)
  | None => (¬ held ip M ∧ (size M < cap)%nat ∧ b = true ∧ M' = <[mac := (ip, x)]> M) ∨
            ((held ip M ∨ (cap ≤ size M)%nat) ∧ b = false ∧ M' = M)
  end.

(** What may be offered to [mac] when the leases are [M]. *)
Definition offerable (cap : nat) (s e : Z) (mac : list Z) (M : lease_map) (ip : Z) : Prop :=
  match M !! mac with
  | Some (ip0, _) => ip = ip0
  | None => ((cap ≤ size M)%nat ∧ ip = 0) ∨
            ((size M < cap)%nat ∧
             ((s ≤ ip ≤ e ∧ ¬ held ip M) ∨ (ip = 0 ∧ ∀ x, s ≤ x ≤ e → held x M)))
  end.

Class LeaseStore (P : Type) := {
  ls_inv : Z → Z → P → Prop;
  ls_map : P → lease_map;
  ls_cap : P → nat;
  ls_find : P → Z → Z → list Z → Z → outcome (Z * P);
  ls_alloc : P → Z → list Z → Z → Z → outcome (bool * P);
  ls_decline : P → list Z → outcome P
}.

Class LeaseStoreLaws (P : Type) `{LeaseStore P} := {
  ls_inj s e p : ls_inv s e p → lease_inj (ls_map p);
  ls_in_pool s e p : ls_inv s e p → in_pool s e (ls_map p);
  ls_size s e p : ls_inv s e p → (size (ls_map p) ≤ ls_cap p)%nat;
  ls_find_law s e p mac now :
    ls_inv s e p → is_mac mac → is_u32 now →
    ∃ ip p', ls_find p s e mac now = Ret (ip, p') ∧ ls_inv s e p' ∧ ls_cap p' = ls_cap p ∧
      pruned now (ls_map p) (ls_map p') ∧
      offerable (ls_cap p) s e mac (ls_map p') ip;
  ls_alloc_law s e p ip mac lt now :
    ls_inv s e p → is_mac mac → s ≤ ip ≤ e → is_u32 now →
    ∃ b p' M, ls_alloc p ip mac lt now = Ret (b, p') ∧ ls_inv s e p' ∧ ls_cap p' = ls_cap p ∧
      pruned now (ls_map p) M ∧
      ((size (ls_map p) < ls_cap p)%nat → M = ls_map p) ∧
      grant (ls_cap p) ip mac (now ⊞ lt) M b (ls_map p');
  ls_decline_law s e p mac :
    ls_inv s e p → is_mac mac →
    ∃ p', ls_decline p mac = Ret p' ∧ ls_inv s e p' ∧ ls_cap p' = ls_cap p ∧
      ls_map p' = delete mac (ls_map p)
}.

(** ** Facts about lease maps *)

Lemma pruned_refl now M : pruned now M M.
Proof. split; [done | congruence]. Qed.

Lemma pruned_lookup now M M' m ip x :
  pruned now M M' → M' !! m = Some (ip, x) → M !! m = Some (ip, x).
Proof. intros [Hs _] Hm. by eapply lookup_weaken. Qed.

(** A lease that has not expired survives pruning. *)
Lemma pruned_live now M M' m ip x :
  pruned now M M' → M !! m = Some (ip, x) → now < x → M' !! m = Some (ip, x).
Proof.
  intros [Hs Hp] Hm Hx. destruct (M' !! m) as [[ip' x']|] eqn:Hm'.
  - pose proof (lookup_weaken _ _ _ _ Hm' Hs). congruence.
  - specialize (Hp _ _ _ Hm Hm'). lia.
Qed.

Lemma lease_inj_subseteq M M' : M' ⊆ M → lease_inj M → lease_inj M'.
Proof. intros Hs Hi m1 m2 ip e1 e2 H1 H2. eapply Hi; eapply lookup_weaken; eauto. Qed.

Lemma in_pool_subseteq s e M M' : M' ⊆ M → in_pool s e M → in_pool s e M'.
Proof. intros Hs Hi m ip x Hm. eapply Hi, lookup_weaken; eauto. Qed.

Lemma lease_inj_insert M mac ip x :
  lease_inj M →
  (match M !! mac with Some (ip0, _) => ip0 = ip | None => ¬ held ip M end) →
  lease_inj (<[mac := (ip, x)]> M).
Proof.
  intros Hi Hm. unfold held in Hm.
  assert (Hown : ∀ m y, M !! m = Some (ip, y) → m = mac).
  { intros m y Hy. destruct (M !! mac) as [[ip0 e0]|] eqn:Hmac; [subst|]; naive_solver. }
  intros m1 m2 ip' e1 e2 H1 H2.
  apply lookup_insert_Some in H1 as [[<- ?]|[? H1]];
    apply lookup_insert_Some in H2 as [[<- ?]|[? H2]]; simplify_eq.
  - done.
  - symmetry. by eapply Hown.
  - by eapply Hown.
  - by eapply Hi.
Qed.

Lemma in_pool_insert s e M mac ip x :
  in_pool s e M → s ≤ ip ≤ e → in_pool s e (<[mac := (ip, x)]> M).
Proof. intros Hi Hip m ip' x' [[<- ?]|[? Hm]]%lookup_insert_Some; simplify_eq; eauto. Qed.

#[export] Hint Resolve pruned_refl lease_inj_subseteq in_pool_subseteq in_pool_insert : dhcp.

Lemma lease_inj_delete M mac : lease_inj M → lease_inj (delete mac M).
Proof. apply lease_inj_subseteq, delete_subseteq. Qed.

Lemma in_pool_delete s e M mac : in_pool s e M → in_pool s e (delete mac M).
Proof. apply in_pool_subseteq, delete_subseteq. Qed.

(** Whether an address is leased is decidable: the map is finite. *)
Lemma held_elem ip M : held ip M ↔ ip ∈ (map_to_list M).*2.*1.
Proof.
  unfold held. split.
  - intros (m & e & Hm). apply list_elem_of_fmap. exists (ip, e). split; [done|].
    apply list_elem_of_fmap. exists (m, (ip, e)). split; [done|]. by apply elem_of_map_to_list.
  - intros [[ip' e] [-> Hin]]%list_elem_of_fmap.
    apply list_elem_of_fmap in Hin as [[m [ip'' e']] [Heq Hm]].
    simplify_eq/=. exists m, e'. by apply elem_of_map_to_list.
Qed.

#[export] Instance held_dec ip M : Decision (held ip M).
Proof. refine (cast_if (decide (ip ∈ (map_to_list M).*2.*1))); by rewrite held_elem. Defined.

(** ** The round-robin search for a free address

    The outer loop of [find_available_ip], the same text in [dhcp_array.c] and
    [dhcp_hashmap.c]: at most [n] more candidates starting at [next_ip]; the
    result is the address (0 if none) and the new [next_ip]. *)
Fixpoint search_loop (taken : Z → outcome bool) (n : nat) (pool_start range_size next_ip : Z)
    : outcome (Z * Z) :=
  match n with
  | O => Ret (0, next_ip)
  | S n =>
      let ip := next_ip in
      let next_ip := pool_start ⊞ ((ip ⊟ pool_start ⊞ 1) `mod` range_size) in
      found ← taken ip;
      if (found : bool) then search_loop taken n pool_start range_size next_ip
      else Ret (ip, next_ip)
  end.

Section search.
Context (taken : Z → outcome bool) (P : Z → Prop) (s e : Z).
Hypothesis Hpool : 0 < s ∧ e < 2 ^ 32.
Hypothesis Htaken : ∀ ip, s ≤ ip ≤ e → ∃ b : bool, taken ip = Ret b ∧ if b then P ip else ¬ P ip.

Lemma range_size_eq : s ≤ e → e ⊟ s ⊞ 1 = e - s + 1.
Proof.
  intros. rewrite wrap_add_l by lia. apply wrap_small. unfold uword. lia.
Qed.

Lemma next_ip_eq ip : s ≤ ip ≤ e →
  s ⊞ ((ip ⊟ s ⊞ 1) `mod` (e - s + 1)) = if ip =? e then s else ip + 1.
Proof.
  intros Hip. rewrite wrap_add_l by lia. rewrite (wrap_small _ (ip - s + 1)) by (unfold uword; lia).
  destruct (Z.eqb_spec ip e) as [->|Hne].
  - rewrite Z.mod_same, Z.add_0_r by lia. apply wrap_small. unfold uword. lia.
  - rewrite Z.mod_small by lia. replace (s + (ip - s + 1)) with (ip + 1) by lia.
    apply wrap_small. unfold uword. lia.
Qed.

(** The candidates left after some were tried form a cyclic interval; here in
    terms of the address [a] at which the search began. *)
Lemma search_loop_spec a : s ≤ a ≤ e → ∀ n nx,
  s ≤ nx ≤ e →
  (a ≤ nx ∧ Z.of_nat n = e - s + 1 - (nx - a) ∧ (∀ x, a ≤ x < nx → P x) ∨
   nx ≤ a ∧ Z.of_nat n = a - nx ∧ (∀ x, a ≤ x ≤ e ∨ s ≤ x < nx → P x)) →
  ∃ ip nx', search_loop taken n s (e - s + 1) nx = Ret (ip, nx') ∧ s ≤ nx' ≤ e ∧
    ((s ≤ ip ≤ e ∧ ¬ P ip) ∨ (ip = 0 ∧ ∀ x, s ≤ x ≤ e → P x)).
Proof.
  intros Ha. induction n as [|n IH]; intros nx Hnx Hcase; cbn [search_loop].
  { exists 0, nx. split_and!; [done|lia..|]. right. split; [done|].
    intros x Hx. destruct Hcase as [(?&?&HP)|(?&?&HP)]; [lia|]. apply HP. lia. }
  rewrite next_ip_eq by done.
  destruct (Htaken nx Hnx) as ([] & -> & HPnx); rewrite bind_Ret.
  2:{ eexists _, _. split_and!; [done|destruct (Z.eqb_spec nx e); lia..|]. by left. }
  apply IH; [destruct (Z.eqb_spec nx e); lia|].
  destruct (Z.eqb_spec nx e) as [->|Hne].
  - destruct Hcase as [(?&?&HP)|(?&?&HP)]; [|lia]. right. split_and!; [lia..|].
    intros x Hx. destruct (decide (x = e)) as [->|]; [done|]. apply HP. lia.
  - destruct Hcase as [(?&?&HP)|(?&?&HP)]; [left|right]; (split_and!; [lia..|]);
      intros x Hx; destruct (decide (x = nx)) as [->|]; try done; apply HP; lia.
Qed.

Lemma search_spec nx :
  s ≤ nx ≤ e →
  ∃ ip nx', search_loop taken (Z.to_nat (e ⊟ s ⊞ 1)) s (e ⊟ s ⊞ 1) nx = Ret (ip, nx') ∧
    s ≤ nx' ≤ e ∧
    ((s ≤ ip ≤ e ∧ ¬ P ip) ∨ (ip = 0 ∧ ∀ x, s ≤ x ≤ e → P x)).
Proof.
  intros Hnx. rewrite range_size_eq by lia. apply (search_loop_spec nx Hnx); [done|].
  left. split_and!; [lia..|]. intros; lia.
Qed.

End search.
