(* ===== verification/ArrayPool.v ===== *)
(** * ARRAY mode: the per-MAC lease array

    [dhcp-lib/dhcp_array.h] and [dhcp-lib/dhcp_array.c].  [ap_leases] is the
    array of [max_leases] entries the pool points to; a lease pointer is its
    index.  The loops of the code run over the whole array, so they are
    recursions on the list. *)
From S2P Require Import Prelude LeaseStore.

Open Scope Z_scope.

Record dhcp_lease_t := mkLease {
  ip_address : Z;
  mac_address : list Z;
  expire_time : Z;
  in_use : Z
}.

Record dhcp_arraypool_t := mkArrayPool {
  ap_leases : list dhcp_lease_t;
  ap_max_leases : Z;
  ap_lease_count : Z;
  ap_next_ip : Z
}.

Definition set_in_use (l : dhcp_lease_t) (b : Z) : dhcp_lease_t :=
  mkLease (ip_address l) (mac_address l) (expire_time l) b.

Definition set_expire (l : dhcp_lease_t) (x : Z) : dhcp_lease_t :=
  mkLease (ip_address l) (mac_address l) x (in_use l).

(** [leases = None] is the null pointer. *)
Definition dhcp_arraypool_init (pool_start : Z) (leases : option (list dhcp_lease_t))
    (max_leases : Z) : dhcp_arraypool_t :=
  mkArrayPool
    (match leases with
     | Some ls => (λ l, set_in_use l 0) <$> ls
     | None => []
     end) max_leases 0 pool_start.

(** [kmemcmp (l->mac_address, mac, 6) == 0] on an entry in use *)
Definition mac_matches (l : dhcp_lease_t) (mac : list Z) : bool :=
  truth (in_use l) && bool_decide (mac_address l = mac).

Definition ip_matches (l : dhcp_lease_t) (ip : Z) : bool :=
  truth (in_use l) && (ip_address l =? ip).

(** The loop of [dhcp_arraypool_find_lease] from index [i] on. *)
Fixpoint find_lease_from (i : nat) (ls : list dhcp_lease_t) (mac : list Z) : option nat :=
  match ls with
  | [] => None
  | l :: ls => if mac_matches l mac then Some i else find_lease_from (S i) ls mac
  end.

Definition dhcp_arraypool_find_lease (p : dhcp_arraypool_t) (mac : list Z) : option nat :=
  find_lease_from 0 (ap_leases p) mac.

(** The loop of [dhcp_arraypool_cleanup_expire_lease]: the entries and the
    16-bit lease count. *)
Fixpoint cleanup_loop (ls : list dhcp_lease_t) (count cur_time : Z) : list dhcp_lease_t * Z :=
  match ls with
  | [] => ([], count)
  | l :: ls =>
      if truth (in_use l) && (expire_time l <=? cur_time) then
        let '(ls, count) := cleanup_loop ls (u16 (count - 1)) cur_time in
        (set_in_use l 0 :: ls, count)
      else
        let '(ls, count) := cleanup_loop ls count cur_time in (l :: ls, count)
  end.

Definition dhcp_arraypool_cleanup_expire_lease (p : dhcp_arraypool_t) (cur_time : Z)
    : dhcp_arraypool_t :=
  let '(ls, count) := cleanup_loop (ap_leases p) (ap_lease_count p) cur_time in
  mkArrayPool ls (ap_max_leases p) count (ap_next_ip p).

(** [if (pool->lease_count >= pool->max_leases) cleanup] *)
Definition cleanup_if_full (p : dhcp_arraypool_t) (cur_time : Z) : dhcp_arraypool_t :=
  if ap_max_leases p <=? ap_lease_count p
  then dhcp_arraypool_cleanup_expire_lease p cur_time else p.

(** Is [ip] held by an entry in use?  The inner loop of
    [dhcp_arraypool_find_available_ip]. *)
Definition ip_taken (ls : list dhcp_lease_t) (ip : Z) : bool :=
  existsb (λ l, ip_matches l ip) ls.

Definition dhcp_arraypool_find_available_ip (p : dhcp_arraypool_t)
    (pool_start pool_end : Z) (mac : list Z) (cur_time : Z) : outcome (Z * dhcp_arraypool_t) :=
  let p := cleanup_if_full p cur_time in
  match dhcp_arraypool_find_lease p mac with
  | Some i => existing ← deref (ap_leases p) i; Ret (ip_address existing, p)
  | None =>
      if ap_max_leases p <=? ap_lease_count p then Ret (0, p) else
      let range_size := pool_end ⊟ pool_start ⊞ 1 in
      '(ip, next_ip) ← search_loop (λ ip, Ret (ip_taken (ap_leases p) ip))
                         (Z.to_nat range_size) pool_start range_size (ap_next_ip p);
      Ret (ip, mkArrayPool (ap_leases p) (ap_max_leases p) (ap_lease_count p) next_ip)
  end.

(** The scan of [dhcp_arraypool_alloc_lease]: [mac_match], [ip_match] and
    [free_slot], with the early [break]. *)
Fixpoint alloc_scan (i : nat) (ls : list dhcp_lease_t) (mac : list Z) (ip : Z)
    (mac_match ip_match free_slot : option nat) : option nat * option nat * option nat :=
  match ls with
  | [] => (mac_match, ip_match, free_slot)
  | l :: ls =>
      if negb (truth (in_use l)) then
        let free_slot := match free_slot with None => Some i | Some _ => free_slot end in
        alloc_scan (S i) ls mac ip mac_match ip_match free_slot
      else
        let mac_match := if bool_decide (mac_address l = mac) then Some i else mac_match in
        let ip_match := if ip_address l =? ip then Some i else ip_match in
        if (bool_decide (is_Some mac_match) || bool_decide (is_Some ip_match))
           && bool_decide (is_Some free_slot)
        then (mac_match, ip_match, free_slot)
        else alloc_scan (S i) ls mac ip mac_match ip_match free_slot
  end.

Definition dhcp_arraypool_alloc_lease (p : dhcp_arraypool_t) (ip : Z) (mac : list Z)
    (lease_time cur_time : Z) : outcome (bool * dhcp_arraypool_t) :=
  let p := cleanup_if_full p cur_time in
  let '(mac_match, ip_match, free_slot) := alloc_scan 0 (ap_leases p) mac ip None None None in
  match mac_match with
  | Some i =>
      l ← deref (ap_leases p) i;
      if negb (ip_address l =? ip) then Ret (false, p)
      else ls ← store (ap_leases p) i (set_expire l (cur_time ⊞ lease_time));
           Ret (true, mkArrayPool ls (ap_max_leases p) (ap_lease_count p) (ap_next_ip p))
  | None =>
      match ip_match, free_slot with
      | Some _, _ => Ret (false, p)
      | None, None => Ret (false, p)
      | None, Some i =>
          ls ← store (ap_leases p) i (mkLease ip mac (cur_time ⊞ lease_time) 1);
          Ret (true, mkArrayPool ls (ap_max_leases p) (u16 (ap_lease_count p + 1)) (ap_next_ip p))
      end
  end.

Definition dhcp_arraypool_decline_lease (p : dhcp_arraypool_t) (mac : list Z)
    : outcome dhcp_arraypool_t :=
  match dhcp_arraypool_find_lease p mac with
  | Some i =>
      l ← deref (ap_leases p) i;
      ls ← store (ap_leases p) i (set_in_use l 0);
      Ret (mkArrayPool ls (ap_max_leases p) (u16 (ap_lease_count p - 1)) (ap_next_ip p))
  | None => Ret p
  end.

(** ** The leases an array holds *)

Definition entry (l : dhcp_lease_t) : list (list Z * (Z * Z)) :=
  if truth (in_use l) then [(mac_address l, (ip_address l, expire_time l))] else [].

Definition active (ls : list dhcp_lease_t) : list (list Z * (Z * Z)) := ls ≫= entry.

Definition leases_of (p : dhcp_arraypool_t) : lease_map := list_to_map (active (ap_leases p)).

(** The part of the invariant that speaks of the leases only: one lease per
    client, one client per address, addresses of the pool. *)
Record leases_ok (s e : Z) (act : list (list Z * (Z * Z))) : Prop := {
  lo_macs : NoDup act.*1;
  lo_ips : NoDup act.*2.*1;
  lo_range : Forall (λ x, s ≤ x ≤ e) act.*2.*1
}.

Record array_inv (s e : Z) (p : dhcp_arraypool_t) : Prop := {
  ai_length : Z.of_nat (length (ap_leases p)) = ap_max_leases p;
  ai_max : is_u16 (ap_max_leases p);
  ai_count : ap_lease_count p = Z.of_nat (length (active (ap_leases p)));
  ai_leases : leases_ok s e (active (ap_leases p));
  ai_next : s ≤ ap_next_ip p ≤ e;
  ai_pool : 0 < s ∧ e < 2 ^ 32
}.

(** ** Lemmas on the active entries *)

#[export] Instance leases_ok_perm s e : Proper ((≡ₚ) ==> iff) (leases_ok s e).
Proof.
  assert (H : ∀ a b, a ≡ₚ b → leases_ok s e a → leases_ok s e b).
  { intros a b Hab [H1 H2 H3]. split; by rewrite <- Hab. }
  intros a b Hab. split; by apply H.
Qed.

Lemma active_insert ls i l :
  ls !! i = Some l →
  ∃ rest, active ls ≡ₚ entry l ++ rest ∧ ∀ l', active (<[i := l']> ls) ≡ₚ entry l' ++ rest.
Proof.
  intros Hi. exists (active (take i ls) ++ active (drop (S i) ls)). split.
  - rewrite <- (take_drop_middle ls i l Hi) at 1. unfold active.
    rewrite bind_app, bind_cons. solve_Permutation.
  - intros l'. rewrite insert_take_drop by (by eapply lookup_lt_Some). unfold active.
    rewrite bind_app, bind_cons. solve_Permutation.
Qed.

Lemma elem_of_active ls m ip x :
  (m, (ip, x)) ∈ active ls ↔
  ∃ i l, ls !! i = Some l ∧ truth (in_use l) = true ∧
    mac_address l = m ∧ ip_address l = ip ∧ expire_time l = x.
Proof.
  unfold active. rewrite list_elem_of_bind. split.
  - intros (l & Hl & [i Hi]%list_elem_of_lookup). exists i, l. unfold entry in Hl.
    destruct (truth (in_use l)); [|by apply elem_of_nil in Hl].
    apply list_elem_of_singleton in Hl. by simplify_eq.
  - intros (i & l & Hi & Hu & <- & <- & <-). exists l. split.
    + unfold entry. rewrite Hu. by apply list_elem_of_singleton.
    + apply list_elem_of_lookup. eauto.
Qed.

Lemma entry_in_use l :
  truth (in_use l) = true → entry l = [(mac_address l, (ip_address l, expire_time l))].
Proof. intros H. unfold entry. by rewrite H. Qed.

Lemma entry_free l : truth (in_use l) = false → entry l = [].
Proof. intros H. unfold entry. by rewrite H. Qed.

Lemma lookup_leases ls m ip x :
  NoDup (active ls).*1 →
  (list_to_map (active ls) : lease_map) !! m = Some (ip, x) ↔ (m, (ip, x)) ∈ active ls.
Proof. intros Hnd. by rewrite elem_of_list_to_map. Qed.

Lemma leases_size ls :
  NoDup (active ls).*1 → size (list_to_map (active ls) : lease_map) = length (active ls).
Proof. apply map_size_list_to_map. Qed.

Lemma elem_ips ip act : ip ∈ act.*2.*1 ↔ ∃ m x, (m, (ip, x)) ∈ (act : list (list Z * (Z * Z))).
Proof.
  split.
  - intros [[ip' x] [-> [[m y] [-> Hin]]%list_elem_of_fmap]]%list_elem_of_fmap.
    simpl in *. destruct y as [ip'' x']. by eauto.
  - intros (m & x & Hin). apply list_elem_of_fmap. exists (ip, x). split; [done|].
    apply list_elem_of_fmap. by exists (m, (ip, x)).
Qed.

Lemma held_active ip ls :
  NoDup (active ls).*1 →
  held ip (list_to_map (active ls)) ↔ ip ∈ (active ls).*2.*1.
Proof.
  intros Hnd. unfold held. setoid_rewrite lookup_leases; [|done]. by rewrite elem_ips.
Qed.

Lemma leases_perm_map (act act' : list (list Z * (Z * Z))) :
  NoDup act.*1 → act ≡ₚ act' → (list_to_map act : lease_map) = list_to_map act'.
Proof. apply list_to_map_proper. Qed.

Lemma active_length ls : (length (active ls) ≤ length ls)%nat.
Proof.
  unfold active. induction ls as [|l ls IH]; [done|]. rewrite bind_cons, length_app.
  unfold entry at 1. destruct (truth (in_use l)); cbn [length]; lia.
Qed.

Lemma active_count ls :
  length (active ls) = length (filter (λ l, truth (in_use l) = true) ls).
Proof.
  induction ls as [|l ls IH]; [done|]. unfold active in *. rewrite bind_cons, length_app, IH.
  rewrite filter_cons. unfold entry.
  destruct (truth (in_use l)) eqn:Hu; case_decide; cbn; (lia || congruence).
Qed.

Lemma active_distinct ls i j li lj :
  NoDup (active ls).*1 → NoDup (active ls).*2.*1 →
  i ≠ j → ls !! i = Some li → ls !! j = Some lj →
  truth (in_use li) = true → truth (in_use lj) = true →
  mac_address li ≠ mac_address lj ∧ ip_address li ≠ ip_address lj.
Proof.
  intros Hm Hip Hij Hi Hj Hui Huj.
  destruct (active_insert ls i li Hi) as (rest & Hact & Hact').
  specialize (Hact' (set_in_use li 0)). rewrite (entry_free (set_in_use li 0)) in Hact' by done.
  rewrite (entry_in_use li Hui) in Hact. rewrite Hact in Hm, Hip. cbn [app] in *.
  rewrite !fmap_cons in *. apply NoDup_cons in Hm as [Hm _], Hip as [Hip _].
  assert (Hin : (mac_address lj, (ip_address lj, expire_time lj)) ∈ rest).
  { rewrite <- Hact'. apply elem_of_active. exists j, lj. by rewrite list_lookup_insert_ne. }
  split; intros Heq; cbn [fst snd] in *.
  - apply Hm. rewrite Heq. apply list_elem_of_fmap. eexists. split; [|exact Hin]. done.
  - apply Hip. rewrite Heq. apply elem_ips. eauto.
Qed.

(** *** Changing one entry of a list of leases *)

Lemma leases_ok_cons s e m ip x act :
  leases_ok s e ((m, (ip, x)) :: act) ↔
  (m ∉ act.*1) ∧ (ip ∉ act.*2.*1) ∧ (s ≤ ip ≤ e) ∧ leases_ok s e act.
Proof.
  split.
  - intros [H1 H2 H3]. rewrite !fmap_cons in *.
    apply NoDup_cons in H1 as [? ?]. apply NoDup_cons in H2 as [? ?].
    apply Forall_cons in H3 as [[? ?] ?]. split_and!; [done..|by split].
  - intros (? & ? & ? & [? ? ?]).
    split; rewrite !fmap_cons; [by apply NoDup_cons..|by apply Forall_cons].
Qed.

Lemma map_renew m ip x x' (act : list (list Z * (Z * Z))) :
  (list_to_map ((m, (ip, x')) :: act) : lease_map)
  = <[m := (ip, x')]> (list_to_map ((m, (ip, x)) :: act)).
Proof. cbn. by rewrite insert_insert_eq. Qed.

Lemma map_drop m ip x (act : list (list Z * (Z * Z))) :
  m ∉ act.*1 →
  (list_to_map act : lease_map) = delete m (list_to_map ((m, (ip, x)) :: act)).
Proof.
  intros Hm. cbn. rewrite delete_insert_eq. symmetry. apply delete_id.
  by apply not_elem_of_list_to_map_1.
Qed.

Lemma leases_ok_filter s e (P : list Z * (Z * Z) → Prop) `{∀ x, Decision (P x)} act :
  leases_ok s e act → leases_ok s e (filter P act).
Proof.
  induction act as [|[m [ip x]] act IH]; [done|].
  rewrite leases_ok_cons. intros (Hm & Hip & Hr & Hok). rewrite filter_cons.
  case_decide; [|auto]. apply leases_ok_cons. split_and!; [| |lia|lia|auto].
  - contradict Hm. apply list_elem_of_fmap in Hm as (y & -> & [_ Hy]%list_elem_of_filter).
    apply list_elem_of_fmap. eauto.
  - contradict Hip. apply elem_ips in Hip as (m' & x' & [_ Hy]%list_elem_of_filter).
    apply elem_ips. eauto.
Qed.

(** *** Cleaning up *)

Lemma cleanup_loop_spec now : ∀ ls c,
  (length (active ls) ≤ Z.to_nat c)%nat → is_u16 c →
  ∃ ls', cleanup_loop ls c now
         = (ls', c - Z.of_nat (length (active ls)) + Z.of_nat (length (active ls'))) ∧
    length ls' = length ls ∧
    active ls' = filter (λ y, now < y.2.2) (active ls).
Proof.
  induction ls as [|l ls IH]; intros c Hc Hu; cbn [cleanup_loop].
  { exists []. split_and!; [f_equal; cbn; lia | done | done]. }
  unfold active in *. rewrite bind_cons in *. rewrite length_app in Hc.
  unfold entry at 1 in Hc. unfold uword in *.
  destruct (truth (in_use l)) eqn:Hl; cbn [andb length] in *.
  - destruct (Z.leb_spec (expire_time l) now) as [Hx|Hx].
    + rewrite wrap_small by (unfold uword; lia).
      destruct (IH (c - 1)) as (ls' & -> & Hlen & Hact); [lia..|].
      exists (set_in_use l 0 :: ls'). rewrite bind_cons, !length_app.
      rewrite (entry_in_use l Hl), (entry_free (set_in_use l 0)) by done.
      split_and!; [f_equal; cbn [length]; lia | cbn; lia |].
      cbn [app]. rewrite filter_cons_False by (cbn; lia). done.
    + destruct (IH c) as (ls' & -> & Hlen & Hact); [lia..|].
      exists (l :: ls'). rewrite bind_cons, !length_app, (entry_in_use l Hl).
      split_and!; [f_equal; cbn [length]; lia | cbn; lia |].
      cbn [app]. rewrite filter_cons_True by (cbn; lia). by rewrite Hact.
  - destruct (IH c) as (ls' & -> & Hlen & Hact); [lia..|].
    exists (l :: ls'). rewrite bind_cons, !length_app, (entry_free l Hl).
    split_and!; [f_equal; cbn [length]; lia | cbn; lia | done].
Qed.

Lemma pruned_filter now ls :
  NoDup (active ls).*1 →
  pruned now (list_to_map (active ls)) (list_to_map (filter (λ y, now < y.2.2) (active ls))).
Proof.
  intros Hnd. set (act := active ls) in *.
  assert (Hnd' : NoDup (filter (λ y, now < y.2.2) act).*1).
  { clearbody act. clear ls. induction act as [|y act IH]; [done|].
    apply NoDup_cons in Hnd as [Hy Hnd]. rewrite filter_cons. case_decide; [|auto].
    cbn. apply NoDup_cons. split; [|auto]. contradict Hy.
    apply list_elem_of_fmap in Hy as (z & Hz & [_ Hin]%list_elem_of_filter).
    apply list_elem_of_fmap. eauto. }
  split.
  - apply map_subseteq_spec. intros m y Hm. apply elem_of_list_to_map in Hm; [|done].
    apply list_elem_of_filter in Hm as [_ Hm]. by apply elem_of_list_to_map.
  - intros m ip x Hm Hn. apply elem_of_list_to_map in Hm; [|done].
    destruct (decide (now < x)); [|lia].
    apply not_elem_of_list_to_map_2 in Hn. contradict Hn.
    apply list_elem_of_fmap. exists (m, (ip, x)). split; [done|].
    by apply list_elem_of_filter.
Qed.

Lemma cleanup_if_full_spec s e p now :
  array_inv s e p →
  let p' := cleanup_if_full p now in
  array_inv s e p' ∧ ap_max_leases p' = ap_max_leases p ∧
  pruned now (leases_of p) (leases_of p') ∧
  ((length (active (ap_leases p)) < length (ap_leases p))%nat → p' = p).
Proof.
  intros Hinv. cbn zeta. unfold cleanup_if_full. destruct Hinv as [Hl Hm Hc Ho Hn Hp].
  destruct (Z.leb_spec (ap_max_leases p) (ap_lease_count p)) as [Hfull|Hfull].
  2:{ split_and!; [by split | done | apply pruned_refl | done]. }
  unfold dhcp_arraypool_cleanup_expire_lease. unfold uword in Hm.
  pose proof (active_length (ap_leases p)).
  destruct (cleanup_loop_spec now (ap_leases p) (ap_lease_count p)) as (ls' & -> & Hlen & Hact).
  { lia. } { unfold uword. lia. }
  split_and!; [| done | | intros; lia].
  - split; cbn [ap_leases ap_max_leases ap_lease_count ap_next_ip];
      [lia | done | lia | | done | done].
    rewrite Hact. by apply leases_ok_filter.
  - unfold leases_of. cbn [ap_leases]. rewrite Hact. apply pruned_filter. by destruct Ho.
Qed.

(** *** Searching *)

Lemma find_lease_from_spec mac : ∀ ls k,
  match find_lease_from k ls mac with
  | Some i => ∃ j l, i = (k + j)%nat ∧ ls !! j = Some l ∧ truth (in_use l) = true ∧
                mac_address l = mac
  | None => mac ∉ (active ls).*1
  end.
Proof.
  induction ls as [|l ls IH]; intros k; cbn [find_lease_from].
  { by apply not_elem_of_nil. }
  unfold mac_matches, active. rewrite bind_cons, fmap_app.
  destruct (truth (in_use l)) eqn:Hu; cbn [andb]; [case_bool_decide as Hm|].
  - exists 0%nat, l. split_and!; [lia|done..].
  - specialize (IH (S k)). destruct (find_lease_from (S k) ls mac).
    + destruct IH as (j & l' & -> & ? & ? & ?). exists (S j), l'. split_and!; [lia|done..].
    + rewrite (entry_in_use l Hu). cbn. apply not_elem_of_cons. done.
  - specialize (IH (S k)). destruct (find_lease_from (S k) ls mac).
    + destruct IH as (j & l' & -> & ? & ? & ?). exists (S j), l'. split_and!; [lia|done..].
    + by rewrite (entry_free l Hu).
Qed.

(** The lease found is the one of the map. *)
Lemma find_lease_spec p mac :
  NoDup (active (ap_leases p)).*1 →
  match dhcp_arraypool_find_lease p mac with
  | Some i => ∃ l, ap_leases p !! i = Some l ∧ truth (in_use l) = true ∧ mac_address l = mac ∧
                leases_of p !! mac = Some (ip_address l, expire_time l)
  | None => leases_of p !! mac = None
  end.
Proof.
  intros Hnd. unfold dhcp_arraypool_find_lease.
  pose proof (find_lease_from_spec mac (ap_leases p) 0) as H.
  destruct (find_lease_from 0 (ap_leases p) mac) as [i|].
  - destruct H as (j & l & -> & Hl & Hu & Hm). exists l. split_and!; [done..|].
    apply lookup_leases; [done|]. apply elem_of_active. eauto 10.
  - by apply not_elem_of_list_to_map_1.
Qed.

Lemma ip_taken_spec ls ip : ip_taken ls ip = true ↔ ip ∈ (active ls).*2.*1.
Proof.
  unfold ip_taken. rewrite existsb_exists, elem_ips. split.
  - intros (l & Hin & Hm). apply andb_true_iff in Hm as [Hu Hip%Z.eqb_eq].
    apply list_elem_of_In, list_elem_of_lookup in Hin as [i Hi].
    exists (mac_address l), (expire_time l). apply elem_of_active. eauto 10.
  - intros (m & x & (i & l & Hi & Hu & _ & Hip & _)%elem_of_active). exists l. split.
    + apply list_elem_of_In, list_elem_of_lookup. eauto.
    + unfold ip_matches. rewrite Hu, Hip. by rewrite Z.eqb_refl.
Qed.

(** The scan of [alloc_lease]: what its three pointers say of the first [k]
    entries of the array. *)
Record scan_ok (all : list dhcp_lease_t) (k : nat) (mac : list Z) (ip : Z)
    (mm im fs : option nat) : Prop := {
  so_mm i : mm = Some i → ∃ l, all !! i = Some l ∧ truth (in_use l) = true ∧ mac_address l = mac;
  so_im i : im = Some i → ∃ l, all !! i = Some l ∧ truth (in_use l) = true ∧
              ip_address l = ip ∧ (mm = None → mac_address l ≠ mac);
  so_fs i : fs = Some i → ∃ l, all !! i = Some l ∧ truth (in_use l) = false;
  so_none : mm = None → im = None → ∀ i l, (i < k)%nat → all !! i = Some l →
              truth (in_use l) = true → mac_address l ≠ mac ∧ ip_address l ≠ ip;
  so_full : fs = None → ∀ i l, (i < k)%nat → all !! i = Some l → truth (in_use l) = true
}.

Lemma scan_ok_free all k mac ip mm im fs l :
  scan_ok all k mac ip mm im fs → all !! k = Some l → truth (in_use l) = false →
  scan_ok all (S k) mac ip mm im (match fs with None => Some k | Some _ => fs end).
Proof.
  intros [H1 H2 H3 H4 H5] Hl Hu. split; [done|done| | |].
  - intros i Hi. destruct fs; simplify_eq; eauto.
  - intros Hm Hi i l' Hlt Hl' Hu'. destruct (decide (i = k)) as [->|]; [congruence|].
    apply (H4 Hm Hi i l'); [lia|done..].
  - by destruct fs.
Qed.

Lemma scan_ok_used all k mac ip mm im fs l :
  scan_ok all k mac ip mm im fs → all !! k = Some l → truth (in_use l) = true →
  scan_ok all (S k) mac ip
    (if bool_decide (mac_address l = mac) then Some k else mm)
    (if ip_address l =? ip then Some k else im) fs.
Proof.
  intros [H1 H2 H3 H4 H5] Hl Hu. split; [| |done| |].
  - intros i. case_bool_decide; intros Hi; simplify_eq; eauto.
  - intros i. destruct (Z.eqb_spec (ip_address l) ip); intros Hi.
    + injection Hi as <-. exists l. split_and!; [done..|]. by case_bool_decide.
    + destruct (H2 i Hi) as (l' & ? & ? & ? & Hne). exists l'. split_and!; [done..|].
      by case_bool_decide.
  - case_bool_decide as Hm; [done|]. destruct (Z.eqb_spec (ip_address l) ip) as [|Hip]; [done|].
    intros Hm' Hi' i l' Hlt Hl' Hu'. destruct (decide (i = k)) as [->|]; [by simplify_eq|].
    apply (H4 Hm' Hi' i l'); [lia|done..].
  - intros Hf i l' Hlt Hl'. destruct (decide (i = k)) as [->|]; [by simplify_eq|].
    apply (H5 Hf i l'); [lia|done].
Qed.

Lemma alloc_scan_ok all mac ip : ∀ ls k mm im fs mm' im' fs',
  drop k all = ls → scan_ok all k mac ip mm im fs →
  alloc_scan k ls mac ip mm im fs = (mm', im', fs') →
  ∃ k', scan_ok all k' mac ip mm' im' fs' ∧
    ((length all ≤ k')%nat ∨ (is_Some mm' ∨ is_Some im') ∧ is_Some fs').
Proof.
  induction ls as [|l ls IH]; intros k mm im fs mm' im' fs' Hd Hok Hscan; cbn in Hscan.
  { simplify_eq. exists k. split; [done|]. left.
    apply (f_equal length) in Hd. rewrite length_drop in Hd. cbn in Hd. lia. }
  assert (Hl : all !! k = Some l)
    by (rewrite <- (Nat.add_0_r k), <- lookup_drop, Hd; done).
  assert (Hd' : drop (S k) all = ls) by (rewrite (drop_S _ _ _ Hl) in Hd; congruence).
  destruct (truth (in_use l)) eqn:Hu; cbn [negb] in Hscan.
  - pose proof (scan_ok_used _ _ _ _ _ _ _ _ Hok Hl Hu) as Hok'.
    destruct (_ && _) eqn:Hb in Hscan; [|by eapply IH].
    simplify_eq. exists (S k). split; [done|]. right.
    apply andb_true_iff in Hb as [Hb1 Hb2%bool_decide_eq_true]. split; [|done].
    apply orb_true_iff in Hb1 as [?%bool_decide_eq_true|?%bool_decide_eq_true]; auto.
  - eapply IH; [done| |done]. by apply scan_ok_free with l.
Qed.

(** The scan over the whole array, whichever way it ended. *)
Lemma alloc_scan_spec all mac ip mm im fs :
  alloc_scan 0 all mac ip None None None = (mm, im, fs) →
  (∀ i, mm = Some i → ∃ l, all !! i = Some l ∧ truth (in_use l) = true ∧ mac_address l = mac) ∧
  (∀ i, im = Some i → mm = None → ∃ l, all !! i = Some l ∧ truth (in_use l) = true ∧
     ip_address l = ip ∧ mac_address l ≠ mac) ∧
  (∀ i, fs = Some i → ∃ l, all !! i = Some l ∧ truth (in_use l) = false) ∧
  (mm = None → im = None → (mac ∉ (active all).*1) ∧ (ip ∉ (active all).*2.*1)) ∧
  (mm = None → im = None → fs = None → ∀ i l, all !! i = Some l → truth (in_use l) = true).
Proof.
  intros Hs.
  destruct (alloc_scan_ok all mac ip all 0 None None None mm im fs) as (k & [H1 H2 H3 H4 H5] & Hk);
    [done | split; intros; try done; lia | done |].
  assert (Hend : mm = None → im = None → (length all ≤ k)%nat).
  { intros -> ->. destruct Hk as [|[[[]|[]] _]]; done. }
  split_and!; [done| |done| |].
  - intros i Hi Hm. destruct (H2 i Hi) as (l & ? & ? & ? & ?). eauto 10.
  - intros Hm Hi. split.
    + intros [[m [ip' x]] [-> (i & l & Hl & Hu & Hmac & _)%elem_of_active]]%list_elem_of_fmap.
      pose proof (lookup_lt_Some _ _ _ Hl). destruct (H4 Hm Hi i l); [|done..]. specialize (Hend Hm Hi). lia.
    + intros (m & x & (i & l & Hl & Hu & _ & Hip & _)%elem_of_active)%elem_ips.
      pose proof (lookup_lt_Some _ _ _ Hl). destruct (H4 Hm Hi i l); [|done..]. specialize (Hend Hm Hi). lia.
  - intros Hm Hi Hf i l Hl. apply (H5 Hf i l); [|done].
    pose proof (lookup_lt_Some _ _ _ Hl). specialize (Hend Hm Hi). lia.
Qed.

(** *** Writing one entry *)

Lemma array_inv_store s e p i l l' :
  array_inv s e p → ap_leases p !! i = Some l →
  (∀ rest, leases_ok s e (entry l ++ rest) → active (ap_leases p) ≡ₚ entry l ++ rest →
     leases_ok s e (entry l' ++ rest)) →
  let p' := mkArrayPool (<[i := l']> (ap_leases p)) (ap_max_leases p)
    (ap_lease_count p - Z.of_nat (length (entry l)) + Z.of_nat (length (entry l'))) (ap_next_ip p) in
  array_inv s e p' ∧
  ∃ rest, leases_ok s e (entry l ++ rest) ∧ leases_ok s e (entry l' ++ rest) ∧
    leases_of p = list_to_map (entry l ++ rest) ∧ leases_of p' = list_to_map (entry l' ++ rest) ∧
    length (active (ap_leases p)) = (length (entry l) + length rest)%nat.
Proof.
  intros [Hl Hm Hc Ho Hn Hp] Hi Hok. cbn zeta.
  destruct (active_insert _ _ _ Hi) as (rest & Hact & Hact'). specialize (Hact' l').
  rewrite Hact in Ho. specialize (Hok rest Ho Hact).
  pose proof (Permutation_length Hact) as Hlen. pose proof (Permutation_length Hact') as Hlen'.
  rewrite length_app in Hlen, Hlen'. split.
  - split; cbn [ap_leases ap_max_leases ap_lease_count ap_next_ip]; [| done | lia | | done | done].
    + by rewrite length_insert.
    + by rewrite Hact'.
  - exists rest. split_and!; [done|done| | |lia]; unfold leases_of; cbn [ap_leases].
    + apply leases_perm_map; [|done]. rewrite Hact. by destruct Ho.
    + apply leases_perm_map; [|done]. rewrite Hact'. by destruct Hok.
Qed.

Definition array_cap (p : dhcp_arraypool_t) : nat := Z.to_nat (ap_max_leases p).

Lemma leases_of_size s e p :
  array_inv s e p → size (leases_of p) = Z.to_nat (ap_lease_count p).
Proof.
  intros [Hl Hm Hc Ho Hn Hp]. unfold leases_of. rewrite leases_size by (by destruct Ho). lia.
Qed.

Lemma array_lease_inj s e p : array_inv s e p → lease_inj (leases_of p).
Proof.
  intros [_ _ _ [Hmac Hip _] _ _] m1 m2 ip e1 e2 H1 H2.
  apply lookup_leases in H1, H2; [|done..].
  apply list_elem_of_lookup in H1 as [i Hi], H2 as [j Hj].
  assert (i = j).
  { apply (NoDup_lookup _ i j ip Hip); by rewrite !list_lookup_fmap, ?Hi, ?Hj. }
  by simplify_eq.
Qed.

Lemma array_in_pool s e p : array_inv s e p → in_pool s e (leases_of p).
Proof.
  intros [_ _ _ [Hmac _ Hr] _ _] m ip x Hm. apply lookup_leases in Hm; [|done].
  rewrite Forall_forall in Hr. apply Hr, elem_ips. eauto.
Qed.

(** *** The operations *)

Lemma array_decline_spec s e p mac :
  array_inv s e p →
  ∃ p', dhcp_arraypool_decline_lease p mac = Ret p' ∧ array_inv s e p' ∧
    ap_max_leases p' = ap_max_leases p ∧ leases_of p' = delete mac (leases_of p).
Proof.
  intros Hinv. unfold dhcp_arraypool_decline_lease.
  pose proof (find_lease_spec p mac (lo_macs _ _ _ (ai_leases _ _ _ Hinv))) as Hf.
  destruct (dhcp_arraypool_find_lease p mac) as [i|].
  2:{ exists p. split_and!; [done..|]. by rewrite delete_id. }
  destruct Hf as (l & Hl & Hu & Hmac & _).
  rewrite (deref_lookup _ _ _ Hl), bind_Ret, store_lt, bind_Ret by (by eapply lookup_lt_Some).
  destruct (array_inv_store s e p i l (set_in_use l 0) Hinv Hl) as [Hinv' (rest & Ho & _ & HM & HM' & Hlen)].
  { intros rest. rewrite (entry_in_use l Hu), (entry_free (set_in_use l 0)) by done.
    cbn [app]. intros Hok _. by apply leases_ok_cons in Hok as (_ & _ & _ & ?). }
  rewrite (entry_in_use l Hu) in *. rewrite (entry_free (set_in_use l 0)) in * by done.
  cbn [length app] in *. destruct Hinv as [? Hmx Hc ? ? ?].
  pose proof (active_length (ap_leases p)). unfold uword in Hmx.
  rewrite wrap_small by (unfold uword; lia).
  replace (ap_lease_count p - 1) with (ap_lease_count p - Z.of_nat 1 + Z.of_nat 0) by lia.
  eexists. split_and!; [done|done|done|]. rewrite HM, HM', <- Hmac.
  apply map_drop. by apply leases_ok_cons in Ho as (? & _).
Qed.

Lemma array_find_spec s e p mac now :
  array_inv s e p →
  ∃ ip p', dhcp_arraypool_find_available_ip p s e mac now = Ret (ip, p') ∧ array_inv s e p' ∧
    ap_max_leases p' = ap_max_leases p ∧ pruned now (leases_of p) (leases_of p') ∧
    offerable (array_cap p) s e mac (leases_of p') ip.
Proof.
  intros Hinv0. unfold dhcp_arraypool_find_available_ip. cbv zeta.
  destruct (cleanup_if_full_spec s e p now Hinv0) as (Hinv & Hmax & Hpr & _).
  set (p1 := cleanup_if_full p now) in *. unfold array_cap, offerable. rewrite <- Hmax.
  pose proof (find_lease_spec p1 mac (lo_macs _ _ _ (ai_leases _ _ _ Hinv))) as Hf.
  destruct (dhcp_arraypool_find_lease p1 mac) as [i|].
  { destruct Hf as (l & Hl & _ & _ & HM). rewrite (deref_lookup _ _ _ Hl), bind_Ret.
    eexists _, _. split_and!; [done..|]. by rewrite HM. }
  pose proof (leases_of_size _ _ _ Hinv) as Hsz.
  pose proof Hinv as [? Hmx Hc Ho ? ?]. unfold uword in Hmx.
  destruct (Z.leb_spec (ap_max_leases p1) (ap_lease_count p1)).
  { exists 0, p1. split_and!; [done..|]. rewrite Hf. left. lia. }
  destruct (search_spec (λ ip, Ret (ip_taken (ap_leases p1) ip))
              (λ ip, held ip (leases_of p1)) s e ltac:(lia)) with (nx := ap_next_ip p1)
    as (ip & nx & -> & Hnx & Hres); [|lia|].
  { intros ip Hip. exists (ip_taken (ap_leases p1) ip). split; [done|].
    pose proof (ip_taken_spec (ap_leases p1) ip) as Ht.
    pose proof (held_active ip (ap_leases p1) (lo_macs _ _ _ Ho)) as Hh.
    unfold leases_of. destruct (ip_taken _ _); [by apply Hh, Ht|].
    intros Hheld%Hh%Ht. done. }
  rewrite bind_Ret. eexists _, _. split_and!; [done| by split | done | done |].
  unfold leases_of in *. cbn [ap_leases]. rewrite Hf. right. split; [lia|done].
Qed.

(** The lease at [i] gets a new time. *)
Lemma renew_lease_spec s e p i l t : array_inv s e p → ap_leases p !! i = Some l → truth (in_use l) = true →
  let p' := mkArrayPool (<[i := set_expire l t]> (ap_leases p)) (ap_max_leases p) (ap_lease_count p) (ap_next_ip p) in
  array_inv s e p' ∧ leases_of p' = <[mac_address l := (ip_address l, t)]> (leases_of p).
Proof.
  intros Hinv Hl Hu. set (l' := set_expire l t). assert (Hu' : truth (in_use l') = true) by done.
  destruct (array_inv_store s e p i l l' Hinv Hl) as [Hinv' (rest & _ & _ & HM & HM' & _)].
  { intros rest. rewrite (entry_in_use l Hu), (entry_in_use l' Hu'). cbn [app]. by rewrite !leases_ok_cons. }
  rewrite (entry_in_use l Hu), (entry_in_use l' Hu') in *. cbn [length app] in *.
  replace (ap_lease_count p - Z.of_nat 1 + Z.of_nat 1) with (ap_lease_count p) in * by lia.
  split; [done|]. rewrite HM', HM. apply map_renew.
Qed.

(** A new lease in the free slot [i]: an array with a free slot is not full. *)
Lemma new_lease_spec s e p i l ip mac x : array_inv s e p → ap_leases p !! i = Some l → truth (in_use l) = false →
  s ≤ ip ≤ e → mac ∉ (active (ap_leases p)).*1 → ip ∉ (active (ap_leases p)).*2.*1 →
  let p' := mkArrayPool (<[i := mkLease ip mac x 1]> (ap_leases p)) (ap_max_leases p) (ap_lease_count p + 1) (ap_next_ip p) in
  array_inv s e p' ∧ leases_of p' = <[mac := (ip, x)]> (leases_of p) ∧ ap_lease_count p < ap_max_leases p.
Proof.
  intros Hinv Hl Hu Hip Hm Hi. set (l' := mkLease ip mac x 1). assert (Hu' : truth (in_use l') = true) by done.
  destruct (array_inv_store s e p i l l' Hinv Hl) as [Hinv' (rest & _ & _ & HM & HM' & _)].
  { intros rest. rewrite (entry_free l Hu), (entry_in_use l' Hu'). cbn [app].
    intros Hok Hperm. rewrite Hperm in Hm, Hi. by apply leases_ok_cons. }
  rewrite (entry_free l Hu), (entry_in_use l' Hu') in *. cbn [length app] in *.
  replace (ap_lease_count p - Z.of_nat 0 + Z.of_nat 1) with (ap_lease_count p + 1) in * by lia.
  split; [done|]. split; [by rewrite HM', HM|].
  pose proof (active_length (<[i := l']> (ap_leases p))) as Hal. rewrite length_insert in Hal.
  destruct Hinv as [Hll _ _ _ _ _], Hinv' as [_ _ Hc' _ _ _]. cbn [ap_lease_count ap_leases] in Hc'. lia.
Qed.

Lemma active_full ls : (∀ i l, ls !! i = Some l → truth (in_use l) = true) → length (active ls) = length ls.
Proof.
  induction ls as [|l ls IH]; intros Hfull; [done|]. unfold active. rewrite bind_cons, length_app.
  rewrite entry_in_use by (by apply (Hfull 0%nat)). cbn. f_equal. apply IH.
  intros i l' Hl'. by apply (Hfull (S i)).
Qed.

Lemma leases_of_slot s e p i l : array_inv s e p → ap_leases p !! i = Some l → truth (in_use l) = true →
  leases_of p !! mac_address l = Some (ip_address l, expire_time l).
Proof. intros [_ _ _ [Hnd _ _] _ _] Hl Hu. apply lookup_leases; [done|]. apply elem_of_active. eauto 10. Qed.

Lemma array_alloc_spec s e p ip mac lt now :
  array_inv s e p → s ≤ ip ≤ e →
  ∃ b p' M, dhcp_arraypool_alloc_lease p ip mac lt now = Ret (b, p') ∧ array_inv s e p' ∧
    ap_max_leases p' = ap_max_leases p ∧ pruned now (leases_of p) M ∧
    ((size (leases_of p) < array_cap p)%nat → M = leases_of p) ∧
    grant (array_cap p) ip mac (now ⊞ lt) M b (leases_of p').
Proof.
  intros Hinv0 Hip. unfold dhcp_arraypool_alloc_lease. cbv zeta.
  destruct (cleanup_if_full_spec s e p now Hinv0) as (Hinv & Hmax & Hpr & Hsame).
  assert (HMp : (size (leases_of p) < array_cap p)%nat → leases_of (cleanup_if_full p now) = leases_of p).
  { intros Hlt. rewrite Hsame; [done|]. rewrite (leases_of_size _ _ _ Hinv0) in Hlt.
    destruct Hinv0 as [? ? Hc ? ? ?]. unfold array_cap in Hlt. lia. }
  clear Hsame. set (p1 := cleanup_if_full p now) in *. unfold array_cap in *. rewrite <- Hmax in *.
  pose proof (leases_of_size _ _ _ Hinv) as Hsz. pose proof (array_lease_inj _ _ _ Hinv) as Hinj.
  pose proof Hinv as [Hll Hmx Hc Ho ? ?]. unfold uword in Hmx. pose proof (lo_macs _ _ _ Ho) as Hnd.
  destruct (alloc_scan 0 (ap_leases p1) mac ip None None None) as [[mm im] fs] eqn:Hs.
  apply alloc_scan_spec in Hs as (Hmm & Him & Hfs & Hnone & Hfull).
  destruct mm as [i|]; [|destruct im as [i|]; [|destruct fs as [i|]; destruct (Hnone eq_refl eq_refl) as [Hm Hi]]].
  - (* the client has a lease *)
    destruct (Hmm i eq_refl) as (l & Hl & Hu & <-). rewrite (deref_lookup _ _ _ Hl), bind_Ret.
    pose proof (leases_of_slot _ _ _ _ _ Hinv Hl Hu) as HMl.
    destruct (Z.eqb_spec (ip_address l) ip) as [<-|Hne]; cbn [negb].
    2:{ exists false, p1, (leases_of p1). split_and!; [done..|]. unfold grant. rewrite HMl. by right. }
    rewrite store_lt, bind_Ret by (by eapply lookup_lt_Some).
    destruct (renew_lease_spec s e p1 i l (now ⊞ lt) Hinv Hl Hu) as [Hinv' HM'].
    eexists true, _, (leases_of p1). split_and!; [done..|]. unfold grant. rewrite HMl. by left.
  - (* the address belongs to another client *)
    destruct (Him i eq_refl eq_refl) as (l & Hl & Hu & <- & Hne).
    pose proof (leases_of_slot _ _ _ _ _ Hinv Hl Hu) as HMl.
    exists false, p1, (leases_of p1). split_and!; [done..|]. unfold grant.
    destruct (leases_of p1 !! mac) as [[ip0 x0]|] eqn:Hmac; right; [|by split_and!; [left; do 2 eexists|..]].
    split_and!; [|done..]. intros ->. by specialize (Hinj _ _ _ _ _ Hmac HMl).
  - (* a new lease *)
    destruct (Hfs i eq_refl) as (l & Hl & Hu). rewrite store_lt, bind_Ret by (by eapply lookup_lt_Some).
    destruct (new_lease_spec s e p1 i l ip mac (now ⊞ lt) Hinv Hl Hu Hip Hm Hi) as (Hinv' & HM' & Hlt).
    rewrite (wrap_small 16) by (unfold uword; lia). eexists true, _, (leases_of p1). split_and!; [done..|].
    unfold grant. rewrite (not_elem_of_list_to_map_1 _ _ Hm : leases_of p1 !! mac = None). left.
    split_and!; [|lia|done|done]. by rewrite (held_active ip _ Hnd).
  - (* the array is full *)
    exists false, p1, (leases_of p1). split_and!; [done..|].
    unfold grant. rewrite (not_elem_of_list_to_map_1 _ _ Hm : leases_of p1 !! mac = None). right.
    split_and!; [|done..]. right. rewrite Hsz, Hc, (active_full _ (Hfull eq_refl eq_refl eq_refl)). lia.
Qed.

(** ** The array pool is a lease store *)

#[export] Instance array_store : LeaseStore dhcp_arraypool_t := {
  ls_inv := array_inv;
  ls_map := leases_of;
  ls_cap := array_cap;
  ls_find := dhcp_arraypool_find_available_ip;
  ls_alloc := dhcp_arraypool_alloc_lease;
  ls_decline := dhcp_arraypool_decline_lease
}.

Lemma array_cap_eq p p' : ap_max_leases p' = ap_max_leases p → array_cap p' = array_cap p.
Proof. unfold array_cap. by intros ->. Qed.

#[export] Instance array_store_laws : LeaseStoreLaws dhcp_arraypool_t.
Proof.
  split; cbn [ls_inv ls_map ls_cap ls_find ls_alloc ls_decline array_store].
  - exact array_lease_inj.
  - exact array_in_pool.
  - intros s e p Hi. rewrite (leases_of_size s e p Hi). unfold array_cap.
    rewrite (ai_count _ _ _ Hi), <- (ai_length _ _ _ Hi), !Nat2Z.id. apply active_length.
  - intros s e p mac now Hi _ _.
    destruct (array_find_spec s e p mac now Hi) as (ip & p' & ? & ? & ?%array_cap_eq & ?). eauto 10.
  - intros s e p ip mac lt now Hi _ Hip _.
    destruct (array_alloc_spec s e p ip mac lt now Hi Hip)
      as (b & p' & M & ? & ? & ?%array_cap_eq & ? & ? & ?). eauto 10.
  - intros s e p mac Hi _.
    destruct (array_decline_spec s e p mac Hi) as (p' & ? & ? & ?%array_cap_eq & ?). eauto 10.
Qed.

Lemma active_unused ls : active ((λ l, set_in_use l 0) <$> ls) = [].
Proof. induction ls as [|l ls IH]; [done|]. unfold active in *. by rewrite fmap_cons, bind_cons. Qed.

Lemma array_init_inv s e ls :
  0 < s → s ≤ e → e < 2 ^ 32 → Z.of_nat (length ls) < 2 ^ 16 →
  let p := dhcp_arraypool_init s (Some ls) (Z.of_nat (length ls)) in
  array_inv s e p ∧ leases_of p = ∅.
Proof.
  intros Hs He Hb Hlen. cbn zeta. unfold dhcp_arraypool_init, leases_of. cbn [ap_leases].
  rewrite active_unused. split; [|done].
  split; cbn [ap_leases ap_max_leases ap_lease_count ap_next_ip]; rewrite ?active_unused.
  - by rewrite length_fmap.
  - unfold uword. lia.
  - done.
  - by split; constructor.
  - lia.
  - lia.
Qed.

(** ** Properties of the ARRAY pool *)

(** One operation of the pool, with the address range fixed at start-up. *)
Inductive array_step (s e : Z) : dhcp_arraypool_t → dhcp_arraypool_t → Prop :=
  | step_find p mac now ip p' :
      dhcp_arraypool_find_available_ip p s e mac now = Ret (ip, p') → array_step s e p p'
  | step_alloc p ip mac lt now b p' :
      s ≤ ip ≤ e → dhcp_arraypool_alloc_lease p ip mac lt now = Ret (b, p') → array_step s e p p'
  | step_decline p mac p' :
      dhcp_arraypool_decline_lease p mac = Ret p' → array_step s e p p'
  | step_cleanup p now : array_step s e p (cleanup_if_full p now).

Lemma array_step_inv s e p p' : array_inv s e p → array_step s e p p' → array_inv s e p'.
Proof.
  intros Hi Hstep. destruct Hstep as [p mac now ip p' H|p ip mac lt now b p' Hip H|p mac p' H|p now].
  - destruct (array_find_spec s e p mac now Hi) as (? & ? & ? & ? & ?). congruence.
  - destruct (array_alloc_spec s e p ip mac lt now Hi Hip) as (? & ? & ? & ? & ? & ?). congruence.
  - destruct (array_decline_spec s e p mac Hi) as (? & ? & ? & ?). congruence.
  - by apply cleanup_if_full_spec.
Qed.

(** C20: Whatever sequence of offers, grants of addresses of the pool, declines and
    clean-ups runs on a freshly initialised array pool (of fewer than 2^16 entries, with a
    range of 32-bit addresses that does not begin at 0), no two entries in use have the same client or
    the same address, every leased address is in the pool, [lease_count] is the
    number of entries in use (so it never wraps), and the next operation again
    returns normally. *)
Theorem array_pool_invariant (s e : Z) (ls : list dhcp_lease_t) (p : dhcp_arraypool_t) :
  0 < s → s ≤ e → e < 2 ^ 32 → Z.of_nat (length ls) < 2 ^ 16 →
  rtc (array_step s e) (dhcp_arraypool_init s (Some ls) (Z.of_nat (length ls))) p →
  (∀ i j li lj, i ≠ j → ap_leases p !! i = Some li → ap_leases p !! j = Some lj →
     truth (in_use li) = true → truth (in_use lj) = true →
     mac_address li ≠ mac_address lj ∧ ip_address li ≠ ip_address lj) ∧
  (∀ i l, ap_leases p !! i = Some l → truth (in_use l) = true → s ≤ ip_address l ≤ e) ∧
  ap_lease_count p = Z.of_nat (length (filter (λ l, truth (in_use l) = true) (ap_leases p))) ∧
  (∀ mac now, ∃ r, dhcp_arraypool_find_available_ip p s e mac now = Ret r) ∧
  (∀ ip mac lt now, s ≤ ip ≤ e → ∃ r, dhcp_arraypool_alloc_lease p ip mac lt now = Ret r) ∧
  (∀ mac, ∃ p', dhcp_arraypool_decline_lease p mac = Ret p').
Proof.
  intros Hs He Hb Hlen Hsteps.
  assert (Hinv : array_inv s e p).
  { destruct (array_init_inv s e ls Hs He Hb Hlen) as [H0 _].
    revert H0. induction Hsteps; eauto using array_step_inv. }
  split_and!.
  - intros i j li lj Hij Hi Hj Hui Huj.
    apply (active_distinct (ap_leases p) i j); try done; apply Hinv.
  - intros i l Hi Hu. eapply (array_in_pool _ _ _ Hinv (mac_address l) _ (expire_time l)).
    apply lookup_leases; [apply Hinv|]. apply elem_of_active. eauto 10.
  - rewrite (ai_count _ _ _ Hinv). f_equal. apply active_count.
  - intros mac now. destruct (array_find_spec s e p mac now Hinv) as (? & ? & ? & _). eauto.
  - intros ip mac lt now Hip.
    destruct (array_alloc_spec s e p ip mac lt now Hinv Hip) as (? & ? & ? & ? & _). eauto.
  - intros mac. destruct (array_decline_spec s e p mac Hinv) as (? & ? & _). eauto.
Qed.

Definition free_lease : dhcp_lease_t := mkLease 0 [0; 0; 0; 0; 0; 0] 0 0.
Definition sample_pool : dhcp_arraypool_t :=
  dhcp_arraypool_init 100 (Some [free_lease; free_lease]) 2.
Definition mac_a : list Z := [2; 0; 0; 0; 0; 10].
Definition mac_b : list Z := [2; 0; 0; 0; 0; 11].

(** The pool after client [mac_a] was granted 100. *)
Definition sample_pool1 : dhcp_arraypool_t :=
  mkArrayPool [mkLease 100 mac_a 3700 1; free_lease] 2 1 100.

Lemma sample_step : array_step 100 101 sample_pool sample_pool1.
Proof. apply (step_alloc _ _ _ 100 mac_a 3600 100 true); [lia | vm_compute; reflexivity]. Qed.

Lemma sample_pool1_inv : array_inv 100 101 sample_pool1.
Proof.
  apply (array_step_inv _ _ sample_pool); [|exact sample_step].
  apply (array_init_inv 100 101 [free_lease; free_lease]); cbn; lia.
Qed.

Lemma array_pool_invariant_witness :
  rtc (array_step 100 101) sample_pool sample_pool1 ∧
  ap_lease_count sample_pool1
  = Z.of_nat (length (filter (λ l, truth (in_use l) = true) (ap_leases sample_pool1))).
Proof.
  assert (Hr : rtc (array_step 100 101) sample_pool sample_pool1)
    by (eapply rtc_once, sample_step).
  split; [exact Hr|].
  assert (H := array_pool_invariant 100 101 [free_lease; free_lease] sample_pool1
                 ltac:(lia) ltac:(lia) ltac:(lia) ltac:(cbn; lia) Hr).
  apply H.
Defined.

(** [dhcp_arraypool_alloc_lease] implements the lease-map specification on
    every branch: it first drops leases that have expired (only when the array
    is full), then renews the client's own lease, refuses a second address for a
    client or an address of another client, refuses when full, and otherwise
    records the new lease; the early [break] of its scan never changes the
    answer. *)
Theorem array_alloc_refines (s e : Z) (p : dhcp_arraypool_t) (ip : Z) (mac : list Z) (lt now : Z) :
  array_inv s e p → s ≤ ip ≤ e →
  ∃ b p' M, dhcp_arraypool_alloc_lease p ip mac lt now = Ret (b, p') ∧ array_inv s e p' ∧
    pruned now (leases_of p) M ∧
    ((size (leases_of p) < Z.to_nat (ap_max_leases p))%nat → M = leases_of p) ∧
    grant (Z.to_nat (ap_max_leases p)) ip mac (now ⊞ lt) M b (leases_of p').
Proof.
  intros Hi Hip.
  destruct (array_alloc_spec s e p ip mac lt now Hi Hip) as (b & p' & M & ? & ? & _ & ?).
  by exists b, p', M.
Qed.

Lemma array_alloc_refines_witness :
  ∃ b p' M, dhcp_arraypool_alloc_lease sample_pool1 101 mac_b 3600 200 = Ret (b, p') ∧
    array_inv 100 101 p' ∧ pruned 200 (leases_of sample_pool1) M ∧
    ((size (leases_of sample_pool1) < 2)%nat → M = leases_of sample_pool1) ∧
    grant 2 101 mac_b 3800 M b (leases_of p').
Proof.
  exact (array_alloc_refines 100 101 sample_pool1 101 mac_b 3600 200 sample_pool1_inv ltac:(lia)).
Defined.

(** [dhcp_arraypool_find_available_ip] offers a client its own lease; to a
    new client it offers an address of the pool nobody holds whenever the array
    has a free entry and such an address exists, and 0 otherwise; only expired
    leases are dropped and the round-robin pointer stays in the pool. *)
Theorem array_find_offers (s e : Z) (p : dhcp_arraypool_t) (mac : list Z) (now : Z) :
  array_inv s e p →
  ∃ ip p', dhcp_arraypool_find_available_ip p s e mac now = Ret (ip, p') ∧ array_inv s e p' ∧
    pruned now (leases_of p) (leases_of p') ∧
    offerable (Z.to_nat (ap_max_leases p)) s e mac (leases_of p') ip.
Proof.
  intros Hi. destruct (array_find_spec s e p mac now Hi) as (ip & p' & ? & ? & _ & ?).
  by exists ip, p'.
Qed.

Lemma array_find_offers_witness :
  ∃ ip p', dhcp_arraypool_find_available_ip sample_pool1 100 101 mac_b 200 = Ret (ip, p') ∧
    array_inv 100 101 p' ∧ pruned 200 (leases_of sample_pool1) (leases_of p') ∧
    offerable 2 100 101 mac_b (leases_of p') ip.
Proof. exact (array_find_offers 100 101 sample_pool1 mac_b 200 sample_pool1_inv). Defined.
