(* ===== verification/HashTab.v ===== *)
(** * The open-addressing hash table

    [ds-lib/hash.h] and [ds-lib/hash.c]: the functions the macro
    [DEFINE_HASH_IMPL] generates, for any element size, hash and comparison
    function (the function pointers stored in the table at [hash_init]).
    [bench-live/lib/hash.c] is the same code for one element size.  An element
    pointer into the table is its bucket index. *)
From S2P Require Import Prelude.

Open Scope Z_scope.

Definition HASH_OP_FAIL : Z := 0.
Definition HASH_OP_SUCCESS : Z := 1.

Record hash_elem := mkElem {
  elem : list Z;
  elem_size : Z
}.

Record hash_tab := mkTab {
  buckets : list hash_elem;
  occupied : list Z;
  elem_cnt : Z;
  capacity : nat
}.

(** What the probe loop found: an equal element, a free bucket, or neither
    after a full turn. *)
Inductive probe_result :=
  | Hit (i : nat)
  | Gap (i : nat)
  | Wrapped.

Section HashTab.
Context (ELEM_MAX : nat).
Context (hash : hash_elem → Z) (comp : hash_elem → hash_elem → Z).

Definition zero_elem : hash_elem := mkElem (replicate ELEM_MAX 0) 0.

Definition insert_elem (h : hash_tab) (idx : nat) (new : hash_elem) : outcome hash_tab :=
  occ ← store (occupied h) idx 1;
  b ← store (buckets h) idx new;
  Ret (mkTab b occ (elem_cnt h) (capacity h)).

Definition replace_elem (h : hash_tab) (idx : nat) (new : hash_elem) : outcome hash_tab :=
  b ← store (buckets h) idx new;
  Ret (mkTab b (occupied h) (elem_cnt h) (capacity h)).

Definition clear_elem (h : hash_tab) (idx : nat) : outcome hash_tab :=
  occ ← store (occupied h) idx 0;
  b ← store (buckets h) idx zero_elem;
  Ret (mkTab b occ (elem_cnt h) (capacity h)).

Definition set_cnt (h : hash_tab) (n : Z) : hash_tab :=
  mkTab (buckets h) (occupied h) n (capacity h).

(** [h->hash (e, h->aux) % h->capacity] *)
Definition home (h : hash_tab) (e : hash_elem) : nat :=
  Z.to_nat (hash e `mod` Z.of_nat (capacity h)).

(** [(i + 1) % h->capacity] *)
Definition next (h : hash_tab) (i : nat) : nat := ((i + 1) mod capacity h)%nat.

Fixpoint clear_loop (n i : nat) (h : hash_tab) : outcome hash_tab :=
  match n with
  | O => Ret h
  | S n => h ← clear_elem h i; clear_loop n (S i) h
  end.

Definition hash_clear (h : hash_tab) : outcome hash_tab :=
  h ← clear_loop (capacity h) 0 h;
  Ret (set_cnt h 0).

(** [hash_init] on storage for [HASH_N] elements *)
Definition hash_init (HASH_N : nat) (h : hash_tab) : outcome (Z * hash_tab) :=
  let h := mkTab (buckets h) (occupied h) (elem_cnt h) HASH_N in
  h ← hash_clear h;
  if negb (elem_cnt h =? 0) then Ret (HASH_OP_FAIL, h) else Ret (HASH_OP_SUCCESS, h).

(** The [while (h->occupied[h_idx])] loop of [hash_find], [hash_insert] and
    [hash_delete]. *)
Fixpoint probe_loop (fuel : nat) (h : hash_tab) (e : hash_elem) (h_idx start_idx : nat)
    : outcome probe_result :=
  match fuel with
  | O => Diverge
  | S fuel =>
      o ← deref (occupied h) h_idx;
      if truth o then
        b ← deref (buckets h) h_idx;
        if comp b e =? 0 then Ret (Hit h_idx)
        else
          let h_idx := next h h_idx in
          if (h_idx =? start_idx)%nat then Ret Wrapped else probe_loop fuel h e h_idx start_idx
      else Ret (Gap h_idx)
  end.

Definition probe (h : hash_tab) (e : hash_elem) : outcome probe_result :=
  probe_loop (capacity h) h e (home h e) (home h e).

Definition hash_find (h : hash_tab) (e : hash_elem) : outcome (option nat) :=
  r ← probe h e;
  match r with Hit i => Ret (Some i) | _ => Ret None end.

Definition hash_insert (h : hash_tab) (new : hash_elem) : outcome (Z * hash_tab) :=
  if Z.of_nat (capacity h) =? elem_cnt h then Ret (HASH_OP_FAIL, h) else
  r ← probe h new;
  match r with
  | Hit i => h ← replace_elem h i new; Ret (HASH_OP_SUCCESS, h)
  | Wrapped => Ret (HASH_OP_FAIL, h)
  | Gap i => h ← insert_elem h i new; Ret (HASH_OP_SUCCESS, set_cnt h (u32 (elem_cnt h + 1)))
  end.

Definition hash_replace (h : hash_tab) (new : hash_elem) : outcome (Z * hash_tab) :=
  r ← hash_find h new;
  match r with
  | None => Ret (HASH_OP_FAIL, h)
  | Some i => h ← replace_elem h i new; Ret (HASH_OP_SUCCESS, h)
  end.

(** The inner loop of [hash_delete]: the first free bucket from [movable_idx]
    up to [next_idx]. *)
Fixpoint movable_loop (fuel : nat) (h : hash_tab) (movable_idx next_idx : nat) : outcome nat :=
  match fuel with
  | O => Diverge
  | S fuel =>
      if (movable_idx =? next_idx)%nat then Ret movable_idx else
      o ← deref (occupied h) movable_idx;
      if truth o then movable_loop fuel h (next h movable_idx) next_idx else Ret movable_idx
  end.

(** Moves the element at [next_idx] into a free bucket of its probe path. *)
Definition shift_one (h : hash_tab) (next_idx : nat) (b : hash_elem) : outcome hash_tab :=
  let expected_idx := home h b in
  if (expected_idx =? next_idx)%nat then Ret h else
  movable_idx ← movable_loop (capacity h) h expected_idx next_idx;
  if (movable_idx =? next_idx)%nat then Ret h else
  h ← insert_elem h movable_idx b;
  clear_elem h next_idx.

(** The outer loop of [hash_delete]. *)
Fixpoint shift_loop (fuel : nat) (h : hash_tab) (next_idx start_idx : nat) : outcome hash_tab :=
  match fuel with
  | O => Diverge
  | S fuel =>
      o ← deref (occupied h) next_idx;
      if truth o then
        b ← deref (buckets h) next_idx;
        h ← shift_one h next_idx b;
        let next_idx := next h next_idx in
        if (next_idx =? start_idx)%nat then Ret h else shift_loop fuel h next_idx start_idx
      else Ret h
  end.

Definition hash_delete (h : hash_tab) (e : hash_elem) : outcome (Z * hash_tab) :=
  r ← probe h e;
  match r with
  | Hit h_idx =>
      h ← clear_elem h h_idx;
      let h := set_cnt h (u32 (elem_cnt h - 1)) in
      h ← shift_loop (capacity h) h (next h h_idx) h_idx;
      Ret (HASH_OP_SUCCESS, h)
  | _ => Ret (HASH_OP_FAIL, h)
  end.

Definition hash_size (h : hash_tab) : Z := elem_cnt h.
Definition hash_empty (h : hash_tab) : bool := elem_cnt h =? 0.

(** ** Buckets as a partial function *)

Definition slot (h : hash_tab) (i : nat) : option hash_elem :=
  match occupied h !! i, buckets h !! i with
  | Some o, Some b => if truth o then Some b else None
  | _, _ => None
  end.

Record tab_wf (h : hash_tab) : Prop := {
  tw_buckets : length (buckets h) = capacity h;
  tw_occupied : length (occupied h) = capacity h;
  tw_cap : (0 < capacity h)%nat
}.

Definition occ_count (l : list Z) : nat := length (filter (λ o, truth o = true) l).

(** Steps from bucket [a] forward to bucket [b], around the table. *)
Definition dist (h : hash_tab) (a b : nat) : nat :=
  if (a <=? b)%nat then (b - a)%nat else (b + capacity h - a)%nat.

Lemma dist_spec h a b : (a < capacity h)%nat → (b < capacity h)%nat →
  (dist h a b < capacity h)%nat ∧
  ((a + dist h a b = b)%nat ∨ (a + dist h a b = b + capacity h)%nat).
Proof. intros. unfold dist. destruct (Nat.leb_spec a b); lia. Qed.

Lemma next_spec h i : (i < capacity h)%nat →
  (next h i < capacity h)%nat ∧ (next h i = i + 1 ∨ next h i + capacity h = i + 1)%nat.
Proof.
  intros Hi. unfold next. destruct (decide (i + 1 = capacity h)%nat) as [E|].
  - rewrite E, Nat.Div0.mod_same. lia.
  - rewrite Nat.mod_small by lia. lia.
Qed.

Lemma home_lt h e : (0 < capacity h)%nat → (home h e < capacity h)%nat.
Proof.
  intros. unfold home. pose proof (Z.mod_pos_bound (hash e) (Z.of_nat (capacity h))). lia.
Qed.

Lemma slot_lt h i e : tab_wf h → slot h i = Some e → (i < capacity h)%nat.
Proof.
  intros [Hb _ _]. unfold slot. destruct (occupied h !! i); [|done].
  destruct (buckets h !! i) eqn:E; [|done]. apply lookup_lt_Some in E. lia.
Qed.

(** Reading a bucket: its occupancy flag and its element agree with [slot]. *)
Lemma slot_read h i : tab_wf h → (i < capacity h)%nat →
  ∃ o b, deref (occupied h) i = Ret o ∧ deref (buckets h) i = Ret b ∧
    slot h i = if truth o then Some b else None.
Proof.
  intros [Hb Ho _] Hi.
  destruct (deref_lt (occupied h) i) as (o & Eo & ?); [lia|].
  destruct (deref_lt (buckets h) i) as (b & Eb & ?); [lia|].
  exists o, b. split_and!; [done..|]. unfold slot. by rewrite Eo, Eb.
Qed.

Lemma slot_set b o c n i :
  length b = n → length o = n → (i < n)%nat → ∀ (x : hash_elem) (v : Z) j,
  slot (mkTab (<[i := x]> b) (<[i := v]> o) c n) j
  = if decide (j = i) then (if truth v then Some x else None) else slot (mkTab b o c n) j.
Proof.
  intros Hb Ho Hi x v j. unfold slot; cbn. case_decide as E; [subst j|].
  - by rewrite !list_lookup_insert_eq by lia.
  - by rewrite !list_lookup_insert_ne by done.
Qed.

Lemma occ_count_insert l i o v : l !! i = Some o →
  (occ_count (<[i := v]> l) + (if truth o then 1 else 0)
   = occ_count l + (if truth v then 1 else 0))%nat.
Proof.
  intros Hi. unfold occ_count. rewrite insert_take_drop by (by eapply lookup_lt_Some).
  rewrite <- (take_drop_middle l i o Hi) at 3.
  rewrite !filter_app, !length_app, !filter_cons.
  destruct (truth o) eqn:Eo, (truth v) eqn:Ev; repeat case_decide; cbn; (lia || congruence).
Qed.

(** [insert_elem] and [clear_elem] on a well-formed table *)
Lemma insert_elem_spec h i x : tab_wf h → (i < capacity h)%nat →
  ∃ h', insert_elem h i x = Ret h' ∧ tab_wf h' ∧ capacity h' = capacity h ∧
    elem_cnt h' = elem_cnt h ∧
    (∀ j, slot h' j = if decide (j = i) then Some x else slot h j) ∧
    (occ_count (occupied h') + (if slot h i is Some _ then 1 else 0) = occ_count (occupied h) + 1)%nat.
Proof.
  intros Hwf Hi. pose proof Hwf as [Hb Ho Hc]. unfold insert_elem.
  rewrite (store_lt (occupied h)), bind_Ret, (store_lt (buckets h)), bind_Ret by lia.
  eexists. split_and!; [done | | done | done | |].
  - split; cbn; rewrite ?length_insert; lia.
  - destruct h as [b o c n]. cbn in *. intros j. by rewrite slot_set by lia.
  - cbn [occupied]. destruct (deref_lt (occupied h) i) as (o & Eo & _); [lia|].
    destruct (deref_lt (buckets h) i) as (b & Eb & _); [lia|].
    pose proof (occ_count_insert _ _ _ 1 Eo) as H. change (truth 1) with true in H.
    unfold slot. rewrite Eo, Eb. destruct (truth o); lia.
Qed.

Lemma clear_elem_spec h i : tab_wf h → (i < capacity h)%nat →
  ∃ h', clear_elem h i = Ret h' ∧ tab_wf h' ∧ capacity h' = capacity h ∧
    elem_cnt h' = elem_cnt h ∧
    (∀ j, slot h' j = if decide (j = i) then None else slot h j) ∧
    (occ_count (occupied h') + (if slot h i is Some _ then 1 else 0) = occ_count (occupied h))%nat.
Proof.
  intros Hwf Hi. pose proof Hwf as [Hb Ho Hc]. unfold clear_elem.
  rewrite (store_lt (occupied h)), bind_Ret, (store_lt (buckets h)), bind_Ret by lia.
  eexists. split_and!; [done | | done | done | |].
  - split; cbn; rewrite ?length_insert; lia.
  - destruct h as [b o c n]. cbn in *. intros j. by rewrite slot_set by lia.
  - cbn [occupied]. destruct (deref_lt (occupied h) i) as (o & Eo & _); [lia|].
    destruct (deref_lt (buckets h) i) as (b & Eb & _); [lia|].
    pose proof (occ_count_insert _ _ _ 0 Eo) as H. change (truth 0) with false in H.
    unfold slot. rewrite Eo, Eb. destruct (truth o); lia.
Qed.

Lemma replace_elem_spec h i x y : tab_wf h → slot h i = Some y →
  ∃ h', replace_elem h i x = Ret h' ∧ tab_wf h' ∧ capacity h' = capacity h ∧
    elem_cnt h' = elem_cnt h ∧ occupied h' = occupied h ∧
    (∀ j, slot h' j = if decide (j = i) then Some x else slot h j).
Proof.
  intros Hwf Hs. pose proof (slot_lt _ _ _ Hwf Hs) as Hi. pose proof Hwf as [Hb Ho Hc].
  unfold replace_elem. rewrite store_lt, bind_Ret by lia.
  eexists. split_and!; [done | | done | done | done |].
  - split; cbn; rewrite ?length_insert; lia.
  - intros j. unfold slot in *; cbn. case_decide as E; [subst j|].
    + rewrite list_lookup_insert_eq by lia. repeat case_match; congruence.
    + by rewrite list_lookup_insert_ne by done.
Qed.

(** ** The table invariant

    The client's contract: elements compare equal exactly when they have the
    same key, and equal keys hash alike. *)
Context (valid : hash_elem → Prop) (key : hash_elem → list Z).
Hypothesis comp_key : ∀ a b, valid a → valid b → comp a b = 0 ↔ key a = key b.
Hypothesis hash_key : ∀ a b, valid a → valid b → key a = key b → hash a = hash b.

(** Every bucket between an element's home bucket and the element is taken. *)
Definition path_ok (h : hash_tab) : Prop :=
  ∀ i e, slot h i = Some e → ∀ x, (x < capacity h)%nat →
    (dist h (home h e) x < dist h (home h e) i)%nat → is_Some (slot h x).

(** Bucket [z] lies strictly inside no element's probe path. *)
Definition uncrossed (h : hash_tab) (z : nat) : Prop :=
  ∀ i e, slot h i = Some e → (dist h (home h e) i ≤ dist h (home h e) z)%nat.

Definition keys_unique (h : hash_tab) : Prop :=
  ∀ i j e e', slot h i = Some e → slot h j = Some e' → key e = key e' → i = j.

Definition all_valid (h : hash_tab) : Prop := ∀ i e, slot h i = Some e → valid e.

Record tab_inv (h : hash_tab) : Prop := {
  ti_wf : tab_wf h;
  ti_valid : all_valid h;
  ti_path : path_ok h;
  ti_unique : keys_unique h;
  ti_gap : ∃ z, (z < capacity h)%nat ∧ uncrossed h z;
  ti_cnt : elem_cnt h = Z.of_nat (occ_count (occupied h));
  ti_cap : Z.of_nat (capacity h) < 2 ^ 32
}.

Lemma home_key h a b : valid a → valid b → key a = key b → home h a = home h b.
Proof. intros Ha Hb Hk. unfold home. by rewrite (hash_key a b). Qed.

Lemma dist_inj h a x y :
  (a < capacity h)%nat → (x < capacity h)%nat → (y < capacity h)%nat →
  dist h a x = dist h a y → x = y.
Proof. intros Ha Hx Hy. pose proof (dist_spec h a x). pose proof (dist_spec h a y). lia. Qed.

Lemma dist_next h a i :
  (a < capacity h)%nat → (i < capacity h)%nat → next h i ≠ a →
  dist h a (next h i) = S (dist h a i).
Proof.
  intros Ha Hi Hne. pose proof (next_spec h i Hi) as [Hn Hn'].
  pose proof (dist_spec h a i Ha Hi). pose proof (dist_spec h a (next h i) Ha Hn). lia.
Qed.

Lemma dist_next_wrap h a i :
  (a < capacity h)%nat → (i < capacity h)%nat → next h i = a →
  S (dist h a i) = capacity h.
Proof.
  intros Ha Hi Hne. pose proof (next_spec h i Hi) as [Hn Hn'].
  pose proof (dist_spec h a i Ha Hi). lia.
Qed.

Lemma dist_self h a : dist h a a = 0%nat.
Proof. unfold dist. rewrite (proj2 (Nat.leb_le a a)) by lia. lia. Qed.

(** ** The probe loop *)

(** The first [k] buckets from [a] on hold elements with other keys. *)
Definition passed (h : hash_tab) (e : hash_elem) (a k : nat) : Prop :=
  ∀ x, (x < capacity h)%nat → (dist h a x < k)%nat → ∃ e', slot h x = Some e' ∧ key e' ≠ key e.

Definition probe_post (h : hash_tab) (e : hash_elem) (a : nat) (r : probe_result) : Prop :=
  match r with
  | Hit i => ∃ e', slot h i = Some e' ∧ key e' = key e
  | Gap i => (i < capacity h)%nat ∧ slot h i = None ∧ passed h e a (dist h a i)
  | Wrapped => passed h e a (capacity h)
  end.

Lemma passed_step h e a i b :
  (a < capacity h)%nat → (i < capacity h)%nat →
  passed h e a (dist h a i) → slot h i = Some b → key b ≠ key e →
  passed h e a (S (dist h a i)).
Proof.
  intros Ha Hi Hp Hs Hk x Hx Hd. destruct (decide (dist h a x = dist h a i)) as [E|].
  - apply dist_inj in E as ->; eauto.
  - apply Hp; [done|lia].
Qed.

Lemma probe_loop_spec h e a : tab_wf h → all_valid h → valid e → (a < capacity h)%nat →
  ∀ fuel i, (i < capacity h)%nat → (capacity h ≤ dist h a i + fuel)%nat →
  passed h e a (dist h a i) →
  ∃ r, probe_loop fuel h e i a = Ret r ∧ probe_post h e a r.
Proof.
  intros Hwf Hval Hv Ha. induction fuel as [|fuel IH]; intros i Hi Hf Hp.
  { pose proof (dist_spec h a i). lia. }
  cbn [probe_loop]. destruct (slot_read h i Hwf Hi) as (o & b & -> & -> & Hs). rewrite !bind_Ret.
  destruct (truth o); [|by exists (Gap i)].
  pose proof (comp_key b e (Hval _ _ Hs) Hv) as Hck.
  destruct (Z.eqb_spec (comp b e) 0) as [E|E].
  { exists (Hit i). split; [done|]. exists b. split; [done|]. by apply Hck. }
  assert (Hk : key b ≠ key e) by (by rewrite <- Hck).
  pose proof (passed_step h e a i b Ha Hi Hp Hs Hk) as Hp'. cbv zeta.
  destruct (Nat.eqb_spec (next h i) a) as [En|En].
  - exists Wrapped. split; [done|]. cbn. by rewrite <- (dist_next_wrap h a i).
  - apply IH.
    + by apply next_spec.
    + rewrite dist_next by done. lia.
    + by rewrite dist_next.
Qed.

Lemma probe_spec h e : tab_wf h → all_valid h → valid e →
  ∃ r, probe h e = Ret r ∧ probe_post h e (home h e) r.
Proof.
  intros Hwf Hval Hv. pose proof (tw_cap _ Hwf) as Hc. pose proof (home_lt h e Hc) as Hh.
  apply probe_loop_spec; [done..| |].
  - lia.
  - intros x Hx. rewrite dist_self. lia.
Qed.

(** A key the probe did not find is nowhere in the table. *)
Lemma probe_absent h e r : tab_inv h → valid e → probe_post h e (home h e) r →
  match r with Hit _ => True | _ => ∀ i e', slot h i = Some e' → key e' ≠ key e end.
Proof.
  intros [Hwf Hval Hpath _ _ _ _] Hv. pose proof (tw_cap _ Hwf) as Hc.
  pose proof (home_lt h e Hc) as Hh. destruct r as [j|j|]; [done| |]; cbn.
  - intros (Hj & Hn & Hp) i e' Hs Hk. pose proof (slot_lt _ _ _ Hwf Hs) as Hi.
    rewrite <- (home_key h e' e) in * by eauto.
    destruct (decide (dist h (home h e') j < dist h (home h e') i)%nat) as [Hd|Hd].
    + destruct (Hpath i e' Hs j Hj Hd). congruence.
    + destruct (decide (dist h (home h e') i = dist h (home h e') j)) as [E|].
      * apply dist_inj in E as ->; [congruence|done..].
      * destruct (Hp i Hi) as (e'' & ? & ?); [lia|]. congruence.
  - intros Hp i e' Hs Hk. pose proof (slot_lt _ _ _ Hwf Hs) as Hi.
    destruct (Hp i Hi) as (e'' & ? & ?); [|congruence]. by apply dist_spec.
Qed.

(** ** The table as a finite map from keys to elements *)

Definition elems (h : hash_tab) : list hash_elem := omap (slot h) (seq 0 (capacity h)).

Definition tab_map (h : hash_tab) : gmap (list Z) hash_elem :=
  list_to_map ((λ e, (key e, e)) <$> elems h).

Lemma elem_of_elems h e : tab_wf h → e ∈ elems h ↔ ∃ i, slot h i = Some e.
Proof.
  intros Hwf. unfold elems. rewrite list_elem_of_omap. split.
  - intros (i & _ & Hs). eauto.
  - intros (i & Hs). exists i. split; [|done]. apply elem_of_seq.
    pose proof (slot_lt _ _ _ Hwf Hs). lia.
Qed.

Lemma NoDup_omap_key (f : nat → option hash_elem) : ∀ l,
  NoDup l → (∀ i j e e', f i = Some e → f j = Some e' → key e = key e' → i = j) →
  NoDup (key <$> omap f l).
Proof.
  induction l as [|i l IH]; intros Hnd Hu; [constructor|].
  apply NoDup_cons in Hnd as [Hi Hnd]. cbn. destruct (f i) as [e|] eqn:E; [|by apply IH].
  cbn. apply NoDup_cons. split; [|by apply IH].
  intros (e' & Hk & (j & Hj & Hfj)%list_elem_of_omap)%list_elem_of_fmap.
  by rewrite (Hu i j e e') in Hi.
Qed.

Lemma keys_NoDup h : keys_unique h → NoDup ((λ e, (key e, e)) <$> elems h).*1.
Proof.
  intros Hu. rewrite <- list_fmap_compose. apply (NoDup_omap_key (slot h)); [apply NoDup_seq|done].
Qed.

Lemma tab_map_lookup h k e : tab_wf h → keys_unique h →
  tab_map h !! k = Some e ↔ ∃ i, slot h i = Some e ∧ key e = k.
Proof.
  intros Hwf Hu. unfold tab_map. rewrite <- elem_of_list_to_map by (by apply keys_NoDup).
  rewrite list_elem_of_fmap. split.
  - intros (e' & [= -> ->] & (i & Hs)%elem_of_elems); [eauto|done].
  - intros (i & Hs & <-). exists e. split; [done|]. apply elem_of_elems; eauto.
Qed.

Lemma tab_map_None h k : tab_wf h → keys_unique h →
  tab_map h !! k = None ↔ ∀ i e, slot h i = Some e → key e ≠ k.
Proof.
  intros Hwf Hu. rewrite eq_None_not_Some. split.
  - intros Hn i e Hs Hk. apply Hn. exists e. apply tab_map_lookup; eauto.
  - intros Hn [e (i & Hs & Hk)%tab_map_lookup]; [|done..]. by eapply Hn.
Qed.

Lemma length_omap_occ (f : nat → option hash_elem) : ∀ l n,
  (∀ j o, l !! j = Some o → is_Some (f (n + j)%nat) ↔ truth o = true) →
  length (omap f (seq n (length l))) = occ_count l.
Proof.
  induction l as [|o l IH]; intros n Hf; [done|]. unfold occ_count. rewrite filter_cons.
  pose proof (Hf 0%nat o eq_refl) as H0. rewrite Nat.add_0_r in H0.
  assert (Hl : length (omap f (seq (S n) (length l))) = occ_count l).
  { apply IH. intros j o' Hj. specialize (Hf (S j) o' Hj). by rewrite Nat.add_succ_r in Hf. }
  unfold occ_count in Hl. cbn [length seq omap list_omap].
  destruct (f n) eqn:E; case_decide as Hd; cbn [length]; rewrite ?Hl; try done.
  - exfalso. by apply Hd, H0.
  - apply H0 in Hd as [? ?]. congruence.
Qed.

Lemma slot_occupied h i o : tab_wf h → occupied h !! i = Some o →
  is_Some (slot h i) ↔ truth o = true.
Proof.
  intros Hwf Ho. pose proof (lookup_lt_Some _ _ _ Ho) as Hi. rewrite (tw_occupied _ Hwf) in Hi.
  destruct (slot_read h i Hwf Hi) as (o' & b & Ho' & _ & ->).
  apply deref_Ret in Ho'. rewrite Ho in Ho'. injection Ho' as <-.
  destruct (truth o); split; intros H; [done|by eexists|by destruct H|done].
Qed.

Lemma elems_count h : tab_wf h → length (elems h) = occ_count (occupied h).
Proof.
  intros Hwf. unfold elems. rewrite <- (tw_occupied _ Hwf). apply length_omap_occ.
  intros j o Hj. by apply slot_occupied.
Qed.

Lemma tab_map_size h : tab_inv h → size (tab_map h) = Z.to_nat (elem_cnt h).
Proof.
  intros [Hwf _ _ Hu _ Hc _]. unfold tab_map.
  rewrite map_size_list_to_map by (by apply keys_NoDup).
  rewrite length_fmap, elems_count by done. lia.
Qed.

Lemma occ_count_lt l : (∃ i o, l !! i = Some o ∧ truth o = false) → (occ_count l < length l)%nat.
Proof.
  intros (i & o & Hi & Ho). unfold occ_count. induction l as [|o' l IH] in i, Hi |- *; [done|].
  pose proof (length_filter (λ o, truth o = true) l). rewrite filter_cons.
  destruct i as [|i]; cbn in Hi; simplify_eq.
  - rewrite decide_False by congruence. cbn. lia.
  - specialize (IH i Hi). case_decide; cbn; lia.
Qed.

Lemma occ_count_all l : (∀ i o, l !! i = Some o → truth o = true) → occ_count l = length l.
Proof.
  induction l as [|o l IH]; intros H; [done|]. unfold occ_count in *. rewrite filter_cons.
  rewrite decide_True by (by apply (H 0%nat)). cbn. f_equal. apply IH. intros i. apply (H (S i)).
Qed.

Lemma occ_count_full h : tab_wf h → (∀ i, (i < capacity h)%nat → is_Some (slot h i)) →
  occ_count (occupied h) = capacity h.
Proof.
  intros Hwf Hall. rewrite <- (tw_occupied _ Hwf). apply occ_count_all.
  intros i o Ho. apply (slot_occupied h i o Hwf Ho), Hall.
  apply lookup_lt_Some in Ho. by rewrite <- (tw_occupied _ Hwf).
Qed.

(** Two tables with the same elements are the same map. *)
Lemma tab_map_ext h h' : tab_wf h → tab_wf h' → keys_unique h → keys_unique h' →
  (∀ e, (∃ i, slot h i = Some e) ↔ (∃ i, slot h' i = Some e)) → tab_map h = tab_map h'.
Proof.
  intros Hw Hw' Hu Hu' He. apply map_eq. intros k. apply option_eq. intros e.
  rewrite !tab_map_lookup by done. split; intros (i & Hi & Hk).
  - destruct (proj1 (He e) (ex_intro _ i Hi)) as [j Hj]. by exists j.
  - destruct (proj2 (He e) (ex_intro _ i Hi)) as [j Hj]. by exists j.
Qed.

(** ** Lookup and insertion *)

Lemma hash_find_map h e : tab_inv h → valid e →
  ∃ r, hash_find h e = Ret r ∧
    match r with
    | Some i => ∃ e', slot h i = Some e' ∧ key e' = key e ∧ tab_map h !! key e = Some e'
    | None => tab_map h !! key e = None
    end.
Proof.
  intros Hinv Hv. pose proof Hinv as [Hwf Hval _ Hu _ _ _]. unfold hash_find.
  destruct (probe_spec h e Hwf Hval Hv) as (r & -> & Hr). rewrite bind_Ret.
  pose proof (probe_absent h e r Hinv Hv Hr) as Habs. destruct r as [i|i|].
  - destruct Hr as (e' & Hs & Hk). exists (Some i). split; [done|].
    exists e'. split_and!; [done..|]. apply tab_map_lookup; eauto.
  - exists None. split; [done|]. by apply tab_map_None.
  - exists None. split; [done|]. by apply tab_map_None.
Qed.

(** What [slot] says determines the path properties; the geometry depends on
    the capacity only. *)
Lemma same_geometry h h' : capacity h' = capacity h →
  (∀ a b, dist h' a b = dist h a b) ∧ (∀ e, home h' e = home h e).
Proof. intros E. split; intros; unfold dist, home; by rewrite E. Qed.

Lemma slot_None_uncrossed h p : path_ok h → (p < capacity h)%nat → slot h p = None → uncrossed h p.
Proof.
  intros Hp Hlt Hn i e Hs. destruct (decide (dist h (home h e) i ≤ dist h (home h e) p)%nat); [done|].
  destruct (Hp i e Hs p Hlt); [lia|congruence].
Qed.

(** Writing an element with the same key over an element. *)
Lemma replace_inv h h' i y x : tab_inv h → slot h i = Some y → valid x → key x = key y →
  tab_wf h' → capacity h' = capacity h → elem_cnt h' = elem_cnt h → occupied h' = occupied h →
  (∀ j, slot h' j = if decide (j = i) then Some x else slot h j) →
  tab_inv h' ∧ tab_map h' = <[key x := x]> (tab_map h).
Proof.
  intros [Hwf Hval Hpath Hu (z & Hz & Hgap) Hc Hcap] Hi Hv Hk Hwf' Ecap Ecnt Eocc Hs.
  destruct (same_geometry h h' Ecap) as [Ed Eh].
  assert (Hhx : home h x = home h y) by (apply home_key; eauto).
  assert (Hold : ∀ j e, slot h' j = Some e → ∃ e0, slot h j = Some e0 ∧ home h e0 = home h e ∧ key e0 = key e).
  { intros j e Hj. rewrite Hs in Hj. case_decide; simplify_eq; eauto. }
  assert (Hu' : keys_unique h').
  { intros j k e e' Hj Hk' Hkey. destruct (Hold _ _ Hj) as (? & ? & _ & ?).
    destruct (Hold _ _ Hk') as (? & ? & _ & ?). eapply Hu; eauto. congruence. }
  split; [split|].
  - done.
  - intros j e Hj. rewrite Hs in Hj. case_decide; simplify_eq; eauto.
  - intros j e Hj a Ha Hd. destruct (Hold _ _ Hj) as (e0 & Hj0 & Hh0 & _).
    rewrite !Ed, !Eh, <- Hh0 in Hd. rewrite Ecap in Ha.
    destruct (Hpath _ _ Hj0 a Ha Hd). rewrite Hs. case_decide; eauto.
  - done.
  - exists z. rewrite Ecap. split; [done|]. intros j e Hj.
    destruct (Hold _ _ Hj) as (e0 & Hj0 & Hh0 & _). rewrite !Ed, !Eh, <- Hh0. by apply Hgap.
  - congruence.
  - by rewrite Ecap.
  - apply map_eq. intros k. apply option_eq. intros e.
    rewrite tab_map_lookup, lookup_insert_Some, tab_map_lookup by done. split.
    + intros (j & Hj & <-). rewrite Hs in Hj. case_decide as E; simplify_eq; [by left|].
      right. split; [|eauto]. intros Hkx. apply E, (Hu _ _ e y); congruence.
    + intros [[<- <-]|(Hne & j & Hj & <-)].
      * exists i. rewrite Hs, decide_True by done. done.
      * exists j. rewrite Hs. case_decide; [simplify_eq; congruence|done].
Qed.

(** Filling a free bucket that ends the new element's probe path. *)
Lemma fill_inv h h' i x : tab_inv h → (i < capacity h)%nat → slot h i = None → valid x →
  passed h x (home h x) (dist h (home h x) i) →
  (∀ j e, slot h j = Some e → key e ≠ key x) →
  tab_wf h' → capacity h' = capacity h → elem_cnt h' = elem_cnt h + 1 →
  occ_count (occupied h') = S (occ_count (occupied h)) →
  (∀ j, slot h' j = if decide (j = i) then Some x else slot h j) →
  tab_inv h' ∧ tab_map h' = <[key x := x]> (tab_map h).
Proof.
  intros [Hwf Hval Hpath Hu _ Hc Hcap] Hi Hni Hv Hp Habs Hwf' Ecap Ecnt Eocc Hs.
  destruct (same_geometry h h' Ecap) as [Ed Eh].
  pose proof (slot_None_uncrossed h i Hpath Hi Hni) as Hgap.
  assert (Hu' : keys_unique h').
  { intros j k e e'. rewrite !Hs. repeat case_decide; intros; simplify_eq; [done| | |by eapply Hu].
    - exfalso. eapply Habs; eauto.
    - exfalso. eapply Habs; eauto. }
  split; [split|].
  - done.
  - intros j e. rewrite Hs. case_decide; intros; simplify_eq; eauto.
  - intros j e Hj a Ha. rewrite !Ed, !Eh. rewrite Ecap in Ha. intros Hd.
    rewrite Hs in Hj. rewrite Hs. destruct (decide (a = i)) as [|Hai]; [eauto|].
    destruct (decide (j = i)) as [->|Hji]; [injection Hj as <-|].
    + destruct (Hp a Ha Hd) as (e' & ? & _). eauto.
    + by eapply Hpath.
  - done.
  - exists i. rewrite Ecap. split; [done|]. intros j e. rewrite Hs, !Ed, !Eh.
    case_decide; intros; simplify_eq; [done|by apply Hgap].
  - lia.
  - by rewrite Ecap.
  - apply map_eq. intros k. apply option_eq. intros e.
    rewrite tab_map_lookup, lookup_insert_Some, tab_map_lookup by done. split.
    + intros (j & Hj & <-). rewrite Hs in Hj. case_decide as E; simplify_eq; [by left|].
      right. split; [|eauto]. intros Hkx. by eapply Habs.
    + intros [[<- <-]|(Hne & j & Hj & <-)].
      * exists i. rewrite Hs, decide_True by done. done.
      * exists j. rewrite Hs. case_decide; [simplify_eq; congruence|done].
Qed.

Lemma hash_insert_map h x : tab_inv h → valid x →
  ∃ rc h', hash_insert h x = Ret (rc, h') ∧
    ((elem_cnt h = Z.of_nat (capacity h) ∧ rc = HASH_OP_FAIL ∧ h' = h) ∨
     (elem_cnt h < Z.of_nat (capacity h) ∧ rc = HASH_OP_SUCCESS ∧ tab_inv h' ∧
      capacity h' = capacity h ∧ tab_map h' = <[key x := x]> (tab_map h))).
Proof.
  intros Hinv Hv. pose proof Hinv as [Hwf Hval _ _ _ Hc Hcap]. unfold hash_insert.
  destruct (Z.eqb_spec (Z.of_nat (capacity h)) (elem_cnt h)) as [E|Hne].
  { eexists _, _. split; [done|]. left. by split_and!. }
  assert (Hle : (occ_count (occupied h) ≤ capacity h)%nat).
  { rewrite <- (tw_occupied _ Hwf). apply length_filter. }
  destruct (probe_spec h x Hwf Hval Hv) as (r & -> & Hr). rewrite bind_Ret.
  pose proof (probe_absent h x r Hinv Hv Hr) as Habs. destruct r as [i|i|].
  - destruct Hr as (y & Hs & Hk).
    destruct (replace_elem_spec h i x y Hwf Hs) as (h' & -> & ? & ? & ? & ? & ?). rewrite bind_Ret.
    eexists _, _. split; [done|]. right. destruct (replace_inv h h' i y x) as [? ?]; try done.
    split_and!; (done || lia).
  - destruct Hr as (Hi & Hni & Hp).
    destruct (insert_elem_spec h i x Hwf Hi) as (h' & -> & Hwf' & Ecap & Ecnt & Hs & Eocc).
    rewrite bind_Ret, Hni in *. eexists _, _. split; [done|]. right.
    rewrite wrap_small by (unfold uword; lia).
    destruct (fill_inv h (set_cnt h' (elem_cnt h' + 1)) i x) as [? ?]; try done.
    + by destruct Hwf'.
    + cbn. lia.
    + cbn [set_cnt occupied]. lia.
    + split_and!; (done || lia).
  - exfalso. cbn in Hr. assert (occ_count (occupied h) = capacity h); [|lia].
    apply occ_count_full; [done|]. intros i Hi.
    destruct (Hr i Hi) as (e' & ? & _); [|eauto]. apply dist_spec; [|done].
    apply home_lt. by destruct Hwf.
Qed.

(** ** Deletion

    After the deleted element is cleared, the loop scans forward from the hole
    and moves elements back into it.  [shift_inv h s z p j]: [s] is the deleted
    bucket, [p] the current hole, [j] how far the scan has come.  Probe paths
    are intact except that they may run through [p], and only elements not yet
    scanned have [p] on their path.  [z], which no path crosses, lies at or
    behind the hole, so that no path can wrap around to a scanned bucket. *)
Record shift_inv (h : hash_tab) (s z p j : nat) : Prop := {
  sh_wf : tab_wf h;
  sh_s : (s < capacity h)%nat;
  sh_z : (z < capacity h)%nat;
  sh_p : (p < capacity h)%nat;
  sh_pj : (dist h s p < j)%nat;
  sh_valid : all_valid h;
  sh_unique : keys_unique h;
  sh_hole : slot h p = None;
  sh_path : ∀ i e, slot h i = Some e → ∀ x, (x < capacity h)%nat →
    (dist h (home h e) x < dist h (home h e) i)%nat → x ≠ p → is_Some (slot h x);
  sh_cross : ∀ i e, slot h i = Some e →
    (dist h (home h e) p < dist h (home h e) i)%nat → (j ≤ dist h s i)%nat;
  sh_uncrossed : uncrossed h z;
  sh_pz : (dist h s p ≤ dist h s z)%nat
}.

(** The scan reached a free bucket or came around: all paths are intact. *)
Lemma shift_done h s z p j : shift_inv h s z p j →
  (∀ q, (q < capacity h)%nat → dist h s q = j → slot h q = None) → path_ok h.
Proof.
  intros [Hwf Hs Hz Hp Hpj Hval Hu Hn Hpath Hcross Hunc Hpz] Hend i e Hi x Hx Hd.
  destruct (decide (x = p)) as [->|]; [|by eapply Hpath].
  exfalso. pose proof (Hcross i e Hi Hd) as Hj.
  pose proof (slot_lt _ _ _ Hwf Hi) as Hli. pose proof (home_lt h e (tw_cap _ Hwf)) as Hh.
  assert (Hq : ∃ q, (q < capacity h)%nat ∧ dist h s q = j).
  { pose proof (dist_spec h s i Hs Hli). exists ((s + j) mod capacity h)%nat.
    assert (Hm : ((s + j) mod capacity h < capacity h)%nat) by (apply Nat.mod_upper_bound; lia).
    split; [done|]. pose proof (dist_spec h s _ Hs Hm).
    pose proof (Nat.div_mod_eq (s + j) (capacity h)).
    assert ((s + j) `div` capacity h < 2)%nat by (apply Nat.Div0.div_lt_upper_bound; lia).
    assert ((s + j) `div` capacity h = 0 ∨ (s + j) `div` capacity h = 1)%nat as [E|E] by lia;
      rewrite E in *; lia. }
  destruct Hq as (q & Hlq & Hdq). pose proof (Hend q Hlq Hdq) as Hnq.
  assert (i ≠ q) by congruence.
  assert (Hqi : (dist h (home h e) q < dist h (home h e) i)%nat).
  { pose proof (dist_spec h s i Hs Hli). pose proof (dist_spec h s q Hs Hlq).
    pose proof (dist_spec h s p Hs Hp). pose proof (dist_spec h (home h e) p Hh Hp).
    pose proof (dist_spec h (home h e) q Hh Hlq). pose proof (dist_spec h (home h e) i Hh Hli).
    assert (dist h s i ≠ j) by (intros E; apply H, (dist_inj h s); congruence). lia. }
  assert (q ≠ p) by (intros ->; lia).
  destruct (Hpath i e Hi q Hlq Hqi) as [? ?]; [done|congruence].
Qed.

(** The scanned element stays: its path does not run through the hole. *)
Lemma shift_stay h s z p j q e : shift_inv h s z p j →
  dist h s q = j → slot h q = Some e →
  (dist h (home h e) q ≤ dist h (home h e) p)%nat →
  shift_inv h s z p (S j).
Proof.
  intros [Hwf Hs Hz Hp Hpj Hval Hu Hn Hpath Hcross Hunc Hpz] Hdq Hq Hle.
  split; [done..|lia|done|done|done|done| |done|done].
  intros i e' Hi Hd. pose proof (Hcross i e' Hi Hd).
  destruct (decide (dist h s i = j)) as [E|]; [|lia]. exfalso.
  assert (i = q) as ->.
  { apply (dist_inj h s); [done|by eapply slot_lt..|congruence]. }
  simplify_eq. lia.
Qed.

(** The scanned element moves into the hole. *)
Lemma shift_move h h' s z p j q e : shift_inv h s z p j →
  dist h s q = j → slot h q = Some e →
  (dist h (home h e) p < dist h (home h e) q)%nat →
  tab_wf h' → capacity h' = capacity h →
  (∀ i, slot h' i = if decide (i = q) then None else if decide (i = p) then Some e else slot h i) →
  shift_inv h' s z q (S j).
Proof.
  intros [Hwf Hs Hz Hp Hpj Hval Hu Hn Hpath Hcross Hunc Hpz] Hdq Hq Hlt Hwf' Ecap Hsl.
  destruct (same_geometry h h' Ecap) as [Ed Eh].
  pose proof (slot_lt _ _ _ Hwf Hq) as Hlq. pose proof (home_lt h e (tw_cap _ Hwf)) as Hhe.
  assert (Hpq : p ≠ q) by congruence.
  pose proof (dist_spec h s p Hs Hp) as Dsp. pose proof (dist_spec h s q Hs Hlq) as Dsq.
  pose proof (dist_spec h s z Hs Hz) as Dsz.
  assert (Hjz : (j ≤ dist h s z)%nat).
  { pose proof (Hunc q e Hq). pose proof (dist_spec h (home h e) p Hhe Hp).
    pose proof (dist_spec h (home h e) q Hhe Hlq). pose proof (dist_spec h (home h e) z Hhe Hz). lia. }
  assert (Hunc' : uncrossed h' z).
  { intros i e'. rewrite Hsl, !Ed, !Eh. repeat case_decide; intros; simplify_eq.
    - pose proof (Hunc q e' Hq). lia.
    - by apply Hunc. }
  split; rewrite ?Ecap, ?Ed; try done; try lia.
  - intros i e'. rewrite Hsl. repeat case_decide; intros; simplify_eq; eauto.
  - intros i k ei ek. rewrite !Hsl.
    repeat case_decide; intros; simplify_eq; try done.
    + exfalso. assert (q = k) by (eapply Hu; eauto). congruence.
    + exfalso. assert (q = i) by (eapply Hu; eauto). congruence.
    + by eapply Hu.
  - rewrite Hsl, decide_True by done. done.
  - intros i e' Hi x Hx. rewrite !Ed, !Eh. intros Hd Hxq. rewrite Hsl, decide_False by done.
    destruct (decide (x = p)) as [|Hxp]; [eauto|].
    rewrite Hsl in Hi. destruct (decide (i = q)); [done|].
    destruct (decide (i = p)) as [->|]; [injection Hi as <-|by eapply Hpath].
    eapply (Hpath q e Hq); [done|lia|done].
  - intros i e' Hi. rewrite !Ed, !Eh. intros Hd. rewrite Hsl in Hi.
    destruct (decide (i = q)); [done|].
    destruct (decide (i = p)) as [->|Hip]; [injection Hi as <-; lia|].
    destruct (decide (j < dist h s i)%nat); [lia|]. exfalso.
    pose proof (slot_lt _ _ _ Hwf Hi) as Hli. pose proof (home_lt h e' (tw_cap _ Hwf)) as Hh.
    assert (dist h s i ≠ j) by (intros E; subst j; by apply dist_inj in E).
    pose proof (Hunc i e' Hi). pose proof (dist_spec h s i Hs Hli).
    pose proof (dist_spec h (home h e') q Hh Hlq). pose proof (dist_spec h (home h e') i Hh Hli).
    pose proof (dist_spec h (home h e') z Hh Hz). lia.
Qed.

(** The inner loop stops at the hole exactly when the hole is on the path of
    the element at [q]. *)
Lemma movable_loop_spec h s z p j q e : shift_inv h s z p j →
  slot h q = Some e → let a := home h e in
  ∀ fuel i, (i < capacity h)%nat → (dist h a i ≤ dist h a q)%nat → (dist h a i ≤ dist h a p)%nat →
  (dist h a q < dist h a i + fuel)%nat →
  movable_loop fuel h i q
  = Ret (if decide (dist h a p < dist h a q)%nat then p else q).
Proof.
  intros Hsh Hq a. pose proof Hsh as [Hwf Hs Hz Hp _ _ _ Hn Hpath _ _ _].
  pose proof (slot_lt _ _ _ Hwf Hq) as Hlq.
  assert (Ha : (a < capacity h)%nat) by (by apply home_lt, Hwf).
  induction fuel as [|fuel IH]; intros i Hi Hiq Hip Hf; [lia|]. cbn [movable_loop].
  destruct (Nat.eqb_spec i q) as [->|Hne]; [by rewrite decide_False by lia|].
  assert (Hlt : (dist h a i < dist h a q)%nat).
  { assert (dist h a i ≠ dist h a q) by (intros E; by apply dist_inj in E). lia. }
  destruct (slot_read h i Hwf Hi) as (o & b & -> & _ & Hsi). rewrite bind_Ret.
  destruct (decide (i = p)) as [->|Hnp].
  { rewrite Hn in Hsi. destruct (truth o); [done|]. by rewrite decide_True. }
  destruct (Hpath q e Hq i Hi Hlt Hnp) as [b' Hb']. rewrite Hb' in Hsi.
  destruct (truth o); [|done].
  assert (Hw : next h i ≠ a).
  { intros E. pose proof (dist_next_wrap h a i Ha Hi E). pose proof (dist_spec h a q). lia. }
  assert (Hnpd : dist h a i ≠ dist h a p) by (intros E; by apply dist_inj in E).
  apply IH; [by apply next_spec| | |]; rewrite dist_next by done; lia.
Qed.

(** Two states of the deletion loop hold the same elements and counts. *)
Record same_elems (h h' : hash_tab) : Prop := {
  se_cap : capacity h' = capacity h;
  se_cnt : elem_cnt h' = elem_cnt h;
  se_occ : occ_count (occupied h') = occ_count (occupied h);
  se_slots : ∀ e, (∃ i, slot h i = Some e) ↔ (∃ i, slot h' i = Some e)
}.

#[local] Instance same_elems_preorder : PreOrder same_elems.
Proof.
  split.
  - by intros h.
  - intros a b c [??? Hab] [??? Hbc]. split; [congruence..|]. intros e. by rewrite (Hab e).
Qed.

Lemma shift_one_spec h s z p j q e : shift_inv h s z p j →
  dist h s q = j → slot h q = Some e →
  ∃ h' p', shift_one h q e = Ret h' ∧ shift_inv h' s z p' (S j) ∧ same_elems h h'.
Proof.
  intros Hsh Hdq Hq. pose proof Hsh as [Hwf _ _ Hp _ _ _ Hn _ _ _ _].
  pose proof (slot_lt _ _ _ Hwf Hq) as Hlq.
  assert (Ha : (home h e < capacity h)%nat) by (by apply home_lt, Hwf).
  unfold shift_one. cbv zeta. destruct (Nat.eqb_spec (home h e) q) as [E|E].
  { exists h, p. split_and!; [done| |done]. eapply shift_stay; [done..|]. rewrite E, dist_self. lia. }
  rewrite (movable_loop_spec h s z p j q e Hsh Hq), bind_Ret
    by (rewrite ?dist_self; pose proof (dist_spec h (home h e) q); lia).
  case_decide as Hd.
  - destruct (Nat.eqb_spec p q) as [->|Hpq]; [lia|].
    destruct (insert_elem_spec h p e Hwf Hp) as (h1 & -> & Hwf1 & Ec1 & En1 & Hs1 & Ho1).
    rewrite bind_Ret. rewrite <- Ec1 in Hlq.
    destruct (clear_elem_spec h1 q Hwf1 Hlq) as (h2 & -> & Hwf2 & Ec2 & En2 & Hs2 & Ho2).
    assert (Hs : ∀ i, slot h2 i = if decide (i = q) then None else if decide (i = p) then Some e else slot h i).
    { intros i. by rewrite Hs2, Hs1. }
    rewrite Hn in Ho1. rewrite Hs1, decide_False, Hq in Ho2 by done.
    exists h2, q. split_and!; [done| |split; [congruence..|lia|]].
    + apply (shift_move h h2 s z p j q e); (done || congruence).
    + intros e'. split; intros (i & Hi).
      * destruct (decide (i = q)) as [->|Hiq].
        -- exists p. rewrite Hs, decide_False, decide_True by done. congruence.
        -- exists i. rewrite Hs, decide_False, decide_False; [done|congruence|done].
      * rewrite Hs in Hi. repeat case_decide; simplify_eq; eauto.
  - rewrite (proj2 (Nat.eqb_eq q q)) by done. exists h, p. split_and!; [done| |done].
    eapply shift_stay; [done..|]. lia.
Qed.

(** What the whole loop leaves: the same elements on intact paths, and a hole. *)
Lemma shift_loop_spec s z : ∀ fuel h p j q, shift_inv h s z p j →
  (q < capacity h)%nat → dist h s q = j → (capacity h < j + fuel)%nat →
  ∃ h' p' j', shift_loop fuel h q s = Ret h' ∧ shift_inv h' s z p' j' ∧ path_ok h' ∧ same_elems h h'.
Proof.
  induction fuel as [|fuel IH]; intros h p j q Hsh Hlq Hdq Hf.
  { pose proof Hsh as [_ Hs _ _ _ _ _ _ _ _ _ _]. pose proof (dist_spec h s q Hs Hlq). lia. }
  pose proof Hsh as [Hwf Hs Hz Hp Hpj Hval Hu Hn Hpath Hcross Hunc Hpz].
  cbn [shift_loop]. destruct (slot_read h q Hwf Hlq) as (o & b & -> & -> & Hsq). rewrite !bind_Ret.
  destruct (truth o).
  - destruct (shift_one_spec h s z p j q b Hsh Hdq Hsq) as (h1 & p1 & -> & Hsh1 & Hse).
    rewrite bind_Ret. cbv zeta. pose proof (se_cap _ _ Hse) as Ec.
    assert (Enx : next h1 q = next h q) by (unfold next; by rewrite Ec). rewrite Enx.
    destruct (same_geometry h h1 Ec) as [Ed _].
    pose proof (next_spec h q Hlq) as [Hnl _].
    destruct (Nat.eqb_spec (next h q) s) as [E|E].
    + exists h1, p1, (S j). split_and!; [done..| |done]. eapply shift_done; [done|].
      intros i Hi Hdi. pose proof (dist_next_wrap h s q Hs Hlq E).
      rewrite Ed in Hdi. rewrite Ec in Hi. pose proof (dist_spec h s i Hs Hi). lia.
    + destruct (IH h1 p1 (S j) (next h q) Hsh1) as (h' & p' & j' & ? & ? & ? & ?).
      * by rewrite Ec.
      * rewrite Ed, dist_next by done. lia.
      * lia.
      * exists h', p', j'. split_and!; [done..|by etrans].
  - exists h, p, j. split_and!; [done..| |done]. eapply shift_done; [done|].
    intros i Hi Hdi. assert (i = q) as -> by (apply (dist_inj h s); congruence). done.
Qed.

(** Clearing one bucket of a table starts the loop's invariant. *)
Lemma shift_start h h1 s z : tab_inv h → (s < capacity h)%nat → (z < capacity h)%nat →
  uncrossed h z → tab_wf h1 → capacity h1 = capacity h →
  (∀ j, slot h1 j = if decide (j = s) then None else slot h j) →
  shift_inv h1 s z s 1.
Proof.
  intros [Hwf Hval Hpath Hu _ _ _] Hs Hz Hunc Hwf1 Ecap Hsl.
  destruct (same_geometry h h1 Ecap) as [Ed Eh].
  assert (Hold : ∀ i e, slot h1 i = Some e → i ≠ s ∧ slot h i = Some e).
  { intros i e. rewrite Hsl. by case_decide. }
  split; rewrite ?Ecap; try done.
  - rewrite dist_self. lia.
  - intros i e [_ Hi]%Hold. eauto.
  - intros i k e e' [_ Hi]%Hold [_ Hk]%Hold. by eapply Hu.
  - by rewrite Hsl, decide_True.
  - intros i e [_ Hi]%Hold x Hx. rewrite !Ed, !Eh. intros Hd Hne.
    rewrite Hsl, decide_False by done. by eapply Hpath.
  - intros i e [Hne Hi]%Hold _. pose proof (slot_lt _ _ _ Hwf Hi) as Hli.
    rewrite Ed. pose proof (dist_spec h s i Hs Hli). lia.
  - intros i e [_ Hi]%Hold. rewrite !Ed, !Eh. by apply Hunc.
  - rewrite dist_self. lia.
Qed.

(** The loop of [hash_delete] on a table of any size: with one bucket the next
    bucket is the cleared one. *)
Lemma shift_all h s z : shift_inv h s z s 1 →
  ∃ h' p, shift_loop (capacity h) h (next h s) s = Ret h' ∧ same_elems h h' ∧
    tab_wf h' ∧ all_valid h' ∧ keys_unique h' ∧ path_ok h' ∧
    (p < capacity h')%nat ∧ slot h' p = None.
Proof.
  intros Hsh. pose proof Hsh as [Hwf Hs _ _ _ Hval Hu Hn _ _ _ _].
  pose proof (next_spec h s Hs) as [Hnl _].
  destruct (decide (next h s = s)) as [E|E].
  - pose proof (dist_next_wrap h s s Hs Hs E) as Hc. rewrite dist_self in Hc.
    rewrite <- Hc, E. cbn [shift_loop].
    destruct (slot_read h s Hwf Hs) as (o & b & -> & _ & Hsl). rewrite bind_Ret.
    rewrite Hn in Hsl. destruct (truth o); [done|].
    exists h, s. split_and!; try done. eapply shift_done; [done|].
    intros q Hq Hd. pose proof (dist_spec h s q Hs Hq). lia.
  - destruct (shift_loop_spec s z (capacity h) h s 1 (next h s) Hsh Hnl)
      as (h' & p & j & Hl & Hsh' & Hp & Hse).
    + rewrite dist_next by done. by rewrite dist_self.
    + lia.
    + exists h', p. pose proof Hsh' as [? ? ? ? ? ? ? ? ? ? ? ?]. by split_and!.
Qed.

Lemma hash_delete_map h e : tab_inv h → valid e →
  ∃ rc h', hash_delete h e = Ret (rc, h') ∧
    match tab_map h !! key e with
    | Some _ => rc = HASH_OP_SUCCESS ∧ tab_inv h' ∧ capacity h' = capacity h ∧
        tab_map h' = delete (key e) (tab_map h)
    | None => rc = HASH_OP_FAIL ∧ h' = h
    end.
Proof.
  intros Hinv Hv. pose proof Hinv as [Hwf Hval Hpath Hu (z & Hz & Hunc) Hc Hcap].
  unfold hash_delete. destruct (probe_spec h e Hwf Hval Hv) as (r & -> & Hr). rewrite bind_Ret.
  pose proof (probe_absent h e r Hinv Hv Hr) as Habs. destruct r as [s|s|].
  2,3: exists HASH_OP_FAIL, h; split; [done|]; by rewrite (proj2 (tab_map_None h (key e) Hwf Hu)) by done.
  destruct Hr as (y & Hy & Hk). pose proof (slot_lt _ _ _ Hwf Hy) as Hs.
  assert (tab_map h !! key e = Some y) as -> by (apply tab_map_lookup; eauto).
  destruct (clear_elem_spec h s Hwf Hs) as (h1 & -> & Hwf1 & Ec1 & En1 & Hs1 & Ho1).
  rewrite bind_Ret. cbv zeta. rewrite Hy in Ho1.
  rewrite wrap_small by (pose proof (tw_occupied _ Hwf1); unfold uword; pose proof (length_filter (λ o, truth o = true) (occupied h1)); unfold occ_count in *; lia).
  set (h2 := set_cnt h1 (elem_cnt h1 - 1)).
  assert (Hsh : shift_inv h2 s z s 1).
  { by apply (shift_start h h2 s z Hinv Hs Hz Hunc); [destruct Hwf1|..]. }
  destruct (shift_all h2 s z Hsh) as (h' & p & Hl & Hse & Hwf' & Hval' & Hu' & Hpath' & Hp & Hnp).
  rewrite Hl, bind_Ret. eexists _, _. split; [done|]. destruct Hse as [Ec En Eo Es].
  cbn in Ec, En; cbn [occupied set_cnt h2] in Eo. split_and!; [done| |congruence|].
  - split; try done.
    + exists p. split; [done|]. by apply slot_None_uncrossed.
    + lia.
    + by rewrite Ec, Ec1.
  - rewrite <- (tab_map_ext h2 h'); [|by apply Hsh|done|by apply Hsh|done|done].
    apply map_eq. intros k. apply option_eq. intros x.
    rewrite tab_map_lookup, lookup_delete_Some, tab_map_lookup; [|done..|apply Hsh|apply Hsh]. split.
    + intros (i & Hi & <-). change (slot h2 i) with (slot h1 i) in Hi.
      rewrite Hs1 in Hi. case_decide as Hne; [done|]. split; [|eauto].
      intros Hkx. apply Hne. eapply Hu; eauto. congruence.
    + intros (Hne & i & Hi & <-). exists i. split; [|done]. change (slot h2 i) with (slot h1 i).
      rewrite Hs1, decide_False; [done|]. intros ->. congruence.
Qed.

Lemma hash_replace_map h x : tab_inv h → valid x →
  ∃ rc h', hash_replace h x = Ret (rc, h') ∧
    match tab_map h !! key x with
    | Some _ => rc = HASH_OP_SUCCESS ∧ tab_inv h' ∧ capacity h' = capacity h ∧
        tab_map h' = <[key x := x]> (tab_map h)
    | None => rc = HASH_OP_FAIL ∧ h' = h
    end.
Proof.
  intros Hinv Hv. unfold hash_replace.
  destruct (hash_find_map h x Hinv Hv) as ([i|] & -> & Hr); rewrite bind_Ret.
  - destruct Hr as (y & Hs & Hk & ->).
    destruct (replace_elem_spec h i x y (ti_wf _ Hinv) Hs) as (h' & -> & ? & ? & ? & ? & ?).
    rewrite bind_Ret. eexists _, _. split; [done|].
    destruct (replace_inv h h' i y x) as [? ?]; done.
  - rewrite Hr. eexists _, _. split; [done|]. done.
Qed.

(** ** Initialisation *)

Lemma clear_loop_spec : ∀ n h i, tab_wf h → (i + n = capacity h)%nat →
  (∀ j, (j < i)%nat → slot h j = None) →
  ∃ h', clear_loop n i h = Ret h' ∧ tab_wf h' ∧ capacity h' = capacity h ∧
    ∀ j, slot h' j = None.
Proof.
  induction n as [|n IH]; intros h i Hwf Hn Hz.
  - exists h. split_and!; try done. intros j. destruct (slot h j) eqn:E; [|done].
    pose proof (slot_lt _ _ _ Hwf E). rewrite Hz in E; [done|lia].
  - cbn [clear_loop].
    destruct (clear_elem_spec h i Hwf) as (h1 & -> & Hwf1 & Ec1 & _ & Hs1 & _); [lia|].
    rewrite bind_Ret. destruct (IH h1 (S i) Hwf1) as (h' & ? & ? & ? & ?); [lia| |].
    + intros j Hj. rewrite Hs1. case_decide; [done|]. apply Hz. lia.
    + exists h'. split_and!; congruence.
Qed.

Lemma occ_count_none h : tab_wf h → (∀ i, slot h i = None) → occ_count (occupied h) = 0%nat.
Proof.
  intros Hwf Hn. rewrite <- elems_count by done. unfold elems.
  induction (seq 0 (capacity h)) as [|i l IH]; [done|]. cbn. by rewrite Hn.
Qed.

Lemma hash_clear_spec h : tab_wf h → Z.of_nat (capacity h) < 2 ^ 32 →
  ∃ h', hash_clear h = Ret h' ∧ tab_inv h' ∧ capacity h' = capacity h ∧
    elem_cnt h' = 0 ∧ tab_map h' = ∅.
Proof.
  intros Hwf Hcap. unfold hash_clear.
  destruct (clear_loop_spec (capacity h) h 0 Hwf) as (h1 & -> & Hwf1 & Ec & Hn); [lia|lia|].
  rewrite bind_Ret. eexists. split; [done|].
  assert (Hn' : ∀ j, slot (set_cnt h1 0) j = None) by done.
  assert (Hwf' : tab_wf (set_cnt h1 0)) by (by destruct Hwf1).
  split_and!; [split|..]; try done.
  - intros i e. by rewrite Hn'.
  - intros i e. by rewrite Hn'.
  - intros i j e e'. by rewrite Hn'.
  - exists 0%nat. split; [by destruct Hwf'|]. intros i e. by rewrite Hn'.
  - by rewrite (occ_count_none (set_cnt h1 0)).
  - cbn. by rewrite Ec.
  - apply map_eq. intros k. rewrite lookup_empty. apply tab_map_None; [done| |].
    + intros i j e e'. by rewrite Hn'.
    + intros i e. by rewrite Hn'.
Qed.

Lemma hash_init_spec h HASH_N : (0 < HASH_N)%nat → Z.of_nat HASH_N < 2 ^ 32 →
  length (buckets h) = HASH_N → length (occupied h) = HASH_N →
  ∃ h', hash_init HASH_N h = Ret (HASH_OP_SUCCESS, h') ∧ tab_inv h' ∧
    capacity h' = HASH_N ∧ elem_cnt h' = 0 ∧ tab_map h' = ∅.
Proof.
  intros H0 H32 Hb Ho. unfold hash_init. cbv zeta.
  destruct (hash_clear_spec (mkTab (buckets h) (occupied h) (elem_cnt h) HASH_N))
    as (h' & -> & ? & ? & E & ?); [done|done|]. rewrite bind_Ret, E.
  exists h'. by split_and!.
Qed.

(** ** Refinement: a run of the table is a run of a bounded finite map *)

Inductive hash_op :=
  | OpFind (e : hash_elem)
  | OpInsert (e : hash_elem)
  | OpReplace (e : hash_elem)
  | OpDelete (e : hash_elem)
  | OpClear
  | OpSize
  | OpEmpty.

Inductive hash_ans :=
  | Elem (e : option hash_elem)
  | Code (rc : Z)
  | Count (n : Z)
  | Flag (b : bool)
  | Unit.

Definition op_valid (o : hash_op) : Prop :=
  match o with
  | OpFind e | OpInsert e | OpReplace e | OpDelete e => valid e
  | _ => True
  end.

(** One call; [hash_find]'s pointer is read by the caller. *)
Definition hash_call (h : hash_tab) (o : hash_op) : outcome (hash_ans * hash_tab) :=
  match o with
  | OpFind e =>
      r ← hash_find h e;
      match r with
      | Some i => b ← deref (buckets h) i; Ret (Elem (Some b), h)
      | None => Ret (Elem None, h)
      end
  | OpInsert e => '(rc, h) ← hash_insert h e; Ret (Code rc, h)
  | OpReplace e => '(rc, h) ← hash_replace h e; Ret (Code rc, h)
  | OpDelete e => '(rc, h) ← hash_delete h e; Ret (Code rc, h)
  | OpClear => h ← hash_clear h; Ret (Unit, h)
  | OpSize => Ret (Count (hash_size h), h)
  | OpEmpty => Ret (Flag (hash_empty h), h)
  end.

Fixpoint hash_calls (h : hash_tab) (os : list hash_op) : outcome (list hash_ans * hash_tab) :=
  match os with
  | [] => Ret ([], h)
  | o :: os =>
      '(a, h) ← hash_call h o;
      '(l, h) ← hash_calls h os;
      Ret (a :: l, h)
  end.

(** The specification: a map of at most [N] entries. *)
Definition map_call (N : nat) (m : gmap (list Z) hash_elem) (o : hash_op)
    : hash_ans * gmap (list Z) hash_elem :=
  match o with
  | OpFind e => (Elem (m !! key e), m)
  | OpInsert e =>
      if decide (size m < N)%nat then (Code HASH_OP_SUCCESS, <[key e := e]> m)
      else (Code HASH_OP_FAIL, m)
  | OpReplace e =>
      if m !! key e is Some _ then (Code HASH_OP_SUCCESS, <[key e := e]> m)
      else (Code HASH_OP_FAIL, m)
  | OpDelete e =>
      if m !! key e is Some _ then (Code HASH_OP_SUCCESS, delete (key e) m)
      else (Code HASH_OP_FAIL, m)
  | OpClear => (Unit, ∅)
  | OpSize => (Count (Z.of_nat (size m)), m)
  | OpEmpty => (Flag (bool_decide (m = ∅)), m)
  end.

Fixpoint map_calls (N : nat) (m : gmap (list Z) hash_elem) (os : list hash_op)
    : list hash_ans * gmap (list Z) hash_elem :=
  match os with
  | [] => ([], m)
  | o :: os =>
      let '(a, m) := map_call N m o in
      let '(l, m) := map_calls N m os in
      (a :: l, m)
  end.

Lemma slot_deref h i e : slot h i = Some e → deref (buckets h) i = Ret e.
Proof.
  unfold slot, deref. destruct (occupied h !! i); [|done].
  destruct (buckets h !! i); [|done]. destruct (truth _); congruence.
Qed.

Lemma tab_map_size_Z h : tab_inv h → elem_cnt h = Z.of_nat (size (tab_map h)).
Proof. intros Hinv. rewrite (tab_map_size h Hinv). pose proof (ti_cnt _ Hinv). lia. Qed.

Lemma tab_map_empty h : tab_inv h → hash_empty h = bool_decide (tab_map h = ∅).
Proof.
  intros Hinv. unfold hash_empty. rewrite (tab_map_size_Z h Hinv). apply Bool.eq_iff_eq_true.
  rewrite Z.eqb_eq, bool_decide_eq_true, <- map_size_empty_iff. lia.
Qed.

(** The simulation step. *)
Lemma hash_call_refines h o : tab_inv h → op_valid o →
  ∃ h', hash_call h o = Ret ((map_call (capacity h) (tab_map h) o).1, h') ∧ tab_inv h' ∧
    capacity h' = capacity h ∧ tab_map h' = (map_call (capacity h) (tab_map h) o).2.
Proof.
  intros Hinv Hv. destruct o as [e|e|e|e| | |]; cbn [hash_call map_call].
  - destruct (hash_find_map h e Hinv Hv) as ([i|] & -> & Hr); rewrite bind_Ret.
    + destruct Hr as (e' & Hs & _ & ->). rewrite (slot_deref _ _ _ Hs), bind_Ret. eauto.
    + rewrite Hr. eauto.
  - destruct (hash_insert_map h e Hinv Hv) as (rc & h' & -> & Hr); rewrite bind_Ret.
    rewrite (tab_map_size_Z h Hinv) in Hr.
    destruct Hr as [(Hc & -> & ->)|(Hc & -> & ? & ? & ?)]; case_decide; try lia; eauto.
  - destruct (hash_replace_map h e Hinv Hv) as (rc & h' & -> & Hr); rewrite bind_Ret.
    destruct (tab_map h !! key e); destruct_and!; subst; eauto.
  - destruct (hash_delete_map h e Hinv Hv) as (rc & h' & -> & Hr); rewrite bind_Ret.
    destruct (tab_map h !! key e); destruct_and!; subst; eauto.
  - destruct (hash_clear_spec h) as (h' & -> & ? & ? & _ & ?); [apply Hinv..|].
    rewrite bind_Ret. eauto.
  - exists h. unfold hash_size. by rewrite (tab_map_size_Z h Hinv) at 1.
  - exists h. by rewrite (tab_map_empty h Hinv).
Qed.

Lemma hash_calls_refine : ∀ os h, tab_inv h → Forall op_valid os →
  ∃ h', hash_calls h os = Ret ((map_calls (capacity h) (tab_map h) os).1, h') ∧ tab_inv h' ∧
    capacity h' = capacity h ∧ tab_map h' = (map_calls (capacity h) (tab_map h) os).2.
Proof.
  induction os as [|o os IH]; intros h Hinv Hv; [by exists h|].
  apply Forall_cons in Hv as [Ho Hos]. cbn [hash_calls map_calls].
  destruct (hash_call_refines h o Hinv Ho) as (h1 & -> & Hinv1 & Ec1 & Em1). rewrite bind_Ret.
  destruct (IH h1 Hinv1 Hos) as (h2 & -> & Hinv2 & Ec2 & Em2). rewrite bind_Ret.
  destruct (map_call _ _ o) as [a m] eqn:Eo. cbn [fst snd] in *. subst m.
  rewrite Ec1 in *. destruct (map_calls _ _ os) as [l m] eqn:Eos. cbn [fst snd] in *. eauto.
Qed.

(** C17: The open-addressing table (linear probing, backward-shift deletion)
    implements a finite map of at most [HASH_N] entries.  Whatever sequence of
    find, insert, replace, delete, clear and size calls follows [hash_init],
    every call returns (no access outside the arrays, no endless probe), the
    answers are those of the map, and so is the final content; insertion fails
    exactly when the table is full.  The assumption is the client's contract on
    its two functions: elements compare equal exactly when they have the same
    key, and equal keys hash alike. *)
Theorem hash_table_refines_map (HASH_N : nat) (raw : hash_tab) (os : list hash_op) :
  (0 < HASH_N)%nat → Z.of_nat HASH_N < 2 ^ 32 →
  length (buckets raw) = HASH_N → length (occupied raw) = HASH_N →
  Forall op_valid os →
  ∃ h0 h, hash_init HASH_N raw = Ret (HASH_OP_SUCCESS, h0) ∧
    hash_calls h0 os = Ret ((map_calls HASH_N ∅ os).1, h) ∧
    tab_map h = (map_calls HASH_N ∅ os).2.
Proof.
  intros H0 H32 Hb Ho Hv.
  destruct (hash_init_spec raw HASH_N H0 H32 Hb Ho) as (h0 & Hi & Hinv & Ec & _ & Em).
  destruct (hash_calls_refine os h0 Hinv Hv) as (h & Hc & _ & _ & Hm).
  rewrite Ec, Em in *. eauto.
Qed.
End HashTab.

Definition demo_hash (e : hash_elem) : Z := hd 0 (elem e).
Definition demo_comp (a b : hash_elem) : Z := if decide (elem a = elem b) then 0 else 1.
Definition demo_elem (z : Z) : hash_elem := mkElem [z] 1.

Lemma demo_comp_key a b : demo_comp a b = 0 ↔ elem a = elem b.
Proof. unfold demo_comp. by case_decide. Qed.

(** The refinement on a full three-bucket table whose elements all collide: a
    delete shifts the two others back, and both are found. *)
Lemma hash_table_refines_map_witness : ∃ h0 h,
  hash_init 1 3 (mkTab (replicate 3 (demo_elem 7)) [5; 5; 5] 9 0) = Ret (HASH_OP_SUCCESS, h0) ∧
  hash_calls 1 demo_hash demo_comp h0
    [OpInsert (demo_elem 2); OpInsert (demo_elem 5); OpInsert (demo_elem 8); OpInsert (demo_elem 1);
     OpDelete (demo_elem 2); OpFind (demo_elem 5); OpFind (demo_elem 8); OpFind (demo_elem 2); OpSize]
  = Ret ([Code 1; Code 1; Code 1; Code 0; Code 1; Elem (Some (demo_elem 5));
          Elem (Some (demo_elem 8)); Elem None; Count 2], h).
Proof.
  destruct (hash_table_refines_map 1 demo_hash demo_comp (λ _, True) elem
    (λ a b _ _, demo_comp_key a b) (λ a b _ _ E, f_equal (hd 0) E) 3
    (mkTab (replicate 3 (demo_elem 7)) [5; 5; 5] 9 0)
    [OpInsert (demo_elem 2); OpInsert (demo_elem 5); OpInsert (demo_elem 8); OpInsert (demo_elem 1);
     OpDelete (demo_elem 2); OpFind (demo_elem 5); OpFind (demo_elem 8); OpFind (demo_elem 2); OpSize])
    as (h0 & h & Hi & Hc & _).
  - lia.
  - lia.
  - reflexivity.
  - reflexivity.
  - repeat constructor.
  - exists h0, h. split; [exact Hi|]. rewrite Hc. vm_compute. reflexivity.
Defined.
