(* ===== verification/HashPool.v ===== *)
(** * HASHMAP mode: leases in a hash table keyed by MAC

    [dhcp-lib/dhcp_hashmap.h] and [dhcp-lib/dhcp_hashmap.c].  The pool keeps two
    tables of [HashTab]: [hp_leases], whose 14-byte elements are packed
    [dhcp_hash_elem] structs found by their first six bytes, and [hp_ip_set], the
    addresses in use.  Pointers into a table are bucket indices, and the struct
    behind a pointer is read from and written to the bucket's bytes. *)
From S2P Require Import Prelude LeaseStore HashTab.

Open Scope Z_scope.

Definition HASH_ELEM_MAX : nat := 14.
Definition HASH_ELEM_IP_SIZE : nat := 4.

(** The packed struct [dhcp_hash_elem] laid over [elem] *)
Definition he_mac (e : hash_elem) : list Z := take 6 (elem e).
Definition he_ip_bytes (e : hash_elem) : list Z := take 4 (drop 6 (elem e)).
Definition he_ip (e : hash_elem) : Z := le_combine (he_ip_bytes e).
Definition he_expire (e : hash_elem) : Z := le_combine (take 4 (drop 10 (elem e))).
Definition he_set_expire (e : hash_elem) (x : Z) : hash_elem :=
  mkElem (list_inserts 10 (le_split 4 x) (elem e)) (elem_size e).

Definition he_make (mac : list Z) (ip x : Z) : hash_elem :=
  mkElem (mac ++ le_split 4 ip ++ le_split 4 x) (Z.of_nat HASH_ELEM_MAX).

(** FNV-1a *)
Definition fnv (bs : list Z) : Z :=
  fold_left (λ h b, u32 (Z.lxor h b * 16777619)) bs 2166136261.

(** The first difference of two byte strings, as the two [comp] functions
    compute it. *)
Fixpoint comp_bytes (a b : list Z) : Z :=
  match a, b with
  | x :: a, y :: b => if negb (x =? y) then x - y else comp_bytes a b
  | _, _ => 0
  end.

Record dhcp_hashpool_t := mkHashPool {
  hp_leases : hash_tab;
  hp_ip_set : hash_tab;
  hp_next_ip : Z;
  hp_max_leases : Z
}.

Section HashPool.
(** [HASH_N] may be set by the client of [hash.h]; [junk] stands for the
    indeterminate bytes behind the six bytes of a search key. *)
Context (HASH_N : nat) (junk : list Z).

Definition dhcp_mac_hash (e : hash_elem) : Z := fnv (take 6 (elem e)) `mod` Z.of_nat HASH_N.
Definition dhcp_mac_comp (a b : hash_elem) : Z := comp_bytes (take 6 (elem a)) (take 6 (elem b)).
Definition dhcp_ip_hash (e : hash_elem) : Z := fnv (take 4 (elem e)) `mod` Z.of_nat HASH_N.
Definition dhcp_ip_comp (a b : hash_elem) : Z := comp_bytes (take 4 (elem a)) (take 4 (elem b)).

Definition find_mac := hash_find dhcp_mac_hash dhcp_mac_comp.
Definition insert_mac := hash_insert dhcp_mac_hash dhcp_mac_comp.
Definition delete_mac := hash_delete HASH_ELEM_MAX dhcp_mac_hash dhcp_mac_comp.
Definition find_ip := hash_find dhcp_ip_hash dhcp_ip_comp.
Definition insert_ip := hash_insert dhcp_ip_hash dhcp_ip_comp.
Definition delete_ip := hash_delete HASH_ELEM_IP_SIZE dhcp_ip_hash dhcp_ip_comp.

Definition mac_key (mac : list Z) : hash_elem := mkElem (mac ++ junk) 6.
Definition ip_key (bs : list Z) : hash_elem := mkElem bs 4.

Definition with_leases (p : dhcp_hashpool_t) (h : hash_tab) : dhcp_hashpool_t :=
  mkHashPool h (hp_ip_set p) (hp_next_ip p) (hp_max_leases p).
Definition with_ip_set (p : dhcp_hashpool_t) (h : hash_tab) : dhcp_hashpool_t :=
  mkHashPool (hp_leases p) h (hp_next_ip p) (hp_max_leases p).

(** [p] is the storage as it was before the call. *)
Definition dhcp_hashpool_init (p : dhcp_hashpool_t) (pool_start max_leases : Z)
    : outcome dhcp_hashpool_t :=
  '(_, l) ← hash_init HASH_ELEM_MAX HASH_N (hp_leases p);
  '(_, i) ← hash_init HASH_ELEM_IP_SIZE HASH_N (hp_ip_set p);
  Ret (mkHashPool l i pool_start
         (if Z.of_nat HASH_N <? max_leases then Z.of_nat HASH_N else max_leases)).

Definition dhcp_hashpool_find_lease (p : dhcp_hashpool_t) (mac : list Z) : outcome (option nat) :=
  find_mac (hp_leases p) (mac_key mac).

(** The first loop of [dhcp_hashpool_cleanup_expire_lease]: MAC and address
    bytes of up to 32 expired leases, in bucket order; [n] buckets are left and
    [acc] holds the rows filled so far. *)
Fixpoint expired_scan (n i : nat) (h : hash_tab) (cur_time : Z) (acc : list (list Z * list Z))
    : outcome (list (list Z * list Z)) :=
  match n with
  | O => Ret acc
  | S n =>
      if (length acc <? 32)%nat then
        o ← deref (occupied h) i;
        if truth o then
          e ← deref (buckets h) i;
          if he_expire e <=? cur_time
          then expired_scan n (S i) h cur_time (acc ++ [(he_mac e, he_ip_bytes e)])
          else expired_scan n (S i) h cur_time acc
        else expired_scan n (S i) h cur_time acc
      else Ret acc
  end.

(** The second loop: both tables drop the collected rows. *)
Fixpoint delete_rows (p : dhcp_hashpool_t) (rows : list (list Z * list Z))
    : outcome dhcp_hashpool_t :=
  match rows with
  | [] => Ret p
  | (mac, ip) :: rows =>
      '(_, l) ← delete_mac (hp_leases p) (mac_key mac);
      '(_, i) ← delete_ip (hp_ip_set p) (ip_key ip);
      delete_rows (with_ip_set (with_leases p l) i) rows
  end.

Definition dhcp_hashpool_cleanup_expire_lease (p : dhcp_hashpool_t) (cur_time : Z)
    : outcome dhcp_hashpool_t :=
  rows ← expired_scan HASH_N 0 (hp_leases p) cur_time [];
  delete_rows p rows.

Definition pool_full (p : dhcp_hashpool_t) : bool := hp_max_leases p <=? hash_size (hp_leases p).

Definition hash_cleanup_if_full (p : dhcp_hashpool_t) (cur_time : Z) : outcome dhcp_hashpool_t :=
  if pool_full p then dhcp_hashpool_cleanup_expire_lease p cur_time else Ret p.

(** [hash_find_ip (&pool->ip_set, &ip_key) != 0] *)
Definition ip_in_use (p : dhcp_hashpool_t) (ip : Z) : outcome bool :=
  r ← find_ip (hp_ip_set p) (ip_key (le_split 4 ip));
  Ret (bool_decide (is_Some r)).

Definition dhcp_hashpool_find_available_ip (p : dhcp_hashpool_t) (pool_start pool_end : Z)
    (mac : list Z) (cur_time : Z) : outcome (Z * dhcp_hashpool_t) :=
  p ← hash_cleanup_if_full p cur_time;
  existing ← dhcp_hashpool_find_lease p mac;
  match existing with
  | Some i => e ← deref (buckets (hp_leases p)) i; Ret (he_ip e, p)
  | None =>
      if pool_full p then Ret (0, p) else
      let range_size := pool_end ⊟ pool_start ⊞ 1 in
      '(ip, next_ip) ← search_loop (ip_in_use p) (Z.to_nat range_size) pool_start range_size
                         (hp_next_ip p);
      Ret (ip, mkHashPool (hp_leases p) (hp_ip_set p) next_ip (hp_max_leases p))
  end.

Definition dhcp_hashpool_alloc_lease (p : dhcp_hashpool_t) (ip : Z) (mac : list Z)
    (lease_time cur_time : Z) : outcome (bool * dhcp_hashpool_t) :=
  p ← hash_cleanup_if_full p cur_time;
  existing ← dhcp_hashpool_find_lease p mac;
  match existing with
  | Some i =>
      e ← deref (buckets (hp_leases p)) i;
      if negb (he_ip e =? ip) then Ret (false, p)
      else l ← replace_elem (hp_leases p) i (he_set_expire e (cur_time ⊞ lease_time));
           Ret (true, with_leases p l)
  | None =>
      used ← ip_in_use p ip;
      if (used : bool) then Ret (false, p) else
      if pool_full p then Ret (false, p) else
      let new_lease := he_make mac ip (cur_time ⊞ lease_time) in
      '(rc, l) ← insert_mac (hp_leases p) new_lease;
      if negb (rc =? HASH_OP_SUCCESS) then Ret (false, with_leases p l) else
      '(rc, i) ← insert_ip (hp_ip_set p) (ip_key (le_split 4 ip));
      if negb (rc =? HASH_OP_SUCCESS) then
        '(_, l) ← delete_mac l new_lease;
        Ret (false, with_ip_set (with_leases p l) i)
      else Ret (true, with_ip_set (with_leases p l) i)
  end.

Definition dhcp_hashpool_decline_lease (p : dhcp_hashpool_t) (mac : list Z)
    : outcome dhcp_hashpool_t :=
  result ← find_mac (hp_leases p) (mac_key mac);
  match result with
  | None => Ret p
  | Some i =>
      e ← deref (buckets (hp_leases p)) i;
      '(_, ips) ← delete_ip (hp_ip_set p) (ip_key (he_ip_bytes e));
      '(_, l) ← delete_mac (hp_leases p) (mac_key mac);
      Ret (with_ip_set (with_leases p l) ips)
  end.

(** ** Bytes and keys *)

Lemma comp_bytes_eq : ∀ a b, length a = length b → comp_bytes a b = 0 ↔ a = b.
Proof.
  induction a as [|x a IH]; intros [|y b] Hl; cbn in *; try done.
  destruct (Z.eqb_spec x y) as [->|Hne]; cbn.
  - rewrite IH by lia. split; [by intros -> | by intros [= ->]].
  - split; [lia | by intros [= -> ->]].
Qed.

Definition bytes_of (n : nat) (e : hash_elem) : Prop := length (elem e) = n ∧ Forall byte (elem e).
Abbreviation mac_elem := (bytes_of HASH_ELEM_MAX).
Abbreviation ip_elem := (bytes_of HASH_ELEM_IP_SIZE).
Definition ip_bytes (e : hash_elem) : list Z := take 4 (elem e).

Lemma mac_comp_key a b : mac_elem a → mac_elem b → dhcp_mac_comp a b = 0 ↔ he_mac a = he_mac b.
Proof.
  intros [Ha _] [Hb _]. unfold he_mac, ip_bytes. apply comp_bytes_eq. by rewrite !length_take, Ha, Hb.
Qed.

Lemma mac_hash_key a b :
  mac_elem a → mac_elem b → he_mac a = he_mac b → dhcp_mac_hash a = dhcp_mac_hash b.
Proof. unfold he_mac, dhcp_mac_hash. by intros _ _ ->. Qed.

Lemma ip_comp_key a b : ip_elem a → ip_elem b → dhcp_ip_comp a b = 0 ↔ ip_bytes a = ip_bytes b.
Proof.
  intros [Ha _] [Hb _]. unfold he_mac, ip_bytes. apply comp_bytes_eq. by rewrite !length_take, Ha, Hb.
Qed.

Lemma ip_hash_key a b :
  ip_elem a → ip_elem b → ip_bytes a = ip_bytes b → dhcp_ip_hash a = dhcp_ip_hash b.
Proof. unfold ip_bytes, dhcp_ip_hash. by intros _ _ ->. Qed.

Hypothesis HN : (0 < HASH_N)%nat ∧ Z.of_nat HASH_N < 2 ^ 16.
Hypothesis Hjunk : length junk = 8%nat ∧ Forall byte junk.

Lemma mac_key_elem mac : is_mac mac → mac_elem (mac_key mac) ∧ he_mac (mac_key mac) = mac.
Proof.
  intros [Hl Hb]. unfold he_mac, bytes_of; cbn. destruct Hjunk as [Hj Hjb]. split_and!.
  - rewrite length_app, Hl, Hj. done.
  - by apply Forall_app.
  - by rewrite take_app_le, take_ge by lia.
Qed.

Lemma ip_key_elem bs : length bs = 4%nat → Forall byte bs →
  ip_elem (ip_key bs) ∧ ip_bytes (ip_key bs) = bs.
Proof. intros Hl Hb. split; [done|]. unfold ip_bytes; cbn. by rewrite take_ge by lia. Qed.

Lemma he_make_elem mac ip x : is_mac mac → is_u32 ip → is_u32 x →
  let e := he_make mac ip x in
  mac_elem e ∧ he_mac e = mac ∧ he_ip_bytes e = le_split 4 ip ∧ he_ip e = ip ∧ he_expire e = x.
Proof.
  intros [Hl Hb] Hip Hx e.
  assert (Hi : he_ip_bytes e = le_split 4 ip).
  { unfold he_ip_bytes, e. cbn [elem he_make]. rewrite <- Hl, drop_app_length.
    by rewrite take_app_le, take_ge by (by rewrite le_split_length). }
  unfold he_mac, he_ip, he_expire, bytes_of. rewrite Hi, le_combine_split4 by done.
  cbn [elem he_make e]. split_and!; try done.
  - rewrite !length_app, !le_split_length, Hl. done.
  - rewrite !Forall_app. auto using le_split_bytes.
  - by rewrite take_app_le, take_ge by lia.
  - rewrite app_assoc, drop_app_length' by (rewrite length_app, le_split_length, Hl; done).
    rewrite take_ge by (by rewrite le_split_length). by apply le_combine_split4.
Qed.

Lemma he_set_expire_elem e x : mac_elem e → is_u32 x →
  mac_elem (he_set_expire e x) ∧ he_mac (he_set_expire e x) = he_mac e ∧
  he_ip (he_set_expire e x) = he_ip e ∧ he_expire (he_set_expire e x) = x.
Proof.
  intros [Hl Hb] Hx. unfold he_mac, he_ip, he_ip_bytes, he_expire, bytes_of.
  cbn [he_set_expire elem]. unfold HASH_ELEM_MAX in *.
  assert (Hs : list_inserts 10 (le_split 4 x) (elem e) = take 10 (elem e) ++ le_split 4 x).
  { rewrite <- (take_drop 10 (elem e)) at 1.
    pose proof (list_inserts_app (take 10 (elem e)) (drop 10 (elem e)) [] (le_split 4 x)) as E.
    rewrite !app_nil_r, length_take, Hl in E. apply E. rewrite le_split_length, length_drop, Hl. done. }
  rewrite Hs. split_and!.
  - rewrite length_app, le_split_length, length_take, Hl. done.
  - apply Forall_app. split; [by apply Forall_take | apply le_split_bytes].
  - rewrite take_app_le by (rewrite length_take; lia). by rewrite take_take.
  - rewrite drop_app_le by (rewrite length_take; lia).
    rewrite take_app_le by (rewrite length_drop, length_take; lia).
    rewrite skipn_firstn_comm, take_take. done.
  - rewrite drop_app_length' by (rewrite length_take; lia).
    rewrite take_ge by (by rewrite le_split_length). by apply le_combine_split4.
Qed.

(** ** The two tables in step *)

(** [I] is the set of addresses leased in [M]. *)
Record synced (I : gmap (list Z) hash_elem) (M : lease_map) : Prop := {
  sy_held : ∀ ip, is_u32 ip → is_Some (I !! le_split 4 ip) ↔ held ip M;
  sy_size : size I = size M;
  sy_inj : lease_inj M;
  sy_u32 : ∀ m ip x, M !! m = Some (ip, x) → is_u32 ip
}.

Lemma held_insert_None M mac ip x ip' : M !! mac = None →
  held ip' (<[mac := (ip, x)]> M) ↔ ip' = ip ∨ held ip' M.
Proof.
  intros Hn. split.
  - intros (m & y & [[<- [= -> ->]]|[_ Hm]]%lookup_insert_Some); [by left|]. right. by exists m, y.
  - intros [->|(m & y & Hm)]; [exists mac, x; by rewrite lookup_insert_eq|].
    exists m, y. rewrite lookup_insert_ne; [done|congruence].
Qed.

Lemma held_renew M mac ip x y ip' : M !! mac = Some (ip, y) →
  held ip' (<[mac := (ip, x)]> M) ↔ held ip' M.
Proof.
  intros Hm. split.
  - intros (m & z & [[<- [= -> ->]]|[_ H]]%lookup_insert_Some); [by exists mac, y|by exists m, z].
  - intros (m & z & H). destruct (decide (m = mac)) as [->|Hne].
    + simplify_eq. exists mac, x. by rewrite lookup_insert_eq.
    + exists m, z. by rewrite lookup_insert_ne.
Qed.

Lemma held_delete M mac ip x ip' : lease_inj M → M !! mac = Some (ip, x) →
  held ip' (delete mac M) ↔ held ip' M ∧ ip' ≠ ip.
Proof.
  intros Hinj Hm. split.
  - intros (m & y & [Hne H]%lookup_delete_Some). split; [by exists m, y|].
    intros ->. by apply Hne, (Hinj mac m ip x y).
  - intros [(m & y & H) Hne]. exists m, y. rewrite lookup_delete_ne; [done|congruence].
Qed.

Lemma synced_insert I M mac ip x k : synced I M → M !! mac = None → is_u32 ip → ¬ held ip M →
  synced (<[le_split 4 ip := k]> I) (<[mac := (ip, x)]> M).
Proof.
  intros [Hh Hs Hi Hu] Hm Hip Hnh. split.
  - intros ip' Hip'. rewrite held_insert_None, <- Hh by done. destruct (decide (ip' = ip)) as [->|Hne].
    + rewrite lookup_insert_eq. by split; [left|eexists].
    + rewrite lookup_insert_ne by (intros E; by apply le_split4_inj in E). tauto.
  - rewrite !map_size_insert_None; [by rewrite Hs|done|].
    apply eq_None_not_Some. by rewrite Hh.
  - apply lease_inj_insert; [done|]. by rewrite Hm.
  - intros m ip' x' [[_ ?]|[_ ?]]%lookup_insert_Some; simplify_eq; eauto.
Qed.

Lemma synced_renew I M mac ip x y : synced I M → M !! mac = Some (ip, y) →
  synced I (<[mac := (ip, x)]> M).
Proof.
  intros [Hh Hs Hi Hu] Hm. split.
  - intros ip' Hip'. rewrite (held_renew M mac ip x y) by done. by apply Hh.
  - rewrite map_size_insert_Some; [done|by eexists].
  - apply lease_inj_insert; [done|]. by rewrite Hm.
  - intros m ip' x' [[_ ?]|[_ ?]]%lookup_insert_Some; simplify_eq; eauto.
Qed.

Lemma synced_delete I M mac ip x : synced I M → M !! mac = Some (ip, x) →
  synced (delete (le_split 4 ip) I) (delete mac M).
Proof.
  intros [Hh Hs Hi Hu] Hm. assert (Hip : is_u32 ip) by eauto. split.
  - intros ip' Hip'. rewrite held_delete, <- Hh by done. destruct (decide (ip' = ip)) as [->|Hne].
    + rewrite lookup_delete_eq. split; [by intros []|tauto].
    + rewrite lookup_delete_ne by (intros E; by apply le_split4_inj in E). tauto.
  - destruct (proj2 (Hh ip Hip)) as [k Hk]; [by exists mac, x|].
    rewrite !map_size_delete_Some by (by eexists). by rewrite Hs.
  - by apply lease_inj_delete.
  - intros m ip' x' [_ ?]%lookup_delete_Some. eauto.
Qed.

(** ** The pool invariant *)

Definition lease_of (e : hash_elem) : Z * Z := (he_ip e, he_expire e).

Definition hash_leases (p : dhcp_hashpool_t) : lease_map :=
  lease_of <$> tab_map he_mac (hp_leases p).

Record hash_inv (s e : Z) (p : dhcp_hashpool_t) : Prop := {
  hi_leases : tab_inv dhcp_mac_hash mac_elem he_mac (hp_leases p);
  hi_ips : tab_inv dhcp_ip_hash ip_elem ip_bytes (hp_ip_set p);
  hi_cap : capacity (hp_leases p) = HASH_N;
  hi_cap_ip : capacity (hp_ip_set p) = HASH_N;
  hi_sync : synced (tab_map ip_bytes (hp_ip_set p)) (hash_leases p);
  hi_in_pool : in_pool s e (hash_leases p);
  hi_next : s ≤ hp_next_ip p ≤ e;
  hi_max : 0 ≤ hp_max_leases p ≤ Z.of_nat HASH_N;
  hi_room : Z.of_nat (size (hash_leases p)) ≤ hp_max_leases p;
  hi_pool : 0 < s ∧ e < 2 ^ 32
}.

Definition hash_cap (p : dhcp_hashpool_t) : nat := Z.to_nat (hp_max_leases p).

Lemma pool_full_spec s e p : hash_inv s e p →
  pool_full p = bool_decide (hash_cap p ≤ size (hash_leases p))%nat.
Proof.
  intros Hi. unfold pool_full, hash_cap, hash_size, hash_leases.
  rewrite (tab_map_size_Z _ _ _ _ (hi_leases _ _ _ Hi)), map_size_fmap.
  pose proof (hi_max _ _ _ Hi). case_bool_decide; destruct (Z.leb_spec (hp_max_leases p)
    (Z.of_nat (size (tab_map he_mac (hp_leases p))))); (done || lia).
Qed.

(** A lease element of the table: its bytes and its lease. *)
Lemma tab_elem s e p mac el : hash_inv s e p →
  tab_map he_mac (hp_leases p) !! mac = Some el →
  mac_elem el ∧ he_mac el = mac ∧ hash_leases p !! mac = Some (lease_of el) ∧
  le_split 4 (he_ip el) = he_ip_bytes el.
Proof.
  intros Hi Hl. pose proof (hi_leases _ _ _ Hi) as Ht.
  pose proof Hl as (i & Hs & Hk)%tab_map_lookup; [|apply Ht..].
  pose proof (ti_valid _ _ _ _ Ht i el Hs) as Hel. split_and!; [done..| |].
  - unfold hash_leases. by rewrite lookup_fmap, Hl.
  - unfold he_ip. destruct Hel as [Hlen Hb].
    assert (H4 : length (he_ip_bytes el) = 4%nat).
    { unfold he_ip_bytes. rewrite length_take, length_drop, Hlen. done. }
    rewrite <- H4 at 1. apply le_split_combine. by apply Forall_take, Forall_drop.
Qed.

Lemma find_lease_M s e p mac : hash_inv s e p → is_mac mac →
  ∃ r, dhcp_hashpool_find_lease p mac = Ret r ∧
    match r with
    | Some i => ∃ el, slot (hp_leases p) i = Some el ∧ deref (buckets (hp_leases p)) i = Ret el ∧
        tab_map he_mac (hp_leases p) !! mac = Some el
    | None => hash_leases p !! mac = None
    end.
Proof.
  intros Hi Hm. destruct (mac_key_elem mac Hm) as [Hv Hk].
  destruct (hash_find_map _ _ _ _ mac_comp_key mac_hash_key _ _ (hi_leases _ _ _ Hi) Hv)
    as (r & Hr & Hpost). exists r. split; [done|]. rewrite Hk in Hpost. destruct r as [i|].
  - destruct Hpost as (el & Hs & _ & ?). exists el. split_and!; [done| |done]. by apply slot_deref.
  - unfold hash_leases. by rewrite lookup_fmap, Hpost.
Qed.

Lemma ip_in_use_M s e p ip : hash_inv s e p → is_u32 ip →
  ∃ b : bool, ip_in_use p ip = Ret b ∧ if b then held ip (hash_leases p) else ¬ held ip (hash_leases p).
Proof.
  intros Hi Hip. destruct (ip_key_elem (le_split 4 ip)) as [Hv Hk];
    [apply le_split_length|apply le_split_bytes|].
  destruct (hash_find_map _ _ _ _ ip_comp_key ip_hash_key _ _ (hi_ips _ _ _ Hi) Hv)
    as (r & Hr & Hpost). rewrite Hk in Hpost. pose proof (sy_held _ _ (hi_sync _ _ _ Hi) ip Hip) as Hh.
  unfold ip_in_use, find_ip. rewrite Hr, bind_Ret. eexists. split; [done|].
  destruct r as [i|]; cbn; rewrite <- Hh.
  - destruct Hpost as (k & _ & _ & ->). by eexists.
  - rewrite Hpost. by intros [].
Qed.

(** Removing a client from both tables. *)
Lemma delete_pair s e p mac el : hash_inv s e p → is_mac mac →
  tab_map he_mac (hp_leases p) !! mac = Some el →
  ∃ rc l rc' i, delete_mac (hp_leases p) (mac_key mac) = Ret (rc, l) ∧
    delete_ip (hp_ip_set p) (ip_key (he_ip_bytes el)) = Ret (rc', i) ∧
    let p' := with_ip_set (with_leases p l) i in
    hash_inv s e p' ∧ hash_leases p' = delete mac (hash_leases p) ∧
    tab_map he_mac l = delete mac (tab_map he_mac (hp_leases p)).
Proof.
  intros Hi Hm Hel. destruct (tab_elem s e p mac el Hi Hel) as (_ & _ & HM & Hbs).
  pose proof Hi as [Ht Hti Hc Hci Hsy Hin Hnx Hmx Hrm Hpl].
  destruct (mac_key_elem mac Hm) as [Hv Hk].
  destruct (hash_delete_map HASH_ELEM_MAX _ _ _ _ mac_comp_key mac_hash_key _ _ Ht Hv)
    as (rc & l & Hd & Hpost). rewrite Hk, Hel in Hpost. destruct Hpost as (_ & Ht' & Hc' & Hm').
  destruct (ip_key_elem (he_ip_bytes el)) as [Hvi Hki];
    [rewrite <- Hbs; apply le_split_length|rewrite <- Hbs; apply le_split_bytes|].
  destruct (hash_delete_map HASH_ELEM_IP_SIZE _ _ _ _ ip_comp_key ip_hash_key _ _ Hti Hvi)
    as (rc' & i & Hdi & Hpost). rewrite Hki in Hpost.
  destruct (proj2 (sy_held _ _ Hsy (he_ip el) (sy_u32 _ _ Hsy _ _ _ HM))) as [k Hik];
    [by eexists _, _|]. rewrite Hbs in Hik. rewrite Hik in Hpost.
  destruct Hpost as (_ & Hti' & Hci' & Hmi').
  exists rc, l, rc', i. split; [done|]. split; [done|]. cbn zeta.
  set (p' := with_ip_set _ _).
  assert (HM' : hash_leases p' = delete mac (hash_leases p)).
  { unfold hash_leases. cbn [p' hp_leases with_ip_set with_leases]. by rewrite Hm', fmap_delete. }
  split_and!; [|done|done].
  split; cbn [p' hp_leases hp_ip_set hp_next_ip hp_max_leases with_ip_set with_leases]; try done.
  - congruence.
  - congruence.
  - rewrite HM', Hmi', <- Hbs. by eapply synced_delete.
  - rewrite HM'. by apply in_pool_delete.
  - rewrite HM', map_size_delete_Some by (by eexists). lia.
Qed.

(** ** Expired leases *)

Definition row (e : hash_elem) : list Z * list Z := (he_mac e, he_ip_bytes e).

Definition expired_elems (h : hash_tab) (now : Z) (i n : nat) : list hash_elem :=
  filter (λ e, he_expire e ≤ now) (omap (slot h) (seq i n)).

Lemma expired_scan_spec h now : tab_wf h → ∀ n i acc, (i + n ≤ capacity h)%nat →
  (length acc ≤ 32)%nat →
  expired_scan n i h now acc
  = Ret (acc ++ take (32 - length acc) (row <$> expired_elems h now i n)).
Proof.
  intros Hwf. induction n as [|n IH]; intros i acc Hn Ha; cbn [expired_scan].
  { cbn. by rewrite take_nil, app_nil_r. }
  destruct (Nat.ltb_spec (length acc) 32) as [Hlt|Hge].
  2:{ replace (32 - length acc)%nat with 0%nat by lia. by rewrite take_0, app_nil_r. }
  destruct (slot_read h i Hwf) as (o & b & -> & -> & Hs); [lia|]. rewrite !bind_Ret.
  unfold expired_elems in *. cbn [seq]. cbn [omap list_omap]. rewrite Hs.
  destruct (truth o); [|apply IH; lia]. rewrite filter_cons.
  destruct (Z.leb_spec (he_expire b) now).
  - rewrite decide_True by done. rewrite IH by (rewrite ?length_app; cbn; lia). rewrite length_app.
    cbn [length]. replace (32 - length acc)%nat with (S (32 - (length acc + 1))) by lia.
    cbn [fmap list_fmap take]. by rewrite <- app_assoc.
  - rewrite decide_False by lia. apply IH; lia.
Qed.

Lemma he_mac_is_mac el : mac_elem el → is_mac (he_mac el).
Proof.
  intros [Hl Hb]. split; [|by apply Forall_take]. unfold he_mac. by rewrite length_take, Hl.
Qed.

Lemma delete_rows_spec s e : ∀ rows p, hash_inv s e p → NoDup rows.*1 →
  (∀ m k, (m, k) ∈ rows → ∃ el, tab_map he_mac (hp_leases p) !! m = Some el ∧ he_ip_bytes el = k) →
  ∃ p', delete_rows p rows = Ret p' ∧ hash_inv s e p' ∧ hp_max_leases p' = hp_max_leases p ∧
    (∀ m, hash_leases p' !! m = if decide (m ∈ rows.*1) then None else hash_leases p !! m) ∧
    (size (hash_leases p') + length rows = size (hash_leases p))%nat.
Proof.
  induction rows as [|[m k] rows IH]; intros p Hi Hnd Hrows; cbn [delete_rows].
  { exists p. split_and!; (done || cbn; lia). }
  apply NoDup_cons in Hnd as [Hm Hnd].
  destruct (Hrows m k) as (el & Hel & <-); [by constructor|].
  destruct (tab_elem s e p m el Hi Hel) as (Hme & Hk & HM & _).
  destruct (delete_pair s e p m el Hi) as (rc & l & rc' & i & -> & -> & Hi' & HM' & Htab);
    [rewrite <- Hk; by apply he_mac_is_mac|done|]. rewrite !bind_Ret.
  destruct (IH (with_ip_set (with_leases p l) i) Hi' Hnd) as (p' & Hd & Hp' & Hmx & Hl' & Hs').
  { intros m' k' Hin. destruct (Hrows m' k') as (el' & ? & ?); [by constructor|].
    exists el'. split; [|done]. cbn. rewrite Htab, lookup_delete_ne; [done|].
    intros ->. apply Hm, list_elem_of_fmap. by exists (m', k'). }
  exists p'. split_and!; [done|done|done| |].
  - intros m'. rewrite Hl', HM'. cbn. destruct (decide (m' = m)) as [->|Hne].
    + rewrite lookup_delete_eq, (decide_True (P := m ∈ m :: rows.*1)) by constructor. by case_decide.
    + rewrite lookup_delete_ne by done. apply decide_ext. rewrite elem_of_cons. tauto.
  - cbn. rewrite HM', map_size_delete_Some in Hs' by (by eexists).
    assert (size (hash_leases p) ≠ 0)%nat; [|lia].
    intros E%map_size_empty_inv. by rewrite E in HM.
Qed.

(** Cleaning up removes expired leases only, and all of them unless there are
    more than 32. *)
Lemma hash_cleanup_spec s e p now : hash_inv s e p →
  ∃ p', dhcp_hashpool_cleanup_expire_lease p now = Ret p' ∧ hash_inv s e p' ∧
    hp_max_leases p' = hp_max_leases p ∧ pruned now (hash_leases p) (hash_leases p') ∧
    ((∀ m ip x, hash_leases p' !! m = Some (ip, x) → now < x) ∨
     size (hash_leases p) = (size (hash_leases p') + 32)%nat).
Proof.
  intros Hi. pose proof (hi_leases _ _ _ Hi) as Ht. pose proof (ti_wf _ _ _ _ Ht) as Hwf.
  unfold dhcp_hashpool_cleanup_expire_lease.
  rewrite (expired_scan_spec _ now Hwf) by (rewrite ?(hi_cap _ _ _ Hi); cbn; lia).
  rewrite bind_Ret. cbn [app length Nat.sub].
  set (ex := expired_elems (hp_leases p) now 0 HASH_N).
  assert (Hex : ∀ el, el ∈ ex ↔ tab_map he_mac (hp_leases p) !! he_mac el = Some el ∧ he_expire el ≤ now).
  { intros el. unfold ex, expired_elems. rewrite list_elem_of_filter, tab_map_lookup by apply Ht.
    rewrite <- (hi_cap _ _ _ Hi). change (omap _ _) with (elems (hp_leases p)).
    rewrite elem_of_elems by done. split.
    - intros (Hx & i & Hsl). split; [by exists i|done].
    - intros ((i & Hsl & _) & Hx). split; [done|by exists i]. }
  assert (Hnd : NoDup (row <$> ex).*1).
  { rewrite <- list_fmap_compose. unfold ex, expired_elems.
    eapply sublist_NoDup; [|apply fmap_sublist, sublist_filter].
    apply NoDup_omap_key; [apply NoDup_seq|]. apply Ht. }
  destruct (delete_rows_spec s e (take 32 (row <$> ex)) p Hi) as (p' & Hd & Hi' & Hmx & Hl & Hs).
  { rewrite <- fmap_take. eapply sublist_NoDup; [exact Hnd|].
    apply fmap_sublist, fmap_sublist, sublist_take. }
  { intros m k Hin. eapply elem_of_sublist in Hin; [|apply sublist_take].
    apply list_elem_of_fmap in Hin as (el & [= -> ->] & [Hel _]%Hex). eauto. }
  exists p'. split_and!; [done..| |].
  - split.
    + apply map_subseteq_spec. intros m y. rewrite Hl. by case_decide.
    + intros m ip x HM Hn. rewrite Hl in Hn. case_decide as Hin; [|congruence].
      apply list_elem_of_fmap in Hin as ([m' k] & -> & Hin).
      eapply elem_of_sublist in Hin; [|apply sublist_take].
      apply list_elem_of_fmap in Hin as (el & [= -> ->] & [Hel Hx]%Hex).
      unfold hash_leases in HM. cbn in HM. rewrite lookup_fmap, Hel in HM. by injection HM as <- <-.
  - destruct (decide (length ex ≤ 32)%nat) as [Hle|Hgt].
    + left. intros m ip x HM. rewrite Hl in HM. case_decide as Hnin; [done|].
      rewrite take_ge in Hnin by (by rewrite length_fmap).
      unfold hash_leases in HM. rewrite lookup_fmap in HM.
      apply fmap_Some in HM as (el & Hel & [= -> ->]).
      destruct (decide (he_expire el ≤ now)) as [Hx|]; [|lia]. exfalso. apply Hnin.
      destruct (tab_elem s e p m el Hi Hel) as (_ & <- & _ & _).
      apply list_elem_of_fmap. exists (row el). split; [done|]. apply list_elem_of_fmap_2, Hex. done.
    + right. rewrite <- Hs. rewrite length_take, length_fmap. lia.
Qed.

Lemma hash_cleanup_if_full_spec s e p now : hash_inv s e p →
  ∃ p', hash_cleanup_if_full p now = Ret p' ∧ hash_inv s e p' ∧
    hp_max_leases p' = hp_max_leases p ∧ pruned now (hash_leases p) (hash_leases p') ∧
    ((size (hash_leases p) < hash_cap p)%nat → p' = p).
Proof.
  intros Hi. unfold hash_cleanup_if_full. rewrite (pool_full_spec _ _ _ Hi). case_bool_decide as Hf.
  - destruct (hash_cleanup_spec s e p now Hi) as (p' & ? & ? & ? & ? & _).
    exists p'. split_and!; [done..|lia].
  - exists p. split_and!; auto with dhcp.
Qed.

(** ** The operations on the lease map *)

Lemma hash_decline_spec s e p mac : hash_inv s e p → is_mac mac →
  ∃ p', dhcp_hashpool_decline_lease p mac = Ret p' ∧ hash_inv s e p' ∧
    hp_max_leases p' = hp_max_leases p ∧ hash_leases p' = delete mac (hash_leases p).
Proof.
  intros Hi Hm. unfold dhcp_hashpool_decline_lease.
  destruct (find_lease_M s e p mac Hi Hm) as ([i|] & Hf & Hr);
    unfold dhcp_hashpool_find_lease in Hf; rewrite Hf, bind_Ret.
  - destruct Hr as (el & _ & -> & Htab). rewrite bind_Ret.
    destruct (delete_pair s e p mac el Hi Hm Htab) as (rc & l & rc' & ip & -> & -> & ? & ? & _).
    rewrite !bind_Ret. eexists. by split_and!.
  - exists p. split_and!; try done. by rewrite delete_id.
Qed.

Lemma hash_find_spec s e p mac now : hash_inv s e p → is_mac mac →
  ∃ ip p', dhcp_hashpool_find_available_ip p s e mac now = Ret (ip, p') ∧ hash_inv s e p' ∧
    hp_max_leases p' = hp_max_leases p ∧ pruned now (hash_leases p) (hash_leases p') ∧
    offerable (hash_cap p) s e mac (hash_leases p') ip.
Proof.
  intros Hi Hm. unfold dhcp_hashpool_find_available_ip, offerable.
  destruct (hash_cleanup_if_full_spec s e p now Hi) as (p1 & -> & Hi1 & Hmx & Hpr & _).
  rewrite bind_Ret. assert (hash_cap p = hash_cap p1) as -> by (unfold hash_cap; by rewrite Hmx).
  destruct (find_lease_M s e p1 mac Hi1 Hm) as ([i|] & -> & Hr); rewrite bind_Ret.
  - destruct Hr as (el & _ & -> & Htab). rewrite bind_Ret.
    destruct (tab_elem _ _ _ _ _ Hi1 Htab) as (_ & _ & HM & _).
    exists (he_ip el), p1. split_and!; [done..|]. by rewrite HM.
  - rewrite (pool_full_spec _ _ _ Hi1). case_bool_decide as Hf.
    { exists 0, p1. split_and!; [done..|]. rewrite Hr. by left. }
    pose proof Hi1 as [? ? ? ? ? ? Hnx Hmx1 Hrm Hpl].
    destruct (search_spec (ip_in_use p1) (λ ip, held ip (hash_leases p1)) s e Hpl) with (nx := hp_next_ip p1)
      as (ip & nx & -> & Hnx' & Hres); [|done|].
    { intros ip Hip. apply (ip_in_use_M s e p1 ip Hi1). unfold uword. lia. }
    rewrite bind_Ret. eexists _, _. split; [done|].
    change (hash_leases (mkHashPool _ _ _ _)) with (hash_leases p1).
    split_and!; [by split|done|done|]. rewrite Hr. right. split; [lia|]. done.
Qed.

(** Renewing the client's own lease in place. *)
Lemma hash_renew_spec s e p mac i el x : hash_inv s e p → is_u32 x →
  slot (hp_leases p) i = Some el → tab_map he_mac (hp_leases p) !! mac = Some el →
  ∃ l, replace_elem (hp_leases p) i (he_set_expire el x) = Ret l ∧
    hash_inv s e (with_leases p l) ∧
    hash_leases (with_leases p l) = <[mac := (he_ip el, x)]> (hash_leases p).
Proof.
  intros Hi Hx Hs Htab. pose proof Hi as [Ht Hti Hc Hci Hsy Hin Hnx Hmx Hrm Hpl].
  destruct (tab_elem _ _ _ _ _ Hi Htab) as (Hel & Hk & HM & _).
  destruct (he_set_expire_elem el x Hel Hx) as (Hel' & Hk' & Hip' & Hx').
  destruct (replace_elem_spec (hp_leases p) i (he_set_expire el x) el (ti_wf _ _ _ _ Ht) Hs)
    as (l & -> & Hwf' & Hc' & Hn' & Ho' & Hsl).
  destruct (replace_inv _ _ _ mac_hash_key _ l i el (he_set_expire el x) Ht Hs Hel' Hk' Hwf' Hc' Hn' Ho' Hsl)
    as [Ht' Hm']. exists l. split; [done|].
  assert (HM' : hash_leases (with_leases p l) = <[mac := (he_ip el, x)]> (hash_leases p)).
  { unfold hash_leases. cbn [hp_leases with_leases]. rewrite Hm', fmap_insert, Hk', Hk.
    unfold lease_of at 1. by rewrite Hip', Hx'. }
  split; [|done]. split; cbn [hp_leases hp_ip_set hp_next_ip hp_max_leases with_leases]; try done.
  - congruence.
  - rewrite HM'. by eapply synced_renew.
  - rewrite HM'. apply in_pool_insert; [done|]. by eapply Hin.
  - rewrite HM', map_size_insert_Some; [done|by eexists].
Qed.

(** Recording a new lease in both tables: the second insertion cannot fail. *)
Lemma hash_record_spec s e p mac ip x : hash_inv s e p → is_mac mac → s ≤ ip ≤ e → is_u32 x →
  hash_leases p !! mac = None → ¬ held ip (hash_leases p) →
  (size (hash_leases p) < hash_cap p)%nat →
  ∃ l i, insert_mac (hp_leases p) (he_make mac ip x) = Ret (HASH_OP_SUCCESS, l) ∧
    insert_ip (hp_ip_set p) (ip_key (le_split 4 ip)) = Ret (HASH_OP_SUCCESS, i) ∧
    let p' := with_ip_set (with_leases p l) i in
    hash_inv s e p' ∧ hash_leases p' = <[mac := (ip, x)]> (hash_leases p).
Proof.
  intros Hi Hm Hip Hx HM Hnh Hsz. pose proof Hi as [Ht Hti Hc Hci Hsy Hin Hnx Hmx Hrm Hpl].
  assert (Hu : is_u32 ip) by (unfold uword; lia).
  destruct (he_make_elem mac ip x Hm Hu Hx) as (Hel & Hk & Hkb & Hki & Hkx).
  assert (Hroom : (size (hash_leases p) < HASH_N)%nat) by (unfold hash_cap in Hsz; lia).
  destruct (hash_insert_map _ _ _ _ mac_comp_key mac_hash_key _ _ Ht Hel) as (rc & l & Hl & Hpost).
  destruct Hpost as [(Hfull & _)|(_ & -> & Ht' & Hc' & Hm')].
  { rewrite (tab_map_size_Z _ _ _ _ Ht) in Hfull. unfold hash_leases in Hroom.
    rewrite map_size_fmap in Hroom. lia. }
  destruct (ip_key_elem (le_split 4 ip)) as [Hvi Hkey]; [apply le_split_length|apply le_split_bytes|].
  destruct (hash_insert_map _ _ _ _ ip_comp_key ip_hash_key _ _ Hti Hvi) as (rc & i & Hli & Hpost).
  destruct Hpost as [(Hfull & _)|(_ & -> & Hti' & Hci' & Hmi')].
  { rewrite (tab_map_size_Z _ _ _ _ Hti), (sy_size _ _ Hsy) in Hfull. lia. }
  exists l, i. split; [done|]. split; [done|]. cbn zeta. set (p' := with_ip_set _ _).
  assert (HM' : hash_leases p' = <[mac := (ip, x)]> (hash_leases p)).
  { unfold hash_leases. cbn [p' hp_leases with_ip_set with_leases].
    rewrite Hm', fmap_insert, Hk. unfold lease_of at 1. by rewrite Hki, Hkx. }
  split; [|done].
  split; cbn [p' hp_leases hp_ip_set hp_next_ip hp_max_leases with_ip_set with_leases]; try done.
  - congruence.
  - congruence.
  - rewrite HM', Hmi', Hkey. by apply synced_insert.
  - rewrite HM'. by apply in_pool_insert.
  - rewrite HM', map_size_insert_None by done. unfold hash_cap in Hsz. lia.
Qed.

Lemma hash_alloc_spec s e p ip mac lt now : hash_inv s e p → is_mac mac → s ≤ ip ≤ e →
  ∃ b p' M, dhcp_hashpool_alloc_lease p ip mac lt now = Ret (b, p') ∧ hash_inv s e p' ∧
    hp_max_leases p' = hp_max_leases p ∧ pruned now (hash_leases p) M ∧
    ((size (hash_leases p) < hash_cap p)%nat → M = hash_leases p) ∧
    grant (hash_cap p) ip mac (now ⊞ lt) M b (hash_leases p').
Proof.
  intros Hi Hm Hip. unfold dhcp_hashpool_alloc_lease, grant.
  destruct (hash_cleanup_if_full_spec s e p now Hi) as (p1 & -> & Hi1 & Hmx & Hpr & Hsame).
  rewrite bind_Ret. assert (Hcap : hash_cap p = hash_cap p1) by (unfold hash_cap; by rewrite Hmx).
  assert (Hx : is_u32 (now ⊞ lt)) by (apply wrap_range; lia).
  assert (Hw : (size (hash_leases p) < hash_cap p)%nat → hash_leases p1 = hash_leases p).
  { intros Hlt. by rewrite Hsame. }
  destruct (find_lease_M s e p1 mac Hi1 Hm) as ([i|] & -> & Hr); rewrite bind_Ret.
  - destruct Hr as (el & Hsl & -> & Htab). rewrite bind_Ret.
    destruct (tab_elem _ _ _ _ _ Hi1 Htab) as (_ & _ & HM & _).
    destruct (Z.eqb_spec (he_ip el) ip) as [Heq|Hne]; cbn [negb].
    + destruct (hash_renew_spec s e p1 mac i el (now ⊞ lt) Hi1 Hx Hsl Htab) as (l & -> & Hi' & HM').
      rewrite bind_Ret. eexists _, _, (hash_leases p1). split; [done|]. rewrite HM. cbn.
      split_and!; try done. left. by rewrite HM', Heq.
    + eexists _, _, (hash_leases p1). split; [done|]. rewrite HM. cbn.
      split_and!; try done. by right.
  - destruct (ip_in_use_M s e p1 ip Hi1) as ([] & -> & Hh); [unfold uword; pose proof (hi_pool _ _ _ Hi); lia|..];
      rewrite bind_Ret.
    { eexists _, _, (hash_leases p1). split; [done|]. rewrite Hr. split_and!; try done. right. tauto. }
    rewrite (pool_full_spec _ _ _ Hi1), <- Hcap. case_bool_decide as Hf.
    { eexists _, _, (hash_leases p1). split; [done|]. rewrite Hr. split_and!; try done. right. tauto. }
    destruct (hash_record_spec s e p1 mac ip (now ⊞ lt) Hi1 Hm Hip Hx Hr Hh) as (l & i & -> & Hins & Hi' & HM');
      [lia|]. rewrite bind_Ret. cbn [negb Z.eqb HASH_OP_SUCCESS Pos.eqb]. rewrite Hins, bind_Ret.
    eexists _, _, (hash_leases p1). split; [done|]. rewrite Hr.
    split_and!; try done. left. split_and!; [done|lia|done|done].
Qed.

Lemma hash_pool_init_spec s e p max : 0 < s → s ≤ e → e < 2 ^ 32 → 0 ≤ max →
  length (buckets (hp_leases p)) = HASH_N → length (occupied (hp_leases p)) = HASH_N →
  length (buckets (hp_ip_set p)) = HASH_N → length (occupied (hp_ip_set p)) = HASH_N →
  ∃ p', dhcp_hashpool_init p s max = Ret p' ∧ hash_inv s e p' ∧ hash_leases p' = ∅ ∧
    hash_cap p' = Nat.min HASH_N (Z.to_nat max).
Proof.
  intros Hs Hse He Hmax Hb Ho Hbi Hoi. unfold dhcp_hashpool_init.
  destruct (hash_init_spec HASH_ELEM_MAX dhcp_mac_hash mac_elem he_mac (hp_leases p) HASH_N)
    as (l & -> & Ht & Hc & _ & Hm); [lia..|done|done|]. rewrite bind_Ret.
  destruct (hash_init_spec HASH_ELEM_IP_SIZE dhcp_ip_hash ip_elem ip_bytes (hp_ip_set p) HASH_N)
    as (i & -> & Hti & Hci & _ & Hmi); [lia..|done|done|]. rewrite bind_Ret.
  eexists. split; [done|]. set (p' := mkHashPool _ _ _ _).
  assert (HM : hash_leases p' = ∅) by (unfold hash_leases; cbn; by rewrite Hm, fmap_empty).
  split_and!; [|done|].
  - split; try (cbn; done || lia).
    + rewrite HM. cbn. rewrite Hmi. split; [|done|by intros ???|done].
      intros ip _. rewrite lookup_empty. split; [by intros []|]. by intros (m & x & ?).
    + by rewrite HM.
    + cbn. destruct (Z.ltb_spec (Z.of_nat HASH_N) max); lia.
    + rewrite HM, map_size_empty. cbn. destruct (Z.ltb_spec (Z.of_nat HASH_N) max); lia.
  - unfold hash_cap. cbn. destruct (Z.ltb_spec (Z.of_nat HASH_N) max); lia.
Qed.

(** ** HASHMAP mode as a lease store *)

Definition hash_store : LeaseStore dhcp_hashpool_t := {|
  ls_inv := hash_inv;
  ls_map := hash_leases;
  ls_cap := hash_cap;
  ls_find := dhcp_hashpool_find_available_ip;
  ls_alloc := dhcp_hashpool_alloc_lease;
  ls_decline := dhcp_hashpool_decline_lease
|}.

Lemma hash_cap_eq p p' : hp_max_leases p' = hp_max_leases p → hash_cap p' = hash_cap p.
Proof. unfold hash_cap. by intros ->. Qed.

Lemma hash_store_laws : LeaseStoreLaws (H := hash_store) dhcp_hashpool_t.
Proof.
  split; cbn.
  - intros s e p Hi. apply (hi_sync _ _ _ Hi).
  - intros s e p Hi. apply (hi_in_pool _ _ _ Hi).
  - intros s e p Hi. unfold hash_cap. pose proof (hi_room _ _ _ Hi). lia.
  - intros s e p mac now Hi Hm _.
    destruct (hash_find_spec s e p mac now Hi Hm) as (ip & p' & ? & ? & ?%hash_cap_eq & ? & ?).
    exists ip, p'. by split_and!.
  - intros s e p ip mac lt now Hi Hm Hip _.
    destruct (hash_alloc_spec s e p ip mac lt now Hi Hm Hip)
      as (b & p' & M & ? & ? & ?%hash_cap_eq & ? & ? & ?).
    exists b, p', M. by split_and!.
  - intros s e p mac Hi Hm.
    destruct (hash_decline_spec s e p mac Hi Hm) as (p' & ? & ? & ?%hash_cap_eq & ?).
    exists p'. by split_and!.
Qed.

(** ** Reachable pools *)

Inductive hash_step (s e : Z) : dhcp_hashpool_t → dhcp_hashpool_t → Prop :=
  | hstep_find p mac now ip p' : is_mac mac →
      dhcp_hashpool_find_available_ip p s e mac now = Ret (ip, p') → hash_step s e p p'
  | hstep_alloc p ip mac lt now b p' : is_mac mac → s ≤ ip ≤ e →
      dhcp_hashpool_alloc_lease p ip mac lt now = Ret (b, p') → hash_step s e p p'
  | hstep_cleanup p now p' :
      dhcp_hashpool_cleanup_expire_lease p now = Ret p' → hash_step s e p p'
  | hstep_decline p mac p' : is_mac mac →
      dhcp_hashpool_decline_lease p mac = Ret p' → hash_step s e p p'.

Lemma hash_step_inv s e p p' : hash_inv s e p → hash_step s e p p' → hash_inv s e p'.
Proof.
  intros Hi Hstep.
  destruct Hstep as [q mac now ip q' Hm Hq|q ip mac lt now b q' Hm Hip Hq|q now q' Hq|q mac q' Hm Hq].
  - destruct (hash_find_spec s e q mac now Hi Hm) as (? & ? & Hq' & ? & _). congruence.
  - destruct (hash_alloc_spec s e q ip mac lt now Hi Hm Hip) as (? & ? & ? & Hq' & ? & _). congruence.
  - destruct (hash_cleanup_spec s e q now Hi) as (? & Hq' & ? & _). congruence.
  - destruct (hash_decline_spec s e q mac Hi Hm) as (? & Hq' & ? & _). congruence.
Qed.

(** The storage a pool is initialised in. *)
Definition pool_storage (p : dhcp_hashpool_t) : Prop :=
  length (buckets (hp_leases p)) = HASH_N ∧ length (occupied (hp_leases p)) = HASH_N ∧
  length (buckets (hp_ip_set p)) = HASH_N ∧ length (occupied (hp_ip_set p)) = HASH_N.

Lemma hash_reachable_inv s e raw max p0 p : 0 < s → s ≤ e → e < 2 ^ 32 → 0 ≤ max →
  pool_storage raw → dhcp_hashpool_init raw s max = Ret p0 → rtc (hash_step s e) p0 p →
  hash_inv s e p.
Proof.
  intros Hs Hse He Hmax (? & ? & ? & ?) Hinit Hsteps.
  destruct (hash_pool_init_spec s e raw max) as (p0' & Hinit' & Hi & _); [done..|].
  assert (p0' = p0) as -> by congruence. clear -Hi Hsteps HN Hjunk.
  induction Hsteps; eauto using hash_step_inv.
Qed.

(** Two occupied lease buckets hold different clients and addresses. *)
Lemma hash_distinct s e p i j a b : hash_inv s e p → i ≠ j →
  slot (hp_leases p) i = Some a → slot (hp_leases p) j = Some b →
  he_mac a ≠ he_mac b ∧ he_ip a ≠ he_ip b.
Proof.
  intros Hi Hij Ha Hb. pose proof (hi_leases _ _ _ Hi) as Ht.
  assert (Hl : ∀ k el, slot (hp_leases p) k = Some el →
    hash_leases p !! he_mac el = Some (he_ip el, he_expire el)).
  { intros k el Hk. apply (tab_elem s e p (he_mac el) el Hi).
    apply tab_map_lookup; [apply Ht..|]. by exists k. }
  assert (Hne : he_mac a ≠ he_mac b).
  { intros E. apply Hij. by eapply (ti_unique _ _ _ _ Ht). }
  split; [done|]. intros E. apply Hne.
  apply (sy_inj _ _ (hi_sync _ _ _ Hi) _ _ (he_ip a) (he_expire a) (he_expire b)).
  - by eapply Hl.
  - rewrite E. by eapply Hl.
Qed.

(** C21: In every state the HASHMAP pool can reach by offers, grants of addresses of the
    pool, declines and clean-ups (with tables of fewer than 2^16 buckets and a range of
    32-bit addresses that does not begin at 0), the two hash tables agree: two
    lease buckets never hold the same client or the same address, the address
    set finds exactly the leased addresses, both tables have as many entries,
    and every operation returns without touching memory outside the tables.
    The bytes a search key leaves uninitialised never matter. *)
Theorem hash_pool_invariant (s e : Z) (raw : dhcp_hashpool_t) (max : Z) (p0 p : dhcp_hashpool_t) :
  0 < s → s ≤ e → e < 2 ^ 32 → 0 ≤ max →
  pool_storage raw → dhcp_hashpool_init raw s max = Ret p0 → rtc (hash_step s e) p0 p →
  (∀ i j a b, i ≠ j → slot (hp_leases p) i = Some a → slot (hp_leases p) j = Some b →
     he_mac a ≠ he_mac b ∧ he_ip a ≠ he_ip b) ∧
  (∀ ip, is_u32 ip →
     ∃ b, ip_in_use p ip = Ret b ∧ (b = true ↔ ∃ i a, slot (hp_leases p) i = Some a ∧ he_ip a = ip)) ∧
  hash_size (hp_ip_set p) = hash_size (hp_leases p) ∧
  (∀ mac now, is_mac mac → ∃ r, dhcp_hashpool_find_available_ip p s e mac now = Ret r) ∧
  (∀ ip mac lt now, is_mac mac → s ≤ ip ≤ e →
     ∃ r, dhcp_hashpool_alloc_lease p ip mac lt now = Ret r) ∧
  (∀ mac, is_mac mac → ∃ r, dhcp_hashpool_decline_lease p mac = Ret r).
Proof.
  intros Hs Hse He Hmax Hraw Hinit Hsteps.
  pose proof (hash_reachable_inv s e raw max p0 p Hs Hse He Hmax Hraw Hinit Hsteps) as Hi.
  pose proof (hi_leases _ _ _ Hi) as Ht. split_and!.
  - intros i j a b. by apply (hash_distinct s e).
  - intros ip Hip. destruct (ip_in_use_M s e p ip Hi Hip) as (b & Hb & Hh).
    exists b. split; [done|]. assert (Hheld : held ip (hash_leases p) ↔
      ∃ i a, slot (hp_leases p) i = Some a ∧ he_ip a = ip).
    { split.
      - intros (m & x & Hm). unfold hash_leases in Hm. rewrite lookup_fmap in Hm.
        apply fmap_Some in Hm as (a & (i & Hsl & _)%tab_map_lookup & [= -> ->]); [|apply Ht..]. eauto.
      - intros (i & a & Hsl & <-). exists (he_mac a), (he_expire a).
        apply (tab_elem s e p (he_mac a) a Hi). apply tab_map_lookup; [apply Ht..|]. by exists i. }
    rewrite <- Hheld. by destruct b.
  - unfold hash_size. rewrite (tab_map_size_Z _ _ _ _ Ht), (tab_map_size_Z _ _ _ _ (hi_ips _ _ _ Hi)).
    rewrite (sy_size _ _ (hi_sync _ _ _ Hi)). unfold hash_leases. by rewrite map_size_fmap.
  - intros mac now Hm. destruct (hash_find_spec s e p mac now Hi Hm) as (? & ? & ? & _). eauto.
  - intros ip mac lt now Hm Hip.
    destruct (hash_alloc_spec s e p ip mac lt now Hi Hm Hip) as (? & ? & ? & ? & _). eauto.
  - intros mac Hm. destruct (hash_decline_spec s e p mac Hi Hm) as (? & ? & _). eauto.
Qed.

(** [dhcp_hashpool_alloc_lease] implements the same lease-map specification as
    ARRAY mode: it drops expired leases only when full, renews the client's own
    lease in place, refuses a second address for a client or an address of
    another client, refuses when full, and otherwise records the lease in both
    tables; the roll-back branch is never taken. *)
Theorem hash_alloc_refines (s e : Z) (p : dhcp_hashpool_t) (ip : Z) (mac : list Z) (lt now : Z) :
  hash_inv s e p → is_mac mac → s ≤ ip ≤ e →
  ∃ b p' M, dhcp_hashpool_alloc_lease p ip mac lt now = Ret (b, p') ∧ hash_inv s e p' ∧
    pruned now (hash_leases p) M ∧
    ((size (hash_leases p) < hash_cap p)%nat → M = hash_leases p) ∧
    grant (hash_cap p) ip mac (now ⊞ lt) M b (hash_leases p').
Proof.
  intros Hi Hm Hip.
  destruct (hash_alloc_spec s e p ip mac lt now Hi Hm Hip) as (b & p' & M & ? & ? & _ & ?).
  by exists b, p', M.
Qed.

(** [dhcp_hashpool_cleanup_expire_lease] removes only leases that have expired,
    keeps the tables consistent, and either leaves no expired lease or has
    removed exactly the 32 its buffers can hold. *)
Theorem hash_cleanup_correct (s e : Z) (p : dhcp_hashpool_t) (now : Z) :
  hash_inv s e p →
  ∃ p', dhcp_hashpool_cleanup_expire_lease p now = Ret p' ∧ hash_inv s e p' ∧
    pruned now (hash_leases p) (hash_leases p') ∧
    ((∀ m ip x, hash_leases p' !! m = Some (ip, x) → now < x) ∨
     size (hash_leases p) = (size (hash_leases p') + 32)%nat).
Proof.
  intros Hi. destruct (hash_cleanup_spec s e p now Hi) as (p' & ? & ? & _ & ?). by exists p'.
Qed.
End HashPool.

(** ** Witnesses: a pool with four buckets *)

Definition raw_tab (n : nat) : hash_tab := mkTab (replicate n (mkElem [] 0)) (replicate n 7) 3 0.
Definition raw_hashpool : dhcp_hashpool_t := mkHashPool (raw_tab 4) (raw_tab 4) 0 0.
Definition sample_junk : list Z := replicate 8 170.
Definition client_a : list Z := [2; 0; 0; 0; 0; 10].
Definition client_b : list Z := [2; 0; 0; 0; 0; 11].

Definition ret_pool (m : outcome dhcp_hashpool_t) : dhcp_hashpool_t :=
  match m with Ret p => p | _ => raw_hashpool end.

Definition sample_hp0 : dhcp_hashpool_t := ret_pool (dhcp_hashpool_init 4 raw_hashpool 100 3).
Definition sample_hp1 : dhcp_hashpool_t :=
  ret_pool (snd <$> dhcp_hashpool_alloc_lease 4 sample_junk sample_hp0 100 client_a 3600 100).

Lemma sample_junk_ok : length sample_junk = 8%nat ∧ Forall byte sample_junk.
Proof. split; [reflexivity | apply (bool_decide_unpack _); vm_compute; exact I]. Qed.

Lemma client_ok : is_mac client_a ∧ is_mac client_b.
Proof. split; apply (bool_decide_unpack _); vm_compute; exact I. Qed.

Lemma sample_init : dhcp_hashpool_init 4 raw_hashpool 100 3 = Ret sample_hp0.
Proof. vm_compute. reflexivity. Qed.

Lemma sample_hstep : hash_step 4 sample_junk 100 103 sample_hp0 sample_hp1.
Proof.
  apply (hstep_alloc _ _ _ _ _ 100 client_a 3600 100 true); [apply client_ok|lia|].
  vm_compute. reflexivity.
Qed.

Lemma sample_storage : pool_storage 4 raw_hashpool.
Proof. split_and!; reflexivity. Qed.

Lemma sample_hp1_inv : hash_inv 4 100 103 sample_hp1.
Proof.
  refine (hash_reachable_inv 4 sample_junk _ _ 100 103 raw_hashpool 3 sample_hp0 sample_hp1
    _ _ _ _ sample_storage sample_init _); try lia.
  - exact sample_junk_ok.
  - eapply rtc_once, sample_hstep.
Qed.

Lemma hash_pool_invariant_witness :
  rtc (hash_step 4 sample_junk 100 103) sample_hp0 sample_hp1 ∧
  hash_size (hp_ip_set sample_hp1) = hash_size (hp_leases sample_hp1) ∧
  hash_size (hp_leases sample_hp1) = 1.
Proof.
  assert (Hr : rtc (hash_step 4 sample_junk 100 103) sample_hp0 sample_hp1)
    by (eapply rtc_once, sample_hstep).
  split; [exact Hr|]. split; [|vm_compute; reflexivity].
  assert (H := hash_pool_invariant 4 sample_junk ltac:(lia) sample_junk_ok 100 103 raw_hashpool 3
    sample_hp0 sample_hp1 ltac:(lia) ltac:(lia) ltac:(lia) ltac:(lia) sample_storage sample_init Hr).
  apply H.
Defined.

Lemma hash_alloc_refines_witness :
  ∃ b p' M, dhcp_hashpool_alloc_lease 4 sample_junk sample_hp1 101 client_b 3600 200 = Ret (b, p') ∧
    hash_inv 4 100 103 p' ∧ pruned 200 (hash_leases sample_hp1) M ∧
    ((size (hash_leases sample_hp1) < hash_cap sample_hp1)%nat → M = hash_leases sample_hp1) ∧
    grant (hash_cap sample_hp1) 101 client_b 3800 M b (hash_leases p').
Proof.
  exact (hash_alloc_refines 4 sample_junk ltac:(lia) sample_junk_ok 100 103 sample_hp1 101 client_b
    3600 200 sample_hp1_inv (proj2 client_ok) ltac:(lia)).
Defined.

Lemma hash_cleanup_correct_witness :
  ∃ p', dhcp_hashpool_cleanup_expire_lease 4 sample_junk sample_hp1 5000 = Ret p' ∧
    hash_inv 4 100 103 p' ∧ pruned 5000 (hash_leases sample_hp1) (hash_leases p') ∧
    ((∀ m ip x, hash_leases p' !! m = Some (ip, x) → 5000 < x) ∨
     size (hash_leases sample_hp1) = (size (hash_leases p') + 32)%nat).
Proof.
  exact (hash_cleanup_correct 4 sample_junk ltac:(lia) sample_junk_ok 100 103 sample_hp1 5000 sample_hp1_inv).
Defined.
