(* ===== verification/BitmapOps.v ===== *)
(** * Bitmaps of address slots

    [dhcp-lib/dhcp_bitmap_ops.h] and [dhcp-lib/dhcp_bitmap_ops.c]: arrays of
    32-bit words in which bit [i] stands for slot [i] of a range, with every word
    access checked against the array. *)
From S2P Require Import Prelude.

Open Scope Z_scope.

Record dhcp_bmrange_t := mkRange {
  ips : list Z;
  range_expire : Z
}.

Definition bm_word (bit : Z) : nat := Z.to_nat (bit ≫ 5).
Definition bm_mask (bit : Z) : Z := u32 (1 ≪ Z.land bit 31).

Definition dhcp_bm_set (ips : list Z) (bit : Z) : outcome (list Z) :=
  w ← deref ips (bm_word bit);
  store ips (bm_word bit) (Z.lor w (bm_mask bit)).

(** [~x] on 32 bits is [x] xor all ones. *)
Definition dhcp_bm_clear (ips : list Z) (bit : Z) : outcome (list Z) :=
  w ← deref ips (bm_word bit);
  store ips (bm_word bit) (Z.land w (Z.lxor (bm_mask bit) (Z.ones 32))).

Definition dhcp_bm_used (ips : list Z) (bit range_size : Z) : outcome bool :=
  if range_size <=? bit then Ret true else
  w ← deref ips (bm_word bit);
  Ret (truth (Z.land (w ≫ Z.land bit 31) 1)).

Definition dhcp_bm_counter_to_ip (range_start counter : Z) : Z := range_start ⊞ counter.

Definition dhcp_bm_range_full (counter range_size : Z) : bool := range_size <=? counter.

(** [kmemset (ips, 0, ((range_size + 31) / 32) * sizeof (uint32_t))] *)
Definition bm_words (range_size : Z) : nat := Z.to_nat (u32 (range_size + 31) / 32).

Definition bm_zero (ips : list Z) (range_size : Z) : outcome (list Z) :=
  store_n ips 0 (replicate (bm_words range_size) 0).

(** ** The bits of an array *)

Definition bm_bit (ips : list Z) (b : Z) : bool :=
  match ips !! Z.to_nat (b / 32) with
  | Some w => Z.testbit w (b `mod` 32)
  | None => false
  end.

(** Enough words for the range, each of 32 bits. *)
Record bm_ok (range_size : Z) (l : list Z) : Prop := {
  bo_words : range_size ≤ 32 * Z.of_nat (length l);
  bo_u32 : Forall is_u32 l
}.

Lemma bm_word_div bit : bm_word bit = Z.to_nat (bit / 32).
Proof. unfold bm_word. by rewrite Z.shiftr_div_pow2. Qed.

Lemma land_31 bit : Z.land bit 31 = bit `mod` 32.
Proof. change 31 with (Z.ones 5). by rewrite Z.land_ones. Qed.

Lemma bm_mask_eq bit : bm_mask bit = 2 ^ (bit `mod` 32).
Proof.
  unfold bm_mask. rewrite land_31, Z.shiftl_1_l. apply wrap_small. unfold uword.
  pose proof (Z.mod_pos_bound bit 32). split; [lia|]. apply Z.pow_lt_mono_r; lia.
Qed.

Lemma bm_word_lt rs l bit : bm_ok rs l → 0 ≤ bit < rs → (bm_word bit < length l)%nat.
Proof.
  intros [Hw _] Hb. rewrite bm_word_div. pose proof (Z.div_lt_upper_bound bit 32 (Z.of_nat (length l))).
  pose proof (Z.div_pos bit 32). lia.
Qed.

(** The bits after writing [w'] over the word of [bit]. *)
Lemma bm_bit_insert l bit w w' b : 0 ≤ bit → 0 ≤ b → l !! bm_word bit = Some w →
  bm_bit (<[bm_word bit := w']> l) b
  = if decide (b / 32 = bit / 32) then Z.testbit w' (b `mod` 32) else bm_bit l b.
Proof.
  intros Hbit Hb Hw. unfold bm_bit. rewrite bm_word_div in *.
  pose proof (Z.div_pos b 32). pose proof (Z.div_pos bit 32). case_decide as E.
  - rewrite E, list_lookup_insert_eq by (by eapply lookup_lt_Some). done.
  - rewrite list_lookup_insert_ne by lia. done.
Qed.

Lemma same_bit a b : a / 32 = b / 32 → a `mod` 32 = b `mod` 32 → a = b.
Proof. intros. pose proof (Z.div_mod a 32). pose proof (Z.div_mod b 32). lia. Qed.

Lemma word_range w : is_u32 w ↔ 0 ≤ w ∧ ∀ i, 32 ≤ i → Z.testbit w i = false.
Proof.
  unfold uword. split.
  - intros Hw. split; [lia|]. intros i Hi. rewrite <- (Z.mod_small w (2 ^ 32)) by lia.
    apply Z.mod_pow2_bits_high. lia.
  - intros [H0 Hb]. split; [done|]. rewrite <- (Z.mod_small w (2 ^ 32)).
    + apply Z.mod_pos_bound. lia.
    + split; [done|]. destruct (decide (w = 0)) as [->|]; [lia|].
      apply Z.log2_lt_pow2; [lia|]. destruct (decide (Z.log2 w < 32)) as [|Hge]; [done|].
      pose proof (Z.bit_log2 w ltac:(lia)) as Ht. rewrite Hb in Ht; [done|lia].
Qed.

Lemma bm_mask_bit bit i : 0 ≤ i → Z.testbit (bm_mask bit) i = bool_decide (i = bit `mod` 32).
Proof.
  intros Hi. rewrite bm_mask_eq, Z.pow2_bits_eqb by (pose proof (Z.mod_pos_bound bit 32); lia).
  case_bool_decide; [apply Z.eqb_eq|apply Z.eqb_neq]; lia.
Qed.

Lemma set_word_u32 w bit : is_u32 w → is_u32 (Z.lor w (bm_mask bit)).
Proof.
  rewrite !word_range. intros [H0 Hb]. pose proof (Z.mod_pos_bound bit 32). split.
  - apply Z.lor_nonneg. split; [done|]. rewrite bm_mask_eq. apply Z.pow_nonneg. lia.
  - intros i Hi. rewrite Z.lor_spec, Hb, bm_mask_bit by lia. rewrite bool_decide_false; [done|lia].
Qed.

Lemma clear_word_u32 w bit : is_u32 w → is_u32 (Z.land w (Z.lxor (bm_mask bit) (Z.ones 32))).
Proof.
  rewrite !word_range. intros [H0 Hb]. split.
  - apply Z.land_nonneg. by left.
  - intros i Hi. rewrite Z.land_spec, Hb by lia. done.
Qed.

(** ** The operations on bits *)

Lemma bm_set_spec rs l bit : bm_ok rs l → 0 ≤ bit < rs →
  ∃ l', dhcp_bm_set l bit = Ret l' ∧ bm_ok rs l' ∧ length l' = length l ∧
    ∀ b, 0 ≤ b → bm_bit l' b = (if decide (b = bit) then true else bm_bit l b).
Proof.
  intros Hok Hb. pose proof (bm_word_lt rs l bit Hok Hb) as Hlt. destruct Hok as [Hw Hu].
  destruct (deref_lt l (bm_word bit) Hlt) as (w & Hl & Hd).
  unfold dhcp_bm_set. rewrite Hd, bind_Ret, store_lt by done.
  eexists. split_and!; [done| |by rewrite length_insert|].
  - split; [by rewrite length_insert|]. apply Forall_insert; [done|].
    apply set_word_u32. by eapply Forall_lookup_1.
  - intros b Hb0. rewrite (bm_bit_insert l bit w) by (done || lia).
    pose proof (Z.mod_pos_bound b 32). case_decide as E.
    + rewrite Z.lor_spec, bm_mask_bit by lia. case_decide as Eb; [subst b|].
      * by rewrite bool_decide_true, orb_true_r.
      * rewrite bool_decide_false, orb_false_r by (intros Em; by apply Eb, same_bit).
        unfold bm_bit. rewrite E, <- bm_word_div, Hl. done.
    + case_decide; [congruence|done].
Qed.

Lemma bm_clear_spec rs l bit : bm_ok rs l → 0 ≤ bit < rs →
  ∃ l', dhcp_bm_clear l bit = Ret l' ∧ bm_ok rs l' ∧ length l' = length l ∧
    ∀ b, 0 ≤ b → bm_bit l' b = (if decide (b = bit) then false else bm_bit l b).
Proof.
  intros Hok Hb. pose proof (bm_word_lt rs l bit Hok Hb) as Hlt. destruct Hok as [Hw Hu].
  destruct (deref_lt l (bm_word bit) Hlt) as (w & Hl & Hd).
  unfold dhcp_bm_clear. rewrite Hd, bind_Ret, store_lt by done.
  eexists. split_and!; [done| |by rewrite length_insert|].
  - split; [by rewrite length_insert|]. apply Forall_insert; [done|].
    apply clear_word_u32. by eapply Forall_lookup_1.
  - intros b Hb0. rewrite (bm_bit_insert l bit w) by (done || lia).
    pose proof (Z.mod_pos_bound b 32). case_decide as E.
    + rewrite Z.land_spec, Z.lxor_spec, bm_mask_bit, Z.ones_spec_low by lia.
      case_decide as Eb; [subst b|].
      * by rewrite bool_decide_true, andb_false_r.
      * rewrite bool_decide_false by (intros Em; by apply Eb, same_bit).
        cbn. rewrite andb_true_r. unfold bm_bit. rewrite E, <- bm_word_div, Hl. done.
    + case_decide; [congruence|done].
Qed.

Lemma truth_land_1 z : truth (Z.land z 1) = Z.testbit z 0.
Proof.
  change 1 with (Z.ones 1). rewrite Z.land_ones by lia. rewrite Z.bit0_odd. unfold truth.
  rewrite Zmod_odd. by destruct (Z.odd z).
Qed.

Lemma bm_used_spec rs l bit : bm_ok rs l → 0 ≤ bit < rs → dhcp_bm_used l bit rs = Ret (bm_bit l bit).
Proof.
  intros Hok Hb. pose proof (bm_word_lt rs l bit Hok Hb) as Hlt.
  destruct (deref_lt l (bm_word bit) Hlt) as (w & Hl & Hd).
  unfold dhcp_bm_used. rewrite (proj2 (Z.leb_gt rs bit)) by lia. rewrite Hd, bind_Ret.
  unfold bm_bit. rewrite <- bm_word_div, Hl. f_equal.
  rewrite truth_land_1, land_31, Z.shiftr_spec by lia. f_equal.
Qed.

Lemma bm_used_out rs l bit : rs ≤ bit → dhcp_bm_used l bit rs = Ret true.
Proof. intros. unfold dhcp_bm_used. by rewrite (proj2 (Z.leb_le rs bit)). Qed.

Lemma bm_words_eq rs : 0 ≤ rs < 2 ^ 32 - 31 → Z.of_nat (bm_words rs) = (rs + 31) / 32.
Proof.
  intros. unfold bm_words. rewrite wrap_small by (unfold uword; lia).
  pose proof (Z.div_pos (rs + 31) 32). lia.
Qed.

Lemma list_inserts_0_replicate (l : list Z) n : (n ≤ length l)%nat →
  list_inserts 0 (replicate n 0) l = replicate n 0 ++ drop n l.
Proof.
  intros Hn. rewrite <- (take_drop n l) at 1.
  pose proof (list_inserts_app [] (take n l) (drop n l) (replicate n 0)) as E.
  cbn [app length] in E. apply E. rewrite length_replicate, length_take. lia.
Qed.

(** Clearing a range frees every slot of it. *)
Lemma bm_zero_spec rs l : 0 ≤ rs < 2 ^ 32 - 31 → bm_ok rs l →
  ∃ l', bm_zero l rs = Ret l' ∧ bm_ok rs l' ∧ length l' = length l ∧
    ∀ b, 0 ≤ b < rs → bm_bit l' b = false.
Proof.
  intros Hrs [Hw Hu]. pose proof (bm_words_eq rs Hrs) as Hn.
  assert (Hle : (bm_words rs ≤ length l)%nat).
  { apply Nat2Z.inj_le. rewrite Hn.
    pose proof (Z.div_le_mono (rs + 31) (31 + Z.of_nat (length l) * 32) 32).
    rewrite Z.div_add in * by lia. change (31 / 32) with 0 in *. lia. }
  unfold bm_zero. rewrite store_n_le by (rewrite length_replicate; lia).
  rewrite list_inserts_0_replicate by done. eexists. split; [done|].
  assert (Hlen : length (replicate (bm_words rs) 0 ++ drop (bm_words rs) l) = length l).
  { rewrite length_app, length_replicate, length_drop. lia. }
  split_and!; [split| |].
  - by rewrite Hlen.
  - apply Forall_app. split; [|by apply Forall_drop]. apply Forall_replicate. by unfold uword.
  - done.
  - intros b Hb. assert (Hlt : (Z.to_nat (b / 32) < bm_words rs)%nat).
    { apply Nat2Z.inj_lt. rewrite Hn, Z2Nat.id by (apply Z.div_pos; lia).
      pose proof (Z.div_mod b 32). pose proof (Z.mod_pos_bound b 32).
      pose proof (Z.div_mod (rs + 31) 32). pose proof (Z.mod_pos_bound (rs + 31) 32). lia. }
    unfold bm_bit. rewrite lookup_app_l by (by rewrite length_replicate).
    rewrite lookup_replicate_2 by done. apply Z.bits_0.
Qed.

(** The bitmap behaves as an array of independent slots: [dhcp_bm_set] and
    [dhcp_bm_clear] change the slot they name and no other, [dhcp_bm_used] reads
    it back (and says "used" beyond the range), words stay 32 bits wide, and no
    access leaves the array. *)
Theorem bitmap_ops_correct (rs : Z) (l : list Z) (bit : Z) :
  bm_ok rs l → 0 ≤ bit < rs →
  (∃ l', dhcp_bm_set l bit = Ret l' ∧ bm_ok rs l' ∧
     ∀ b, 0 ≤ b → dhcp_bm_used l' b rs = if decide (b = bit) then Ret true else dhcp_bm_used l b rs) ∧
  (∃ l', dhcp_bm_clear l bit = Ret l' ∧ bm_ok rs l' ∧
     ∀ b, 0 ≤ b → dhcp_bm_used l' b rs = if decide (b = bit) then Ret false else dhcp_bm_used l b rs) ∧
  (∀ b, rs ≤ b → dhcp_bm_used l b rs = Ret true).
Proof.
  intros Hok Hb.
  assert (Hlift : ∀ l' v, bm_ok rs l' →
    (∀ b, 0 ≤ b → bm_bit l' b = if decide (b = bit) then v else bm_bit l b) →
    ∀ b, 0 ≤ b → dhcp_bm_used l' b rs = if decide (b = bit) then Ret v else dhcp_bm_used l b rs).
  { intros l' v Hok' Hbits b Hb0. destruct (decide (b < rs)).
    - rewrite !(bm_used_spec rs) by done. rewrite Hbits by done. by case_decide.
    - rewrite !bm_used_out by lia. rewrite decide_False; [done|lia]. }
  split_and!.
  - destruct (bm_set_spec rs l bit Hok Hb) as (l' & ? & ? & _ & ?). eauto.
  - destruct (bm_clear_spec rs l bit Hok Hb) as (l' & ? & ? & _ & ?). eauto.
  - intros. by apply bm_used_out.
Qed.

Lemma bitmap_ops_correct_witness :
  (∃ l', dhcp_bm_set [0; 5] 40 = Ret l' ∧ bm_ok 50 l' ∧
     ∀ b, 0 ≤ b → dhcp_bm_used l' b 50
                  = if decide (b = 40) then Ret true else dhcp_bm_used [0; 5] b 50) ∧
  dhcp_bm_set [0; 5] 40 = Ret [0; 261].
Proof.
  assert (Hok : bm_ok 50 [0; 5]) by (split; [cbn; lia | repeat constructor; unfold uword; lia]).
  split; [exact (proj1 (bitmap_ops_correct 50 [0; 5] 40 Hok ltac:(lia)))|].
  vm_compute. reflexivity.
Defined.
