(* ===== verification/BitmapVar.v ===== *)
(** * BITMAP_VARTIME mode: one range with a common expiry

    [dhcp-lib/dhcp_bitmap_vartime.h] and [dhcp-lib/dhcp_bitmap_vartime.c].  The
    pool points to its single range; the model keeps the range in the pool. *)
From S2P Require Import Prelude BitmapOps.

Open Scope Z_scope.

Record dhcp_bmpool_var_t := mkVar {
  v_pool_start : Z;
  v_lease_time : Z;
  v_counter : Z;
  v_range : dhcp_bmrange_t;
  v_range_size : Z
}.

Definition v_set_counter (p : dhcp_bmpool_var_t) (c : Z) : dhcp_bmpool_var_t :=
  mkVar (v_pool_start p) (v_lease_time p) c (v_range p) (v_range_size p).
Definition v_set_range (p : dhcp_bmpool_var_t) (r : dhcp_bmrange_t) : dhcp_bmpool_var_t :=
  mkVar (v_pool_start p) (v_lease_time p) (v_counter p) r (v_range_size p).
Definition v_expire (p : dhcp_bmpool_var_t) : Z := range_expire (v_range p).

Definition dhcp_bmpool_var_recycle (p : dhcp_bmpool_var_t) : outcome dhcp_bmpool_var_t :=
  l ← bm_zero (ips (v_range p)) (v_range_size p);
  Ret (v_set_counter (v_set_range p (mkRange l 0)) 0).

(** [p] is the pool's storage before the call. *)
Definition dhcp_bmpool_var_init (p : dhcp_bmpool_var_t) (pool_start lease_time : Z)
    (range : dhcp_bmrange_t) (range_size : Z) : outcome dhcp_bmpool_var_t :=
  dhcp_bmpool_var_recycle (mkVar pool_start lease_time (v_counter p) range range_size).

(** The scan of [dhcp_bmpool_var_peek] (and, with another base, of
    [dhcp_bmpool_uni_peek]): the candidate and the new counter. *)
Fixpoint peek_loop (fuel : nat) (l : list Z) (base range_size counter candidate : Z)
    : outcome (Z * Z) :=
  if counter <? range_size then
    match fuel with
    | O => Diverge
    | S fuel =>
        let candidate := dhcp_bm_counter_to_ip base counter in
        let counter := counter ⊞ 1 in
        used ← dhcp_bm_used l (candidate ⊟ base) range_size;
        if (used : bool) then peek_loop fuel l base range_size counter candidate
        else Ret (candidate, counter)
    end
  else Ret (candidate, counter).

(** As many rounds as there are slots left. *)
Definition peek_fuel (range_size counter : Z) : nat := Z.to_nat (range_size - counter).

Definition var_expired (p : dhcp_bmpool_var_t) (cur_time : Z) : bool :=
  (0 <? v_expire p) && (v_expire p <=? cur_time).

Definition dhcp_bmpool_var_peek (p : dhcp_bmpool_var_t) (cur_time : Z)
    : outcome (Z * dhcp_bmpool_var_t) :=
  p ← (if var_expired p cur_time then dhcp_bmpool_var_recycle p else Ret p);
  if (0 <? v_expire p) && dhcp_bm_range_full (v_counter p) (v_range_size p) then Ret (0, p) else
  let p := if v_expire p =? 0
           then v_set_range p (mkRange (ips (v_range p)) (cur_time ⊞ v_lease_time p)) else p in
  '(candidate, counter) ← peek_loop (peek_fuel (v_range_size p) (v_counter p)) (ips (v_range p))
                            (v_pool_start p) (v_range_size p) (v_counter p) 0;
  let p := v_set_counter p counter in
  if candidate =? 0 then Ret (0, p) else
  used ← dhcp_bm_used (ips (v_range p)) (candidate ⊟ v_pool_start p) (v_range_size p);
  if (used : bool) then Ret (0, p) else Ret (candidate, p).

Definition dhcp_bmpool_var_commit_ip (p : dhcp_bmpool_var_t) (ip : Z)
    : outcome (bool * dhcp_bmpool_var_t) :=
  if (ip <? v_pool_start p) || (v_pool_start p ⊞ v_range_size p <=? ip) then Ret (false, p) else
  let bit := ip ⊟ v_pool_start p in
  used ← dhcp_bm_used (ips (v_range p)) bit (v_range_size p);
  if (used : bool) then Ret (false, p) else
  l ← dhcp_bm_set (ips (v_range p)) bit;
  Ret (true, v_set_range p (mkRange l (v_expire p))).

(** ** The scan

    [peek_loop] finds the first free slot at or after [counter]. *)
Section peek.
Context (l : list Z) (base rs : Z).
Hypothesis Hok : bm_ok rs l.
Hypothesis Hbase : 0 < base.
Hypothesis Htop : base + rs < 2 ^ 32.

Definition first_free (counter : Z) (r : option Z) : Prop :=
  match r with
  | Some b => counter ≤ b < rs ∧ bm_bit l b = false ∧ ∀ i, counter ≤ i < b → bm_bit l i = true
  | None => ∀ i, counter ≤ i < rs → bm_bit l i = true
  end.

(** The candidate the loop stops at is judged used again by the caller. *)
Definition peek_result (counter cand : Z) (r : option Z) : Z * Z :=
  match r with
  | Some b => (base + b, b + 1)
  | None => (if counter <? rs then base + (rs - 1) else cand, Z.max counter rs)
  end.

Lemma slot_ip b : 0 ≤ b < rs → base ⊞ b = base + b ∧ (base + b) ⊟ base = b.
Proof. intros. split; apply wrap_small || rewrite wrap_small; unfold uword; lia. Qed.

Lemma peek_loop_spec : ∀ fuel counter cand, 0 ≤ counter → rs - counter ≤ Z.of_nat fuel →
  ∃ r, first_free counter r ∧
    peek_loop fuel l base rs counter cand = Ret (peek_result counter cand r).
Proof.
  induction fuel as [|fuel IH]; intros counter cand H0 Hf; cbn [peek_loop];
    (destruct (Z.ltb_spec counter rs) as [Hlt|Hge];
     [|exists None; split; [cbn; intros; lia|]; cbn;
       rewrite (proj2 (Z.ltb_ge counter rs)), Z.max_l by lia; done]).
  { lia. }
  unfold dhcp_bm_counter_to_ip. destruct (slot_ip counter) as [-> ->]; [lia|].
  rewrite (bm_used_spec rs) by (done || lia). rewrite bind_Ret.
  rewrite (wrap_small 32 (counter + 1)) by (unfold uword; lia).
  destruct (bm_bit l counter) eqn:Eb.
  2:{ exists (Some counter). split; [|done]. cbn. split_and!; [lia..|done|]. intros; lia. }
  destruct (IH (counter + 1) (base + counter)) as (r & Hr & ->); [lia..|].
  exists r. destruct r as [b|]; cbn in *.
  - split; [|done]. destruct Hr as (? & ? & Hall). split_and!; [lia..|done|].
    intros i Hi. destruct (decide (i = counter)) as [->|]; [done|]. apply Hall. lia.
  - split; [|f_equal; destruct (Z.ltb_spec (counter + 1) rs), (Z.ltb_spec counter rs); f_equal; lia].
    intros i Hi. destruct (decide (i = counter)) as [->|]; [done|]. apply Hr. lia.
Qed.
End peek.

(** ** The pool invariant *)

Record var_inv (p : dhcp_bmpool_var_t) : Prop := {
  vi_start : 0 < v_pool_start p;
  vi_size : 0 < v_range_size p < 2 ^ 32 - 31;
  vi_top : v_pool_start p + v_range_size p < 2 ^ 32;
  vi_ok : bm_ok (v_range_size p) (ips (v_range p));
  vi_counter : 0 ≤ v_counter p ≤ v_range_size p;
  vi_expire : is_u32 (v_expire p)
}.

(** Slot [b] of the pool is committed. *)
Definition var_bit (p : dhcp_bmpool_var_t) (b : Z) : bool := bm_bit (ips (v_range p)) b.

(** What no operation changes. *)
Definition var_same (p p' : dhcp_bmpool_var_t) : Prop :=
  v_pool_start p' = v_pool_start p ∧ v_range_size p' = v_range_size p ∧
  v_lease_time p' = v_lease_time p.

Lemma var_recycle_spec p : 0 < v_pool_start p → 0 < v_range_size p < 2 ^ 32 - 31 →
  v_pool_start p + v_range_size p < 2 ^ 32 → bm_ok (v_range_size p) (ips (v_range p)) →
  ∃ p', dhcp_bmpool_var_recycle p = Ret p' ∧ var_inv p' ∧ var_same p p' ∧
    v_counter p' = 0 ∧ v_expire p' = 0 ∧ ∀ b, 0 ≤ b < v_range_size p → var_bit p' b = false.
Proof.
  intros Hs Hr Ht Hok. unfold dhcp_bmpool_var_recycle.
  destruct (bm_zero_spec (v_range_size p) (ips (v_range p))) as (l & -> & Hl & _ & Hb); [lia|done|].
  rewrite bind_Ret. eexists. split; [done|]. split_and!; try done.
  split; cbn; try done; unfold uword; lia.
Qed.

Lemma var_init_spec p s lt r rs : 0 < s → 0 < rs < 2 ^ 32 - 31 → s + rs < 2 ^ 32 →
  bm_ok rs (ips r) →
  ∃ p', dhcp_bmpool_var_init p s lt r rs = Ret p' ∧ var_inv p' ∧
    v_pool_start p' = s ∧ v_range_size p' = rs ∧ v_lease_time p' = lt ∧
    v_expire p' = 0 ∧ v_counter p' = 0 ∧ ∀ b, 0 ≤ b < rs → var_bit p' b = false.
Proof.
  intros. unfold dhcp_bmpool_var_init.
  destruct (var_recycle_spec (mkVar s lt (v_counter p) r rs)) as (p' & ? & ? & (? & ? & ?) & ? & ? & ?);
    [done..|]. exists p'. by split_and!.
Qed.

(** The counter and expiry a peek at [now] starts from. *)
Definition counter_at (p : dhcp_bmpool_var_t) (now : Z) : Z :=
  if var_expired p now then 0 else v_counter p.
Definition expire_at (p : dhcp_bmpool_var_t) (now : Z) : Z :=
  if var_expired p now then 0 else v_expire p.

(** What a peek answers: the first free slot from the counter on. *)
Record var_peek_post (p : dhcp_bmpool_var_t) (now ip : Z) (p' : dhcp_bmpool_var_t) : Prop := {
  vp_inv : var_inv p';
  vp_same : var_same p p';
  vp_bits : ∀ b, 0 ≤ b < v_range_size p →
    var_bit p' b = if var_expired p now then false else var_bit p b;
  vp_expire : v_expire p' =
    if expire_at p now =? 0 then now ⊞ v_lease_time p else expire_at p now;
  vp_answer : ∃ r, first_free (ips (v_range p')) (v_range_size p) (counter_at p now) r ∧
    match r with
    | Some b => ip = v_pool_start p + b ∧ v_counter p' = b + 1
    | None => ip = 0 ∧ v_counter p' = v_range_size p
    end
}.

(** The part of a peek after the expiry check. *)
Definition peek_body (p : dhcp_bmpool_var_t) (cur_time : Z) : outcome (Z * dhcp_bmpool_var_t) :=
  if (0 <? v_expire p) && dhcp_bm_range_full (v_counter p) (v_range_size p) then Ret (0, p) else
  let p := if v_expire p =? 0
           then v_set_range p (mkRange (ips (v_range p)) (cur_time ⊞ v_lease_time p)) else p in
  '(candidate, counter) ← peek_loop (peek_fuel (v_range_size p) (v_counter p)) (ips (v_range p))
                            (v_pool_start p) (v_range_size p) (v_counter p) 0;
  let p := v_set_counter p counter in
  if candidate =? 0 then Ret (0, p) else
  used ← dhcp_bm_used (ips (v_range p)) (candidate ⊟ v_pool_start p) (v_range_size p);
  if (used : bool) then Ret (0, p) else Ret (candidate, p).

Lemma peek_unfold p now :
  dhcp_bmpool_var_peek p now
  = (if var_expired p now then dhcp_bmpool_var_recycle p else Ret p) ≫= λ q, peek_body q now.
Proof. done. Qed.

(** Starting the timer touches the expiry only. *)
Definition start_timer (p : dhcp_bmpool_var_t) (now : Z) : dhcp_bmpool_var_t :=
  if v_expire p =? 0
  then v_set_range p (mkRange (ips (v_range p)) (now ⊞ v_lease_time p)) else p.

Lemma start_timer_inv p now : var_inv p → var_inv (start_timer p now).
Proof.
  intros [? ? ? ? ? ?]. unfold start_timer. destruct (v_expire p =? 0); [|done].
  split; cbn; try done. apply wrap_range. lia.
Qed.

Lemma peek_body_spec p now : var_inv p →
  ∃ ip p' r, peek_body p now = Ret (ip, p') ∧ var_inv p' ∧ var_same p p' ∧
    ips (v_range p') = ips (v_range p) ∧
    v_expire p' = (if v_expire p =? 0 then now ⊞ v_lease_time p else v_expire p) ∧
    first_free (ips (v_range p)) (v_range_size p) (v_counter p) r ∧
    match r with
    | Some b => ip = v_pool_start p + b ∧ v_counter p' = b + 1
    | None => ip = 0 ∧ v_counter p' = v_range_size p
    end.
Proof.
  intros Hi. pose proof Hi as [Hs Hr Ht Hok Hc He]. unfold peek_body, dhcp_bm_range_full.
  destruct ((0 <? v_expire p) && (v_range_size p <=? v_counter p)) eqn:Efull.
  { apply andb_true_iff in Efull as [E1%Z.ltb_lt E2%Z.leb_le].
    exists 0, p, None. split_and!; try done; [|cbn; intros; lia|lia].
    by rewrite (proj2 (Z.eqb_neq _ _)) by lia. }
  change (if v_expire p =? 0 then _ else p) with (start_timer p now). cbv zeta.
  pose proof (start_timer_inv p now Hi) as Hi1.
  assert (Hsame : var_same p (start_timer p now) ∧ ips (v_range (start_timer p now)) = ips (v_range p)
    ∧ v_counter (start_timer p now) = v_counter p
    ∧ v_expire (start_timer p now) = (if v_expire p =? 0 then now ⊞ v_lease_time p else v_expire p)).
  { unfold start_timer. by destruct (v_expire p =? 0). }
  destruct Hsame as ((Es & Er & El) & Ei & Ec & Ee). set (q := start_timer p now) in *.
  rewrite Es, Er, Ei, Ec.
  destruct (peek_loop_spec (ips (v_range p)) (v_pool_start p) (v_range_size p) Hok Hs Ht
    (peek_fuel (v_range_size p) (v_counter p)) (v_counter p) 0) as (r & Hfree & ->);
    [lia|unfold peek_fuel; lia|].
  destruct r as [b|]; cbn [peek_result]; rewrite bind_Ret.
  - cbn in Hfree. rewrite (proj2 (Z.eqb_neq _ _)) by lia.
    destruct (slot_ip (v_pool_start p) (v_range_size p) Hs Ht b) as [_ Hsub]; [lia|].
    cbn [v_range v_set_counter v_pool_start v_range_size]. rewrite Ei, Es, Er, Hsub.
    rewrite (bm_used_spec (v_range_size p)) by (done || lia). rewrite bind_Ret.
    pose proof Hfree as (Hb & -> & Hall). exists (v_pool_start p + b), (v_set_counter q (b + 1)), (Some b).
    split_and!; try done.
    destruct Hi1. split; cbn; try done. lia.
  - cbn in Hfree.
    assert (Hi' : var_inv (v_set_counter q (v_range_size p))).
    { destruct Hi1. split; cbn; try done. lia. }
    replace (Z.max (v_counter p) (v_range_size p)) with (v_range_size p) by lia.
    exists 0, (v_set_counter q (v_range_size p)), None.
    split_and!; try done. destruct (Z.ltb_spec (v_counter p) (v_range_size p)); [|done].
    rewrite (proj2 (Z.eqb_neq _ _)) by lia.
    destruct (slot_ip (v_pool_start p) (v_range_size p) Hs Ht (v_range_size p - 1)) as [_ Hsub]; [lia|].
    cbn [v_range v_set_counter v_pool_start v_range_size]. rewrite Ei, Es, Er, Hsub.
    rewrite (bm_used_spec (v_range_size p)) by (done || lia). rewrite bind_Ret.
    by rewrite (Hfree (v_range_size p - 1)) by lia.
Qed.

Lemma var_peek_spec p now : var_inv p →
  ∃ ip p', dhcp_bmpool_var_peek p now = Ret (ip, p') ∧ var_peek_post p now ip p'.
Proof.
  intros Hi. pose proof Hi as [Hs Hr Ht Hok Hc He]. rewrite peek_unfold.
  destruct (var_expired p now) eqn:Ex.
  - destruct (var_recycle_spec p Hs Hr Ht Hok) as (q & -> & Hq & (Es & Er & El) & Ec & Ee & Hb).
    rewrite bind_Ret.
    destruct (peek_body_spec q now Hq) as (ip & p' & r & -> & Hi' & (? & ? & ?) & Hips & Hexp & Hfree & Hres).
    exists ip, p'. split; [done|]. split.
    + done.
    + split_and!; congruence.
    + intros b Hbr. unfold var_bit. rewrite Hips, Ex. by apply Hb.
    + unfold expire_at. rewrite Ex, Hexp, Ee, El. done.
    + exists r. unfold counter_at. rewrite Ex, Hips, <- Er, <- Es. by rewrite Ec in Hfree.
  - rewrite bind_Ret.
    destruct (peek_body_spec p now Hi) as (ip & p' & r & -> & Hi' & ? & Hips & Hexp & Hfree & Hres).
    exists ip, p'. split; [done|]. split.
    + done.
    + done.
    + intros b Hbr. unfold var_bit. by rewrite Hips, Ex.
    + unfold expire_at. by rewrite Ex.
    + exists r. unfold counter_at. rewrite Ex, Hips. done.
Qed.

(** Committing: exactly the free addresses of the range, once. *)
Record var_commit_post (p : dhcp_bmpool_var_t) (ip : Z) (ok : bool) (p' : dhcp_bmpool_var_t) : Prop := {
  vc_inv : var_inv p';
  vc_same : var_same p p';
  vc_counter : v_counter p' = v_counter p;
  vc_expire : v_expire p' = v_expire p;
  vc_ok : ok = true ↔ v_pool_start p ≤ ip < v_pool_start p + v_range_size p ∧
                      var_bit p (ip - v_pool_start p) = false;
  vc_fail : ok = false → p' = p;
  vc_bits : ok = true → ∀ b, 0 ≤ b →
    var_bit p' b = (if decide (b = ip - v_pool_start p) then true else var_bit p b)
}.

Lemma var_commit_spec p ip : var_inv p →
  ∃ ok p', dhcp_bmpool_var_commit_ip p ip = Ret (ok, p') ∧ var_commit_post p ip ok p'.
Proof.
  intros Hi. pose proof Hi as [Hs Hr Ht Hok Hc He]. unfold dhcp_bmpool_var_commit_ip.
  rewrite (wrap_small 32 (v_pool_start p + v_range_size p)) by (unfold uword; lia).
  destruct ((ip <? v_pool_start p) || (v_pool_start p + v_range_size p <=? ip)) eqn:Eout.
  { exists false, p. split; [done|]. split; try done. split; [done|]. intros [? _].
    apply orb_true_iff in Eout as [?%Z.ltb_lt|?%Z.leb_le]; lia. }
  apply orb_false_iff in Eout as [E1%Z.ltb_ge E2%Z.leb_gt].
  rewrite (wrap_small 32 (ip - v_pool_start p)) by (unfold uword; lia). cbv zeta.
  rewrite (bm_used_spec (v_range_size p)) by (done || lia). rewrite bind_Ret.
  fold (var_bit p (ip - v_pool_start p)). destruct (var_bit p (ip - v_pool_start p)) eqn:Eb.
  { exists false, p. split; [done|]. split; try done. split; [done|]. intros [_ ?]. congruence. }
  destruct (bm_set_spec (v_range_size p) (ips (v_range p)) (ip - v_pool_start p) Hok) as (l & -> & Hl & _ & Hbits);
    [lia|]. rewrite bind_Ret. eexists _, _. split; [done|]. split; try done.
Qed.

(** ** Traces *)

Inductive var_op :=
  | VPeek (now : Z)
  | VCommit (ip : Z).

Definition var_call (p : dhcp_bmpool_var_t) (o : var_op) : outcome dhcp_bmpool_var_t :=
  match o with
  | VPeek now => snd <$> dhcp_bmpool_var_peek p now
  | VCommit ip => snd <$> dhcp_bmpool_var_commit_ip p ip
  end.

(** Does the call start a new window? *)
Definition var_renews (p : dhcp_bmpool_var_t) (o : var_op) : bool :=
  match o with VPeek now => var_expired p now | VCommit _ => false end.

(** A run in which no call starts a new window. *)
Inductive var_window : dhcp_bmpool_var_t → dhcp_bmpool_var_t → Prop :=
  | vw_refl p : var_window p p
  | vw_step p o p1 p2 :
      var_call p o = Ret p1 → var_renews p o = false → var_window p1 p2 → var_window p p2.

Lemma var_call_spec p o : var_inv p →
  ∃ p', var_call p o = Ret p' ∧ var_inv p' ∧ var_same p p'.
Proof.
  intros Hi. destruct o as [now|ip]; cbn.
  - destruct (var_peek_spec p now Hi) as (? & p' & -> & []). by exists p'.
  - destruct (var_commit_spec p ip Hi) as (? & p' & -> & []). by exists p'.
Qed.

(** Within a window bits are only ever set and the counter only grows. *)
Lemma var_call_window p o p' : var_inv p → var_call p o = Ret p' → var_renews p o = false →
  v_counter p ≤ v_counter p' ∧
  (0 < v_expire p → v_expire p' = v_expire p) ∧
  ∀ b, 0 ≤ b < v_range_size p → var_bit p b = true → var_bit p' b = true.
Proof.
  intros Hi Hcall Hren. destruct o as [now|ip]; cbn in *.
  - destruct (var_peek_spec p now Hi) as (ip & q & E & [Hi' Hsm Hbits Hexp (r & Hr & Hres)]).
    rewrite E in Hcall. injection Hcall as <-.
    unfold counter_at, expire_at in *. rewrite Hren in *. split_and!.
    + destruct r; destruct Hres as [_ ->]; cbn in Hr; pose proof (vi_counter _ Hi); lia.
    + intros H0. by rewrite (proj2 (Z.eqb_neq _ _)) in Hexp by lia.
    + intros b Hb. by rewrite Hbits.
  - destruct (var_commit_spec p ip Hi) as (ok & q & E & [Hi' Hsm Hcnt Hexp Hok Hfail Hbits]).
    rewrite E in Hcall. injection Hcall as <-. split_and!; [lia|done|].
    intros b Hb Ht. destruct ok; [|by rewrite Hfail]. rewrite Hbits by (done || lia). by case_decide.
Qed.

Lemma var_window_spec p p' : var_window p p' → var_inv p →
  var_inv p' ∧ var_same p p' ∧ v_counter p ≤ v_counter p' ∧
  (0 < v_expire p → v_expire p' = v_expire p) ∧
  ∀ b, 0 ≤ b < v_range_size p → var_bit p b = true → var_bit p' b = true.
Proof.
  induction 1 as [p|p o p1 p2 Hcall Hren _ IH]; intros Hi; [by split_and!|].
  destruct (var_call_window p o p1 Hi Hcall Hren) as (Hc & He & Hb).
  destruct (var_call_spec p o Hi) as (q & Hq & Hi1 & Hs1). assert (q = p1) as -> by congruence.
  destruct (IH Hi1) as (Hi2 & Hs2 & Hc2 & He2 & Hb2). unfold var_same in *.
  destruct Hs1 as (? & Er & ?). destruct Hs2 as (? & ? & ?). split_and!; try congruence; [lia| |].
  - intros Hpos. rewrite He2; rewrite He; done.
  - intros b Hbr Ht. apply Hb2; [by rewrite Er|]. by apply Hb.
Qed.

Lemma var_commit_refused (p p1 p2 : dhcp_bmpool_var_t) (ip : Z) :
  var_inv p → dhcp_bmpool_var_commit_ip p ip = Ret (true, p1) → var_window p1 p2 →
  dhcp_bmpool_var_commit_ip p2 ip = Ret (false, p2).
Proof.
  intros Hi Hcommit Hw.
  destruct (var_commit_spec p ip Hi) as (ok & q & E & [Hi1 (Es & Er & El) _ _ Hok _ Hbits]).
  rewrite E in Hcommit. injection Hcommit as -> ->. destruct (proj1 Hok eq_refl) as [Hip _].
  destruct (var_window_spec p1 p2 Hw Hi1) as (Hi2 & (Es2 & Er2 & _) & _ & _ & Hb).
  destruct (var_commit_spec p2 ip Hi2) as (ok2 & q2 & -> & [_ _ _ _ Hok2 Hfail2 _]).
  destruct ok2; [|by rewrite Hfail2].
  destruct (proj1 Hok2 eq_refl) as [_ Hfree]. rewrite Es2, Es in Hfree.
  rewrite Hb in Hfree; [done|rewrite Er; lia|]. rewrite Hbits by (done || lia). by rewrite decide_True.
Qed.

(** Within one window of BITMAP_VARTIME no address is committed twice: after a
    successful commit, and whatever calls follow, the address is refused until a
    peek finds the window expired. *)
Theorem var_commit_once (p p1 p2 : dhcp_bmpool_var_t) (ip : Z) :
  var_inv p → dhcp_bmpool_var_commit_ip p ip = Ret (true, p1) → var_window p1 p2 →
  dhcp_bmpool_var_commit_ip p2 ip = Ret (false, p2).
Proof. apply var_commit_refused. Qed.

(** Within one window a peek never offers an address twice, it never offers a
    committed address, and every offer lies in the pool. *)
Theorem var_offers_distinct (p p1 p2 p3 : dhcp_bmpool_var_t) (now now' ip ip' : Z) :
  var_inv p → dhcp_bmpool_var_peek p now = Ret (ip, p1) → ip ≠ 0 →
  var_window p1 p2 → var_expired p2 now' = false → dhcp_bmpool_var_peek p2 now' = Ret (ip', p3) →
  ip' ≠ ip ∧
  (ip' ≠ 0 → v_pool_start p ≤ ip' < v_pool_start p + v_range_size p ∧
             var_bit p2 (ip' - v_pool_start p) = false).
Proof.
  intros Hi Hpeek Hne Hw Hnexp Hpeek'.
  destruct (var_peek_spec p now Hi) as (a & q & E & [Hi1 (Es & Er & _) _ _ (r & Hr & Hres)]).
  rewrite E in Hpeek. injection Hpeek as -> ->.
  destruct r as [b|]; [|by destruct Hres]. destruct Hres as [-> Hc]. cbn in Hr.
  destruct (var_window_spec p1 p2 Hw Hi1) as (Hi2 & (Es2 & Er2 & _) & Hc2 & _ & _).
  destruct (var_peek_spec p2 now' Hi2) as (a & q & E' & [_ _ Hbits _ (r' & Hr' & Hres')]).
  rewrite E' in Hpeek'. injection Hpeek' as -> ->.
  unfold counter_at in Hr'. rewrite Hnexp in *. pose proof (vi_counter _ Hi1).
  destruct r' as [b'|]; destruct Hres' as [-> Hc']; cbn in Hr'; [|by split].
  destruct Hr' as (Hb' & Hfree & _). split; [lia|]. intros _. rewrite Er2, Er in *. split; [lia|].
  replace (v_pool_start p2 + b' - v_pool_start p) with b' by lia.
  rewrite <- Hbits by lia. exact Hfree.
Qed.

(** A peek hands out the first uncommitted address at or after its counter and
    answers 0 exactly when there is none; it recycles the whole range when, and
    only when, the window has expired, and the first peek of a window fixes the
    expiry of every lease in it. *)
Theorem var_peek_correct (p : dhcp_bmpool_var_t) (now : Z) :
  var_inv p → ∃ ip p', dhcp_bmpool_var_peek p now = Ret (ip, p') ∧ var_peek_post p now ip p'.
Proof. apply var_peek_spec. Qed.

(** ** Witnesses *)

Definition raw_range : dhcp_bmrange_t := mkRange [7; 7] 99.
Definition raw_var : dhcp_bmpool_var_t := mkVar 0 0 5 raw_range 0.
Definition ret_var (m : outcome dhcp_bmpool_var_t) : dhcp_bmpool_var_t :=
  match m with Ret p => p | _ => raw_var end.
Definition sample_var : dhcp_bmpool_var_t := ret_var (dhcp_bmpool_var_init raw_var 100 3600 raw_range 40).
Definition sample_var1 : dhcp_bmpool_var_t := ret_var (snd <$> dhcp_bmpool_var_peek sample_var 50).
Definition sample_var2 : dhcp_bmpool_var_t := ret_var (snd <$> dhcp_bmpool_var_commit_ip sample_var1 100).

Lemma sample_var_inv : var_inv sample_var.
Proof.
  destruct (var_init_spec raw_var 100 3600 raw_range 40) as (p' & E & Hi & _); [lia..| |].
  - split; [cbn; lia|]. repeat constructor; unfold uword; lia.
  - unfold sample_var. by rewrite E.
Qed.

Lemma sample_var1_inv : var_inv sample_var1.
Proof.
  destruct (var_call_spec sample_var (VPeek 50) sample_var_inv) as (p' & E & Hi & _).
  cbn [var_call] in E. unfold sample_var1. by rewrite E.
Qed.

Lemma var_commit_once_witness :
  dhcp_bmpool_var_commit_ip sample_var1 100 = Ret (true, sample_var2) ∧
  dhcp_bmpool_var_commit_ip sample_var2 100 = Ret (false, sample_var2).
Proof.
  assert (E : dhcp_bmpool_var_commit_ip sample_var1 100 = Ret (true, sample_var2))
    by (vm_compute; reflexivity).
  split; [exact E|]. exact (var_commit_once _ _ _ 100 sample_var1_inv E (vw_refl sample_var2)).
Defined.

Lemma var_offers_distinct_witness :
  ∃ ip' p3, dhcp_bmpool_var_peek sample_var2 60 = Ret (ip', p3) ∧ ip' ≠ 100 ∧
    var_bit sample_var2 (ip' - 100) = false.
Proof.
  exists 101, (ret_var (snd <$> dhcp_bmpool_var_peek sample_var2 60)).
  assert (E1 : dhcp_bmpool_var_peek sample_var 50 = Ret (100, sample_var1)) by (vm_compute; reflexivity).
  assert (E2 : dhcp_bmpool_var_peek sample_var2 60
    = Ret (101, ret_var (snd <$> dhcp_bmpool_var_peek sample_var2 60))) by (vm_compute; reflexivity).
  assert (Hw : var_window sample_var1 sample_var2).
  { apply (vw_step _ (VCommit 100) sample_var2); [vm_compute; reflexivity|reflexivity|constructor]. }
  destruct (var_offers_distinct sample_var sample_var1 sample_var2 _ 50 60 100 101 sample_var_inv
    E1 ltac:(lia) Hw eq_refl E2) as [Hne Hin].
  split; [exact E2|]. split; [exact Hne|]. apply Hin. lia.
Defined.

Lemma var_peek_correct_witness :
  ∃ ip p', dhcp_bmpool_var_peek sample_var 50 = Ret (ip, p') ∧ var_peek_post sample_var 50 ip p'.
Proof. exact (var_peek_correct sample_var 50 sample_var_inv). Defined.
