(* ===== verification/BitmapUni.v ===== *)
(** * BITMAP_UNITIME mode: several ranges, recycled in turn

    [dhcp-lib/dhcp_bitmap_unitime.h] and [dhcp-lib/dhcp_bitmap_unitime.c].  The
    array of ranges the pool points to is part of the model's pool. *)
From S2P Require Import Prelude BitmapOps BitmapVar.

Open Scope Z_scope.

Record dhcp_bmpool_uni_t := mkUni {
  u_pool_start : Z;
  u_lease_time : Z;
  u_counter : Z;
  u_ranges : list dhcp_bmrange_t;
  u_range_size : Z;
  u_num_ranges : Z;
  u_cur_range : Z
}.

Definition u_set_counter (p : dhcp_bmpool_uni_t) (c : Z) : dhcp_bmpool_uni_t :=
  mkUni (u_pool_start p) (u_lease_time p) c (u_ranges p) (u_range_size p) (u_num_ranges p)
    (u_cur_range p).
Definition u_set_ranges (p : dhcp_bmpool_uni_t) (rs : list dhcp_bmrange_t) : dhcp_bmpool_uni_t :=
  mkUni (u_pool_start p) (u_lease_time p) (u_counter p) rs (u_range_size p) (u_num_ranges p)
    (u_cur_range p).
Definition u_set_cur (p : dhcp_bmpool_uni_t) (r : Z) : dhcp_bmpool_uni_t :=
  mkUni (u_pool_start p) (u_lease_time p) (u_counter p) (u_ranges p) (u_range_size p)
    (u_num_ranges p) r.

(** [pool->ranges[i]] *)
Definition get_range (p : dhcp_bmpool_uni_t) (i : Z) : outcome dhcp_bmrange_t :=
  deref (u_ranges p) (Z.to_nat i).
Definition put_range (p : dhcp_bmpool_uni_t) (i : Z) (r : dhcp_bmrange_t)
    : outcome dhcp_bmpool_uni_t :=
  rs ← store (u_ranges p) (Z.to_nat i) r; Ret (u_set_ranges p rs).

Definition range_base (p : dhcp_bmpool_uni_t) : Z :=
  u_pool_start p ⊞ u32 (u_cur_range p * u_range_size p).

Definition dhcp_bmpool_uni_ip_used (p : dhcp_bmpool_uni_t) (ip : Z) : outcome bool :=
  let rbase := range_base p in
  if (ip <? rbase) || (rbase ⊞ u_range_size p <=? ip) then Ret true else
  let bit := ip ⊟ rbase in
  r ← get_range p (u_cur_range p);
  dhcp_bm_used (ips r) bit (u_range_size p).

Definition dhcp_bmpool_uni_recycle (p : dhcp_bmpool_uni_t) (range_idx : Z)
    : outcome dhcp_bmpool_uni_t :=
  if u_num_ranges p <=? range_idx then Ret p else
  r ← get_range p range_idx;
  l ← bm_zero (ips r) (u_range_size p);
  put_range p range_idx (mkRange l 0).

Fixpoint uni_init_loop (n : nat) (i : Z) (p : dhcp_bmpool_uni_t) : outcome dhcp_bmpool_uni_t :=
  match n with
  | O => Ret p
  | S n => p ← dhcp_bmpool_uni_recycle p i; uni_init_loop n (i + 1) p
  end.

(** [p] is the pool's storage before the call; its [counter] is not set. *)
Definition dhcp_bmpool_uni_init (p : dhcp_bmpool_uni_t) (pool_start lease_time : Z)
    (ranges : list dhcp_bmrange_t) (range_size num_ranges : Z) : outcome dhcp_bmpool_uni_t :=
  uni_init_loop (Z.to_nat num_ranges) 0
    (mkUni pool_start lease_time (u_counter p) ranges range_size num_ranges 0).

Definition range_expired (r : dhcp_bmrange_t) (cur_time : Z) : bool :=
  (0 <? range_expire r) && (range_expire r <=? cur_time).

(** [(uint8_t)((cur_range + 1u) % num_ranges)] *)
Definition next_range (p : dhcp_bmpool_uni_t) : outcome Z :=
  if u_num_ranges p =? 0 then Ub
  else Ret (u8 ((u_cur_range p + 1) `mod` u_num_ranges p)).

(** Moving on from a full range: [false] when no range is available. *)
Definition uni_advance (p : dhcp_bmpool_uni_t) (cur_time : Z)
    : outcome (bool * dhcp_bmpool_uni_t) :=
  if negb (dhcp_bm_range_full (u_counter p) (u_range_size p)) then Ret (true, p) else
  next_range ← next_range p;
  r ← get_range p next_range;
  p ← (if range_expired r cur_time then dhcp_bmpool_uni_recycle p next_range else Ret p);
  r ← get_range p next_range;
  if range_expire r =? 0 then Ret (true, u_set_counter (u_set_cur p next_range) 0)
  else Ret (false, p).

(** The scan of the current range and the start of its timer. *)
Definition uni_offer (p : dhcp_bmpool_uni_t) (cur_time : Z) : outcome (Z * dhcp_bmpool_uni_t) :=
  let rbase := range_base p in
  r ← get_range p (u_cur_range p);
  '(candidate, counter) ← peek_loop (peek_fuel (u_range_size p) (u_counter p)) (ips r) rbase
                            (u_range_size p) (u_counter p) 0;
  let p := u_set_counter p counter in
  if candidate =? 0 then Ret (0, p) else
  used ← dhcp_bmpool_uni_ip_used p candidate;
  if (used : bool) then Ret (0, p) else
  r ← get_range p (u_cur_range p);
  p ← (if (range_expire r =? 0) && dhcp_bm_range_full (u_counter p) (u_range_size p)
       then put_range p (u_cur_range p) (mkRange (ips r) (cur_time ⊞ u_lease_time p))
       else Ret p);
  Ret (candidate, p).

Definition dhcp_bmpool_uni_peek (p : dhcp_bmpool_uni_t) (cur_time : Z)
    : outcome (Z * dhcp_bmpool_uni_t) :=
  '(available, p) ← uni_advance p cur_time;
  if (available : bool) then uni_offer p cur_time else Ret (0, p).

Definition dhcp_bmpool_uni_commit_ip (p : dhcp_bmpool_uni_t) (ip : Z)
    : outcome (bool * dhcp_bmpool_uni_t) :=
  used ← dhcp_bmpool_uni_ip_used p ip;
  if (used : bool) then Ret (false, p) else
  let bit := ip ⊟ range_base p in
  r ← get_range p (u_cur_range p);
  l ← dhcp_bm_set (ips r) bit;
  p ← put_range p (u_cur_range p) (mkRange l (range_expire r));
  Ret (true, p).

(** ** The pool invariant *)

Definition range_ok (rs : Z) (r : dhcp_bmrange_t) : Prop :=
  bm_ok rs (ips r) ∧ is_u32 (range_expire r).

Record uni_inv (p : dhcp_bmpool_uni_t) : Prop := {
  ui_start : 0 < u_pool_start p;
  ui_size : 0 < u_range_size p < 2 ^ 32 - 31;
  ui_num : u_num_ranges p = Z.of_nat (length (u_ranges p));
  ui_num8 : 0 < u_num_ranges p < 2 ^ 8;
  ui_top : u_pool_start p + u_num_ranges p * u_range_size p < 2 ^ 32;
  ui_ranges : Forall (range_ok (u_range_size p)) (u_ranges p);
  ui_cur : 0 ≤ u_cur_range p < u_num_ranges p;
  ui_counter : is_u32 (u_counter p)
}.

(** Slot [b] of range [i] is committed; the expiry of range [i]. *)
Definition uni_bit (p : dhcp_bmpool_uni_t) (i b : Z) : bool :=
  match u_ranges p !! Z.to_nat i with Some r => bm_bit (ips r) b | None => false end.
Definition uni_expire (p : dhcp_bmpool_uni_t) (i : Z) : Z :=
  match u_ranges p !! Z.to_nat i with Some r => range_expire r | None => 0 end.

Definition uni_same (p p' : dhcp_bmpool_uni_t) : Prop :=
  u_pool_start p' = u_pool_start p ∧ u_range_size p' = u_range_size p ∧
  u_lease_time p' = u_lease_time p ∧ u_num_ranges p' = u_num_ranges p.

Lemma get_range_spec p i : uni_inv p → 0 ≤ i < u_num_ranges p →
  ∃ r, get_range p i = Ret r ∧ u_ranges p !! Z.to_nat i = Some r ∧ range_ok (u_range_size p) r.
Proof.
  intros Hi Hr. unfold get_range. destruct (deref_lt (u_ranges p) (Z.to_nat i)) as (r & Hl & ->).
  - pose proof (ui_num _ Hi). lia.
  - exists r. split_and!; [done..|]. by eapply Forall_lookup_1; [apply Hi|].
Qed.

(** Writing one range. *)
Lemma put_range_spec p i r : uni_inv p → 0 ≤ i < u_num_ranges p → range_ok (u_range_size p) r →
  ∃ p', put_range p i r = Ret p' ∧ uni_inv p' ∧ uni_same p p' ∧
    u_counter p' = u_counter p ∧ u_cur_range p' = u_cur_range p ∧
    ∀ j, 0 ≤ j → u_ranges p' !! Z.to_nat j = if decide (j = i) then Some r else u_ranges p !! Z.to_nat j.
Proof.
  intros Hi Hr Hok. pose proof (ui_num _ Hi) as Hn. unfold put_range.
  rewrite store_lt, bind_Ret by lia. eexists. split; [done|].
  split_and!; try done.
  - destruct Hi. split; cbn; try done; [by rewrite length_insert|by apply Forall_insert].
  - intros j Hj. cbn. case_decide as E; [subst j|].
    + apply list_lookup_insert_eq. lia.
    + apply list_lookup_insert_ne. lia.
Qed.

Lemma range_base_eq p : uni_inv p → range_base p = u_pool_start p + u_cur_range p * u_range_size p ∧
  0 < range_base p ∧ range_base p + u_range_size p < 2 ^ 32.
Proof.
  intros [? ? ? ? ? ? ? ?]. unfold range_base.
  assert (u_cur_range p * u_range_size p + u_range_size p ≤ u_num_ranges p * u_range_size p) by nia.
  assert (0 ≤ u_cur_range p * u_range_size p) by nia.
  rewrite (wrap_small 32 (u_cur_range p * u_range_size p)) by (unfold uword; lia).
  rewrite wrap_small by (unfold uword; lia). lia.
Qed.

Lemma uni_ip_used_spec p ip : uni_inv p →
  dhcp_bmpool_uni_ip_used p ip = Ret (
    if decide (range_base p ≤ ip < range_base p + u_range_size p)
    then uni_bit p (u_cur_range p) (ip - range_base p) else true).
Proof.
  intros Hi. destruct (range_base_eq p Hi) as (_ & Hb0 & Hbt). pose proof (ui_size _ Hi).
  unfold dhcp_bmpool_uni_ip_used. cbv zeta.
  rewrite (wrap_small 32 (range_base p + u_range_size p)) by (unfold uword; lia).
  destruct ((ip <? range_base p) || (range_base p + u_range_size p <=? ip)) eqn:E.
  { rewrite decide_False; [done|]. apply orb_true_iff in E as [?%Z.ltb_lt|?%Z.leb_le]; lia. }
  apply orb_false_iff in E as [?%Z.ltb_ge ?%Z.leb_gt]. rewrite decide_True by lia.
  destruct (get_range_spec p (u_cur_range p) Hi (ui_cur _ Hi)) as (r & -> & Hl & Hok & _).
  rewrite bind_Ret, (wrap_small 32 (ip - range_base p)) by (unfold uword; lia).
  rewrite (bm_used_spec (u_range_size p)) by (done || lia). unfold uni_bit. by rewrite Hl.
Qed.

(** Recycling frees one range and touches no other. *)
Lemma uni_recycle_spec p i : uni_inv p → 0 ≤ i < u_num_ranges p →
  ∃ p', dhcp_bmpool_uni_recycle p i = Ret p' ∧ uni_inv p' ∧ uni_same p p' ∧
    u_counter p' = u_counter p ∧ u_cur_range p' = u_cur_range p ∧
    uni_expire p' i = 0 ∧ (∀ b, 0 ≤ b < u_range_size p → uni_bit p' i b = false) ∧
    (∀ j, 0 ≤ j → j ≠ i → u_ranges p' !! Z.to_nat j = u_ranges p !! Z.to_nat j).
Proof.
  intros Hi Hr. unfold dhcp_bmpool_uni_recycle. rewrite (proj2 (Z.leb_gt _ _)) by lia.
  destruct (get_range_spec p i Hi Hr) as (r & -> & Hl & Hok & _). rewrite bind_Ret.
  pose proof (ui_size _ Hi).
  destruct (bm_zero_spec (u_range_size p) (ips r)) as (l & -> & Hlok & _ & Hbits); [lia|done|].
  rewrite bind_Ret. destruct (put_range_spec p i (mkRange l 0) Hi Hr) as (p' & -> & Hi' & Hs & ? & ? & Hput).
  { split; [done|]. by unfold uword. }
  exists p'. split_and!; try done.
  - unfold uni_expire. by rewrite Hput, decide_True by lia.
  - intros b Hb. unfold uni_bit. rewrite Hput, decide_True by lia. by apply Hbits.
  - intros j Hj Hne. by rewrite Hput, decide_False.
Qed.

(** ** Advancing to the next range *)

Definition uni_full (p : dhcp_bmpool_uni_t) : bool :=
  dhcp_bm_range_full (u_counter p) (u_range_size p).
Definition uni_next (p : dhcp_bmpool_uni_t) : Z := (u_cur_range p + 1) `mod` u_num_ranges p.

(** The range a peek at [now] recycles, if any. *)
Definition uni_renews (p : dhcp_bmpool_uni_t) (now : Z) : option Z :=
  if uni_full p && (0 <? uni_expire p (uni_next p)) && (uni_expire p (uni_next p) <=? now)
  then Some (uni_next p) else None.

(** [q] is [p] with the renewed range freed and the others untouched. *)
Definition renewed (p q : dhcp_bmpool_uni_t) (r : option Z) : Prop :=
  ∀ j, 0 ≤ j → if decide (r = Some j)
               then uni_expire q j = 0 ∧ ∀ b, 0 ≤ b < u_range_size p → uni_bit q j b = false
               else u_ranges q !! Z.to_nat j = u_ranges p !! Z.to_nat j.

Lemma uni_next_lt p : uni_inv p → 0 ≤ uni_next p < u_num_ranges p.
Proof. intros Hi. pose proof (ui_num8 _ Hi). apply Z.mod_pos_bound. lia. Qed.

Lemma next_range_eq p : uni_inv p → next_range p = Ret (uni_next p).
Proof.
  intros Hi. pose proof (ui_num8 _ Hi). pose proof (uni_next_lt p Hi). unfold next_range.
  rewrite (proj2 (Z.eqb_neq _ _)) by lia. f_equal. apply wrap_small. unfold uword, uni_next in *. lia.
Qed.

Lemma uni_inv_move p i : uni_inv p → 0 ≤ i < u_num_ranges p → uni_inv (u_set_counter (u_set_cur p i) 0).
Proof. intros [] Hr. split; cbn; try done; unfold uword; lia. Qed.

Lemma uni_inv_counter p c : uni_inv p → is_u32 c → uni_inv (u_set_counter p c).
Proof. intros [] Hc. by split. Qed.

Lemma uni_advance_spec p now : uni_inv p →
  ∃ av q, uni_advance p now = Ret (av, q) ∧ uni_inv q ∧ uni_same p q ∧
    renewed p q (uni_renews p now) ∧
    (if uni_full p then
       if av then u_cur_range q = uni_next p ∧ u_counter q = 0 ∧ uni_expire q (uni_next p) = 0
       else u_cur_range q = u_cur_range p ∧ u_counter q = u_counter p ∧
            now < uni_expire p (uni_next p)
     else av = true ∧ q = p).
Proof.
  intros Hi. unfold uni_advance, uni_renews. fold (uni_full p).
  destruct (uni_full p); cbn [negb andb].
  2:{ exists true, p. split_and!; try done. }
  rewrite (next_range_eq p Hi), bind_Ret. pose proof (uni_next_lt p Hi) as Hn.
  destruct (get_range_spec p (uni_next p) Hi Hn) as (r & -> & Hl & _ & Hu). rewrite bind_Ret.
  assert (Hexp : uni_expire p (uni_next p) = range_expire r) by (unfold uni_expire; by rewrite Hl).
  unfold range_expired. rewrite Hexp. destruct ((0 <? range_expire r) && (range_expire r <=? now)) eqn:Ex.
  - destruct (uni_recycle_spec p (uni_next p) Hi Hn) as (q & -> & Hq & Hs & Hc & Hcur & He & Hb & Ho).
    rewrite bind_Ret. pose proof Hs as (_ & _ & _ & En).
    destruct (get_range_spec q (uni_next p) Hq) as (r' & -> & Hl' & _ & _); [by rewrite En|].
    rewrite bind_Ret. assert (range_expire r' = 0) as -> by (unfold uni_expire in He; by rewrite Hl' in He).
    eexists true, _. split; [done|]. split_and!; try done.
    + apply uni_inv_move; [done|]. by rewrite En.
    + intros j Hj. destruct (decide (Some (uni_next p) = Some j)) as [[= <-]|Hne]; [done|].
      apply Ho; [done|congruence].
  - rewrite bind_Ret. unfold get_range. rewrite (deref_lookup _ _ _ Hl), bind_Ret.
    destruct (Z.eqb_spec (range_expire r) 0) as [E0|E0].
    + eexists true, _. split; [done|]. split_and!; try done.
      * by apply uni_inv_move.
      * change (uni_expire p (uni_next p) = 0). by rewrite Hexp.
    + eexists false, p. split; [done|]. split_and!; try done.
      * apply andb_false_iff in Ex as [?%Z.ltb_ge|?%Z.leb_gt]; [unfold uword in Hu; lia|done].
Qed.

(** ** Offering from the current range *)

Record uni_offer_post (q : dhcp_bmpool_uni_t) (now ip : Z) (p' : dhcp_bmpool_uni_t) : Prop := {
  uo_inv : uni_inv p';
  uo_same : uni_same q p';
  uo_cur : u_cur_range p' = u_cur_range q;
  uo_bits : ∀ j b, 0 ≤ j → uni_bit p' j b = uni_bit q j b;
  uo_expire : ∀ j, 0 ≤ j → uni_expire p' j =
    if decide (j = u_cur_range q ∧ uni_expire q j = 0 ∧ ip ≠ 0 ∧ uni_full p' = true)
    then now ⊞ u_lease_time q else uni_expire q j;
  uo_answer :
    (ip = 0 ∧ u_counter p' = Z.max (u_counter q) (u_range_size q) ∧
     ∀ b, u_counter q ≤ b < u_range_size q → uni_bit q (u_cur_range q) b = true) ∨
    (∃ b, ip = range_base q + b ∧ u_counter q ≤ b < u_range_size q ∧ u_counter p' = b + 1 ∧
       uni_bit q (u_cur_range q) b = false ∧
       ∀ i, u_counter q ≤ i < b → uni_bit q (u_cur_range q) i = true)
}.

(** Starting the timer of the current range. *)
Lemma uni_timer_spec q r x : uni_inv q → u_ranges q !! Z.to_nat (u_cur_range q) = Some r →
  range_ok (u_range_size q) r → is_u32 x →
  ∃ p', put_range q (u_cur_range q) (mkRange (ips r) x) = Ret p' ∧ uni_inv p' ∧ uni_same q p' ∧
    u_counter p' = u_counter q ∧ u_cur_range p' = u_cur_range q ∧
    (∀ j b, 0 ≤ j → uni_bit p' j b = uni_bit q j b) ∧
    (∀ j, 0 ≤ j → uni_expire p' j = if decide (j = u_cur_range q) then x else uni_expire q j).
Proof.
  intros Hq Hl [Hok _] Hx.
  destruct (put_range_spec q (u_cur_range q) (mkRange (ips r) x) Hq (ui_cur _ Hq))
    as (p' & -> & Hi' & Hs & Hc & Hcur & Hput); [by split|].
  exists p'. split_and!; try done.
  - intros j b Hj. unfold uni_bit. rewrite Hput by done. case_decide as E; [|done].
    subst j. by rewrite Hl.
  - intros j Hj. unfold uni_expire. rewrite Hput by done. by case_decide.
Qed.

(** No free slot: the candidate of the last round is used, or there was no round. *)
Lemma uni_offer_none q counter cand : uni_inv q → 0 ≤ u_counter q →
  (∀ b, u_counter q ≤ b < u_range_size q → uni_bit q (u_cur_range q) b = true) →
  cand = (if u_counter q <? u_range_size q then range_base q + (u_range_size q - 1) else 0) →
  cand ≠ 0 → dhcp_bmpool_uni_ip_used (u_set_counter q counter) cand = Ret true.
Proof.
  intros Hq H0 Hall Hc Hne.
  destruct (Z.ltb_spec (u_counter q) (u_range_size q)); [|done].
  rewrite <- (Hall (u_range_size q - 1)) by lia.
  change (dhcp_bmpool_uni_ip_used q cand = Ret (uni_bit q (u_cur_range q) (u_range_size q - 1))).
  pose proof (ui_size _ Hq). rewrite uni_ip_used_spec, decide_True by (done || lia).
  f_equal. f_equal. lia.
Qed.

(** The scan found the free slot [b]: the timer starts if the range is full now. *)
Lemma uni_offer_found q now b r : uni_inv q → u_counter q ≤ b < u_range_size q →
  u_ranges q !! Z.to_nat (u_cur_range q) = Some r → range_ok (u_range_size q) r →
  uni_bit q (u_cur_range q) b = false → (∀ i, u_counter q ≤ i < b → uni_bit q (u_cur_range q) i = true) →
  let q1 := u_set_counter q (b + 1) in
  ∃ p', (if (range_expire r =? 0) && dhcp_bm_range_full (u_counter q1) (u_range_size q1)
         then put_range q1 (u_cur_range q1) (mkRange (ips r) (now ⊞ u_lease_time q1)) else Ret q1) = Ret p' ∧
    (range_base q + b ≠ 0 → uni_offer_post q now (range_base q + b) p').
Proof.
  intros Hq Hb Hl Hr Hbf Hall q1. pose proof (ui_counter _ Hq) as [Hc0 Hc1]. pose proof (ui_size _ Hq) as Hrs.
  assert (Hq1 : uni_inv q1) by (apply uni_inv_counter; [done|unfold uword; lia]).
  assert (Hans : ∀ p', u_counter p' = b + 1 →
    (∃ b0, range_base q + b = range_base q + b0 ∧ u_counter q ≤ b0 < u_range_size q ∧
       u_counter p' = b0 + 1 ∧ uni_bit q (u_cur_range q) b0 = false ∧
       ∀ i, u_counter q ≤ i < b0 → uni_bit q (u_cur_range q) i = true)) by (intros p' Hp'; by exists b).
  assert (Hexp : uni_expire q (u_cur_range q) = range_expire r) by (unfold uni_expire; by rewrite Hl).
  destruct ((range_expire r =? 0) && dhcp_bm_range_full (u_counter q1) (u_range_size q1)) eqn:Et.
  - apply andb_true_iff in Et as [Et%Z.eqb_eq Ef].
    destruct (uni_timer_spec q1 r (now ⊞ u_lease_time q) Hq1 Hl Hr) as (p' & Hput & Hi' & Hs & Hc & Hcur & Hbits & He);
      [apply wrap_range; lia|].
    exists p'. split; [exact Hput|]. intros Hne. split; try done.
    + intros j Hj. rewrite He by done. change (u_cur_range q1) with (u_cur_range q).
      apply decide_ext. split; [|tauto]. intros ->. split_and!; [done|congruence|done|].
      unfold uni_full. rewrite Hc. destruct Hs as (_ & -> & _). done.
    + right. by apply Hans.
  - exists q1. split; [done|]. intros Hne. split; try done.
    + intros j Hj. rewrite decide_False; [done|]. intros (-> & E & _ & Ef).
      rewrite Hexp in E. unfold uni_full in Ef. by rewrite Ef, E in Et.
    + right. by apply Hans.
Qed.

Lemma uni_offer_spec q now : uni_inv q →
  ∃ ip p', uni_offer q now = Ret (ip, p') ∧ uni_offer_post q now ip p'.
Proof.
  intros Hq. destruct (range_base_eq q Hq) as (_ & Hb0 & Hbt).
  pose proof (ui_counter _ Hq) as [Hc0 Hc1]. pose proof (ui_size _ Hq) as Hrs.
  destruct (get_range_spec q (u_cur_range q) Hq (ui_cur _ Hq)) as (r & Hget & Hl & Hr).
  unfold uni_offer. cbv zeta. rewrite Hget, bind_Ret.
  destruct (peek_loop_spec (ips r) (range_base q) (u_range_size q) (proj1 Hr) Hb0 Hbt
    (peek_fuel (u_range_size q) (u_counter q)) (u_counter q) 0) as (res & Hfree & ->);
    [lia|unfold peek_fuel; lia|].
  assert (Hbit : ∀ b, bm_bit (ips r) b = uni_bit q (u_cur_range q) b) by (intros; unfold uni_bit; by rewrite Hl).
  destruct res as [b|]; cbn [peek_result]; rewrite bind_Ret; cbn in Hfree.
  2:{ set (cand := if u_counter q <? u_range_size q then _ else 0).
      assert (Hall : ∀ b, u_counter q ≤ b < u_range_size q → uni_bit q (u_cur_range q) b = true).
      { intros b Hb. rewrite <- Hbit. by apply Hfree. }
      assert (Hpost : uni_offer_post q now 0 (u_set_counter q (Z.max (u_counter q) (u_range_size q)))).
      { split; try done.
        - apply uni_inv_counter; [done|]. unfold uword. lia.
        - intros j Hj. rewrite decide_False; [done|]. by intros (_ & _ & [] & _).
        - by left. }
      exists 0. eexists. split; [|exact Hpost]. destruct (Z.eqb_spec cand 0) as [|Hne]; [done|].
      by rewrite (uni_offer_none q _ cand Hq Hc0). }
  destruct Hfree as (Hb & Hbf & Hall). rewrite Hbit in Hbf. rewrite (proj2 (Z.eqb_neq _ _)) by lia.
  set (q1 := u_set_counter q (b + 1)).
  change (dhcp_bmpool_uni_ip_used q1 (range_base q + b)) with (dhcp_bmpool_uni_ip_used q (range_base q + b)).
  rewrite (uni_ip_used_spec q) by done. rewrite decide_True by lia.
  replace (range_base q + b - range_base q) with b by lia. rewrite Hbf, bind_Ret.
  change (get_range q1 _) with (get_range q (u_cur_range q)). rewrite Hget, bind_Ret.
  destruct (uni_offer_found q now b r Hq Hb Hl Hr Hbf) as (p' & Hp & Hpost).
  { intros i Hi. rewrite <- Hbit. by apply Hall. }
  unfold q1. rewrite Hp, bind_Ret. eexists _, p'. split; [done|]. apply Hpost. lia.
Qed.

Lemma uni_peek_spec p now : uni_inv p →
  ∃ ip p', dhcp_bmpool_uni_peek p now = Ret (ip, p') ∧
    ∃ q, uni_inv q ∧ uni_same p q ∧ renewed p q (uni_renews p now) ∧
      ((uni_full p = true ∧ now < uni_expire p (uni_next p) ∧ ip = 0 ∧ p' = q ∧
        u_cur_range q = u_cur_range p ∧ u_counter q = u_counter p) ∨
       (u_cur_range q = (if uni_full p then uni_next p else u_cur_range p) ∧
        u_counter q = (if uni_full p then 0 else u_counter p) ∧ uni_offer_post q now ip p')).
Proof.
  intros Hi. unfold dhcp_bmpool_uni_peek.
  destruct (uni_advance_spec p now Hi) as (av & q & -> & Hq & Hs & Hren & Hcase). rewrite bind_Ret.
  destruct av.
  - destruct (uni_offer_spec q now Hq) as (ip & p' & -> & Hpost).
    exists ip, p'. split; [done|]. exists q. split_and!; [done..|]. right.
    destruct (uni_full p); [by destruct Hcase as (? & ? & _)|]. by destruct Hcase as [_ ->].
  - exists 0, q. split; [done|]. exists q. split_and!; [done..|]. left.
    destruct (uni_full p); [|by destruct Hcase]. by destruct Hcase as (? & ? & ?).
Qed.

Lemma uni_same_trans p q r : uni_same p q → uni_same q r → uni_same p r.
Proof. unfold uni_same. intros (?&?&?&?) (?&?&?&?). split_and!; congruence. Qed.

Lemma renewed_bit p q r j b : renewed p q r → 0 ≤ j → r ≠ Some j → uni_bit q j b = uni_bit p j b.
Proof. intros Hr Hj Hne. specialize (Hr j Hj). rewrite decide_False in Hr by done. unfold uni_bit. by rewrite Hr. Qed.

Record uni_commit_post (p : dhcp_bmpool_uni_t) (ip : Z) (ok : bool) (p' : dhcp_bmpool_uni_t) : Prop := {
  uc_inv : uni_inv p';
  uc_same : uni_same p p';
  uc_counter : u_counter p' = u_counter p;
  uc_cur : u_cur_range p' = u_cur_range p;
  uc_expire : ∀ j, 0 ≤ j → uni_expire p' j = uni_expire p j;
  uc_ok : ok = true ↔ range_base p ≤ ip < range_base p + u_range_size p ∧
                      uni_bit p (u_cur_range p) (ip - range_base p) = false;
  uc_fail : ok = false → p' = p;
  uc_bits : ok = true → ∀ j b, 0 ≤ j → 0 ≤ b → uni_bit p' j b =
    if decide (j = u_cur_range p ∧ b = ip - range_base p) then true else uni_bit p j b
}.

Lemma uni_commit_spec p ip : uni_inv p →
  ∃ ok p', dhcp_bmpool_uni_commit_ip p ip = Ret (ok, p') ∧ uni_commit_post p ip ok p'.
Proof.
  intros Hi. destruct (range_base_eq p Hi) as (_ & Hb0 & Hbt). pose proof (ui_size _ Hi).
  unfold dhcp_bmpool_uni_commit_ip. rewrite (uni_ip_used_spec p ip Hi), bind_Ret.
  case_decide as Hin.
  2:{ exists false, p. split; [done|]. split; try done. split; [done|]. by intros [? _]. }
  destruct (uni_bit p (u_cur_range p) (ip - range_base p)) eqn:Eb.
  { exists false, p. split; [done|]. split; try done. split; [done|]. intros [_ E]. congruence. }
  destruct (get_range_spec p (u_cur_range p) Hi (ui_cur _ Hi)) as (r & -> & Hl & Hok & Hu).
  rewrite bind_Ret, (wrap_small 32 (ip - range_base p)) by (unfold uword; lia).
  destruct (bm_set_spec (u_range_size p) (ips r) (ip - range_base p) Hok) as (l & -> & Hlok & _ & Hbits);
    [lia|]. rewrite bind_Ret.
  destruct (put_range_spec p (u_cur_range p) (mkRange l (range_expire r)) Hi (ui_cur _ Hi))
    as (p' & -> & Hi' & Hs & Hc & Hcur & Hput); [by split|]. rewrite bind_Ret.
  eexists _, p'. split; [done|]. split; try done.
  - intros j Hj. unfold uni_expire. rewrite Hput by done. case_decide as E; [|done].
    subst j. by rewrite Hl.
  - intros _ j b Hj Hb. unfold uni_bit. rewrite Hput by done. case_decide as E.
    + subst j. cbn. rewrite Hbits, Hl by done. apply decide_ext. tauto.
    + rewrite decide_False; [done|]. by intros [? _].
Qed.

(** ** Traces *)

Inductive uni_op :=
  | UPeek (now : Z)
  | UCommit (ip : Z).

Definition uni_call (p : dhcp_bmpool_uni_t) (o : uni_op) : outcome dhcp_bmpool_uni_t :=
  match o with
  | UPeek now => snd <$> dhcp_bmpool_uni_peek p now
  | UCommit ip => snd <$> dhcp_bmpool_uni_commit_ip p ip
  end.

Definition op_renews (p : dhcp_bmpool_uni_t) (o : uni_op) : option Z :=
  match o with UPeek now => uni_renews p now | UCommit _ => None end.

(** A run in which range [r] is never recycled. *)
Inductive uni_keeps (r : Z) : dhcp_bmpool_uni_t → dhcp_bmpool_uni_t → Prop :=
  | uk_refl p : uni_keeps r p p
  | uk_step p o p1 p2 :
      uni_call p o = Ret p1 → op_renews p o ≠ Some r → uni_keeps r p1 p2 → uni_keeps r p p2.

Lemma uni_call_spec p o : uni_inv p →
  ∃ p', uni_call p o = Ret p' ∧ uni_inv p' ∧ uni_same p p' ∧
    ∀ r b, op_renews p o ≠ Some r → 0 ≤ r → 0 ≤ b → uni_bit p r b = true → uni_bit p' r b = true.
Proof.
  intros Hi. destruct o as [now|ip]; cbn.
  - destruct (uni_peek_spec p now Hi) as (ip & p' & -> & q & Hq & Hs & Hren & Hcase).
    exists p'. split; [done|]. destruct Hcase as [(_ & _ & _ & -> & _)|(_ & _ & [Hi' Hs' _ Hbits _ _])].
    + split_and!; [done..|]. intros r b Hr Hr0 _. by rewrite (renewed_bit p q _ r b Hren).
    + split_and!; [done|by eapply uni_same_trans|]. intros r b Hr Hr0 _.
      by rewrite Hbits, (renewed_bit p q _ r b Hren).
  - destruct (uni_commit_spec p ip Hi) as (ok & p' & -> & [Hi' Hs _ _ _ _ Hfail Hbits]).
    exists p'. split_and!; [done..|]. intros r b _ Hr Hb Ht. destruct ok; [|by rewrite Hfail].
    rewrite Hbits by done. by case_decide.
Qed.

Lemma uni_keeps_spec r p p' : uni_keeps r p p' → 0 ≤ r → uni_inv p →
  uni_inv p' ∧ uni_same p p' ∧ ∀ b, 0 ≤ b → uni_bit p r b = true → uni_bit p' r b = true.
Proof.
  induction 1 as [p|p o p1 p2 Hcall Hren _ IH]; intros Hr Hi; [by split_and!|].
  destruct (uni_call_spec p o Hi) as (q & Hq & Hi1 & Hs1 & Hb1). assert (q = p1) as -> by congruence.
  destruct (IH Hr Hi1) as (? & ? & Hb2). split_and!; [done|by eapply uni_same_trans|].
  intros b Hb Ht. by apply Hb2, Hb1.
Qed.

(** ** Initialisation *)

Lemma uni_init_loop_spec : ∀ n i p, uni_inv p → 0 ≤ i → i + Z.of_nat n = u_num_ranges p →
  (∀ j b, 0 ≤ j < i → 0 ≤ b < u_range_size p → uni_bit p j b = false) →
  (∀ j, 0 ≤ j < i → uni_expire p j = 0) →
  ∃ p', uni_init_loop n i p = Ret p' ∧ uni_inv p' ∧ uni_same p p' ∧
    u_counter p' = u_counter p ∧ u_cur_range p' = u_cur_range p ∧
    ∀ j, 0 ≤ j < u_num_ranges p → uni_expire p' j = 0 ∧
      ∀ b, 0 ≤ b < u_range_size p → uni_bit p' j b = false.
Proof.
  induction n as [|n IH]; intros i p Hi H0 Hn Hb He; cbn [uni_init_loop].
  { exists p. split_and!; try done. intros j Hj. split; [apply He; lia|]. intros. apply Hb; lia. }
  destruct (uni_recycle_spec p i Hi) as (q & -> & Hq & Hs & Hc & Hcur & He' & Hb' & Ho); [lia|].
  rewrite bind_Ret. pose proof Hs as (? & Er & ? & En).
  destruct (IH (i + 1) q Hq) as (p' & -> & Hi' & Hs' & Hc' & Hcur' & Hall); [lia|lia| | |].
  - intros j b Hj. rewrite Er. intros Hbr. destruct (decide (j = i)) as [->|]; [by apply Hb'|].
    unfold uni_bit. rewrite Ho by lia. apply Hb; lia.
  - intros j Hj. destruct (decide (j = i)) as [->|]; [done|]. unfold uni_expire.
    rewrite Ho by lia. apply He. lia.
  - exists p'. split_and!; [done|done|by eapply uni_same_trans|congruence|congruence|].
    rewrite En, Er in Hall. done.
Qed.

Lemma uni_init_spec raw s lt rgs rs num : 0 < s → 0 < rs < 2 ^ 32 - 31 →
  num = Z.of_nat (length rgs) → 0 < num < 2 ^ 8 → s + num * rs < 2 ^ 32 →
  Forall (range_ok rs) rgs → is_u32 (u_counter raw) →
  ∃ p, dhcp_bmpool_uni_init raw s lt rgs rs num = Ret p ∧ uni_inv p ∧
    u_counter p = u_counter raw ∧ u_cur_range p = 0 ∧
    ∀ j, 0 ≤ j < num → uni_expire p j = 0 ∧ ∀ b, 0 ≤ b < rs → uni_bit p j b = false.
Proof.
  intros. unfold dhcp_bmpool_uni_init.
  destruct (uni_init_loop_spec (Z.to_nat num) 0 (mkUni s lt (u_counter raw) rgs rs num 0))
    as (p & ? & ? & _ & ? & ? & ?).
  - split; cbn; try done. lia.
  - done.
  - cbn. lia.
  - intros; lia.
  - intros; lia.
  - exists p. by split_and!.
Qed.

(** ** Properties of the UNITIME pool *)

(** A peek offers the first uncommitted address of the current range at or
    after the counter; when the range is used up it moves to the next one,
    freeing it first exactly if its timer has run out and refusing with 0 if it
    has not; the timer of a range starts when its last slot is offered. *)
Theorem uni_peek_correct (p : dhcp_bmpool_uni_t) (now : Z) :
  uni_inv p →
  ∃ ip p', dhcp_bmpool_uni_peek p now = Ret (ip, p') ∧
    ∃ q, uni_inv q ∧ uni_same p q ∧ renewed p q (uni_renews p now) ∧
      ((uni_full p = true ∧ now < uni_expire p (uni_next p) ∧ ip = 0 ∧ p' = q ∧
        u_cur_range q = u_cur_range p ∧ u_counter q = u_counter p) ∨
       (u_cur_range q = (if uni_full p then uni_next p else u_cur_range p) ∧
        u_counter q = (if uni_full p then 0 else u_counter p) ∧ uni_offer_post q now ip p')).
Proof. apply uni_peek_spec. Qed.

(** C39: In BITMAP_UNITIME mode an address of a range is committed at most once between two
    recyclings of that range: after a commit has succeeded, and whatever peeks and
    commits follow of which no peek recycles the range that was current then (other
    ranges may become current and be recycled meanwhile), another commit of the
    address is refused and changes nothing. *)
Theorem uni_commit_once (p p1 p2 : dhcp_bmpool_uni_t) (ip : Z) :
  uni_inv p → dhcp_bmpool_uni_commit_ip p ip = Ret (true, p1) →
  uni_keeps (u_cur_range p) p1 p2 →
  dhcp_bmpool_uni_commit_ip p2 ip = Ret (false, p2).
Proof.
  intros Hi Hcommit Hk. pose proof (ui_cur _ Hi) as Hcur.
  destruct (uni_commit_spec p ip Hi) as (ok & q & E & [Hi1 (Es & Er & _ & En) _ _ _ Hok _ Hbits]).
  rewrite E in Hcommit. injection Hcommit as -> ->. destruct (proj1 Hok eq_refl) as [Hip _].
  destruct (uni_keeps_spec _ _ _ Hk (proj1 Hcur) Hi1) as (Hi2 & (Es2 & Er2 & _ & _) & Hb).
  destruct (uni_commit_spec p2 ip Hi2) as (ok2 & q2 & -> & [_ _ _ _ _ Hok2 Hfail2 _]).
  destruct ok2; [|by rewrite Hfail2].
  destruct (proj1 Hok2 eq_refl) as [Hip2 Hfree]. exfalso.
  destruct (range_base_eq p Hi) as (Eb & _). destruct (range_base_eq p2 Hi2) as (Eb2 & _).
  pose proof (ui_size _ Hi). rewrite Es2, Es, Er2, Er in Eb2. rewrite Er2, Er in Hip2.
  assert (Ec : u_cur_range p2 = u_cur_range p) by nia.
  assert (Ebase : range_base p2 = range_base p) by (rewrite Eb, Eb2, Ec; done).
  rewrite Ec, Ebase, Hb in Hfree; [done|lia|].
  rewrite Hbits by lia. by rewrite decide_True.
Qed.

(** Starvation.  A range whose timer was never started is never recycled: once
    every slot of every range is committed with no timer running, each later
    peek answers 0, for ever, whatever the time. *)
Theorem uni_starvation (p : dhcp_bmpool_uni_t) (nows : list Z) :
  uni_inv p →
  (∀ j, 0 ≤ j < u_num_ranges p → uni_expire p j = 0 ∧
     ∀ b, 0 ≤ b < u_range_size p → uni_bit p j b = true) →
  ∃ p', foldr (λ now k q, '(ip, q) ← dhcp_bmpool_uni_peek q now;
                          if ip =? 0 then k q else Ub) Ret nows p = Ret p'.
Proof.
  intros Hi Hall. revert p Hi Hall. induction nows as [|now nows IH]; intros p Hi Hall; [by exists p|].
  cbn [foldr]. destruct (uni_peek_spec p now Hi) as (ip & p' & -> & q & Hq & Hs & Hren & Hcase).
  rewrite bind_Ret. pose proof (uni_next_lt p Hi) as Hnx. pose proof Hs as (_ & Er & _ & En).
  assert (Hno : uni_renews p now = None).
  { unfold uni_renews. by rewrite (proj1 (Hall _ Hnx)), andb_false_r. }
  rewrite Hno in Hren.
  assert (Hranges : ∀ j, 0 ≤ j → u_ranges q !! Z.to_nat j = u_ranges p !! Z.to_nat j).
  { intros j Hj. specialize (Hren j Hj). by rewrite decide_False in Hren. }
  destruct Hcase as [(_ & Hlt & -> & -> & _)|(Hcur & Hcnt & [Hi' Hs' Hcur' Hbits Hexp Hans])].
  { cbn [Z.eqb]. apply IH; [done|]. intros j Hj. rewrite En in Hj. rewrite Er.
    unfold uni_expire, uni_bit. rewrite Hranges by lia. by apply Hall. }
  assert (Hqc : 0 ≤ u_cur_range q < u_num_ranges p) by (rewrite <- En; apply Hq).
  destruct Hans as [(-> & _ & _)|(b & _ & Hb & _ & Hf & _)].
  2:{ exfalso. unfold uni_bit in Hf. rewrite Hranges in Hf by lia.
      pose proof (proj2 (Hall _ Hqc) b) as Ht. unfold uni_bit in Ht. rewrite Ht in Hf; [done|].
      rewrite Er in Hb. assert (0 ≤ u_counter q) by (pose proof (ui_counter _ Hq) as []; done). lia. }
  cbn [Z.eqb]. destruct Hs' as (_ & Er' & _ & En').
  apply IH; [done|]. intros j Hj. rewrite En', En in Hj. rewrite Er', Er. split.
  - rewrite Hexp by lia. rewrite decide_False by (by intros (_ & _ & [] & _)).
    unfold uni_expire. rewrite Hranges by lia. by apply Hall.
  - intros b Hb. rewrite Hbits by lia. unfold uni_bit. rewrite Hranges by lia. by apply Hall.
Qed.

(** [dhcp_bmpool_uni_init] establishes the invariant with every slot free and no
    timer running, but leaves the offer counter at whatever the storage held. *)
Theorem uni_init_correct (raw : dhcp_bmpool_uni_t) (s lt : Z) (rgs : list dhcp_bmrange_t) (rs num : Z) :
  0 < s → 0 < rs < 2 ^ 32 - 31 → num = Z.of_nat (length rgs) → 0 < num < 2 ^ 8 →
  s + num * rs < 2 ^ 32 → Forall (range_ok rs) rgs → is_u32 (u_counter raw) →
  ∃ p, dhcp_bmpool_uni_init raw s lt rgs rs num = Ret p ∧ uni_inv p ∧
    u_counter p = u_counter raw ∧ u_cur_range p = 0 ∧
    ∀ j, 0 ≤ j < num → uni_expire p j = 0 ∧ ∀ b, 0 ≤ b < rs → uni_bit p j b = false.
Proof. apply uni_init_spec. Qed.

(** ** Witnesses: two ranges of one slot *)

Definition raw_uni : dhcp_bmpool_uni_t := mkUni 0 0 0 [] 0 0 0.
Definition one_slot : dhcp_bmrange_t := mkRange [9] 5.
Definition ret_uni (m : outcome dhcp_bmpool_uni_t) : dhcp_bmpool_uni_t :=
  match m with Ret p => p | _ => raw_uni end.
Definition sample_uni : dhcp_bmpool_uni_t :=
  ret_uni (dhcp_bmpool_uni_init raw_uni 100 10 [one_slot; one_slot] 1 2).
Definition sample_uni1 : dhcp_bmpool_uni_t := ret_uni (snd <$> dhcp_bmpool_uni_commit_ip sample_uni 100).

Lemma one_slot_ok : Forall (range_ok 1) [one_slot; one_slot].
Proof.
  repeat constructor; cbn; try (unfold uword; lia); repeat constructor; unfold uword; lia.
Qed.

Lemma sample_uni_inv : uni_inv sample_uni.
Proof.
  destruct (uni_init_spec raw_uni 100 10 [one_slot; one_slot] 1 2) as (p & E & Hi & _);
    [lia|lia|done|lia|lia|apply one_slot_ok|by unfold uword|].
  unfold sample_uni. by rewrite E.
Qed.

Lemma uni_peek_correct_witness :
  ∃ ip p', dhcp_bmpool_uni_peek sample_uni 50 = Ret (ip, p') ∧ ip = 100.
Proof.
  destruct (uni_peek_correct sample_uni 50 sample_uni_inv) as (ip & p' & E & _).
  exists ip, p'. split; [exact E|].
  assert (E' : fst <$> dhcp_bmpool_uni_peek sample_uni 50 = Ret 100) by (vm_compute; reflexivity).
  rewrite E in E'. injection E' as ->. reflexivity.
Defined.

Fixpoint uni_run (p : dhcp_bmpool_uni_t) (os : list uni_op) : outcome dhcp_bmpool_uni_t :=
  match os with
  | [] => Ret p
  | o :: os => p ← uni_call p o; uni_run p os
  end.

Lemma uni_run_inv p os p' : uni_inv p → uni_run p os = Ret p' → uni_inv p'.
Proof.
  revert p. induction os as [|o os IH]; intros p Hi Hrun; cbn in Hrun; [congruence|].
  destruct (uni_call_spec p o Hi) as (q & E & Hq & _). rewrite E, bind_Ret in Hrun. by apply (IH q).
Qed.

(** The first range is committed and given up for the second, which is recycled and
    committed. *)
Definition sample_uni3 : dhcp_bmpool_uni_t := ret_uni (uni_run sample_uni1 [UPeek 51; UPeek 52; UCommit 101]).

Lemma uni_commit_once_witness :
  dhcp_bmpool_uni_commit_ip sample_uni 100 = Ret (true, sample_uni1) ∧
  uni_run sample_uni1 [UPeek 51; UPeek 52; UCommit 101] = Ret sample_uni3 ∧ u_cur_range sample_uni3 = 1 ∧
  dhcp_bmpool_uni_commit_ip sample_uni3 100 = Ret (false, sample_uni3).
Proof.
  assert (E : dhcp_bmpool_uni_commit_ip sample_uni 100 = Ret (true, sample_uni1))
    by (vm_compute; reflexivity).
  split; [exact E|]. split; [vm_compute; reflexivity|]. split; [vm_compute; reflexivity|].
  apply (uni_commit_once sample_uni sample_uni1 sample_uni3 100 sample_uni_inv E).
  apply (uk_step _ _ (UPeek 51) (ret_uni (uni_run sample_uni1 [UPeek 51])));
    [vm_compute; reflexivity|vm_compute; discriminate|].
  apply (uk_step _ _ (UPeek 52) (ret_uni (uni_run sample_uni1 [UPeek 51; UPeek 52])));
    [vm_compute; reflexivity|vm_compute; discriminate|].
  apply (uk_step _ _ (UCommit 101) sample_uni3); [vm_compute; reflexivity|vm_compute; discriminate|apply uk_refl].
Defined.

(** The starved state is reachable: on two ranges of two slots, clients REQUEST the
    last address of each range before it is offered. *)
Definition two_slots : dhcp_bmrange_t := mkRange [0] 0.
Definition sample_uni2 : dhcp_bmpool_uni_t := mkUni 100 10 0 [two_slots; two_slots] 2 2 0.
Definition starving_calls : list uni_op :=
  [UCommit 101; UCommit 100; UPeek 50; UPeek 51; UCommit 102; UCommit 103; UPeek 52].
Definition starved_uni : dhcp_bmpool_uni_t := ret_uni (uni_run sample_uni2 starving_calls).

Lemma two_slots_ok : Forall (range_ok 2) [two_slots; two_slots].
Proof. repeat constructor; cbn; try (unfold uword; lia); repeat constructor; unfold uword; lia. Qed.

Lemma starved_reached :
  dhcp_bmpool_uni_init raw_uni 100 10 [two_slots; two_slots] 2 2 = Ret sample_uni2 ∧
  uni_run sample_uni2 starving_calls = Ret starved_uni ∧ uni_inv starved_uni.
Proof.
  assert (E : uni_run sample_uni2 starving_calls = Ret starved_uni) by (vm_compute; reflexivity).
  split_and!; [vm_compute; reflexivity|exact E|]. refine (uni_run_inv _ _ _ _ E).
  split; cbn; try lia; try (unfold uword; lia). exact two_slots_ok.
Qed.

Lemma uni_starvation_witness :
  ∃ p', foldr (λ now k q, '(ip, q) ← dhcp_bmpool_uni_peek q now;
                          if ip =? 0 then k q else Ub) Ret [60; 1000; 1000000] starved_uni = Ret p'.
Proof.
  apply uni_starvation; [apply starved_reached|].
  intros j Hj. change (0 ≤ j < 2) in Hj. assert (j = 0 ∨ j = 1) as [-> | ->] by lia;
    (split; [reflexivity|]; intros b Hb; change (0 ≤ b < 2) in Hb;
     assert (b = 0 ∨ b = 1) as [-> | ->] by lia; reflexivity).
Defined.

Lemma uni_init_correct_witness :
  ∃ p, dhcp_bmpool_uni_init raw_uni 100 10 [one_slot; one_slot] 1 2 = Ret p ∧ uni_inv p.
Proof.
  destruct (uni_init_correct raw_uni 100 10 [one_slot; one_slot] 1 2 ltac:(lia) ltac:(lia) eq_refl
    ltac:(lia) ltac:(lia) one_slot_ok ltac:(unfold uword; cbn; lia)) as (p & E & Hi & _).
  exists p. split; [exact E|exact Hi].
Defined.
