(* ===== verification/Nprc.v ===== *)
(** * NPRC mode: a sliding window over the pool

    [dhcp-lib/dhcp_nprc.h] and [dhcp-lib/dhcp_nprc.c].  [W] is [BITMAP_SIZE], the
    bits of an [unsigned long]: 32 or 64 on the targets. *)
From S2P Require Import Prelude.

Open Scope Z_scope.

Record dhcp_nprcpool_t := mkNprc {
  cache_base : Z;
  offer_next : Z;
  ack_bitmap : Z
}.

Section Nprc.
Context (W : Z).

Definition BITMAP_FLUSH : Z := W / 4.

(** The first statement of [dhcp_nprc_find_available_ip]: a full window drops its
    oldest quarter. *)
Definition nprc_flush (p : dhcp_nprcpool_t) : dhcp_nprcpool_t :=
  if W <=? offer_next p
  then mkNprc (cache_base p ⊞ BITMAP_FLUSH) (u8 (offer_next p - BITMAP_FLUSH))
              (ack_bitmap p ≫ BITMAP_FLUSH)
  else p.

Definition dhcp_nprc_find_available_ip (p : dhcp_nprcpool_t) (pool_start pool_end : Z)
    : Z * dhcp_nprcpool_t :=
  let p := nprc_flush p in
  let offset := offer_next p in
  let offered_ip := pool_start ⊞ cache_base p ⊞ offset in
  if pool_end <? offered_ip then (0, p)
  else (offered_ip, mkNprc (cache_base p) (u8 (offer_next p + 1)) (ack_bitmap p)).

(** [while ((ack_bitmap & 1UL) && offer_next)] *)
Fixpoint clean_loop (fuel : nat) (p : dhcp_nprcpool_t) : outcome dhcp_nprcpool_t :=
  if truth (Z.land (ack_bitmap p) 1) && truth (offer_next p) then
    match fuel with
    | O => Diverge
    | S fuel =>
        clean_loop fuel (mkNprc (cache_base p ⊞ 1) (u8 (offer_next p - 1)) (ack_bitmap p ≫ 1))
    end
  else Ret p.

Definition dhcp_nprc_commit_ip (p : dhcp_nprcpool_t) (requested_ip pool_start pool_end : Z)
    : outcome (bool * dhcp_nprcpool_t) :=
  let ip_lbound := pool_start ⊞ cache_base p in
  let ip_ubound := pool_start ⊞ cache_base p ⊞ offer_next p ⊟ 1 in
  let ip_ubound := if pool_end <? ip_ubound then pool_end else ip_ubound in
  if (ip_lbound <=? requested_ip) && (requested_ip <=? ip_ubound) then
    let offset := requested_ip ⊟ pool_start ⊟ cache_base p in
    if (offset <? W) && negb (truth (Z.land (ack_bitmap p) (wrap W (1 ≪ offset)))) then
      let p := mkNprc (cache_base p) (offer_next p)
                      (Z.lor (ack_bitmap p) (wrap W (1 ≪ offset))) in
      p ← clean_loop (Z.to_nat (offer_next p)) p;
      Ret (true, p)
    else Ret (false, p)
  else Ret (false, p).

(** ** The window as a set of pool indices *)

(** Index of the next address to offer. *)
Definition frontier (p : dhcp_nprcpool_t) : Z := cache_base p + offer_next p.

(** Index [i] was offered, is still in the window and not acknowledged. *)
Definition nprc_open (p : dhcp_nprcpool_t) (i : Z) : bool :=
  (cache_base p <=? i) && (i <? frontier p) && negb (Z.testbit (ack_bitmap p) (i - cache_base p)).

Hypothesis HW : W = 32 ∨ W = 64.

Record nprc_inv (s e : Z) (p : dhcp_nprcpool_t) : Prop := {
  ni_pool : 0 < s ∧ s ≤ e ∧ e < 2 ^ 32 - 1;
  ni_base : 0 ≤ cache_base p;
  ni_next : 0 ≤ offer_next p ≤ W;
  ni_top : s + frontier p ≤ e + 1;
  ni_bitmap : 0 ≤ ack_bitmap p < 2 ^ offer_next p
}.

Lemma nprc_open_lt p i : nprc_open p i = true → cache_base p ≤ i < frontier p.
Proof. unfold nprc_open. intros [[?%Z.leb_le ?%Z.ltb_lt]%andb_true_iff _]%andb_true_iff. lia. Qed.

Lemma nprc_init_inv s e : 0 < s → s ≤ e → e < 2 ^ 32 - 1 → nprc_inv s e (mkNprc 0 0 0).
Proof. intros. split; cbn; unfold frontier; cbn; lia. Qed.

(** Dropping the [k] oldest indices. *)
Lemma nprc_drop s e p k : nprc_inv s e p → 0 ≤ k ≤ offer_next p →
  let p' := mkNprc (cache_base p ⊞ k) (u8 (offer_next p - k)) (ack_bitmap p ≫ k) in
  nprc_inv s e p' ∧ frontier p' = frontier p ∧ cache_base p' = cache_base p + k ∧
  offer_next p' = offer_next p - k ∧
  ∀ i, nprc_open p' i = nprc_open p i && (cache_base p + k <=? i).
Proof.
  intros [Hp Hb Hn Ht Ha] Hk. unfold frontier, nprc_open in *. cbn [cache_base offer_next ack_bitmap].
  rewrite !wrap_small by (unfold uword; lia).
  split_and!; try lia.
  - split; cbn [cache_base offer_next ack_bitmap]; unfold frontier; cbn [cache_base offer_next]; try lia.
    rewrite Z.shiftr_div_pow2 by lia. split; [apply Z.div_pos; lia|].
    apply Z.div_lt_upper_bound; [lia|]. rewrite <- Z.pow_add_r by lia.
    replace (k + (offer_next p - k)) with (offer_next p) by lia. lia.
  - intros i. unfold frontier. cbn [cache_base offer_next].
    replace (cache_base p + k + (offer_next p - k)) with (cache_base p + offer_next p) by lia.
    destruct (Z.leb_spec (cache_base p + k) i); [|by rewrite andb_false_r].
    rewrite (proj2 (Z.leb_le (cache_base p) i)), andb_true_r by lia. cbn [andb].
    rewrite Z.shiftr_spec by lia. f_equal. f_equal. f_equal. lia.
Qed.

(** Does a find drop index [i]? *)
Definition flushed (p : dhcp_nprcpool_t) (i : Z) : bool :=
  (W <=? offer_next p) && (i <? cache_base p + W / 4).

Lemma nprc_flush_spec s e p : nprc_inv s e p →
  nprc_inv s e (nprc_flush p) ∧ frontier (nprc_flush p) = frontier p ∧
  offer_next (nprc_flush p) < W ∧
  ∀ i, nprc_open (nprc_flush p) i = nprc_open p i && negb (flushed p i).
Proof.
  intros Hi. pose proof (ni_next _ _ _ Hi) as Hn. unfold nprc_flush, flushed, BITMAP_FLUSH.
  assert (HF : 0 < W / 4 ≤ W) by (destruct HW as [-> | ->]; change (32 / 4) with 8; change (64 / 4) with 16; lia).
  destruct (Z.leb_spec W (offer_next p)).
  - destruct (nprc_drop s e p (W / 4) Hi) as (? & ? & Hb & Ho & Hop); [lia|].
    split_and!; [done|done|lia|]. intros i. rewrite Hop. f_equal. cbn [andb].
    by rewrite Z.ltb_antisym, negb_involutive.
  - split_and!; [done..|]. intros i. cbn. by rewrite andb_true_r.
Qed.

(** Offering is counting: the next index is offered while the pool lasts. *)
Lemma nprc_find_spec s e p : nprc_inv s e p →
  let '(ip, p') := dhcp_nprc_find_available_ip p s e in
  nprc_inv s e p' ∧
  (if s + frontier p <=? e then
     ip = s + frontier p ∧ frontier p' = frontier p + 1 ∧
     ∀ i, nprc_open p' i = (i =? frontier p) || (nprc_open p i && negb (flushed p i))
   else ip = 0 ∧ frontier p' = frontier p ∧
     ∀ i, nprc_open p' i = nprc_open p i && negb (flushed p i)).
Proof.
  intros Hi. destruct (nprc_flush_spec s e p Hi) as (Hq & Hf & Hlt & Hop).
  unfold dhcp_nprc_find_available_ip. set (q := nprc_flush p) in *.
  pose proof Hq as [Hp Hb Hn Ht Ha]. unfold frontier in Hf, Ht.
  rewrite (wrap_small 32 (s + cache_base q)) by (unfold uword; lia).
  rewrite (wrap_small 32 (s + cache_base q + _)) by (unfold uword; lia).
  assert (HW8 : W < 256) by (destruct HW; lia).
  replace (s + frontier p) with (s + cache_base q + offer_next q) by (unfold frontier; lia).
  destruct (Z.ltb_spec e (s + cache_base q + offer_next q)).
  { rewrite (proj2 (Z.leb_gt _ _)) by lia. by split_and!. }
  rewrite (proj2 (Z.leb_le _ _)) by lia. rewrite wrap_small by (unfold uword; lia).
  split_and!; [|done|unfold frontier; cbn; lia|].
  - split; unfold frontier; cbn; try lia. rewrite Z.pow_add_r by lia. lia.
  - intros i. rewrite <- Hop. unfold nprc_open, frontier. cbn [cache_base offer_next ack_bitmap].
    rewrite <- Hf.
    destruct (Z.eqb_spec i (cache_base q + offer_next q)) as [->|Hne].
    + rewrite (proj2 (Z.leb_le _ _)), (proj2 (Z.ltb_lt _ _)) by lia. cbn.
      rewrite <- (Z.mod_small (ack_bitmap q) (2 ^ offer_next q)) by done.
      by rewrite Z.mod_pow2_bits_high by lia.
    + cbn [orb]. f_equal. f_equal.
      destruct (Z.ltb_spec i (cache_base q + (offer_next q + 1))), (Z.ltb_spec i (cache_base q + offer_next q)); lia.
Qed.

(** The clean-up loop drops acknowledged indices only. *)
Lemma clean_loop_spec s e : ∀ fuel p, nprc_inv s e p → offer_next p ≤ Z.of_nat fuel →
  ∃ p', clean_loop fuel p = Ret p' ∧ nprc_inv s e p' ∧ frontier p' = frontier p ∧
    ∀ i, nprc_open p' i = nprc_open p i.
Proof.
  induction fuel as [|fuel IH]; intros p Hi Hf; cbn [clean_loop];
    pose proof (ni_next _ _ _ Hi) as Hn.
  - assert (offer_next p = 0) as -> by lia. rewrite andb_false_r. by exists p.
  - destruct (truth (Z.land (ack_bitmap p) 1) && truth (offer_next p)) eqn:E; [|by exists p].
    apply andb_true_iff in E as [E1 E2]. unfold truth in E2.
    destruct (Z.eqb_spec (offer_next p) 0); [done|].
    destruct (nprc_drop s e p 1 Hi) as (Hi' & Hf' & Hb & Ho & Hop); [lia|].
    destruct (IH _ Hi') as (p' & -> & Hi2 & Hf2 & Hop2); [lia|].
    exists p'. split_and!; [done|done|congruence|]. intros i. rewrite Hop2, Hop.
    destruct (Z.leb_spec (cache_base p + 1) i); [by rewrite andb_true_r|]. rewrite andb_false_r.
    unfold nprc_open. destruct (Z.leb_spec (cache_base p) i); [|done].
    replace (i - cache_base p) with 0 by lia.
    assert (Z.testbit (ack_bitmap p) 0 = true) as ->; [|by rewrite andb_false_r].
    rewrite Z.bit0_odd. unfold truth in E1. change 1 with (Z.ones 1) in E1.
    rewrite Z.land_ones in E1 by lia. rewrite Zmod_odd in E1. by destruct (Z.odd (ack_bitmap p)).
Qed.

Lemma shifted_bit k i : 0 ≤ k < W → 0 ≤ i → Z.testbit (wrap W (1 ≪ k)) i = bool_decide (i = k).
Proof.
  intros Hk Hi. rewrite Z.shiftl_1_l, wrap_small.
  - rewrite Z.pow2_bits_eqb by lia. case_bool_decide; [apply Z.eqb_eq|apply Z.eqb_neq]; lia.
  - unfold uword. split; [lia|]. apply Z.pow_lt_mono_r; lia.
Qed.

Lemma truth_land_bit a k : 0 ≤ k < W → truth (Z.land a (wrap W (1 ≪ k))) = Z.testbit a k.
Proof.
  intros Hk. unfold truth. destruct (Z.eqb_spec (Z.land a (wrap W (1 ≪ k))) 0) as [E|E]; cbn.
  - apply (f_equal (λ z, Z.testbit z k)) in E. rewrite Z.land_spec, shifted_bit, Z.bits_0 in E by lia.
    rewrite bool_decide_true, andb_true_r in E by done. done.
  - destruct (Z.testbit a k) eqn:Ea; [done|]. exfalso. apply E. apply Z.bits_inj'. intros i Hi.
    rewrite Z.land_spec, shifted_bit, Z.bits_0 by lia. case_bool_decide; [subst; by rewrite Ea|].
    by rewrite andb_false_r.
Qed.

(** Acknowledging one offered index. *)
Lemma nprc_mark s e p k : nprc_inv s e p → 0 ≤ k < offer_next p →
  let p' := mkNprc (cache_base p) (offer_next p) (Z.lor (ack_bitmap p) (wrap W (1 ≪ k))) in
  nprc_inv s e p' ∧ frontier p' = frontier p ∧
  ∀ i, nprc_open p' i = nprc_open p i && negb (i =? cache_base p + k).
Proof.
  intros [Hp Hb Hn Ht Ha] Hk p'. split_and!.
  - split; cbn [cache_base offer_next ack_bitmap p']; try done.
    assert (Hpos : 0 ≤ Z.lor (ack_bitmap p) (wrap W (1 ≪ k))).
    { apply Z.lor_nonneg. split; [lia|]. pose proof (wrap_range W (1 ≪ k)) as []; [lia|done]. }
    split; [done|]. destruct (decide (Z.lor (ack_bitmap p) (wrap W (1 ≪ k)) = 0)) as [->|]; [lia|].
    apply Z.log2_lt_pow2; [lia|]. rewrite Z.log2_lor by (try lia; apply wrap_range; lia).
    apply Z.max_lub_lt.
    + destruct (decide (ack_bitmap p = 0)) as [->|]; [cbn; lia|]. apply Z.log2_lt_pow2; lia.
    + rewrite Z.shiftl_1_l, wrap_small; [rewrite Z.log2_pow2 by lia; lia|].
      unfold uword. split; [lia|]. apply Z.pow_lt_mono_r; lia.
  - done.
  - intros i. unfold nprc_open, frontier. cbn [cache_base offer_next ack_bitmap p'].
    destruct (Z.leb_spec (cache_base p) i); [|done].
    rewrite Z.lor_spec, shifted_bit by lia.
    assert (bool_decide (i - cache_base p = k) = (i =? cache_base p + k)) as ->.
    { case_bool_decide; destruct (Z.eqb_spec i (cache_base p + k)); (done || lia). }
    rewrite negb_orb. cbn [andb]. by rewrite andb_assoc.
Qed.

Lemma nprc_commit_spec s e p ip : nprc_inv s e p → is_u32 ip →
  ∃ ok p', dhcp_nprc_commit_ip p ip s e = Ret (ok, p') ∧ nprc_inv s e p' ∧
    frontier p' = frontier p ∧ ok = nprc_open p (ip - s) ∧
    ∀ i, nprc_open p' i = nprc_open p i && negb (i =? ip - s).
Proof.
  intros Hi Hip. pose proof Hi as [Hp Hb Hn Ht Ha]. unfold frontier in Ht. unfold uword in Hip.
  unfold dhcp_nprc_commit_ip.
  rewrite (wrap_small 32 (s + cache_base p)) by (unfold uword; lia).
  rewrite (wrap_small 32 (s + cache_base p + offer_next p)) by (unfold uword; lia).
  rewrite (wrap_small 32 (s + cache_base p + offer_next p - 1)) by (unfold uword; lia).
  rewrite (proj2 (Z.ltb_ge e _)) by lia. cbv zeta.
  assert (Hno : nprc_open p (ip - s) = false → ∃ ok p', Ret (false, p) = Ret (ok, p') ∧ nprc_inv s e p' ∧
    frontier p' = frontier p ∧ ok = nprc_open p (ip - s) ∧
    ∀ i, nprc_open p' i = nprc_open p i && negb (i =? ip - s)).
  { intros Hf. exists false, p. split_and!; try done. intros i.
    destruct (Z.eqb_spec i (ip - s)) as [->|]; [by rewrite Hf|by rewrite andb_true_r]. }
  destruct (Z.leb_spec (s + cache_base p) ip); cbn [andb].
  2:{ apply Hno. unfold nprc_open. by rewrite (proj2 (Z.leb_gt _ _)) by lia. }
  destruct (Z.leb_spec ip (s + cache_base p + offer_next p - 1)).
  2:{ apply Hno. unfold nprc_open, frontier.
      by rewrite (proj2 (Z.ltb_ge _ _)), andb_false_r by lia. }
  rewrite (wrap_small 32 (ip - s)) by (unfold uword; lia).
  rewrite wrap_small by (unfold uword; lia).
  set (k := ip - s - cache_base p). rewrite (proj2 (Z.ltb_lt k W)) by lia. cbn [andb].
  rewrite truth_land_bit by lia.
  assert (Hopen : nprc_open p (ip - s) = negb (Z.testbit (ack_bitmap p) k)).
  { unfold nprc_open, frontier. by rewrite (proj2 (Z.leb_le _ _)), (proj2 (Z.ltb_lt _ _)) by lia. }
  destruct (Z.testbit (ack_bitmap p) k); cbn [negb] in *; [by apply Hno|].
  destruct (nprc_mark s e p k Hi) as (Hi1 & Hf1 & Ho1); [lia|].
  destruct (clean_loop_spec s e (Z.to_nat (offer_next p)) _ Hi1) as (p' & Hc & Hi' & Hf' & Ho'); [cbn; lia|].
  cbn [offer_next]. rewrite Hc, bind_Ret. exists true, p'. split_and!; try done.
  intros i. rewrite Ho', Ho1. f_equal. f_equal. f_equal. lia.
Qed.

(** ** Traces *)

Inductive nprc_op :=
  | NFind
  | NCommit (ip : Z).

(** The offers made and the addresses committed by a run. *)
Fixpoint nprc_run (s e : Z) (p : dhcp_nprcpool_t) (os : list nprc_op)
    : outcome (list Z * list Z * dhcp_nprcpool_t) :=
  match os with
  | [] => Ret ([], [], p)
  | NFind :: os =>
      let '(ip, p) := dhcp_nprc_find_available_ip p s e in
      '(offers, acks, p) ← nprc_run s e p os;
      Ret ((if truth ip then ip :: offers else offers), acks, p)
  | NCommit ip :: os =>
      '(ok, p) ← dhcp_nprc_commit_ip p ip s e;
      '(offers, acks, p) ← nprc_run s e p os;
      Ret (offers, (if (ok : bool) then ip :: acks else acks), p)
  end.

Definition nop_ok (o : nprc_op) : Prop :=
  match o with NFind => True | NCommit ip => is_u32 ip end.

Lemma nprc_run_spec s e : ∀ os p, nprc_inv s e p → Forall nop_ok os →
  ∃ offers acks p', nprc_run s e p os = Ret (offers, acks, p') ∧ nprc_inv s e p' ∧
    frontier p' = frontier p + Z.of_nat (length offers) ∧
    offers = seqZ (s + frontier p) (Z.of_nat (length offers)) ∧
    NoDup acks ∧
    ∀ ip, ip ∈ acks → nprc_open p (ip - s) = true ∨ ip ∈ offers.
Proof.
  induction os as [|o os IH]; intros p Hi Hok.
  { exists [], [], p. split_and!; try done; [cbn; lia|constructor|]. intros ip Hin. by apply elem_of_nil in Hin. }
  apply Forall_cons in Hok as [Ho Hok]. destruct o as [|ip]; cbn [nprc_run].
  - pose proof (nprc_find_spec s e p Hi) as Hfind.
    destruct (dhcp_nprc_find_available_ip p s e) as [ip p1]. destruct Hfind as [Hi1 Hcase].
    destruct (IH p1 Hi1 Hok) as (offers & acks & p' & -> & Hi' & Hf' & Hoff & Hnd & Hacks).
    rewrite bind_Ret. pose proof (ni_pool _ _ _ Hi). pose proof (ni_base _ _ _ Hi). pose proof (ni_next _ _ _ Hi).
    destruct (s + frontier p <=? e).
    + destruct Hcase as (-> & Hf1 & Hop). unfold truth.
      rewrite (proj2 (Z.eqb_neq _ _)) by (unfold frontier; lia). cbn [negb].
      eexists _, _, p'. split_and!; [done|done|cbn [length]; lia| |done|].
      * cbn [length]. rewrite Nat2Z.inj_succ, <- Z.add_1_r, seqZ_cons by lia.
        f_equal. rewrite Hoff at 1. f_equal; lia.
      * intros ip Hin. destruct (Hacks ip Hin) as [Ho1|Ho1]; [|right; by constructor].
        rewrite Hop in Ho1. apply orb_true_iff in Ho1 as [E%Z.eqb_eq|[? _]%andb_true_iff]; [|by left].
        right. replace ip with (s + frontier p) by lia. constructor.
    + destruct Hcase as (-> & Hf1 & Hop). cbn. exists offers, acks, p'.
      split_and!; [done|done|lia|by rewrite <- Hf1|done|].
      intros ip Hin. destruct (Hacks ip Hin) as [Ho1|Ho1]; [|by right].
      rewrite Hop in Ho1. apply andb_true_iff in Ho1 as [? _]. by left.
  - destruct (nprc_commit_spec s e p ip Hi Ho) as (ok & p1 & -> & Hi1 & Hf1 & -> & Hop). rewrite bind_Ret.
    destruct (IH p1 Hi1 Hok) as (offers & acks & p' & -> & Hi' & Hf' & Hoff & Hnd & Hacks).
    rewrite bind_Ret. eexists _, _, p'. split_and!; [done|done|lia|by rewrite <- Hf1| |].
    + destruct (nprc_open p (ip - s)) eqn:E; [|done]. constructor; [|done]. intros Hin.
      destruct (Hacks ip Hin) as [Hc|Hin'].
      * rewrite Hop, Z.eqb_refl, andb_false_r in Hc. done.
      * rewrite Hoff, elem_of_seqZ, Hf1 in Hin'.
        apply nprc_open_lt in E. lia.
    + intros ip' Hin. destruct (nprc_open p (ip - s)) eqn:E.
      * apply elem_of_cons in Hin as [->|Hin]; [by left|].
        destruct (Hacks ip' Hin) as [Hc|?]; [|by right].
        rewrite Hop in Hc. apply andb_true_iff in Hc as [? _]. by left.
      * destruct (Hacks ip' Hin) as [Hc|?]; [|by right].
        rewrite Hop in Hc. apply andb_true_iff in Hc as [? _]. by left.
Qed.

(** NPRC never hands an address out twice.  In any run of DISCOVERs and
    REQUESTs from start-up, the offers are the successive addresses of the pool
    from its first one on, no address is committed twice, every committed
    address had been offered, and none of this depends on timing: addresses are
    never recycled, and once the pool is exhausted the answer stays 0. *)
Theorem nprc_never_twice (s e : Z) (os : list nprc_op) :
  0 < s → s ≤ e → e < 2 ^ 32 - 1 → Forall nop_ok os →
  ∃ offers acks p, nprc_run s e (mkNprc 0 0 0) os = Ret (offers, acks, p) ∧
    offers = seqZ s (Z.of_nat (length offers)) ∧ (∀ ip, ip ∈ offers → s ≤ ip ≤ e) ∧
    NoDup acks ∧ (∀ ip, ip ∈ acks → ip ∈ offers).
Proof.
  intros Hs Hse He Hok. pose proof (nprc_init_inv s e Hs Hse He) as Hi.
  destruct (nprc_run_spec s e os _ Hi Hok) as (offers & acks & p & Hrun & Hi' & Hf & Hoff & Hnd & Hacks).
  unfold frontier at 2 in Hf. unfold frontier in Hoff. cbn [cache_base offer_next] in *.
  rewrite Z.add_0_r in Hoff. exists offers, acks, p. split; [done|]. split; [done|]. split_and!.
  - pose proof (ni_top _ _ _ Hi') as Ht. unfold frontier in Ht, Hf. intros ip Hin.
    rewrite Hoff, elem_of_seqZ in Hin. lia.
  - done.
  - intros ip Hin. destruct (Hacks ip Hin) as [E%nprc_open_lt|?]; [|done].
    unfold frontier in E. cbn in E. lia.
Qed.

(** Functional behaviour of a DISCOVER: the next address of the pool is offered
    while there is one; a full window first drops its oldest quarter, and those
    offers can no longer be committed. *)
Theorem nprc_find_correct (s e : Z) (p : dhcp_nprcpool_t) :
  nprc_inv s e p →
  let '(ip, p') := dhcp_nprc_find_available_ip p s e in
  nprc_inv s e p' ∧
  (if s + frontier p <=? e then
     ip = s + frontier p ∧ frontier p' = frontier p + 1 ∧
     ∀ i, nprc_open p' i = (i =? frontier p) || (nprc_open p i && negb (flushed p i))
   else ip = 0 ∧ frontier p' = frontier p ∧
     ∀ i, nprc_open p' i = nprc_open p i && negb (flushed p i)).
Proof. apply nprc_find_spec. Qed.

(** Functional behaviour of a REQUEST: it succeeds exactly for an address that
    was offered, is still in the window and was not committed before; it then
    removes that address and no other from the window, and the clean-up loop
    ends. *)
Theorem nprc_commit_correct (s e : Z) (p : dhcp_nprcpool_t) (ip : Z) :
  nprc_inv s e p → is_u32 ip →
  ∃ ok p', dhcp_nprc_commit_ip p ip s e = Ret (ok, p') ∧ nprc_inv s e p' ∧
    frontier p' = frontier p ∧ ok = nprc_open p (ip - s) ∧
    ∀ i, nprc_open p' i = nprc_open p i && negb (i =? ip - s).
Proof. apply nprc_commit_spec. Qed.
End Nprc.

(** ** Witnesses on 32-bit words *)

Lemma nprc_never_twice_witness :
  ∃ offers acks p,
    nprc_run 32 100 102 (mkNprc 0 0 0) [NFind; NFind; NCommit 100; NCommit 100; NFind; NFind; NCommit 101]
    = Ret (offers, acks, p) ∧ offers = [100; 101; 102] ∧ NoDup acks.
Proof.
  destruct (nprc_never_twice 32 (or_introl eq_refl) 100 102
    [NFind; NFind; NCommit 100; NCommit 100; NFind; NFind; NCommit 101])
    as (offers & acks & p & E & _ & _ & Hnd & _); [lia|lia|lia|..].
  - repeat constructor; cbn; unfold uword; lia.
  - exists offers, acks, p. split; [exact E|]. split; [|exact Hnd].
    assert (E' : (λ '(o, _, _), o) <$>
      nprc_run 32 100 102 (mkNprc 0 0 0) [NFind; NFind; NCommit 100; NCommit 100; NFind; NFind; NCommit 101]
      = Ret [100; 101; 102]) by (vm_compute; reflexivity).
    rewrite E in E'. injection E' as ->. reflexivity.
Defined.

(** A full window of 32 offers, the first of them pending. *)
Definition full_window : dhcp_nprcpool_t := mkNprc 0 32 2.

Lemma full_window_inv : nprc_inv 32 100 300 full_window.
Proof. split; cbn; unfold frontier; cbn; lia. Qed.

Lemma nprc_find_correct_witness :
  let '(ip, p') := dhcp_nprc_find_available_ip 32 full_window 100 300 in
  nprc_inv 32 100 300 p' ∧ ip = 132 ∧ nprc_open p' 0 = false.
Proof.
  pose proof (nprc_find_correct 32 (or_introl eq_refl) 100 300 full_window full_window_inv) as H.
  assert (E : dhcp_nprc_find_available_ip 32 full_window 100 300 = (132, mkNprc 8 25 0))
    by (vm_compute; reflexivity).
  rewrite E in *. split; [exact (proj1 H)|]. split; [reflexivity|]. vm_compute. reflexivity.
Defined.

Lemma nprc_commit_correct_witness :
  ∃ ok p', dhcp_nprc_commit_ip 32 full_window 100 100 300 = Ret (ok, p') ∧
    nprc_inv 32 100 300 p' ∧ ok = true.
Proof.
  destruct (nprc_commit_correct 32 (or_introl eq_refl) 100 300 full_window 100 full_window_inv)
    as (ok & p' & E & Hi & _ & Hok & _); [unfold uword; lia|].
  exists ok, p'. split; [exact E|]. split; [exact Hi|]. rewrite Hok. vm_compute. reflexivity.
Defined.
