(* ===== verification/Server.v ===== *)
(** * The DHCP server: one message in, at most one message out

    [dhcp_server_t] and the entry points [dhcp_init_server_*] and
    [dhcp_process_message_*] of [dhcp-lib/dhcp_server.c], for all five lease
    modes.  A process function returns the reply it wrote ([None]: the response
    buffer was not touched) and the new server.  ARRAY and HASHMAP modes are the
    same text over the two pools, so they share [process_message_store], which is
    proved against the [LeaseStore] interface. *)
From S2P Require Import Prelude Options Message LeaseStore ArrayPool HashTab HashPool BitmapOps BitmapVar BitmapUni Nprc.

Open Scope Z_scope.

Record dhcp_server_t (P : Type) := mkServer {
  config : dhcp_config_t;
  pool : P
}.
Arguments mkServer {P} _ _.
Arguments config {P} _.
Arguments pool {P} _.

Definition set_pool {P} (s : dhcp_server_t P) (p : P) : dhcp_server_t P := mkServer (config s) p.
Definition set_lease_time (c : dhcp_config_t) (t : Z) : dhcp_config_t :=
  mkConfig (server_ip c) (subnet_mask c) (gateway_ip c) (dns_ip c) (pool_start c) (pool_end c) t.

(** The address bytes the pools are handed: [request->chaddr], of which they use six. *)
Definition client_mac (request : dhcp_message_t) : list Z := take 6 (m_chaddr request).

(** The requested address of a REQUEST: option 50 with length 4, most significant
    byte first. *)
Definition requested_ip_opt (request : dhcp_message_t) : outcome (option Z) :=
  r ← dhcp_get_option request DHCP_OPT_REQUESTED_IP;
  match r with
  | Some (req_opt, length) =>
      if length =? 4 then
        b0 ← deref (m_options request) req_opt;
        b1 ← deref (m_options request) (req_opt + 1);
        b2 ← deref (m_options request) (req_opt + 2);
        b3 ← deref (m_options request) (req_opt + 3);
        Ret (Some (Z.lor (Z.lor (Z.lor (b0 ≪ 24) (b1 ≪ 16)) (b2 ≪ 8)) b3))
      else Ret None
  | None => Ret None
  end.

Abbreviation reply := (option dhcp_message_t).

Definition offer_reply (c : dhcp_config_t) (request : dhcp_message_t) (ip : Z) : outcome reply :=
  Some <$> dhcp_build_offer c request ip.
Definition ack_reply (c : dhcp_config_t) (request : dhcp_message_t) (ip : Z) : outcome reply :=
  Some <$> dhcp_build_ack c request ip.
Definition nak_reply (request : dhcp_message_t) : outcome reply := Some <$> dhcp_build_nak request.

(** [ip >= config.pool_start && ip <= config.pool_end] *)
Definition ip_in_pool (c : dhcp_config_t) (ip : Z) : bool :=
  (pool_start c <=? ip) && (ip <=? pool_end c).

(** ** ARRAY and HASHMAP modes *)

Section store.
Context {P : Type} `{LeaseStore P}.

Definition process_message_store (srv : dhcp_server_t P) (request : dhcp_message_t) (cur_time : Z)
    : outcome (reply * dhcp_server_t P) :=
  msg_type ← dhcp_get_message_type request;
  let c := config srv in
  if msg_type =? DHCP_DISCOVER then
    '(offered_ip, p) ← ls_find (pool srv) (pool_start c) (pool_end c) (client_mac request) cur_time;
    if truth offered_ip then
      m ← offer_reply c request offered_ip; Ret (m, set_pool srv p)
    else Ret (None, set_pool srv p)
  else if msg_type =? DHCP_REQUEST then
    r ← requested_ip_opt request;
    match r with
    | None => Ret (None, srv)
    | Some requested_ip =>
        if ip_in_pool c requested_ip then
          '(ok, p) ← ls_alloc (pool srv) requested_ip (client_mac request) (lease_time c) cur_time;
          m ← (if (ok : bool) then ack_reply c request requested_ip else nak_reply request);
          Ret (m, set_pool srv p)
        else m ← nak_reply request; Ret (m, srv)
    end
  else if msg_type =? DHCP_DECLINE then
    p ← ls_decline (pool srv) (client_mac request);
    Ret (None, set_pool srv p)
  else Ret (None, srv).

End store.

Definition dhcp_init_server_array (c : dhcp_config_t) (leases : option (list dhcp_lease_t))
    (max_leases : Z) : dhcp_server_t dhcp_arraypool_t :=
  mkServer c (dhcp_arraypool_init (pool_start c) leases max_leases).

Definition dhcp_process_message_array : dhcp_server_t dhcp_arraypool_t → dhcp_message_t → Z →
    outcome (reply * dhcp_server_t dhcp_arraypool_t) :=
  process_message_store.

(** [p] is the storage of the pool before the call. *)
Definition dhcp_init_server_hashmap (HASH_N : nat) (p : dhcp_hashpool_t) (c : dhcp_config_t)
    (max_leases : Z) : outcome (dhcp_server_t dhcp_hashpool_t) :=
  mkServer c <$> dhcp_hashpool_init HASH_N p (pool_start c) max_leases.

Definition dhcp_process_message_hashmap (HASH_N : nat) (junk : list Z) :
    dhcp_server_t dhcp_hashpool_t → dhcp_message_t → Z →
    outcome (reply * dhcp_server_t dhcp_hashpool_t) :=
  process_message_store (H := hash_store HASH_N junk).

(** ** BITMAP_VARTIME mode *)

Definition dhcp_init_server_bmvar (p : dhcp_bmpool_var_t) (c : dhcp_config_t)
    (range : dhcp_bmrange_t) (range_size : Z) : outcome (dhcp_server_t dhcp_bmpool_var_t) :=
  mkServer c <$> dhcp_bmpool_var_init p (pool_start c) (lease_time c) range range_size.

Definition dhcp_process_message_bmvar (srv : dhcp_server_t dhcp_bmpool_var_t)
    (request : dhcp_message_t) (cur_time : Z) : outcome (reply * dhcp_server_t dhcp_bmpool_var_t) :=
  msg_type ← dhcp_get_message_type request;
  let c := config srv in
  if msg_type =? DHCP_DISCOVER then
    '(offered_ip, p) ← dhcp_bmpool_var_peek (pool srv) cur_time;
    if negb (offered_ip =? 0) then
      m ← offer_reply c request offered_ip; Ret (m, set_pool srv p)
    else Ret (None, set_pool srv p)
  else if msg_type =? DHCP_REQUEST then
    r ← requested_ip_opt request;
    match r with
    | None => Ret (None, srv)
    | Some requested_ip =>
        if ip_in_pool c requested_ip then
          '(ok, p) ← dhcp_bmpool_var_commit_ip (pool srv) requested_ip;
          if (ok : bool) then
            let c := set_lease_time c (v_expire p ⊟ cur_time) in
            m ← ack_reply c request requested_ip; Ret (m, mkServer c p)
          else m ← nak_reply request; Ret (m, set_pool srv p)
        else m ← nak_reply request; Ret (m, srv)
    end
  else Ret (None, srv).

(** ** BITMAP_UNITIME mode *)

Definition dhcp_init_server_bmuni (p : dhcp_bmpool_uni_t) (c : dhcp_config_t)
    (ranges : list dhcp_bmrange_t) (range_size num_ranges : Z)
    : outcome (dhcp_server_t dhcp_bmpool_uni_t) :=
  mkServer c <$> dhcp_bmpool_uni_init p (pool_start c) (lease_time c) ranges range_size num_ranges.

Definition dhcp_process_message_bmuni (srv : dhcp_server_t dhcp_bmpool_uni_t)
    (request : dhcp_message_t) (cur_time : Z) : outcome (reply * dhcp_server_t dhcp_bmpool_uni_t) :=
  msg_type ← dhcp_get_message_type request;
  let c := config srv in
  if msg_type =? DHCP_DISCOVER then
    '(offered_ip, p) ← dhcp_bmpool_uni_peek (pool srv) cur_time;
    if negb (offered_ip =? 0) then
      m ← offer_reply c request offered_ip; Ret (m, set_pool srv p)
    else Ret (None, set_pool srv p)
  else if msg_type =? DHCP_REQUEST then
    r ← requested_ip_opt request;
    match r with
    | None => Ret (None, srv)
    | Some requested_ip =>
        if ip_in_pool c requested_ip then
          '(ok, p) ← dhcp_bmpool_uni_commit_ip (pool srv) requested_ip;
          m ← (if (ok : bool) then ack_reply c request requested_ip else nak_reply request);
          Ret (m, set_pool srv p)
        else m ← nak_reply request; Ret (m, srv)
    end
  else Ret (None, srv).

(** ** NPRC mode *)

Definition dhcp_init_server_nprc (c : dhcp_config_t) : dhcp_server_t dhcp_nprcpool_t :=
  mkServer c (mkNprc 0 0 0).

Definition dhcp_process_message_nprc (W : Z) (srv : dhcp_server_t dhcp_nprcpool_t)
    (request : dhcp_message_t) : outcome (reply * dhcp_server_t dhcp_nprcpool_t) :=
  msg_type ← dhcp_get_message_type request;
  let c := config srv in
  if msg_type =? DHCP_DISCOVER then
    let '(offered_ip, p) := dhcp_nprc_find_available_ip W (pool srv) (pool_start c) (pool_end c) in
    if truth offered_ip then
      m ← offer_reply c request offered_ip; Ret (m, set_pool srv p)
    else Ret (None, set_pool srv p)
  else if msg_type =? DHCP_REQUEST then
    r ← requested_ip_opt request;
    match r with
    | None => Ret (None, srv)
    | Some requested_ip =>
        '(ok, p) ← dhcp_nprc_commit_ip W (pool srv) requested_ip (pool_start c) (pool_end c);
        m ← (if (ok : bool) then ack_reply c request requested_ip else nak_reply request);
        Ret (m, set_pool srv p)
    end
  else Ret (None, srv).

(** ** Well-formed requests *)

(** The options parse as [its], and addresses and bytes are in range. *)
Record request_ok (m : dhcp_message_t) (its : list item) : Prop := {
  rq_options : represents (m_options m) its;
  rq_bytes : Forall byte (m_options m);
  rq_chaddr : length (m_chaddr m) = 16%nat ∧ Forall byte (m_chaddr m)
}.

Definition msg_type_of (its : list item) : Z :=
  match item_data DHCP_OPT_MESSAGE_TYPE its with Some (t :: _) => t | _ => 0 end.

Definition requested_of (its : list item) : option Z :=
  match item_data DHCP_OPT_REQUESTED_IP its with
  | Some [a; b; c; d] => Some (ip_to_uint32 a b c d)
  | _ => None
  end.

Lemma client_mac_ok m its : request_ok m its → is_mac (client_mac m).
Proof.
  intros [_ _ [Hl Hb]]. unfold client_mac. split; [|by apply Forall_take].
  by rewrite length_take, Hl.
Qed.

Lemma message_type_of m its : request_ok m its → dhcp_get_message_type m = Ret (msg_type_of its).
Proof.
  intros [Hr _ _]. unfold msg_type_of.
  destruct (item_data DHCP_OPT_MESSAGE_TYPE its) as [[|t d]|] eqn:E.
  - unfold dhcp_get_message_type, dhcp_get_option.
    rewrite (get_option_represents _ _ _ Hr) by done. rewrite bind_Ret.
    destruct (find_item _ 0 its) as [[o l]|] eqn:Hf; [|done].
    destruct (represents_load _ _ _ _ _ Hr Hf) as (d' & Hd' & -> & _). by simplify_eq.
  - by apply (get_message_type_represents m its t d).
  - unfold dhcp_get_message_type, dhcp_get_option.
    rewrite (get_option_represents _ _ _ Hr) by done. rewrite bind_Ret.
    by apply (find_item_None _ _ 0%nat) in E as ->.
Qed.

(** Reading the bytes of a short load one by one. *)
Lemma load_n_deref (l d : list Z) o i :
  load_n l o (length d) = Ret d → (i < length d)%nat → deref l (o + i) = deref d i.
Proof.
  unfold load_n. case_decide; [|done]. intros [= <-] Hi. unfold deref.
  rewrite length_take, length_drop in Hi. rewrite lookup_take_lt by lia. by rewrite lookup_drop.
Qed.

Lemma requested_ip_opt_of m its : request_ok m its → requested_ip_opt m = Ret (requested_of its).
Proof.
  intros [Hr _ _]. unfold requested_ip_opt, requested_of, dhcp_get_option.
  rewrite (get_option_represents _ _ _ Hr) by done. rewrite bind_Ret.
  destruct (find_item _ 0 its) as [[o l]|] eqn:Hf.
  2:{ apply find_item_None in Hf as ->. done. }
  destruct (represents_load _ _ _ _ _ Hr Hf) as (d & -> & -> & Hl).
  destruct (Z.eqb_spec (Z.of_nat (length d)) 4) as [E|E].
  - destruct d as [|a [|b [|c [|e [|? d]]]]]; try (cbn in E; lia).
    pose proof (load_n_deref _ _ _ 0%nat Hl ltac:(cbn; lia)) as E0. rewrite Nat.add_0_r in E0.
    rewrite E0, (load_n_deref _ _ _ 1%nat Hl), (load_n_deref _ _ _ 2%nat Hl),
      (load_n_deref _ _ _ 3%nat Hl) by (cbn; lia).
    done.
  - destruct d as [|a [|b [|c [|e [|? d]]]]]; done || (cbn in E; lia).
Qed.

Lemma ip_in_pool_true c ip : ip_in_pool c ip = true ↔ pool_start c ≤ ip ≤ pool_end c.
Proof. unfold ip_in_pool. rewrite andb_true_iff, !Z.leb_le. done. Qed.

(** ** Abstract replies *)

Inductive answer :=
  | NoReply
  | Offer (ip : Z)
  | Ack (ip : Z)
  | Nak.

(** The message [r] is the answer [a] to [request], with [c]'s options. *)
Definition reply_is (c : dhcp_config_t) (request : dhcp_message_t) (a : answer) (r : reply) : Prop :=
  match a with
  | NoReply => r = None
  | Offer ip => ∃ m, r = Some m ∧ reply_to request m ∧ m_yiaddr m = ip ∧
      dhcp_get_message_type m = Ret DHCP_OFFER ∧ carries_config m c
  | Ack ip => ∃ m, r = Some m ∧ reply_to request m ∧ m_yiaddr m = ip ∧
      dhcp_get_message_type m = Ret DHCP_ACK ∧ carries_config m c
  | Nak => ∃ m, r = Some m ∧ reply_to request m ∧ m_yiaddr m = 0 ∧
      dhcp_get_message_type m = Ret DHCP_NAK
  end.

(** The message the builders make for an answer. *)
Definition answer_reply (c : dhcp_config_t) (request : dhcp_message_t) (a : answer) : outcome reply :=
  match a with
  | NoReply => Ret None
  | Offer ip => offer_reply c request ip
  | Ack ip => ack_reply c request ip
  | Nak => nak_reply request
  end.

Lemma offer_reply_is c request ip :
  ∃ r, offer_reply c request ip = Ret r ∧ reply_is c request (Offer ip) r.
Proof.
  destruct (build_offer_spec c request ip) as (m & E & ? & ? & _ & _ & Hr).
  apply config_items_carried in Hr as [? ?]. exists (Some m). unfold offer_reply. rewrite E.
  split; [done|]. exists m. split_and!; assumption || done.
Qed.

Lemma ack_reply_is c request ip :
  ∃ r, ack_reply c request ip = Ret r ∧ reply_is c request (Ack ip) r.
Proof.
  destruct (build_ack_spec c request ip) as (m & E & ? & ? & _ & _ & Hr).
  apply config_items_carried in Hr as [? ?]. exists (Some m). unfold ack_reply. rewrite E.
  split; [done|]. exists m. split_and!; assumption || done.
Qed.

Lemma nak_reply_is c request : ∃ r, nak_reply request = Ret r ∧ reply_is c request Nak r.
Proof.
  destruct (build_nak_spec request) as (m & E & ? & ? & _ & Hr).
  exists (Some m). unfold nak_reply. rewrite E. split; [done|]. exists m.
  split_and!; [done..|]. by apply (get_message_type_represents _ _ _ [] Hr).
Qed.

(** [r] acknowledges [ip]. *)
Definition acks (r : reply) (ip : Z) : Prop :=
  ∃ m, r = Some m ∧ dhcp_get_message_type m = Ret DHCP_ACK ∧ m_yiaddr m = ip.

Lemma reply_is_acks c request a r ip : reply_is c request a r → acks r ip ↔ a = Ack ip.
Proof.
  intros Hr. split.
  - intros (m & -> & Ht & Hip). destruct a as [|ip'|ip'|]; cbn [reply_is] in Hr.
    + discriminate.
    + destruct Hr as (m' & E & _ & _ & Ht' & _). injection E as <-. rewrite Ht in Ht'. discriminate.
    + destruct Hr as (m' & E & _ & Hy & _ & _). injection E as <-. by rewrite <- Hip, <- Hy.
    + destruct Hr as (m' & E & _ & _ & Ht'). injection E as <-. rewrite Ht in Ht'. discriminate.
  - intros ->. destruct Hr as (m & E & _ & Hy & Ht & _). exists m. split_and!; assumption.
Qed.

(** ** The lease-keeping modes against the lease-map specification *)

(** One message with options [its] from [mac] at time [now]. *)
Inductive lease_step (c : dhcp_config_t) (cap : nat) (now : Z) (mac : list Z) (its : list item)
    : lease_map → answer → lease_map → Prop :=
  | ls_discover M M' ip :
      msg_type_of its = DHCP_DISCOVER → pruned now M M' →
      offerable cap (pool_start c) (pool_end c) mac M' ip →
      lease_step c cap now mac its M (if ip =? 0 then NoReply else Offer ip) M'
  | ls_request M M1 M' ip b :
      msg_type_of its = DHCP_REQUEST → requested_of its = Some ip →
      pool_start c ≤ ip ≤ pool_end c → pruned now M M1 →
      ((size M < cap)%nat → M1 = M) → grant cap ip mac (now ⊞ lease_time c) M1 b M' →
      lease_step c cap now mac its M (if b then Ack ip else Nak) M'
  | ls_foreign M ip :
      msg_type_of its = DHCP_REQUEST → requested_of its = Some ip →
      ¬ (pool_start c ≤ ip ≤ pool_end c) → lease_step c cap now mac its M Nak M
  | ls_no_address M :
      msg_type_of its = DHCP_REQUEST → requested_of its = None →
      lease_step c cap now mac its M NoReply M
  | ls_decline_step M :
      msg_type_of its = DHCP_DECLINE →
      lease_step c cap now mac its M NoReply (delete mac M)
  | ls_ignored M :
      msg_type_of its ≠ DHCP_DISCOVER → msg_type_of its ≠ DHCP_REQUEST →
      msg_type_of its ≠ DHCP_DECLINE → lease_step c cap now mac its M NoReply M.

(** The client holds [ip] at least until [X]. *)
Definition protected (mac : list Z) (ip X : Z) (M : lease_map) : Prop :=
  ∃ x, M !! mac = Some (ip, x) ∧ X ≤ x.

Lemma grant_protected cap ip mac x M b M' mac' ip' X :
  lease_inj M → grant cap ip mac x M b M' → protected mac' ip' X M → X ≤ x →
  protected mac' ip' X M' ∧ (b = true → ip = ip' → mac = mac').
Proof.
  intros Hinj Hg (y & Hy & HX) Hx. unfold grant in Hg. unfold protected.
  destruct (decide (mac = mac')) as [->|Hne].
  - rewrite Hy in Hg. split; [|done]. destruct Hg as [(-> & _ & ->)|(_ & _ & ->)].
    + exists x. by rewrite lookup_insert_eq.
    + by exists y.
  - destruct (M !! mac) as [[ip0 e0]|] eqn:Em.
    + destruct Hg as [(-> & _ & ->)|(_ & -> & ->)]; (split; [|]); try done.
      * exists y. by rewrite lookup_insert_ne.
      * intros _ ->. by apply (Hinj mac mac' ip' e0 y).
      * by exists y.
    + destruct Hg as [(Hnh & _ & _ & ->)|(_ & -> & ->)]; (split; [|]); try done.
      * exists y. by rewrite lookup_insert_ne.
      * intros _ ->. exfalso. apply Hnh. by exists mac', y.
      * by exists y.
Qed.

(** A message that comes before the lease ends and is not the client's own
    DECLINE leaves the lease in place and acknowledges the address to no one else. *)
Lemma lease_step_protected c cap now mac its M a M' mac' ip' X :
  lease_inj M → lease_step c cap now mac its M a M' → protected mac' ip' X M →
  now < X → X ≤ now ⊞ lease_time c → (msg_type_of its = DHCP_DECLINE → mac ≠ mac') →
  protected mac' ip' X M' ∧ (a = Ack ip' → mac = mac').
Proof.
  intros Hinj Hstep Hp Hnow HX Hdec.
  assert (Hpr : ∀ M1, pruned now M M1 → protected mac' ip' X M1).
  { intros M1 Hpr. destruct Hp as (x & Hx & ?). exists x. split; [|done].
    eapply pruned_live; [done..|lia]. }
  destruct Hstep as [M M' ip _ Hpru _|M M1 M' ip b _ _ _ Hpru _ Hg|M ip|M|M Ht|M].
  - split; [by apply Hpr|]. by destruct (ip =? 0).
  - assert (Hinj1 : lease_inj M1) by (destruct Hpru; by eapply lease_inj_subseteq).
    destruct (grant_protected _ _ _ _ _ _ _ mac' ip' X Hinj1 Hg (Hpr M1 Hpru) HX) as [? Hm].
    split; [done|]. destruct b; [|done]. intros [= ->]. by apply Hm.
  - by split.
  - by split.
  - split; [|done]. destruct Hp as (x & Hx & ?). exists x. split; [|done].
    rewrite lookup_delete_ne; [done|by apply Hdec].
  - by split.
Qed.

(** Acknowledging starts a protected lease. *)
Lemma lease_step_ack c cap now mac its M ip M' :
  lease_step c cap now mac its M (Ack ip) M' →
  protected mac ip (now ⊞ lease_time c) M' ∧ pool_start c ≤ ip ≤ pool_end c.
Proof.
  intros Hstep. remember (Ack ip) as a eqn:Ha.
  destruct Hstep as [M M' ip0 _ _ _|M M1 M' ip0 b _ _ Hin _ _ Hg| | | |]; try discriminate.
  { by destruct (ip0 =? 0). }
  destruct b; [|discriminate]. injection Ha as ->. split; [|done].
  unfold grant in Hg. exists (now ⊞ lease_time c). split; [|done].
  destruct (M1 !! mac) as [[ip1 e1]|].
  - destruct Hg as [(_ & _ & ->)|(_ & ? & _)]; [by rewrite lookup_insert_eq|done].
  - destruct Hg as [(_ & _ & _ & ->)|(_ & ? & _)]; [by rewrite lookup_insert_eq|done].
Qed.

Lemma lease_step_inj c cap now mac its M a M' :
  lease_inj M → lease_step c cap now mac its M a M' → lease_inj M'.
Proof.
  intros Hinj Hstep. destruct Hstep as [M M' ip _ [Hs _] _|M M1 M' ip b _ _ _ [Hs _] _ Hg|M ip|M|M Ht|M];
    try done; [by eapply lease_inj_subseteq| |by apply lease_inj_delete].
  assert (Hinj1 : lease_inj M1) by by eapply lease_inj_subseteq.
  unfold grant in Hg. destruct (M1 !! mac) as [[ip0 e0]|] eqn:Em.
  - destruct Hg as [(-> & _ & ->)|(_ & _ & ->)]; [|done]. apply lease_inj_insert; [done|by rewrite Em].
  - destruct Hg as [(? & _ & _ & ->)|(_ & _ & ->)]; [|done]. apply lease_inj_insert; [done|by rewrite Em].
Qed.

Section refinement.
Context {P : Type} `{LeaseStoreLaws P}.

Definition srv_inv (srv : dhcp_server_t P) : Prop :=
  ls_inv (pool_start (config srv)) (pool_end (config srv)) (pool srv) ∧
  0 < pool_start (config srv).
Definition srv_leases (srv : dhcp_server_t P) : lease_map := ls_map (pool srv).
Definition srv_cap (srv : dhcp_server_t P) : nat := ls_cap (pool srv).

(** The simulation: one call of the process function is one step of the
    specification, with the very reply the builders make for its answer. *)
Lemma process_store_exact srv request its now :
  srv_inv srv → request_ok request its → is_u32 now →
  ∃ r srv' a, process_message_store srv request now = Ret (r, srv') ∧
    srv_inv srv' ∧ config srv' = config srv ∧ srv_cap srv' = srv_cap srv ∧
    lease_step (config srv) (srv_cap srv) now (client_mac request) its
      (srv_leases srv) a (srv_leases srv') ∧
    reply_is (config srv) request a r ∧ answer_reply (config srv) request a = Ret r.
Proof.
  intros [Hi Hpos] Hrq Hnow. pose proof (client_mac_ok _ _ Hrq) as Hmac.
  unfold process_message_store. rewrite (message_type_of _ _ Hrq), bind_Ret. cbv zeta.
  destruct (Z.eqb_spec (msg_type_of its) DHCP_DISCOVER) as [Et|Et].
  { destruct (ls_find_law _ _ _ _ _ Hi Hmac Hnow) as (ip & p & -> & Hi' & Hcap & Hpr & Hof).
    rewrite bind_Ret. unfold truth.
    destruct (Z.eqb_spec ip 0) as [->|Hne]; cbn [negb].
    - exists None, (set_pool srv p), NoReply. split_and!; try done.
      by apply (ls_discover _ _ _ _ _ _ _ 0).
    - destruct (offer_reply_is (config srv) request ip) as (r & Ho & Hr). rewrite Ho, bind_Ret.
      exists r, (set_pool srv p), (Offer ip). split_and!; try done.
      assert (E : Offer ip = if ip =? 0 then NoReply else Offer ip) by (by rewrite (proj2 (Z.eqb_neq ip 0))).
      rewrite E. by apply ls_discover. }
  destruct (Z.eqb_spec (msg_type_of its) DHCP_REQUEST) as [Er|Er].
  { rewrite (requested_ip_opt_of _ _ Hrq), bind_Ret.
    destruct (requested_of its) as [ip|] eqn:Eip.
    2:{ exists None, srv, NoReply. split_and!; try done. by apply ls_no_address. }
    destruct (ip_in_pool (config srv) ip) eqn:Ein.
    - apply ip_in_pool_true in Ein.
      destruct (ls_alloc_law _ _ _ ip _ (lease_time (config srv)) now Hi Hmac Ein Hnow)
        as (b & p & M & -> & Hi' & Hcap & Hpr & Hsame & Hg). rewrite bind_Ret.
      assert (Hr : ∃ r, (if b then ack_reply (config srv) request ip else nak_reply request) = Ret r ∧
        reply_is (config srv) request (if b then Ack ip else Nak) r).
      { destruct b; [apply ack_reply_is|apply nak_reply_is]. }
      destruct Hr as (r & Ho & Hr). rewrite Ho, bind_Ret.
      exists r, (set_pool srv p), (if b then Ack ip else Nak). split_and!; try done.
      { by apply (ls_request _ _ _ _ _ _ M _ ip b). }
      by destruct b.
    - destruct (nak_reply_is (config srv) request) as (r & Ho & Hr). rewrite Ho, bind_Ret.
      exists r, srv, Nak. split_and!; try done. apply (ls_foreign _ _ _ _ _ _ ip); [done..|].
      rewrite <- ip_in_pool_true, Ein. done. }
  destruct (Z.eqb_spec (msg_type_of its) DHCP_DECLINE) as [Ed|Ed].
  { destruct (ls_decline_law _ _ _ _ Hi Hmac) as (p & -> & Hi' & Hcap & Hm). rewrite bind_Ret.
    exists None, (set_pool srv p), NoReply. split_and!; try done.
    unfold srv_leases. cbn [pool set_pool]. rewrite Hm. by apply ls_decline_step. }
  exists None, srv, NoReply. split_and!; try done. by apply ls_ignored.
Qed.

Lemma process_store_refines srv request its now :
  srv_inv srv → request_ok request its → is_u32 now →
  ∃ r srv' a, process_message_store srv request now = Ret (r, srv') ∧
    srv_inv srv' ∧ config srv' = config srv ∧ srv_cap srv' = srv_cap srv ∧
    lease_step (config srv) (srv_cap srv) now (client_mac request) its
      (srv_leases srv) a (srv_leases srv') ∧
    reply_is (config srv) request a r.
Proof.
  intros Hi Hrq Hnow.
  destruct (process_store_exact srv request its now Hi Hrq Hnow)
    as (r & srv' & a & ? & ? & ? & ? & ? & ? & _).
  exists r, srv', a. split_and!; assumption.
Qed.

(** ** Runs of the server *)

Record event := mkEvent {
  ev_time : Z;
  ev_msg : dhcp_message_t;
  ev_items : list item
}.

Definition event_ok (ev : event) : Prop := request_ok (ev_msg ev) (ev_items ev) ∧ is_u32 (ev_time ev).

Fixpoint server_run (srv : dhcp_server_t P) (evs : list event)
    : outcome (list reply * dhcp_server_t P) :=
  match evs with
  | [] => Ret ([], srv)
  | ev :: evs =>
      '(r, srv) ← process_message_store srv (ev_msg ev) (ev_time ev);
      '(rs, srv) ← server_run srv evs;
      Ret (r :: rs, srv)
  end.

(** The event comes before [X], its own leases would last beyond, and it is not a
    DECLINE from [mac]. *)
Definition within (lt : Z) (mac : list Z) (X : Z) (ev : event) : Prop :=
  ev_time ev < X ∧ X ≤ ev_time ev + lt < 2 ^ 32 ∧
  (msg_type_of (ev_items ev) = DHCP_DECLINE → client_mac (ev_msg ev) ≠ mac).

Lemma server_run_protected mac ip X : ∀ evs srv,
  srv_inv srv → protected mac ip X (srv_leases srv) → 0 ≤ lease_time (config srv) →
  Forall event_ok evs → Forall (within (lease_time (config srv)) mac X) evs →
  ∃ rs srv', server_run srv evs = Ret (rs, srv') ∧ srv_inv srv' ∧
    Forall2 (λ ev r, acks r ip → client_mac (ev_msg ev) = mac) evs rs.
Proof.
  induction evs as [|ev evs IH]; intros srv Hi Hp Hlt Hok Hw.
  { exists [], srv. by split_and!. }
  apply Forall_cons in Hok as [[Hrq Hnow] Hok]. apply Forall_cons in Hw as [(Hb & Hx & Hdec) Hw].
  cbn [server_run].
  destruct (process_store_refines srv (ev_msg ev) (ev_items ev) (ev_time ev) Hi Hrq Hnow)
    as (r & srv1 & a & -> & Hi1 & Ec & _ & Hstep & Hr). rewrite bind_Ret.
  assert (Hinj : lease_inj (srv_leases srv)) by (destruct Hi as [Hi _]; by eapply ls_inj).
  destruct (lease_step_protected _ _ _ _ _ _ _ _ mac ip X Hinj Hstep Hp Hb) as [Hp1 Hack]; [|done|].
  { rewrite wrap_small; unfold uword in *; lia. }
  destruct (IH srv1 Hi1 Hp1) as (rs & srv2 & -> & Hi2 & Hall); [by rewrite Ec|done|by rewrite Ec|].
  rewrite bind_Ret. exists (r :: rs), srv2. split_and!; [done|done|]. constructor; [|done].
  intros Ha. apply Hack, (reply_is_acks _ _ _ _ _ Hr), Ha.
Qed.

(** C6: The server implements the lease-map specification: for every well-formed
    message it returns, keeps its invariant, and its reply and its new leases
    are those of one specification step (offer the client's own lease or a free
    address; grant, renew or refuse a request; drop a declined lease; ignore
    the rest).  Proved for any pool that satisfies the [LeaseStore] laws, so for
    the ARRAY and the HASHMAP mode. *)
Theorem server_refines_lease_spec (srv : dhcp_server_t P) (request : dhcp_message_t)
    (its : list item) (now : Z) :
  srv_inv srv → request_ok request its → is_u32 now →
  ∃ r srv' a, process_message_store srv request now = Ret (r, srv') ∧
    srv_inv srv' ∧ config srv' = config srv ∧ srv_cap srv' = srv_cap srv ∧
    lease_step (config srv) (srv_cap srv) now (client_mac request) its
      (srv_leases srv) a (srv_leases srv') ∧
    reply_is (config srv) request a r.
Proof. apply process_store_refines. Qed.

(** C5: The central safety property of the ARRAY and HASHMAP modes: no address is
    leased to two clients at once.  Once the server has acknowledged an address
    to a client, it acknowledges that address to nobody else as long as the
    lease runs, whatever well-formed messages arrive in whatever order, unless the
    client itself declines it.  The messages are well-formed ones (options that
    the code's reader can walk through, with the lengths it relies on; on others
    its behaviour is undefined), they arrive in seconds of the lease, and neither
    the end of this lease nor that of one asked for meanwhile overflows 32 bits. *)
Theorem no_double_lease (srv srv1 : dhcp_server_t P) (ev : event) (r : reply) (ip : Z)
    (evs : list event) :
  srv_inv srv → event_ok ev → Forall event_ok evs → 0 ≤ lease_time (config srv) →
  process_message_store srv (ev_msg ev) (ev_time ev) = Ret (r, srv1) → acks r ip →
  let X := ev_time ev + lease_time (config srv) in
  X < 2 ^ 32 → Forall (within (lease_time (config srv)) (client_mac (ev_msg ev)) X) evs →
  pool_start (config srv) ≤ ip ≤ pool_end (config srv) ∧
  ∃ rs srv2, server_run srv1 evs = Ret (rs, srv2) ∧
    Forall2 (λ ev' r', acks r' ip → client_mac (ev_msg ev') = client_mac (ev_msg ev)) evs rs.
Proof.
  intros Hi [Hrq Hnow] Hok Hlt Hproc Hack X HX Hw.
  destruct (process_store_refines srv (ev_msg ev) (ev_items ev) (ev_time ev) Hi Hrq Hnow)
    as (r' & srv' & a & E & Hi1 & Ec & _ & Hstep & Hr).
  rewrite E in Hproc. injection Hproc as -> ->.
  apply (reply_is_acks _ _ _ _ _ Hr) in Hack as ->.
  apply lease_step_ack in Hstep as [Hp Hin]. split; [done|].
  rewrite wrap_small in Hp by (unfold uword in *; lia). fold X in Hp.
  destruct (server_run_protected _ ip X evs srv1 Hi1 Hp) as (rs & srv2 & -> & _ & Hall);
    [by rewrite Ec|done|by rewrite Ec|]. by exists rs, srv2.
Qed.

(** The offered address can be granted at once. *)
Lemma offerable_grant cap s e mac M M1 M' ip x b now : (size M ≤ cap)%nat → lease_inj M →
  offerable cap s e mac M ip → ip ≠ 0 → pruned now M M1 → ((size M < cap)%nat → M1 = M) →
  grant cap ip mac x M1 b M' → b = true.
Proof.
  intros Hsz Hinj Hof Hne [Hsub Hpr] Hsame Hg. unfold offerable in Hof. unfold grant in Hg.
  destruct (M !! mac) as [[ip0 e0]|] eqn:Em.
  - subst ip0. destruct (M1 !! mac) as [[ip1 e1]|] eqn:Em1.
    + pose proof (lookup_weaken _ _ _ _ Em1 Hsub) as Ew. rewrite Em in Ew. injection Ew as <- <-.
      destruct Hg as [(_ & ? & _)|(? & _)]; done.
    + destruct Hg as [(_ & _ & ? & _)|([(m & y & Hm)|Hcap] & _)]; [done| |].
      * pose proof (lookup_weaken _ _ _ _ Hm Hsub) as Hm'.
        assert (m = mac) as -> by (eapply (Hinj m mac ip); eauto). congruence.
      * exfalso. assert (Hd : M1 ⊆ delete mac M).
        { apply map_subseteq_spec. intros m y Hm. apply lookup_delete_Some. split; [congruence|].
          by eapply lookup_weaken. }
        apply map_subseteq_size in Hd.
        assert (Hds : size M = S (size (delete mac M))).
        { rewrite <- (insert_delete_id M mac (ip, e0)) at 1 by done.
          by rewrite map_size_insert_None by apply lookup_delete_eq. }
        lia.
  - destruct Hof as [(_ & ->)|(Hlt & [(_ & Hnh)|(-> & _)])]; try done.
    rewrite (Hsame Hlt), Em in Hg. destruct Hg as [(_ & _ & ? & _)|([?|?] & _)]; [done|done|lia].
Qed.

(** C7: The DISCOVER / OFFER / REQUEST / ACK handshake completes, in the ARRAY and
    HASHMAP modes and for well-formed messages: if a client asks for the address of
    the pool it was just offered, the server acknowledges it, whatever its clock
    shows by then. *)
Theorem handshake_completes (srv srv1 : dhcp_server_t P) (ev1 ev2 : event) (r : reply) (ip : Z) :
  srv_inv srv → event_ok ev1 → event_ok ev2 →
  msg_type_of (ev_items ev1) = DHCP_DISCOVER →
  process_message_store srv (ev_msg ev1) (ev_time ev1) = Ret (r, srv1) →
  (∃ m, r = Some m ∧ m_yiaddr m = ip) →
  client_mac (ev_msg ev2) = client_mac (ev_msg ev1) →
  msg_type_of (ev_items ev2) = DHCP_REQUEST → requested_of (ev_items ev2) = Some ip →
  pool_start (config srv) ≤ ip ≤ pool_end (config srv) →
  ∃ r2 srv2, process_message_store srv1 (ev_msg ev2) (ev_time ev2) = Ret (r2, srv2) ∧ acks r2 ip.
Proof.
  intros Hi [Hrq1 Hn1] [Hrq2 Hn2] Ht1 Hproc (m & -> & Hy) Hmac Ht2 Hip Hin.
  destruct (process_store_refines srv _ _ _ Hi Hrq1 Hn1) as (r' & srv' & a & E & Hi1 & Ec & Ecap & Hstep & Hr).
  rewrite E in Hproc. injection Hproc as -> ->.
  destruct (process_store_refines srv1 _ _ _ Hi1 Hrq2 Hn2) as (r2 & srv2 & a2 & -> & _ & _ & _ & Hstep2 & Hr2).
  exists r2, srv2. split; [done|]. apply (reply_is_acks _ _ _ _ _ Hr2).
  rewrite Hmac, Ec, Ecap in Hstep2.
  assert (Hof : offerable (srv_cap srv) (pool_start (config srv)) (pool_end (config srv))
    (client_mac (ev_msg ev1)) (srv_leases srv1) ip ∧ ip ≠ 0).
  { destruct Hstep as [M M' ip0 _ _ Hof| | | | |];
      try (exfalso; unfold DHCP_DISCOVER, DHCP_REQUEST, DHCP_DECLINE in *; congruence).
    destruct (Z.eqb_spec ip0 0); cbn [reply_is] in Hr; [discriminate|].
    destruct Hr as (m' & Em & _ & Hy' & _). injection Em as <-. by rewrite Hy in Hy'; subst ip0. }
  destruct Hof as [Hof Hne]. destruct Hi1 as [Hi1 _].
  assert (Hsz : (size (srv_leases srv1) ≤ srv_cap srv)%nat) by (rewrite <- Ecap; by eapply ls_size).
  assert (Hinj : lease_inj (srv_leases srv1)) by by eapply ls_inj.
  destruct Hstep2 as [|M M1 M' ip2 b _ E2 _ Hpr Hsame Hg| | | |];
    try (exfalso; unfold DHCP_DISCOVER, DHCP_REQUEST, DHCP_DECLINE in *; congruence).
  rewrite Hip in E2. injection E2 as <-.
  by rewrite (offerable_grant _ _ _ _ _ M1 M' ip _ b _ Hsz Hinj Hof Hne Hpr Hsame Hg).
Qed.
End refinement.

(** ** BITMAP_VARTIME: leases end with the window *)

Definition var_srv_inv (srv : dhcp_server_t dhcp_bmpool_var_t) : Prop := var_inv (pool srv).

(** One message is at most one operation of the pool; an ACK is a commit and
    carries the time left in the window. *)
Lemma bmvar_step srv request its now :
  var_srv_inv srv → request_ok request its →
  ∃ r srv' o, dhcp_process_message_bmvar srv request now = Ret (r, srv') ∧ var_srv_inv srv' ∧
    (pool srv' = pool srv ∨ var_call (pool srv) o = Ret (pool srv')) ∧
    (o = VPeek now ∨ ∃ ip, o = VCommit ip) ∧
    ∀ ip, acks r ip →
      dhcp_bmpool_var_commit_ip (pool srv) ip = Ret (true, pool srv') ∧
      ∃ m, r = Some m ∧ carries m DHCP_OPT_LEASE_TIME (uint32_to_ip (v_expire (pool srv') ⊟ now)).
Proof.
  intros Hi Hrq. unfold dhcp_process_message_bmvar.
  rewrite (message_type_of _ _ Hrq), bind_Ret. cbv zeta.
  assert (Hno : ∀ r a c, reply_is c request a r → (∀ ip, a ≠ Ack ip) → ∀ ip, ¬ acks r ip).
  { intros r a c Hr Ha ip Hk. by apply (reply_is_acks _ _ _ _ _ Hr), Ha in Hk. }
  destruct (msg_type_of its =? DHCP_DISCOVER).
  { destruct (var_peek_spec (pool srv) now Hi) as (ip & p & E & [Hi' _ _ _ _]). rewrite E, bind_Ret.
    assert (Hcall : var_call (pool srv) (VPeek now) = Ret p) by (cbn; by rewrite E).
    destruct (ip =? 0); cbn [negb].
    - exists None, (set_pool srv p), (VPeek now).
      split_and!; [done|done|by right|by left|]. by intros ip' (m & ? & _).
    - destruct (offer_reply_is (config srv) request ip) as (r & -> & Hr). rewrite bind_Ret.
      exists r, (set_pool srv p), (VPeek now). split_and!; [done|done|by right|by left|].
      intros ip' Hk. exfalso. by eapply (Hno r (Offer ip)). }
  destruct (msg_type_of its =? DHCP_REQUEST).
  2:{ exists None, srv, (VPeek now). split_and!; [done|done|by left|by left|]. by intros ip (m & ? & _). }
  rewrite (requested_ip_opt_of _ _ Hrq), bind_Ret.
  destruct (requested_of its) as [ip|].
  2:{ exists None, srv, (VPeek now). split_and!; [done|done|by left|by left|]. by intros ip (m & ? & _). }
  destruct (nak_reply_is (config srv) request) as (rn & En & Hrn).
  destruct (ip_in_pool (config srv) ip).
  2:{ rewrite En, bind_Ret. exists rn, srv, (VPeek now). split_and!; [done|done|by left|by left|].
      intros ip' Hk. exfalso. by eapply (Hno rn Nak). }
  destruct (var_commit_spec (pool srv) ip Hi) as (ok & p & E & Hpost). rewrite E, bind_Ret.
  assert (Hcall : var_call (pool srv) (VCommit ip) = Ret p) by (cbn; by rewrite E).
  pose proof (vc_inv _ _ _ _ Hpost) as Hi'. destruct ok.
  - destruct (ack_reply_is (set_lease_time (config srv) (v_expire p ⊟ now)) request ip) as (r & -> & Hr).
    rewrite bind_Ret. eexists r, (mkServer _ p), (VCommit ip).
    split_and!; [done|done|by right|by right; exists ip|].
    intros ip' Hk. apply (reply_is_acks _ _ _ _ _ Hr) in Hk. injection Hk as <-. split; [done|].
    destruct Hr as (m & -> & _ & _ & _ & Hc). exists m. split; [done|]. apply Hc.
  - rewrite En, bind_Ret. exists rn, (set_pool srv p), (VCommit ip).
    split_and!; [done|done|by right|by right; exists ip|].
    intros ip' Hk. exfalso. by eapply (Hno rn Nak).
Qed.

Fixpoint bmvar_run (srv : dhcp_server_t dhcp_bmpool_var_t) (evs : list event)
    : outcome (list reply * dhcp_server_t dhcp_bmpool_var_t) :=
  match evs with
  | [] => Ret ([], srv)
  | ev :: evs =>
      '(r, srv) ← dhcp_process_message_bmvar srv (ev_msg ev) (ev_time ev);
      '(rs, srv) ← bmvar_run srv evs;
      Ret (r :: rs, srv)
  end.

(** Before the expiry no message starts a new window. *)
Lemma bmvar_run_window : ∀ evs srv p0 ip p1,
  var_srv_inv srv → Forall event_ok evs → 0 < v_expire (pool srv) →
  Forall (λ ev, ev_time ev < v_expire (pool srv)) evs →
  var_inv p0 → dhcp_bmpool_var_commit_ip p0 ip = Ret (true, p1) → var_window p1 (pool srv) →
  ∃ rs srv', bmvar_run srv evs = Ret (rs, srv') ∧ Forall (λ r, ¬ acks r ip) rs.
Proof.
  induction evs as [|ev evs IH]; intros srv p0 ip p1 Hi Hok H0 Hlt Hi0 Hc Hw.
  { by exists [], srv. }
  apply Forall_cons in Hok as [[Hrq Hnow] Hok]. apply Forall_cons in Hlt as [Hb Hlt].
  cbn [bmvar_run].
  destruct (bmvar_step srv (ev_msg ev) (ev_items ev) (ev_time ev) Hi Hrq)
    as (r & srv' & o & -> & Hi' & Hpool & Ho & Hack). rewrite bind_Ret.
  assert (Hren : var_renews (pool srv) o = false).
  { destruct Ho as [->|[a ->]]; [|done]. cbn. unfold var_expired.
    by rewrite (proj2 (Z.leb_gt _ _)), andb_false_r by lia. }
  assert (Hstep : var_window p1 (pool srv') ∧ v_expire (pool srv') = v_expire (pool srv)).
  { destruct Hpool as [->|Hcall]; [done|]. split.
    - clear -Hw Hcall Hren. induction Hw as [p|p o' p' p'' Hc' Hr' _ IH]; [by eapply vw_step; [..|constructor]|].
      eapply vw_step; [done..|]. by apply IH.
    - by apply (var_call_window (pool srv) o (pool srv') Hi Hcall Hren). }
  destruct Hstep as [Hw' Ee].
  destruct (IH srv' p0 ip p1 Hi' Hok) as (rs & srv2 & -> & Hall); [by rewrite Ee|by rewrite Ee|done..|].
  rewrite bind_Ret. exists (r :: rs), srv2. split; [done|]. constructor; [|done].
  intros Hk. destruct (Hack ip Hk) as [Hc2 _].
  pose proof (var_commit_refused p0 p1 (pool srv) ip Hi0 Hc Hw) as Hfail. rewrite Hfail in Hc2. discriminate.
Qed.

(** C40: In BITMAP_VARTIME mode a lease ends exactly when the window does, and until
    then the address is acknowledged to nobody else.  For an address acknowledged
    to a well-formed message that arrives while the window runs (it was started
    and has not ended): the ACK carries the time left in the window, and no
    well-formed message that arrives before the window's end is answered with an
    ACK for the same address.  (When the window was never started, or is over, the
    ACK carries a time that wraps around: see [bmvar_lease_underflow].) *)
Theorem bmvar_lease_window (srv srv1 : dhcp_server_t dhcp_bmpool_var_t) (ev : event) (r : reply)
    (ip : Z) (evs : list event) :
  var_srv_inv srv → event_ok ev → Forall event_ok evs →
  dhcp_process_message_bmvar srv (ev_msg ev) (ev_time ev) = Ret (r, srv1) → acks r ip →
  let X := v_expire (pool srv) in
  0 < X → Forall (λ ev', ev_time ev' < X) evs → ev_time ev < X →
  (∃ m, r = Some m ∧ carries m DHCP_OPT_LEASE_TIME (uint32_to_ip (X - ev_time ev))) ∧
  ∃ rs srv2, bmvar_run srv1 evs = Ret (rs, srv2) ∧ Forall (λ r', ¬ acks r' ip) rs.
Proof.
  intros Hi [Hrq Hnow] Hok Hproc Hk X HX Hlt Hb.
  destruct (bmvar_step srv _ _ (ev_time ev) Hi Hrq) as (r' & srv' & o & E & Hi' & _ & _ & Hack).
  rewrite E in Hproc. injection Hproc as -> ->.
  destruct (Hack ip Hk) as [Hc (m & -> & Hcar)].
  destruct (var_commit_spec (pool srv) ip Hi) as (ok & p & Ec & Hpost).
  rewrite Ec in Hc. injection Hc as -> ->.
  assert (Ee : v_expire (pool srv1) = X) by apply (vc_expire _ _ _ _ Hpost).
  rewrite Ee, wrap_small in Hcar
    by (pose proof (vi_expire _ Hi); unfold uword in *; unfold X in *; lia).
  split; [by exists m|].
  by apply (bmvar_run_window evs srv1 (pool srv) ip (pool srv1)); rewrite ?Ee; try done; constructor.
Qed.

(** Outside a running window the lease time underflows.  If a REQUEST is
    acknowledged when the window has run out (or none was started yet, expiry
    0), the ACK carries a lease of almost 2^32 seconds. *)
Theorem bmvar_lease_underflow (srv srv1 : dhcp_server_t dhcp_bmpool_var_t) (ev : event) (r : reply)
    (ip : Z) :
  var_srv_inv srv → event_ok ev →
  dhcp_process_message_bmvar srv (ev_msg ev) (ev_time ev) = Ret (r, srv1) → acks r ip →
  v_expire (pool srv) < ev_time ev →
  ∃ m, r = Some m ∧
    carries m DHCP_OPT_LEASE_TIME (uint32_to_ip (2 ^ 32 - (ev_time ev - v_expire (pool srv)))).
Proof.
  intros Hi [Hrq Hnow] Hproc Hk Hlt.
  destruct (bmvar_step srv _ _ (ev_time ev) Hi Hrq) as (r' & srv' & o & E & Hi' & _ & _ & Hack).
  rewrite E in Hproc. injection Hproc as -> ->.
  destruct (Hack ip Hk) as [Hc (m & -> & Hcar)].
  destruct (var_commit_spec (pool srv) ip Hi) as (ok & p & Ec & Hpost).
  rewrite Ec in Hc. injection Hc as -> ->.
  rewrite (vc_expire _ _ _ _ Hpost) in Hcar. exists m. split; [done|].
  assert (Ew : v_expire (pool srv) ⊟ ev_time ev = 2 ^ 32 - (ev_time ev - v_expire (pool srv))).
  { pose proof (vi_expire _ Hi). unfold uword in *. unfold wrap.
    rewrite <- (Z.mod_add _ 1), Z.mod_small by lia. lia. }
  by rewrite <- Ew.
Qed.

(** ** NPRC: no address is acknowledged twice *)

Section nprc_server.
Context (W : Z) (HW : W = 32 ∨ W = 64).

Definition nprc_srv_inv (srv : dhcp_server_t dhcp_nprcpool_t) : Prop :=
  nprc_inv W (pool_start (config srv)) (pool_end (config srv)) (pool srv).

(** Index [i] was handed out and can no longer be committed. *)
Definition closed (p : dhcp_nprcpool_t) (i : Z) : Prop := i < frontier p ∧ nprc_open p i = false.

Lemma requested_of_u32 m its ip : request_ok m its → requested_of its = Some ip → is_u32 ip.
Proof.
  intros [Hr Hb _] Hip. unfold requested_of in Hip.
  destruct (item_data DHCP_OPT_REQUESTED_IP its) as [[|a [|b [|c [|d [|? ?]]]]]|] eqn:E; try done.
  injection Hip as <-.
  destruct (find_item DHCP_OPT_REQUESTED_IP 0 its) as [[o l]|] eqn:Hf.
  2:{ apply find_item_None in Hf. congruence. }
  destruct (represents_load _ _ _ _ _ Hr Hf) as (d' & Hd' & -> & Hl).
  rewrite E in Hd'. injection Hd' as <-.
  assert (Hbs : Forall byte [a; b; c; d]).
  { unfold load_n in Hl. case_decide; [|done]. injection Hl as <-. by apply Forall_take, Forall_drop. }
  rewrite !Forall_cons in Hbs. destruct Hbs as (Ha & Hb' & Hc & Hd & _).
  rewrite ip_to_uint32_sum by done. unfold uword in *. lia.
Qed.

Lemma nprc_step srv request its : nprc_srv_inv srv → request_ok request its →
  ∃ r srv', dhcp_process_message_nprc W srv request = Ret (r, srv') ∧ nprc_srv_inv srv' ∧
    config srv' = config srv ∧
    (∀ i, closed (pool srv) i → closed (pool srv') i) ∧
    (∀ ip, acks r ip → nprc_open (pool srv) (ip - pool_start (config srv)) = true ∧
       closed (pool srv') (ip - pool_start (config srv))).
Proof.
  intros Hi Hrq. unfold dhcp_process_message_nprc.
  rewrite (message_type_of _ _ Hrq), bind_Ret. cbv zeta.
  assert (Hno : ∀ r a c ip, reply_is c request a r → acks r ip → (∀ ip, a ≠ Ack ip) → False).
  { intros r a c ip Hr Hk Ha. by apply (reply_is_acks _ _ _ _ _ Hr), Ha in Hk. }
  destruct (msg_type_of its =? DHCP_DISCOVER).
  { pose proof (nprc_find_spec W HW _ _ _ Hi) as Hfind.
    destruct (dhcp_nprc_find_available_ip W (pool srv) _ _) as [ip p]. destruct Hfind as [Hi' Hcase].
    assert (Hcl : ∀ i, closed (pool srv) i → closed p i).
    { intros i [Hlt Hop]. unfold closed.
      destruct (pool_start (config srv) + frontier (pool srv) <=? pool_end (config srv));
        destruct Hcase as (_ & Hf & Ho); rewrite Hf, Ho, Hop; cbn.
      - rewrite (proj2 (Z.eqb_neq _ _)) by lia. split; [lia|done].
      - done. }
    destruct (truth ip).
    - destruct (offer_reply_is (config srv) request ip) as (r & -> & Hr). rewrite bind_Ret.
      exists r, (set_pool srv p). split_and!; try done.
      intros ip' Hk. exfalso. by eapply (Hno r (Offer ip)).
    - exists None, (set_pool srv p). split_and!; try done. by intros ip' (m & ? & _). }
  destruct (msg_type_of its =? DHCP_REQUEST).
  2:{ exists None, srv. split_and!; try done. by intros ip (m & ? & _). }
  rewrite (requested_ip_opt_of _ _ Hrq), bind_Ret.
  destruct (requested_of its) as [ip|] eqn:Eip.
  2:{ exists None, srv. split_and!; try done. by intros ip (m & ? & _). }
  destruct (nprc_commit_spec W HW _ _ _ ip Hi (requested_of_u32 _ _ _ Hrq Eip))
    as (ok & p & -> & Hi' & Hf & -> & Hop). rewrite bind_Ret.
  set (s := pool_start (config srv)) in *.
  assert (Hcl : ∀ i, closed (pool srv) i → closed p i).
  { intros i [Hlt Ho]. unfold closed. by rewrite Hf, Hop, Ho. }
  destruct (nprc_open (pool srv) (ip - s)) eqn:Eo.
  - destruct (ack_reply_is (config srv) request ip) as (r & -> & Hr). rewrite bind_Ret.
    exists r, (set_pool srv p). split_and!; try done.
    intros ip' Hk. apply (reply_is_acks _ _ _ _ _ Hr) in Hk. injection Hk as <-. split; [done|].
    apply nprc_open_lt in Eo. unfold closed. cbn [pool set_pool].
    rewrite Hf, Hop, Z.eqb_refl, andb_false_r. split; [lia|done].
  - destruct (nak_reply_is (config srv) request) as (r & -> & Hr). rewrite bind_Ret.
    exists r, (set_pool srv p). split_and!; try done.
    intros ip' Hk. exfalso. by eapply (Hno r Nak).
Qed.

Fixpoint nprc_srv_run (srv : dhcp_server_t dhcp_nprcpool_t) (msgs : list dhcp_message_t)
    : outcome (list reply * dhcp_server_t dhcp_nprcpool_t) :=
  match msgs with
  | [] => Ret ([], srv)
  | m :: msgs =>
      '(r, srv) ← dhcp_process_message_nprc W srv m;
      '(rs, srv) ← nprc_srv_run srv msgs;
      Ret (r :: rs, srv)
  end.

Lemma nprc_srv_run_closed : ∀ msgs srv, nprc_srv_inv srv →
  Forall (λ m, ∃ its, request_ok m its) msgs →
  ∃ rs srv', nprc_srv_run srv msgs = Ret (rs, srv') ∧
    (∀ ip r, r ∈ rs → acks r ip → ¬ closed (pool srv) (ip - pool_start (config srv))) ∧
    ∀ i j ri rj ip, (i < j)%nat → rs !! i = Some ri → rs !! j = Some rj → acks ri ip → ¬ acks rj ip.
Proof.
  induction msgs as [|m msgs IH]; intros srv Hi Hok.
  { exists [], srv. split_and!; [done|by intros ip r ?%elem_of_nil|]. intros i j ri rj ip _ ?. by rewrite lookup_nil in *. }
  apply Forall_cons in Hok as [(its & Hrq) Hok]. cbn [nprc_srv_run].
  destruct (nprc_step srv m its Hi Hrq) as (r & srv1 & -> & Hi1 & Ec & Hcl & Hack). rewrite bind_Ret.
  destruct (IH srv1 Hi1 Hok) as (rs & srv2 & -> & Hnc & Hpair). rewrite bind_Ret.
  exists (r :: rs), srv2. split; [done|]. rewrite Ec in Hnc. split.
  - intros ip r' [->|Hin]%elem_of_cons Hk Hc; [|by apply (Hnc ip r' Hin Hk), Hcl].
    destruct (Hack ip Hk) as [Hop _]. destruct Hc as [_ Hc]. congruence.
  - intros i j ri rj ip Hij Hri Hrj Hki Hkj. destruct j as [|j]; [lia|]. cbn in Hrj.
    destruct i as [|i]; cbn in Hri.
    + injection Hri as ->. apply (Hnc ip rj); [by eapply list_elem_of_lookup_2|done|].
      by apply Hack.
    + by apply (Hpair i j ri rj ip ltac:(lia)).
Qed.

(** C38: In NPRC mode the server acknowledges no address twice, to the same client
    or to another, whatever well-formed messages it receives after start-up, if the
    range of the pool neither begins at 0 nor ends at 2^32 - 1. *)
Theorem nprc_server_never_twice (c : dhcp_config_t) (msgs : list dhcp_message_t) :
  0 < pool_start c → pool_start c ≤ pool_end c → pool_end c < 2 ^ 32 - 1 →
  Forall (λ m, ∃ its, request_ok m its) msgs →
  ∃ rs srv, nprc_srv_run (dhcp_init_server_nprc c) msgs = Ret (rs, srv) ∧
    ∀ i j ri rj ip, (i < j)%nat → rs !! i = Some ri → rs !! j = Some rj → acks ri ip → ¬ acks rj ip.
Proof.
  intros Hs Hse He Hok.
  destruct (nprc_srv_run_closed msgs (dhcp_init_server_nprc c)) as (rs & srv & Hrun & _ & Hpair);
    [|done|by exists rs, srv].
  by apply nprc_init_inv.
Qed.
End nprc_server.

(** ** BITMAP_UNITIME *)

(** What one message does to the pool and is answered with. *)
Definition bmuni_post (c : dhcp_config_t) (its : list item) (now : Z)
    (p : dhcp_bmpool_uni_t) (a : answer) (p' : dhcp_bmpool_uni_t) : Prop :=
  if msg_type_of its =? DHCP_DISCOVER then
    ∃ ip, dhcp_bmpool_uni_peek p now = Ret (ip, p') ∧ a = if ip =? 0 then NoReply else Offer ip
  else if msg_type_of its =? DHCP_REQUEST then
    match requested_of its with
    | None => a = NoReply ∧ p' = p
    | Some ip =>
        if ip_in_pool c ip
        then ∃ ok : bool, dhcp_bmpool_uni_commit_ip p ip = Ret (ok, p') ∧ a = if ok then Ack ip else Nak
        else a = Nak ∧ p' = p
    end
  else a = NoReply ∧ p' = p.

(** In BITMAP_UNITIME mode a DISCOVER is answered with the address the pool
    peeks (silence for 0), a REQUEST for a pool address with an ACK exactly if the
    pool commits it, any other address with a NAK, and everything else is
    ignored; the server always returns and keeps its invariant. *)
Theorem bmuni_process_correct (srv : dhcp_server_t dhcp_bmpool_uni_t) (request : dhcp_message_t)
    (its : list item) (now : Z) :
  uni_inv (pool srv) → request_ok request its →
  ∃ r srv' a, dhcp_process_message_bmuni srv request now = Ret (r, srv') ∧
    uni_inv (pool srv') ∧ config srv' = config srv ∧
    bmuni_post (config srv) its now (pool srv) a (pool srv') ∧ reply_is (config srv) request a r.
Proof.
  intros Hi Hrq. unfold dhcp_process_message_bmuni, bmuni_post.
  rewrite (message_type_of _ _ Hrq), bind_Ret. cbv zeta.
  destruct (msg_type_of its =? DHCP_DISCOVER).
  { destruct (uni_call_spec (pool srv) (UPeek now) Hi) as (p & Hc & Hi' & _). cbn in Hc.
    destruct (dhcp_bmpool_uni_peek (pool srv) now) as [[ip q]| |]; try discriminate.
    injection Hc as ->. rewrite bind_Ret. destruct (Z.eqb_spec ip 0) as [->|Hne]; cbn [negb].
    - exists None, (set_pool srv p), NoReply. split_and!; try done. by exists 0.
    - destruct (offer_reply_is (config srv) request ip) as (r & -> & Hr). rewrite bind_Ret.
      exists r, (set_pool srv p), (Offer ip). split_and!; try done. exists ip.
      by rewrite (proj2 (Z.eqb_neq ip 0)). }
  destruct (msg_type_of its =? DHCP_REQUEST).
  2:{ by exists None, srv, NoReply. }
  rewrite (requested_ip_opt_of _ _ Hrq), bind_Ret.
  destruct (requested_of its) as [ip|].
  2:{ by exists None, srv, NoReply. }
  destruct (nak_reply_is (config srv) request) as (rn & En & Hrn).
  destruct (ip_in_pool (config srv) ip).
  2:{ rewrite En, bind_Ret. by exists rn, srv, Nak. }
  destruct (uni_commit_spec (pool srv) ip Hi) as (ok & p & E & [Hi' _ _ _ _ _ _ _]).
  rewrite E, bind_Ret. destruct ok.
  - destruct (ack_reply_is (config srv) request ip) as (r & -> & Hr). rewrite bind_Ret.
    exists r, (set_pool srv p), (Ack ip). split_and!; try done. by exists true.
  - rewrite En, bind_Ret. exists rn, (set_pool srv p), Nak. split_and!; try done. by exists false.
Qed.

(** ** Sample requests *)

Definition mk_request (mac opts : list Z) : dhcp_message_t :=
  mkMsg 1 1 6 0 305419896 0 0 0 0 0 0 (mac ++ replicate 10 0) (replicate 64 0) (replicate 128 0)
    DHCP_MAGIC_COOKIE (opts ++ replicate (OPTIONS_LEN - length opts) 0).

Definition discover_items : list item := [Opt DHCP_OPT_MESSAGE_TYPE [DHCP_DISCOVER]].
Definition request_items (a b c d : Z) : list item :=
  [Opt DHCP_OPT_MESSAGE_TYPE [DHCP_REQUEST]; Opt DHCP_OPT_REQUESTED_IP [a; b; c; d]].

Definition discover_msg (mac : list Z) : dhcp_message_t :=
  mk_request mac (encode discover_items ++ [DHCP_OPT_END]).
Definition request_msg (mac : list Z) (a b c d : Z) : dhcp_message_t :=
  mk_request mac (encode (request_items a b c d) ++ [DHCP_OPT_END]).

(** Well-formedness of a message is decided by evaluation. *)
Definition request_okb (m : dhcp_message_t) (its : list item) : bool :=
  bool_decide (take (S (length (encode its))) (m_options m) = encode its ++ [DHCP_OPT_END]) &&
  (length (m_options m) =? OPTIONS_LEN)%nat &&
  forallb (λ i, match i with
                | Pad => true
                | Opt c d => (0 <? c) && (c <? 255) && (length d <? 256)%nat end) its &&
  bool_decide (Forall byte (m_options m)) && (length (m_chaddr m) =? 16)%nat &&
  bool_decide (Forall byte (m_chaddr m)).

Lemma request_okb_ok m its : request_okb m its = true → request_ok m its.
Proof.
  unfold request_okb. rewrite !andb_true_iff, !bool_decide_eq_true, !Nat.eqb_eq.
  intros (((((Henc & Hlen) & Hits) & Hb) & Hc) & Hcb). split; [|done|done].
  split; [done|]. split.
  - apply Forall_forall. intros [|c d] Hin; [done|]. rewrite forallb_forall in Hits.
    apply list_elem_of_In in Hin. specialize (Hits _ Hin). cbv beta iota in Hits.
    rewrite !andb_true_iff, !Z.ltb_lt, Nat.ltb_lt in Hits.
    cbn [item_ok]. unfold DHCP_OPT_PAD, DHCP_OPT_END. lia.
  - exists (drop (S (length (encode its))) (m_options m)).
    rewrite <- (take_drop (S (length (encode its))) (m_options m)) at 1. rewrite Henc.
    by rewrite <- app_assoc.
Qed.

Ltac eval_request := apply request_okb_ok; vm_compute; reflexivity.

Definition sample_config : dhcp_config_t := mkConfig 1 4294967040 1 8 100 103 3600.

Definition discover_ev (t : Z) (mac : list Z) : event := mkEvent t (discover_msg mac) discover_items.
Definition request_ev (t : Z) (mac : list Z) (ip : Z) : event :=
  mkEvent t (request_msg mac 0 0 0 ip) (request_items 0 0 0 ip).

Lemma sample_events_ok :
  event_ok (discover_ev 100 client_a) ∧ event_ok (request_ev 101 client_a 100) ∧
  event_ok (request_ev 200 client_b 100).
Proof. split_and!; (split; [eval_request | cbn; unfold uword; lia]). Qed.

(** *** ARRAY mode *)

Definition array_srv : dhcp_server_t dhcp_arraypool_t :=
  dhcp_init_server_array sample_config (Some [free_lease; free_lease]) 2.

Definition ret_srv {P} (d : dhcp_server_t P) (m : outcome (reply * dhcp_server_t P)) : reply * dhcp_server_t P :=
  match m with Ret x => x | _ => (None, d) end.

Definition array_ack : reply * dhcp_server_t dhcp_arraypool_t :=
  ret_srv array_srv (dhcp_process_message_array array_srv (request_msg client_a 0 0 0 100) 101).

Lemma array_srv_inv : srv_inv array_srv.
Proof.
  split; [|cbn; lia].
  apply (array_init_inv 100 103 [free_lease; free_lease]); cbn; lia.
Qed.

(** Client A is acknowledged 100; client B's REQUEST for it is not. *)
Lemma no_double_lease_witness :
  acks (fst array_ack) 100 ∧
  ∃ rs srv2, server_run (snd array_ack) [request_ev 200 client_b 100] = Ret (rs, srv2) ∧
    Forall2 (λ ev' r', acks r' 100 → client_mac (ev_msg ev') = client_a)
      [request_ev 200 client_b 100] rs.
Proof.
  assert (Ha : acks (fst array_ack) 100).
  { eexists. split; [vm_compute; reflexivity|]. split; vm_compute; reflexivity. }
  split; [exact Ha|].
  destruct sample_events_ok as (_ & Hok1 & Hok2).
  apply (no_double_lease array_srv (snd array_ack) (request_ev 101 client_a 100) (fst array_ack) 100
    [request_ev 200 client_b 100] array_srv_inv Hok1).
  - constructor; [exact Hok2|constructor].
  - cbn. lia.
  - vm_compute. reflexivity.
  - exact Ha.
  - cbn. lia.
  - constructor; [|constructor]. split; [cbn; lia|]. split; [cbn; lia|]. discriminate.
Defined.

(** *** HASHMAP mode *)

Definition hash_srv : dhcp_server_t dhcp_hashpool_t := mkServer sample_config sample_hp0.

Lemma hash_srv_inv : srv_inv (H := hash_store 4 sample_junk) hash_srv.
Proof.
  split; [|cbn; lia].
  refine (hash_reachable_inv 4 sample_junk _ _ 100 103 raw_hashpool 3 sample_hp0 sample_hp0
    _ _ _ _ sample_storage sample_init _); try lia; [exact sample_junk_ok|constructor].
Qed.

Lemma server_refines_lease_spec_witness :
  ∃ r srv' a, dhcp_process_message_hashmap 4 sample_junk hash_srv (discover_msg client_a) 100
                = Ret (r, srv') ∧
    lease_step sample_config 3 100 client_a discover_items
      (hash_leases (pool hash_srv)) a (hash_leases (pool srv')) ∧
    reply_is sample_config (discover_msg client_a) a r.
Proof.
  destruct sample_events_ok as ([Hrq Hn] & _ & _).
  destruct (server_refines_lease_spec (P := dhcp_hashpool_t) (H := hash_store 4 sample_junk)
    (H0 := hash_store_laws 4 sample_junk ltac:(lia) sample_junk_ok) hash_srv (discover_msg client_a)
    discover_items 100 hash_srv_inv Hrq Hn) as (r & srv' & a & E & _ & _ & _ & Hs & Hr).
  exists r, srv', a. split; [exact E|]. split; [exact Hs|exact Hr].
Defined.

Definition hash_offer : reply * dhcp_server_t dhcp_hashpool_t :=
  ret_srv hash_srv (dhcp_process_message_hashmap 4 sample_junk hash_srv (discover_msg client_a) 100).

Lemma handshake_completes_witness :
  ∃ r2 srv2, dhcp_process_message_hashmap 4 sample_junk (snd hash_offer)
               (request_msg client_a 0 0 0 100) 101 = Ret (r2, srv2) ∧ acks r2 100.
Proof.
  destruct sample_events_ok as (Hok1 & Hok2 & _).
  apply (handshake_completes (P := dhcp_hashpool_t) (H := hash_store 4 sample_junk)
    (H0 := hash_store_laws 4 sample_junk ltac:(lia) sample_junk_ok) hash_srv (snd hash_offer)
    (discover_ev 100 client_a) (request_ev 101 client_a 100) (fst hash_offer) 100 hash_srv_inv Hok1 Hok2).
  - reflexivity.
  - vm_compute. reflexivity.
  - eexists. split; vm_compute; reflexivity.
  - reflexivity.
  - reflexivity.
  - reflexivity.
  - cbn. lia.
Defined.

(** *** Bitmap modes and NPRC *)

(** The sample pool holds 100 to 139; its window was started at 50 and ends at 3650. *)
Definition var_config : dhcp_config_t := mkConfig 1 4294967040 1 8 100 139 3600.
Definition var_srv : dhcp_server_t dhcp_bmpool_var_t := mkServer var_config sample_var1.
Definition var_ack : reply * dhcp_server_t dhcp_bmpool_var_t :=
  ret_srv var_srv (dhcp_process_message_bmvar var_srv (request_msg client_a 0 0 0 100) 101).

Lemma bmvar_lease_window_witness :
  (∃ m, fst var_ack = Some m ∧ carries m DHCP_OPT_LEASE_TIME (uint32_to_ip (3650 - 101))) ∧
  ∃ rs srv2, bmvar_run (snd var_ack) [request_ev 200 client_b 100] = Ret (rs, srv2) ∧
    Forall (λ r', ¬ acks r' 100) rs.
Proof.
  destruct sample_events_ok as (_ & Hok1 & Hok2).
  apply (bmvar_lease_window var_srv (snd var_ack) (request_ev 101 client_a 100) (fst var_ack) 100
    [request_ev 200 client_b 100] sample_var1_inv Hok1).
  - constructor; [exact Hok2|constructor].
  - vm_compute. reflexivity.
  - eexists. split; [vm_compute; reflexivity|]. split; vm_compute; reflexivity.
  - vm_compute. reflexivity.
  - constructor; [vm_compute; reflexivity|constructor].
  - vm_compute. reflexivity.
Defined.

(** No DISCOVER has started the window of the fresh pool: a REQUEST at time 101 gets
    a lease of 2^32 - 101 seconds. *)
Definition var_srv0 : dhcp_server_t dhcp_bmpool_var_t := mkServer var_config sample_var.
Definition var_ack0 : reply * dhcp_server_t dhcp_bmpool_var_t :=
  ret_srv var_srv0 (dhcp_process_message_bmvar var_srv0 (request_msg client_a 0 0 0 100) 101).

Lemma bmvar_lease_underflow_witness :
  ∃ m, fst var_ack0 = Some m ∧
    carries m DHCP_OPT_LEASE_TIME (uint32_to_ip (2 ^ 32 - (101 - 0))).
Proof.
  destruct sample_events_ok as (_ & Hok1 & _).
  apply (bmvar_lease_underflow var_srv0 (snd var_ack0) (request_ev 101 client_a 100) (fst var_ack0) 100
    sample_var_inv Hok1).
  - vm_compute. reflexivity.
  - eexists. split; [vm_compute; reflexivity|]. split; vm_compute; reflexivity.
  - vm_compute. reflexivity.
Defined.

(** Two ranges of one address each, leases of 10 seconds. *)
Definition uni_config : dhcp_config_t := mkConfig 1 4294967040 1 8 100 101 10.
Definition uni_srv : dhcp_server_t dhcp_bmpool_uni_t := mkServer uni_config sample_uni.

Lemma bmuni_process_correct_witness :
  ∃ r srv' a, dhcp_process_message_bmuni uni_srv (discover_msg client_a) 100 = Ret (r, srv') ∧
    bmuni_post uni_config discover_items 100 sample_uni a (pool srv').
Proof.
  destruct sample_events_ok as ([Hrq _] & _ & _).
  destruct (bmuni_process_correct uni_srv (discover_msg client_a) discover_items 100 sample_uni_inv Hrq)
    as (r & srv' & a & E & _ & _ & Hp & _).
  exists r, srv', a. split; [exact E|exact Hp].
Defined.

(** The replies of a run, as (type, yiaddr) pairs. *)
Definition brief (r : reply) : Z * Z :=
  match r with
  | Some m => (match dhcp_get_message_type m with Ret t => t | _ => 0 end, m_yiaddr m)
  | None => (0, 0)
  end.

Fixpoint bmuni_run (srv : dhcp_server_t dhcp_bmpool_uni_t) (evs : list (Z * dhcp_message_t))
    : list (Z * Z) :=
  match evs with
  | [] => []
  | (t, m) :: evs =>
      match dhcp_process_message_bmuni srv m t with
      | Ret (r, srv) => brief r :: bmuni_run srv evs
      | _ => []
      end
  end.

(** In BITMAP_UNITIME mode two clients can hold one address at the same time.
    The timer of a range starts when its last address is offered, not when it is
    acknowledged: client A is acknowledged 100 at time 109 with a lease of 10
    seconds, and at time 112 client B is offered and acknowledged 100 too. *)
Example bmuni_double_lease :
  lease_time (config uni_srv) = 10 ∧
  bmuni_run uni_srv
    [(100, discover_msg client_a); (109, request_msg client_a 0 0 0 100);
     (110, discover_msg client_b); (111, discover_msg client_b);
     (112, request_msg client_b 0 0 0 100)]
  = [(DHCP_OFFER, 100); (DHCP_ACK, 100); (DHCP_OFFER, 101); (DHCP_OFFER, 100); (DHCP_ACK, 100)].
Proof. split; vm_compute; reflexivity. Qed.

Lemma nprc_server_never_twice_witness :
  ∃ rs srv, nprc_srv_run 64 (dhcp_init_server_nprc sample_config)
    [discover_msg client_a; request_msg client_a 0 0 0 100; request_msg client_b 0 0 0 100]
    = Ret (rs, srv) ∧
    ∀ i j ri rj ip, (i < j)%nat → rs !! i = Some ri → rs !! j = Some rj → acks ri ip → ¬ acks rj ip.
Proof.
  apply (nprc_server_never_twice 64 (or_intror eq_refl)); [cbn; lia..|].
  repeat constructor; eexists; [apply sample_events_ok|..].
  - instantiate (1 := request_items 0 0 0 100). eval_request.
  - instantiate (1 := request_items 0 0 0 100). eval_request.
Defined.
