(* ===== verification/CQueue.v ===== *)
(** * The byte ring buffer

    [ds-lib/cqueue.h] and [ds-lib/cqueue.c], and [bench-live/lib/cqueue.c], which
    is the same code with another [CQ_N] and two 64-bit operations.  The
    capacity [N] and the width [w] of [CQ_N]'s type (32 in [ds-lib], 64 in
    [bench-live]) are parameters. *)
From S2P Require Import Prelude.

Open Scope Z_scope.

Definition CQ_OP_FAIL : Z := 0.
Definition CQ_OP_SUCCESS : Z := 1.
Definition CQ_FENCE : Z := 0x12345678.

Record cq_t := mkCq {
  c_buf : list Z;
  fence : Z;
  head : Z;
  tail : Z
}.

Definition set_head (q : cq_t) (b : list Z) (h : Z) : cq_t := mkCq b (fence q) h (tail q).
Definition set_tail (q : cq_t) (t : Z) : cq_t := mkCq (c_buf q) (fence q) (head q) t.

Section CQueue.
Context (N w : Z).

Definition cq_empty (q : cq_t) : bool := head q =? tail q.
Definition cq_full (q : cq_t) : bool := u32 (head q + 1) `mod` N =? tail q.
Definition cq_nelem (q : cq_t) : Z := wrap w (u32 (head q - tail q) + N) `mod` N.
Definition cq_nspace (q : cq_t) : Z := u32 (N - 1 - cq_nelem q).

(** The element popped, or [None] for [CQ_OP_FAIL]. *)
Definition cq_pop (q : cq_t) : outcome (option Z * cq_t) :=
  if cq_empty q then Ret (None, q) else
  let t := tail q in
  x ← deref (c_buf q) (Z.to_nat t);
  Ret (Some x, set_tail q (u32 (t + 1) `mod` N)).

Definition cq_push (q : cq_t) (cqe : Z) : outcome (Z * cq_t) :=
  if cq_full q then Ret (CQ_OP_FAIL, q) else
  let h := head q in
  b ← store (c_buf q) (Z.to_nat h) cqe;
  Ret (CQ_OP_SUCCESS, set_head q b (u32 (h + 1) `mod` N)).

Definition cq_peek (q : cq_t) : outcome (option Z) :=
  if cq_empty q then Ret None else
  x ← deref (c_buf q) (Z.to_nat (tail q)); Ret (Some x).

(** The loop of [cq_pop_n]: a failing pop leaves its byte of [data] as it was. *)
Fixpoint pop_loop (n : nat) (q : cq_t) (data : list Z) : outcome (list Z * cq_t) :=
  match n, data with
  | S n, d :: data =>
      '(r, q) ← cq_pop q;
      '(l, q) ← pop_loop n q data;
      Ret ((match r with Some x => x | None => d end) :: l, q)
  | O, _ => Ret (data, q)
  | S _, [] => Ub
  end.

(** [data] is the caller's buffer. *)
Definition cq_pop_n (q : cq_t) (data : list Z) (n : Z) : outcome (Z * list Z * cq_t) :=
  if cq_nelem q <? n then Ret (CQ_OP_FAIL, data, q) else
  '(data, q) ← pop_loop (Z.to_nat n) q data;
  Ret (CQ_OP_SUCCESS, data, q).

Definition cq_peek_n (q : cq_t) (cqes : list Z) (n : Z) : outcome (Z * list Z * cq_t) :=
  let sz := cq_nelem q in
  if sz <? n then Ret (CQ_OP_FAIL, cqes, q) else
  let t := tail q in
  '(rc, cqes, q) ← cq_pop_n q cqes n;
  Ret (rc, cqes, set_tail q t).

Fixpoint push_loop (n : nat) (q : cq_t) (data : list Z) : outcome cq_t :=
  match n, data with
  | S n, d :: data => '(_, q) ← cq_push q d; push_loop n q data
  | O, _ => Ret q
  | S _, [] => Ub
  end.

Definition cq_push_n (q : cq_t) (data : list Z) (n : Z) : outcome (Z * cq_t) :=
  if (n <=? 0) || (cq_nspace q <? n) then Ret (CQ_OP_FAIL, q) else
  q ← push_loop (Z.to_nat n) q data;
  Ret (CQ_OP_SUCCESS, q).

(** [x] as the unsigned value of its bytes *)
Definition cq_push32 (q : cq_t) (x : Z) : outcome (Z * cq_t) := cq_push_n q (le_split 4 x) 4.
Definition cq_pop32 (q : cq_t) (x : Z) : outcome (Z * Z * cq_t) :=
  '(rc, d, q) ← cq_pop_n q (le_split 4 x) 4; Ret (rc, le_combine d, q).
Definition cq_push64 (q : cq_t) (x : Z) : outcome (Z * cq_t) := cq_push_n q (le_split 8 x) 8.
Definition cq_pop64 (q : cq_t) (x : Z) : outcome (Z * Z * cq_t) :=
  '(rc, d, q) ← cq_pop_n q (le_split 8 x) 8; Ret (rc, le_combine d, q).

Definition cq_ok (q : cq_t) : Z := if fence q =? CQ_FENCE then CQ_OP_SUCCESS else CQ_OP_FAIL.

Fixpoint zero_loop (n i : nat) (b : list Z) : outcome (list Z) :=
  match n with
  | O => Ret b
  | S n => b ← store b i 0; zero_loop n (S i) b
  end.

Definition cq_init (q : cq_t) : outcome (Z * cq_t) :=
  b ← zero_loop (Z.to_nat N) 0 (c_buf q);
  let q := mkCq b CQ_FENCE 0 0 in
  if negb (cq_empty q) || cq_full q || negb (cq_nelem q =? 0) then Ret (CQ_OP_FAIL, q) else
  '(r, q) ← cq_pop q;
  match r with
  | Some _ => Ret (CQ_OP_FAIL, q)
  | None => Ret (CQ_OP_SUCCESS, q)
  end.

(** ** The queue as a list *)

Hypothesis HN : 1 < N < 2 ^ 31.
Hypothesis Hw : w = 32 ∨ (w = 64 ∧ (N | 2 ^ 32)).

Record cq_inv (q : cq_t) : Prop := {
  ci_buf : Z.of_nat (length (c_buf q)) = N;
  ci_head : 0 ≤ head q < N;
  ci_tail : 0 ≤ tail q < N
}.

Definition len (q : cq_t) : nat := Z.to_nat ((head q - tail q) `mod` N).

(** The bytes from [tail] up to [head], around the buffer. *)
Definition bytes_from (b : list Z) (t : Z) (n : nat) : list Z :=
  (λ i, b !!! Z.to_nat ((t + Z.of_nat i) `mod` N)) <$> seq 0 n.
Definition contents (q : cq_t) : list Z := bytes_from (c_buf q) (tail q) (len q).

Lemma len_lt q : Z.of_nat (len q) < N.
Proof. unfold len. pose proof (Z.mod_pos_bound (head q - tail q) N). lia. Qed.

Lemma contents_length q : length (contents q) = len q.
Proof. unfold contents, bytes_from. by rewrite length_fmap, length_seq. Qed.

Lemma len_cases q : cq_inv q →
  Z.of_nat (len q) = if tail q <=? head q then head q - tail q else head q - tail q + N.
Proof.
  intros [_ Hh Ht]. unfold len. pose proof (Z.mod_pos_bound (head q - tail q) N). rewrite Z2Nat.id by lia.
  destruct (Z.leb_spec (tail q) (head q)); [apply Z.mod_small; lia|].
  rewrite <- (Z.mod_add _ 1), Z.mod_small by lia. lia.
Qed.

Lemma nelem_len q : cq_inv q → cq_nelem q = Z.of_nat (len q).
Proof.
  intros Hi. rewrite (len_cases q Hi). destruct Hi as [_ Hh Ht]. unfold cq_nelem.
  destruct (Z.leb_spec (tail q) (head q)).
  - rewrite (wrap_small 32) by (unfold uword; lia).
    rewrite wrap_small by (unfold uword; destruct Hw as [-> | [-> _]]; lia).
    rewrite <- (Z.mul_1_l N) at 1. rewrite Z.mod_add, Z.mod_small by lia. done.
  - assert (E : u32 (head q - tail q) = head q - tail q + 2 ^ 32).
    { unfold wrap. rewrite <- (Z.mod_add _ 1), Z.mod_small by lia. lia. }
    rewrite E. destruct Hw as [-> | [-> [k Hk]]].
    + unfold wrap. replace (head q - tail q + 2 ^ 32 + N) with (head q - tail q + N + 1 * 2 ^ 32) by lia.
      rewrite Z.mod_add by lia. rewrite (Z.mod_small _ (2 ^ 32)), Z.mod_small by lia. done.
    + rewrite wrap_small by (unfold uword; lia). rewrite Hk.
      replace (head q - tail q + k * N + N) with (head q - tail q + N + k * N) by lia.
      rewrite Z.mod_add, Z.mod_small by lia. done.
Qed.

Lemma nspace_len q : cq_inv q → cq_nspace q = N - 1 - Z.of_nat (len q).
Proof.
  intros Hi. unfold cq_nspace. rewrite nelem_len by done. pose proof (len_lt q).
  apply wrap_small. unfold uword. lia.
Qed.

Lemma empty_len q : cq_inv q → cq_empty q = (len q =? 0)%nat.
Proof.
  intros Hi. pose proof (len_cases q Hi) as Hc. destruct Hi as [_ Hh Ht]. unfold cq_empty.
  destruct (Z.eqb_spec (head q) (tail q)), (Nat.eqb_spec (len q) 0), (Z.leb_spec (tail q) (head q)); (done || lia).
Qed.

Lemma succ_mod i : 0 ≤ i < N → u32 (i + 1) `mod` N = if i + 1 =? N then 0 else i + 1.
Proof.
  intros Hi. rewrite wrap_small by (unfold uword; lia).
  destruct (Z.eqb_spec (i + 1) N) as [->|]; [apply Z.mod_same; lia|apply Z.mod_small; lia].
Qed.

Lemma full_len q : cq_inv q → cq_full q = (Z.of_nat (len q) =? N - 1).
Proof.
  intros Hi. pose proof (len_cases q Hi) as Hc. destruct Hi as [_ Hh Ht]. unfold cq_full.
  rewrite succ_mod by done. rewrite Hc.
  destruct (Z.eqb_spec (head q + 1) N), (Z.leb_spec (tail q) (head q));
    apply Bool.eq_iff_eq_true; rewrite !Z.eqb_eq; lia.
Qed.

(** Position [i] of the buffer from [t] on. *)
Lemma pos_mod t i : 0 ≤ t < N → 0 ≤ i < N →
  (t + i) `mod` N = if t + i <? N then t + i else t + i - N.
Proof.
  intros Ht Hi. destruct (Z.ltb_spec (t + i) N); [apply Z.mod_small; lia|].
  rewrite <- (Z.mod_add _ (-1)), Z.mod_small by lia. lia.
Qed.

Lemma bytes_from_cons b t n : 0 ≤ t < N →
  bytes_from b t (S n) = b !!! Z.to_nat t :: bytes_from b (u32 (t + 1) `mod` N) n.
Proof.
  intros Ht. unfold bytes_from. cbn [seq fmap list_fmap]. f_equal.
  - f_equal. f_equal. rewrite Z.add_0_r. by apply Z.mod_small.
  - rewrite <- fmap_S_seq, <- list_fmap_compose. apply list_fmap_ext. intros i x _. cbn. f_equal. f_equal.
    rewrite wrap_small by (unfold uword; lia). rewrite Z.add_mod_idemp_l by lia. f_equal. lia.
Qed.

Lemma bytes_from_insert b t n i x : 0 ≤ t < N → Z.of_nat n < N → 0 ≤ i < N →
  (∀ k, 0 ≤ k < Z.of_nat n → (t + k) `mod` N ≠ i) →
  bytes_from (<[Z.to_nat i := x]> b) t n = bytes_from b t n.
Proof.
  intros Ht Hn Hi Hne. unfold bytes_from. apply list_fmap_ext. intros j y Hj.
  apply lookup_seq in Hj as [-> Hj]. apply list_lookup_total_insert_ne.
  pose proof (Z.mod_pos_bound (t + Z.of_nat j) N). specialize (Hne (Z.of_nat j)). cbn. lia.
Qed.

(** ** Single elements *)

Lemma cq_pop_spec q : cq_inv q →
  ∃ q', cq_pop q = Ret (match contents q with [] => None | x :: _ => Some x end, q') ∧
    cq_inv q' ∧ contents q' = List.tl (contents q) ∧ fence q' = fence q ∧
    head q' = head q ∧ c_buf q' = c_buf q ∧ (contents q = [] → q' = q).
Proof.
  intros Hi. pose proof (len_cases q Hi) as Hlen. pose proof Hi as [Hb Hh Ht]. unfold cq_pop.
  rewrite (empty_len q Hi). destruct (len q) as [|n] eqn:El; cbn [Nat.eqb].
  { exists q. unfold contents. rewrite El. by split_and!. }
  assert (Hc : contents q = c_buf q !!! Z.to_nat (tail q) ::
    bytes_from (c_buf q) (u32 (tail q + 1) `mod` N) n).
  { unfold contents. rewrite El. by apply bytes_from_cons. }
  rewrite Hc.
  destruct (deref_lt (c_buf q) (Z.to_nat (tail q))) as (x & Hx & ->); [lia|].
  rewrite bind_Ret, (list_lookup_total_correct _ _ _ Hx). eexists. split; [done|].
  set (q' := set_tail q _).
  assert (Hi' : cq_inv q').
  { split; cbn; try done. rewrite succ_mod by done. destruct (Z.eqb_spec (tail q + 1) N); lia. }
  split_and!; try done. unfold contents. cbn [c_buf tail q' set_tail]. cbn [List.tl]. f_equal.
  pose proof (len_cases q' Hi') as Hlen'. cbn [head tail q' set_tail] in Hlen'. rewrite succ_mod in Hlen' by done.
  zcases; lia.
Qed.

Lemma cq_push_spec q x : cq_inv q →
  ∃ rc q', cq_push q x = Ret (rc, q') ∧ cq_inv q' ∧ fence q' = fence q ∧
    if Z.of_nat (len q) =? N - 1 then rc = CQ_OP_FAIL ∧ q' = q
    else rc = CQ_OP_SUCCESS ∧ contents q' = contents q ++ [x].
Proof.
  intros Hi. pose proof (len_cases q Hi) as Hlen. pose proof Hi as [Hb Hh Ht]. unfold cq_push.
  rewrite (full_len q Hi). destruct (Z.eqb_spec (Z.of_nat (len q)) (N - 1)) as [E|E].
  { by eexists _, q. }
  rewrite store_lt, bind_Ret by lia. eexists _, _. split; [done|]. set (q' := set_head q _ _).
  assert (Hi' : cq_inv q').
  { split; cbn; try done; [by rewrite length_insert|]. rewrite succ_mod by done.
    destruct (Z.eqb_spec (head q + 1) N); lia. }
  split_and!; try done.
  pose proof (len_lt q) as Hlt.
  assert (Hl' : len q' = S (len q)).
  { pose proof (len_cases q' Hi') as Hlen'. cbn [head tail q' set_head] in Hlen'.
    rewrite succ_mod in Hlen' by done.
    zcases; lia. }
  assert (Hpos : (tail q + Z.of_nat (len q)) `mod` N = head q).
  { rewrite pos_mod by lia. zcases; lia. }
  unfold contents. rewrite Hl'. cbn [c_buf tail q' set_head].
  assert (Hsnoc : ∀ b t n, bytes_from b t (S n) = bytes_from b t n ++ [b !!! Z.to_nat ((t + Z.of_nat n) `mod` N)]).
  { intros b t n. unfold bytes_from. by rewrite seq_S, fmap_app. }
  rewrite Hsnoc, Hpos, list_lookup_total_insert_eq by lia. f_equal.
  apply bytes_from_insert; try lia. intros k Hk E'.
  rewrite <- Hpos, !pos_mod in E' by lia.
  zcases; lia.
Qed.

Lemma cq_peek_spec q : cq_inv q →
  cq_peek q = Ret (match contents q with [] => None | x :: _ => Some x end).
Proof.
  intros Hi. destruct (cq_pop_spec q Hi) as (q' & Hp & _). unfold cq_pop in Hp. unfold cq_peek.
  destruct (cq_empty q); [congruence|]. destruct (deref (c_buf q) (Z.to_nat (tail q))); try done.
  rewrite !bind_Ret in *. congruence.
Qed.

(** ** Runs of bytes *)

Lemma pop_loop_spec : ∀ n q data, cq_inv q → (n ≤ length data)%nat → (n ≤ len q)%nat →
  ∃ q', pop_loop n q data = Ret (take n (contents q) ++ drop n data, q') ∧ cq_inv q' ∧
    contents q' = drop n (contents q) ∧ head q' = head q ∧ c_buf q' = c_buf q ∧ fence q' = fence q.
Proof.
  induction n as [|n IH]; intros q data Hi Hd Hn; cbn [pop_loop]; [by exists q|].
  destruct data as [|d data]; [cbn in Hd; lia|].
  destruct (cq_pop_spec q Hi) as (q1 & -> & Hi1 & Hc1 & Hf1 & Hh1 & Hb1 & _). rewrite bind_Ret.
  pose proof (contents_length q) as Hl. pose proof (contents_length q1) as Hl1.
  destruct (contents q) as [|x l] eqn:Ec; [cbn in Hl; lia|]. cbn [List.tl] in Hc1. rewrite Hc1 in Hl1.
  destruct (IH q1 data Hi1) as (q2 & -> & Hi2 & Hc2 & Hh2 & Hb2 & Hf2); [cbn in Hd; lia|cbn in Hl; lia|].
  rewrite bind_Ret, Hc1. exists q2. split_and!; [done|done|by rewrite Hc2, Hc1|congruence..].
Qed.

Lemma push_loop_spec : ∀ n q data, cq_inv q → (n ≤ length data)%nat →
  Z.of_nat (len q + n) ≤ N - 1 →
  ∃ q', push_loop n q data = Ret q' ∧ cq_inv q' ∧ contents q' = contents q ++ take n data ∧
    fence q' = fence q.
Proof.
  induction n as [|n IH]; intros q data Hi Hd Hn; cbn [push_loop].
  { exists q. by rewrite take_0, app_nil_r. }
  destruct data as [|d data]; [cbn in Hd; lia|].
  destruct (cq_push_spec q d Hi) as (rc & q1 & -> & Hi1 & Hf1 & Hcase). rewrite bind_Ret.
  rewrite (proj2 (Z.eqb_neq _ _)) in Hcase by lia. destruct Hcase as [_ Hc1].
  pose proof (contents_length q1) as Hl1. rewrite Hc1, length_app, contents_length in Hl1. cbn in Hl1.
  destruct (IH q1 data Hi1) as (q2 & -> & Hi2 & Hc2 & Hf2); [cbn in Hd; lia|lia|].
  exists q2. split_and!; [done|done|by rewrite Hc2, Hc1, <- app_assoc|congruence].
Qed.

Lemma cq_pop_n_spec q data n : cq_inv q → 0 ≤ n → length data = Z.to_nat n →
  ∃ q', cq_inv q' ∧ fence q' = fence q ∧
    (if decide (Z.of_nat (len q) < n)
     then cq_pop_n q data n = Ret (CQ_OP_FAIL, data, q) ∧ q' = q
     else cq_pop_n q data n = Ret (CQ_OP_SUCCESS, take (Z.to_nat n) (contents q), q') ∧
          contents q' = drop (Z.to_nat n) (contents q) ∧ head q' = head q ∧ c_buf q' = c_buf q).
Proof.
  intros Hi Hn Hd. unfold cq_pop_n. rewrite nelem_len by done.
  destruct (Z.ltb_spec (Z.of_nat (len q)) n); case_decide; try lia; [by exists q|].
  destruct (pop_loop_spec (Z.to_nat n) q data Hi) as (q' & -> & Hi' & Hc & Hh & Hb & Hf); [lia..|].
  rewrite bind_Ret. exists q'. rewrite (drop_ge data), app_nil_r by lia. by split_and!.
Qed.

Lemma cq_push_n_spec q data : cq_inv q →
  ∃ rc q', cq_push_n q data (Z.of_nat (length data)) = Ret (rc, q') ∧ cq_inv q' ∧ fence q' = fence q ∧
    if decide (data = [] ∨ N - 1 < Z.of_nat (len q + length data))
    then rc = CQ_OP_FAIL ∧ q' = q
    else rc = CQ_OP_SUCCESS ∧ contents q' = contents q ++ data.
Proof.
  intros Hi. unfold cq_push_n. rewrite nspace_len by done.
  assert (Hd : data = [] ↔ length data = 0%nat) by (by destruct data).
  destruct ((Z.of_nat (length data) <=? 0) || (N - 1 - Z.of_nat (len q) <? Z.of_nat (length data))) eqn:E.
  - exists CQ_OP_FAIL, q. split_and!; try done. rewrite decide_True; [done|]. rewrite Hd.
    apply orb_true_iff in E as [?%Z.leb_le|?%Z.ltb_lt]; lia.
  - apply orb_false_iff in E as [?%Z.leb_gt ?%Z.ltb_ge].
    destruct (push_loop_spec (Z.to_nat (Z.of_nat (length data))) q data Hi) as (q' & -> & Hi' & Hc & Hf); [lia..|].
    rewrite bind_Ret. eexists _, q'. split_and!; try done. rewrite decide_False by (rewrite Hd; lia).
    by rewrite Hc, take_ge by lia.
Qed.

(** Peeking restores the queue exactly. *)
Lemma cq_peek_n_spec q data n : cq_inv q → 0 ≤ n → length data = Z.to_nat n →
  cq_peek_n q data n = if decide (Z.of_nat (len q) < n) then Ret (CQ_OP_FAIL, data, q)
                       else Ret (CQ_OP_SUCCESS, take (Z.to_nat n) (contents q), q).
Proof.
  intros Hi Hn Hd. unfold cq_peek_n. rewrite nelem_len by done. cbv zeta.
  destruct (cq_pop_n_spec q data n Hi Hn Hd) as (q' & Hi' & Hf & Hcase).
  destruct (Z.ltb_spec (Z.of_nat (len q)) n); case_decide; try lia; [done|].
  destruct Hcase as (-> & _ & Hh & Hb). rewrite bind_Ret. f_equal. f_equal.
  destruct q as [b f h t], q'. cbn in *. by subst.
Qed.

(** ** Initialisation *)

Lemma zero_loop_spec : ∀ n i b, (i + n ≤ length b)%nat →
  ∃ b', zero_loop n i b = Ret b' ∧ length b' = length b.
Proof.
  induction n as [|n IH]; intros i b Hi; cbn [zero_loop]; [by exists b|].
  rewrite store_lt, bind_Ret by lia.
  destruct (IH (S i) (<[i := 0]> b)) as (b' & ? & E); [rewrite length_insert; lia|].
  exists b'. by rewrite E, length_insert.
Qed.

Lemma cq_init_spec q : Z.of_nat (length (c_buf q)) = N →
  ∃ q', cq_init q = Ret (CQ_OP_SUCCESS, q') ∧ cq_inv q' ∧ contents q' = [] ∧ cq_ok q' = CQ_OP_SUCCESS.
Proof.
  intros Hb. unfold cq_init.
  destruct (zero_loop_spec (Z.to_nat N) 0 (c_buf q)) as (b & -> & Hlb); [lia|]. rewrite bind_Ret.
  set (q' := mkCq b CQ_FENCE 0 0).
  assert (Hi : cq_inv q') by (split; cbn; lia).
  assert (Hlen : len q' = 0%nat) by (unfold len; cbn; by rewrite Z.mod_0_l by lia).
  assert (Hc : contents q' = []) by (unfold contents; by rewrite Hlen).
  cbv zeta. rewrite (empty_len q' Hi), (full_len q' Hi), (nelem_len q' Hi), Hlen.
  rewrite (proj2 (Z.eqb_neq _ (N - 1))) by lia. cbn [Nat.eqb negb orb Z.of_nat Z.eqb].
  destruct (cq_pop_spec q' Hi) as (q1 & -> & _ & _ & _ & _ & _ & Hsame). rewrite Hc, bind_Ret.
  rewrite (Hsame Hc). exists q'. by split_and!.
Qed.

(** ** Refinement to a bounded list *)

Inductive cq_op :=
  | QPush (x : Z)
  | QPop
  | QPeek
  | QPushN (data : list Z)
  | QPopN (n : nat)
  | QPeekN (n : nat).

(** The bytes a call returned, or [None] for a failed call. *)
Definition success (rc : Z) (d : list Z) : option (list Z) :=
  if rc =? CQ_OP_SUCCESS then Some d else None.
Definition one_byte (r : option Z) : option (list Z) :=
  match r with Some x => Some [x] | None => None end.

Definition cq_call (q : cq_t) (o : cq_op) : outcome (option (list Z) * cq_t) :=
  match o with
  | QPush x => '(rc, q) ← cq_push q x; Ret (success rc [], q)
  | QPop => '(r, q) ← cq_pop q; Ret (one_byte r, q)
  | QPeek => r ← cq_peek q; Ret (one_byte r, q)
  | QPushN data => '(rc, q) ← cq_push_n q data (Z.of_nat (length data)); Ret (success rc [], q)
  | QPopN n => '(rc, d, q) ← cq_pop_n q (replicate n 0) (Z.of_nat n); Ret (success rc d, q)
  | QPeekN n => '(rc, d, q) ← cq_peek_n q (replicate n 0) (Z.of_nat n); Ret (success rc d, q)
  end.

Fixpoint cq_calls (q : cq_t) (os : list cq_op) : outcome (list (option (list Z)) * cq_t) :=
  match os with
  | [] => Ret ([], q)
  | o :: os => '(a, q) ← cq_call q o; '(l, q) ← cq_calls q os; Ret (a :: l, q)
  end.

(** A FIFO queue of at most [N - 1] bytes. *)
Definition fifo_call (l : list Z) (o : cq_op) : option (list Z) * list Z :=
  match o with
  | QPush x =>
      if decide (Z.of_nat (length l) = N - 1) then (None, l) else (Some [], l ++ [x])
  | QPop => match l with [] => (None, l) | x :: l => (Some [x], l) end
  | QPeek => match l with [] => (None, l) | x :: _ => (Some [x], l) end
  | QPushN data =>
      if decide (data = [] ∨ N - 1 < Z.of_nat (length l + length data)) then (None, l)
      else (Some [], l ++ data)
  | QPopN n => if decide (length l < n)%nat then (None, l) else (Some (take n l), drop n l)
  | QPeekN n => if decide (length l < n)%nat then (None, l) else (Some (take n l), l)
  end.

Fixpoint fifo_calls (l : list Z) (os : list cq_op) : list (option (list Z)) * list Z :=
  match os with
  | [] => ([], l)
  | o :: os =>
      let '(a, l) := fifo_call l o in
      let '(r, l) := fifo_calls l os in
      (a :: r, l)
  end.

Lemma cq_call_refines q o : cq_inv q →
  ∃ q', cq_call q o = Ret ((fifo_call (contents q) o).1, q') ∧ cq_inv q' ∧
    contents q' = (fifo_call (contents q) o).2.
Proof.
  intros Hi. pose proof (contents_length q) as Hl. destruct o as [x| | |data|n|n]; cbn [cq_call fifo_call].
  - destruct (cq_push_spec q x Hi) as (rc & q' & -> & Hi' & _ & Hcase). rewrite bind_Ret, Hl.
    destruct (Z.eqb_spec (Z.of_nat (len q)) (N - 1)); case_decide; try done;
      destruct Hcase as [-> Hc]; [subst|]; eauto.
  - destruct (cq_pop_spec q Hi) as (q' & -> & Hi' & Hc & _). rewrite bind_Ret.
    destruct (contents q); cbn in *; eauto.
  - rewrite (cq_peek_spec q Hi), bind_Ret. destruct (contents q) eqn:E; cbn; eauto.
  - destruct (cq_push_n_spec q data Hi) as (rc & q' & -> & Hi' & _ & Hcase). rewrite bind_Ret, Hl.
    case_decide; destruct Hcase as [-> Hc]; [subst|]; eauto.
  - destruct (cq_pop_n_spec q (replicate n 0) (Z.of_nat n) Hi) as (q' & Hi' & _ & Hcase);
      [lia|rewrite length_replicate; lia|]. rewrite Nat2Z.id, Hl in *.
    repeat case_decide; try lia; [destruct Hcase as [-> _]|destruct Hcase as (-> & Hc & _)];
      rewrite bind_Ret; eauto.
  - rewrite (cq_peek_n_spec q (replicate n 0) (Z.of_nat n) Hi) by (rewrite ?length_replicate; lia).
    rewrite Nat2Z.id, Hl. repeat case_decide; try lia; rewrite bind_Ret; eauto.
Qed.

Lemma cq_calls_refine : ∀ os q, cq_inv q →
  ∃ q', cq_calls q os = Ret ((fifo_calls (contents q) os).1, q') ∧ cq_inv q' ∧
    contents q' = (fifo_calls (contents q) os).2.
Proof.
  induction os as [|o os IH]; intros q Hi; [by exists q|]. cbn [cq_calls fifo_calls].
  destruct (cq_call_refines q o Hi) as (q1 & -> & Hi1 & Hc1). rewrite bind_Ret.
  destruct (IH q1 Hi1) as (q2 & -> & Hi2 & Hc2). rewrite bind_Ret.
  destruct (fifo_call (contents q) o) as [a l]. cbn in *. subst l.
  destruct (fifo_calls (contents q1) os) as [r l]. cbn in *. eauto.
Qed.

(** C19: The ring buffer is a FIFO queue of at most [CQ_N - 1] bytes: whatever
    sequence of single and block pushes, pops and peeks follows [cq_init], every
    call returns, no access leaves the buffer, and the answers and the final
    content are those of the list (block operations move all bytes or none;
    peeking changes nothing).  It holds for 32-bit indices with any capacity and
    for the 64-bit [CQ_N] of the benchmark, whose index arithmetic is right
    because it divides 2^32. *)
Theorem cq_refines_fifo (raw : cq_t) (os : list cq_op) :
  Z.of_nat (length (c_buf raw)) = N →
  ∃ q0 q, cq_init raw = Ret (CQ_OP_SUCCESS, q0) ∧ cq_ok q0 = CQ_OP_SUCCESS ∧
    cq_calls q0 os = Ret ((fifo_calls [] os).1, q) ∧ contents q = (fifo_calls [] os).2.
Proof.
  intros Hb. destruct (cq_init_spec raw Hb) as (q0 & Hinit & Hi & Hc & Hok).
  destruct (cq_calls_refine os q0 Hi) as (q & Hcalls & _ & Hq). rewrite Hc in *.
  by exists q0, q.
Qed.

(** ** Words *)

Lemma cq_push64_spec q x : cq_inv q →
  ∃ rc q', cq_push64 q x = Ret (rc, q') ∧ cq_inv q' ∧ fence q' = fence q ∧
    if decide (N - 1 < Z.of_nat (len q + 8)) then rc = CQ_OP_FAIL ∧ q' = q
    else rc = CQ_OP_SUCCESS ∧ contents q' = contents q ++ le_split 8 x.
Proof.
  intros Hi. unfold cq_push64. pose proof (cq_push_n_spec q (le_split 8 x) Hi) as Hs.
  rewrite le_split_length in Hs. destruct Hs as (rc & q' & E & Hi' & Hf & Hcase).
  exists rc, q'. split_and!; [exact E|done|done|].
  rewrite (decide_ext _ (N - 1 < Z.of_nat (len q + 8))) in Hcase by (split; [by intros [?|?]|by right]).
  exact Hcase.
Qed.

Lemma cq_pop64_spec q x0 : cq_inv q →
  ∃ q', cq_inv q' ∧ fence q' = fence q ∧
    (if decide (len q < 8)%nat then ∃ x, cq_pop64 q x0 = Ret (CQ_OP_FAIL, x, q) ∧ q' = q
     else cq_pop64 q x0 = Ret (CQ_OP_SUCCESS, le_combine (take 8 (contents q)), q') ∧
          contents q' = drop 8 (contents q)).
Proof.
  intros Hi. unfold cq_pop64.
  destruct (cq_pop_n_spec q (le_split 8 x0) 8 Hi) as (q' & Hi' & Hf & Hcase); [lia|by rewrite le_split_length|].
  exists q'. split_and!; [done|done|]. repeat case_decide; try lia.
  - destruct Hcase as [-> ->]. rewrite bind_Ret. by eexists.
  - destruct Hcase as (-> & Hc & _). rewrite bind_Ret. split; [done|exact Hc].
Qed.
End CQueue.

(** ** Witness: a queue of four bytes that wraps around *)

Lemma cq_refines_fifo_witness :
  ∃ q0 q, cq_init 4 32 (mkCq [9; 9; 9; 9] 0 3 1) = Ret (CQ_OP_SUCCESS, q0) ∧
    cq_calls 4 32 q0 [QPushN [1; 2]; QPop; QPushN [3; 4]; QPush 5; QPeekN 2; QPopN 3; QPop]
    = Ret ([Some []; Some [1]; Some []; None; Some [2; 3]; Some [2; 3; 4]; None], q).
Proof.
  destruct (cq_refines_fifo 4 32 ltac:(lia) (or_introl eq_refl) (mkCq [9; 9; 9; 9] 0 3 1)
    [QPushN [1; 2]; QPop; QPushN [3; 4]; QPush 5; QPeekN 2; QPopN 3; QPop] eq_refl)
    as (q0 & q & E0 & _ & E & _).
  exists q0, q. split; [exact E0|]. rewrite E. vm_compute. reflexivity.
Defined.
