(* ===== verification/Frame.v ===== *)
(** * Raw DHCP frames on the client side

    [bench-live/headers.h], [frame.h] and [frame.c]: building a client frame,
    checking and parsing a received frame, and the debug printer.  A buffer is
    the list of its bytes and a packed header is a base offset into it; header
    fields are the offsets of [headers.h].  Multi-byte fields are read in host
    (little-endian) order and swapped by [htons]/[htonl], as in the code. *)
From S2P Require Import Prelude Options.

Open Scope Z_scope.

(** ** Reading and writing words of a buffer *)

Definition load_le (n : nat) (buf : list Z) (o : nat) : outcome Z :=
  le_combine <$> load_n buf o n.
Definition store_le (n : nat) (buf : list Z) (o : nat) (x : Z) : outcome (list Z) :=
  store_n buf o (le_split n x).
Abbreviation load16 := (load_le 2).
Abbreviation load32 := (load_le 4).
Abbreviation store16 := (store_le 2).
Abbreviation store32 := (store_le 4).

(** [htons] = [ntohs] and [htonl] = [ntohl] on a little-endian host. *)
Definition bswap (n : nat) (x : Z) : Z := le_combine (rev (le_split n x)).
Abbreviation htons := (bswap 2).
Abbreviation htonl := (bswap 4).

(** Conversion of an integer to [int] *)
Definition int32 (z : Z) : Z :=
  if u32 z <? 2 ^ 31 then u32 z else u32 z - 2 ^ 32.

(** ** headers.h *)

(** [struct EthernetHdr] *)
Definition dstMAC : nat := 0.
Definition srcMAC : nat := 6.
Definition etherType : nat := 12.
Definition ETHER_LEN : nat := 14.

(** [struct IPv4Hdr] *)
Definition versionIhl : nat := 0.
Definition tos : nat := 1.
Definition ip_totalLen : nat := 2.
Definition ident : nat := 4.
Definition ip_flags : nat := 6.
Definition ttl : nat := 8.
Definition protocol : nat := 9.
Definition ip_checksum : nat := 10.
Definition srcIP : nat := 12.
Definition dstIP : nat := 16.
Definition IPv4_LEN : nat := 20.

(** [struct UDPHdr] *)
Definition srcPort : nat := 0.
Definition dstPort : nat := 2.
Definition udp_totalLen : nat := 4.
Definition udp_checksum : nat := 6.
Definition UDP_LEN : nat := 8.

(** [struct DHCPHdr] and [struct DHCP] *)
Definition dh_op : nat := 0.
Definition dh_htype : nat := 1.
Definition dh_hlen : nat := 2.
Definition dh_hops : nat := 3.
Definition dh_xid : nat := 4.
Definition dh_secs : nat := 8.
Definition dh_flags : nat := 10.
Definition dh_ciaddr : nat := 12.
Definition dh_yiaddr : nat := 16.
Definition dh_siaddr : nat := 20.
Definition dh_giaddr : nat := 24.
Definition dh_chaddr : nat := 28.
Definition dh_sname : nat := 44.
Definition dh_file : nat := 108.
Definition dh_magic : nat := 236.
Definition DHCPHDR_LEN : nat := 240.
Definition DHCP_LEN : nat := 552.

Definition MIN_RECV_LEN : Z := Z.of_nat (ETHER_LEN + IPv4_LEN + UDP_LEN + DHCPHDR_LEN).
Definition MIN_SEND_LEN : Z := Z.of_nat (ETHER_LEN + IPv4_LEN + UDP_LEN + DHCP_LEN).

(** The header pointers into a frame *)
Definition eth_hdr : nat := 0.
Definition ip_hdr : nat := ETHER_LEN.
Definition udp_hdr : nat := ip_hdr + IPv4_LEN.
Definition dhcp_hdr : nat := udp_hdr + UDP_LEN.
Definition dhcp_options : nat := dhcp_hdr + DHCPHDR_LEN.

(** ** frame.h *)

Definition DHCP_UNKNOWN : Z := 0.
Definition DHCP_DISCOVER : Z := 1.
Definition DHCP_OFFER : Z := 2.
Definition DHCP_REQUEST : Z := 3.
Definition DHCP_ACK : Z := 5.
Definition DHCP_NAK : Z := 6.

Definition OPT_PAD : Z := 0.
Definition OPT_SUBNET_MASK : Z := 1.
Definition OPT_REQUEST_IP : Z := 50.
Definition OPT_LEASE_TIME : Z := 51.
Definition OPT_MSG_TYPE : Z := 53.
Definition OPT_SERVER_IP : Z := 54.
Definition OPT_END : Z := 255.

Record build_meta := mkBuild {
  b_client_mac : list Z;
  b_requested_ip : list Z;
  b_server_ip : list Z;
  b_dhcp_type : Z;
  b_xid : Z
}.

Record parse_meta := mkParse {
  p_server_mac : list Z;
  p_offered_ip : list Z;
  p_server_ip : list Z;
  p_subnet_mask : list Z;
  p_dhcp_type : Z;
  p_lease_time : Z;
  p_xid : Z
}.

(** ** frame.c *)

(** The two summation statements of [ip_cksum]; [len] bytes at [p] are left. *)
Fixpoint cksum_sum (buf : list Z) (p len : nat) (cksum : Z) : outcome Z :=
  match len with
  | S (S len) => w ← load16 buf p; cksum_sum buf (p + 2) len (cksum ⊞ w)
  | S O => b ← deref buf p; Ret (cksum ⊞ b)
  | O => Ret cksum
  end.

(** [while (cksum >> 16) ...] *)
Fixpoint cksum_fold (fuel : nat) (cksum : Z) : outcome Z :=
  if truth (cksum ≫ 16) then
    match fuel with
    | O => Diverge
    | S fuel => cksum_fold fuel (Z.land cksum 65535 ⊞ (cksum ≫ 16))
    end
  else Ret cksum.

(** Two rounds bring any 32-bit sum below 2{^16}. *)
Definition ip_cksum (buf : list Z) (data len : nat) : outcome Z :=
  cksum ← cksum_sum buf data len 0;
  cksum ← cksum_fold 2 cksum;
  Ret (u16 (Z.lnot cksum)).

(** Consecutive [*opt++ = ...] and [memcpy(opt, ..., 4); opt += 4] *)
Definition put (st : list Z * nat) (bs : list Z) : outcome (list Z * nat) :=
  let '(buf, opt) := st in
  buf ← store_n buf opt bs; Ret (buf, (opt + length bs)%nat).

Definition build_options (buf : list Z) (meta : build_meta) : outcome (list Z) :=
  st ← put (buf, dhcp_options) [OPT_MSG_TYPE];
  st ← put st [1];
  st ← put st [u8 (b_dhcp_type meta)];
  st ← (if b_dhcp_type meta =? DHCP_REQUEST then
          st ← put st [OPT_REQUEST_IP];
          st ← put st [4];
          st ← put st (b_requested_ip meta);
          st ← put st [OPT_SERVER_IP];
          st ← put st [4];
          put st (b_server_ip meta)
        else Ret st);
  '(buf, _) ← put st [OPT_END];
  Ret buf.

Definition build_ether (buf : list Z) (meta : build_meta) : outcome (list Z) :=
  buf ← store_n buf (eth_hdr + dstMAC) (replicate 6 255);
  buf ← store_n buf (eth_hdr + srcMAC) (b_client_mac meta);
  store16 buf (eth_hdr + etherType) (htons 0x0800).

Definition build_ip (buf : list Z) : outcome (list Z) :=
  buf ← store buf (ip_hdr + versionIhl) 0x45;
  buf ← store buf (ip_hdr + ttl) 64;
  buf ← store buf (ip_hdr + protocol) 17;
  buf ← store_n buf (ip_hdr + srcIP) (replicate 4 0);
  buf ← store_n buf (ip_hdr + dstIP) (replicate 4 255);
  buf ← store16 buf (ip_hdr + ip_totalLen) (htons (Z.of_nat (IPv4_LEN + UDP_LEN + DHCP_LEN)));
  buf ← store16 buf (ip_hdr + ip_flags) (htons 0x4000);
  buf ← store16 buf (ip_hdr + ip_checksum) 0;
  c ← ip_cksum buf ip_hdr IPv4_LEN;
  store16 buf (ip_hdr + ip_checksum) c.

Definition build_udp (buf : list Z) : outcome (list Z) :=
  buf ← store16 buf (udp_hdr + srcPort) (htons 68);
  buf ← store16 buf (udp_hdr + dstPort) (htons 67);
  buf ← store16 buf (udp_hdr + udp_totalLen) (htons (Z.of_nat (UDP_LEN + DHCP_LEN)));
  store16 buf (udp_hdr + udp_checksum) 0.

Definition build_dhcp (buf : list Z) (meta : build_meta) : outcome (list Z) :=
  buf ← store buf (dhcp_hdr + dh_op) 1;
  buf ← store buf (dhcp_hdr + dh_htype) 1;
  buf ← store buf (dhcp_hdr + dh_hlen) 6;
  buf ← store32 buf (dhcp_hdr + dh_xid) (htonl (u32 (b_xid meta)));
  buf ← store16 buf (dhcp_hdr + dh_flags) (htons 0x8000);
  buf ← store32 buf (dhcp_hdr + dh_magic) (htonl 0x63825363);
  store_n buf (dhcp_hdr + dh_chaddr) (b_client_mac meta).

(** Returns the number of bytes to send (0: buffer too small) and the buffer.
    [buflen < MIN_SEND_LEN] compares as [size_t]. *)
Definition build_frame (buf : list Z) (buflen : Z) (meta : build_meta) : outcome (Z * list Z) :=
  if u64 buflen <? MIN_SEND_LEN then Ret (0, buf) else
  buf ← store_n buf 0 (replicate (Z.to_nat (u64 buflen)) 0);
  buf ← build_ether buf meta;
  buf ← build_ip buf;
  buf ← build_udp buf;
  buf ← build_dhcp buf meta;
  buf ← build_options buf meta;
  Ret (MIN_SEND_LEN, buf).

(** The lengths the checks of a received frame compute from [buflen] *)
Definition opts_len (buflen : Z) : Z := int32 (buflen - MIN_RECV_LEN).
Definition udp_len (buflen : Z) : Z := int32 (Z.of_nat (UDP_LEN + DHCPHDR_LEN) + opts_len buflen).
Definition ip_len (buflen : Z) : Z := int32 (Z.of_nat IPv4_LEN + udp_len buflen).

(** [dhcp_options[opt_idx]] and the four bytes at [dhcp_options + opt_idx] *)
Definition opt_at (buf : list Z) (opt_idx : Z) : outcome Z :=
  deref buf (dhcp_options + Z.to_nat opt_idx).
Definition opt_quad (buf : list Z) (opt_idx : Z) : outcome (list Z) :=
  load_n buf (dhcp_options + Z.to_nat opt_idx) 4.

Definition set_type (m : parse_meta) (t : Z) : parse_meta :=
  mkParse (p_server_mac m) (p_offered_ip m) (p_server_ip m) (p_subnet_mask m) t
    (p_lease_time m) (p_xid m).
Definition set_server_ip (m : parse_meta) (a : list Z) : parse_meta :=
  mkParse (p_server_mac m) (p_offered_ip m) a (p_subnet_mask m) (p_dhcp_type m)
    (p_lease_time m) (p_xid m).
Definition set_lease (m : parse_meta) (t : Z) : parse_meta :=
  mkParse (p_server_mac m) (p_offered_ip m) (p_server_ip m) (p_subnet_mask m) (p_dhcp_type m)
    t (p_xid m).
Definition set_subnet (m : parse_meta) (a : list Z) : parse_meta :=
  mkParse (p_server_mac m) (p_offered_ip m) (p_server_ip m) a (p_dhcp_type m)
    (p_lease_time m) (p_xid m).

(** The [switch (opt_type)]; every case leaves [opt_idx] behind the data. *)
Definition parse_option (buf : list Z) (opt_idx opt_type opt_len : Z) (meta : parse_meta)
    : outcome parse_meta :=
  if opt_type =? OPT_MSG_TYPE then
    if negb (opt_len =? 1) then Ret meta
    else t ← opt_at buf opt_idx; Ret (set_type meta t)
  else if opt_type =? OPT_SERVER_IP then
    if negb (opt_len =? 4) then Ret meta
    else a ← opt_quad buf opt_idx; Ret (set_server_ip meta a)
  else if opt_type =? OPT_LEASE_TIME then
    if negb (opt_len =? 4) then Ret meta
    else a ← opt_quad buf opt_idx; Ret (set_lease meta (int32 (htonl (le_combine a))))
  else if opt_type =? OPT_SUBNET_MASK then
    if negb (opt_len =? 4) then Ret meta
    else a ← opt_quad buf opt_idx; Ret (set_subnet meta a)
  else Ret meta.

(** The option loop of [parse_frame] and of [debug_frame]; [body] is what a
    round does with an option at [opt_idx]. *)
Fixpoint option_loop {A} (body : Z → Z → Z → A → outcome A) (fuel : nat) (buf : list Z)
    (opts_len opt_idx : Z) (acc : A) : outcome A :=
  match fuel with
  | O => Diverge
  | S fuel =>
      if opt_idx <? opts_len then
        opt_type ← opt_at buf opt_idx;
        let opt_idx := opt_idx + 1 in
        if opt_type =? OPT_PAD then option_loop body fuel buf opts_len opt_idx acc
        else if (opt_type =? OPT_END) || (opts_len <=? opt_idx) then Ret acc
        else
          opt_len ← opt_at buf opt_idx;
          let opt_idx := opt_idx + 1 in
          if opts_len <? opt_idx + opt_len then Ret acc
          else
            acc ← body opt_idx opt_type opt_len acc;
            option_loop body fuel buf opts_len (opt_idx + opt_len) acc
      else Ret acc
  end.

(** [opt_idx] grows in every round and stays below [opts_len]. *)
Definition option_fuel (opts_len : Z) : nat := S (Z.to_nat opts_len).

(** The checks on the IPv4 header before its checksum, and on the UDP header,
    of [parse_frame] and [parse_xid]. *)
Definition ip_check (buf : list Z) (buflen : Z) : outcome bool :=
  p ← deref buf (ip_hdr + protocol);
  if negb (p =? 17) then Ret false else
  l ← load16 buf (ip_hdr + ip_totalLen);
  Ret (l =? htons (u16 (ip_len buflen))).

Definition udp_check (buf : list Z) (buflen : Z) : outcome bool :=
  s ← load16 buf (udp_hdr + srcPort);
  if negb (s =? htons 67) then Ret false else
  d ← load16 buf (udp_hdr + dstPort);
  if negb (d =? htons 68) then Ret false else
  l ← load16 buf (udp_hdr + udp_totalLen);
  Ret (l =? htons (u16 (udp_len buflen))).

(** Returns the buffer too: the checksum field is zeroed in place. *)
Definition parse_frame (buf : list Z) (buflen : Z) (meta : parse_meta)
    : outcome (list Z * parse_meta) :=
  let meta := mkParse (replicate 6 0) (replicate 4 0) (replicate 4 0) (replicate 4 0)
                DHCP_UNKNOWN 0 (p_xid meta) in
  if u64 buflen <? MIN_RECV_LEN then Ret (buf, meta) else
  ety ← load16 buf (eth_hdr + etherType);
  if negb (ety =? htons 0x0800) then Ret (buf, meta) else
  iok ← ip_check buf buflen;
  if negb iok then Ret (buf, meta) else
  reported_cksum ← load16 buf (ip_hdr + ip_checksum);
  buf ← store16 buf (ip_hdr + ip_checksum) 0;
  c ← ip_cksum buf ip_hdr IPv4_LEN;
  if negb (reported_cksum =? c) then Ret (buf, meta) else
  uok ← udp_check buf buflen;
  if negb uok then Ret (buf, meta) else
  xid ← load32 buf (dhcp_hdr + dh_xid);
  if negb (xid =? htonl (u32 (p_xid meta))) then Ret (buf, meta) else
  smac ← load_n buf (eth_hdr + srcMAC) 6;
  sip ← load_n buf (dhcp_hdr + dh_siaddr) 4;
  oip ← load_n buf (dhcp_hdr + dh_yiaddr) 4;
  let meta := mkParse smac oip sip (p_subnet_mask meta) (p_dhcp_type meta) (p_lease_time meta)
                (p_xid meta) in
  meta ← option_loop (parse_option buf) (option_fuel (opts_len buflen)) buf (opts_len buflen) 0 meta;
  Ret (buf, meta).

(** [None]: 0 is returned and [*xid] is not written. *)
Definition parse_xid (buf : list Z) (buflen : Z) : outcome (list Z * option Z) :=
  if u64 buflen <? MIN_RECV_LEN then Ret (buf, None) else
  ety ← load16 buf (eth_hdr + etherType);
  if negb (ety =? htons 0x0800) then Ret (buf, None) else
  iok ← ip_check buf buflen;
  if negb iok then Ret (buf, None) else
  reported_cksum ← load16 buf (ip_hdr + ip_checksum);
  buf ← store16 buf (ip_hdr + ip_checksum) 0;
  c ← ip_cksum buf ip_hdr IPv4_LEN;
  buf ← store16 buf (ip_hdr + ip_checksum) reported_cksum;
  if negb (reported_cksum =? c) then Ret (buf, None) else
  uok ← udp_check buf buflen;
  if negb uok then Ret (buf, None) else
  xid ← load32 buf (dhcp_hdr + dh_xid);
  Ret (buf, Some (htonl xid)).

(** What [debug_frame] prints, one constructor per group of [printf] calls *)
Inductive debug_line :=
  | PEther (src dst : list Z) (type : Z)
  | PIPv4 (words : list Z) (flags : list Z) (src dst : list Z)
  | PUDP (words : list Z)
  | PDHCP (words : list Z) (ciaddr yiaddr siaddr giaddr : list Z)
  | POption (opt_type opt_len : Z) (content : list Z).

Definition debug_option (buf : list Z) (opt_idx opt_type opt_len : Z) (out : list debug_line)
    : outcome (list debug_line) :=
  content ← load_n buf (dhcp_options + Z.to_nat opt_idx) (Z.to_nat opt_len);
  Ret (out ++ [POption opt_type opt_len content]).

Definition debug_headers (buf : list Z) : outcome (list debug_line) :=
  smac ← load_n buf (eth_hdr + srcMAC) 6;
  dmac ← load_n buf (eth_hdr + dstMAC) 6;
  ety ← load16 buf (eth_hdr + etherType);
  vihl ← deref buf (ip_hdr + versionIhl);
  t ← deref buf (ip_hdr + tos);
  tl ← load16 buf (ip_hdr + ip_totalLen);
  id ← load16 buf (ip_hdr + ident);
  fl ← load16 buf (ip_hdr + ip_flags);
  tt ← deref buf (ip_hdr + ttl);
  pr ← deref buf (ip_hdr + protocol);
  ck ← load16 buf (ip_hdr + ip_checksum);
  sip ← load_n buf (ip_hdr + srcIP) 4;
  dip ← load_n buf (ip_hdr + dstIP) 4;
  sp ← load16 buf (udp_hdr + srcPort);
  dp ← load16 buf (udp_hdr + dstPort);
  ul ← load16 buf (udp_hdr + udp_totalLen);
  uc ← load16 buf (udp_hdr + udp_checksum);
  op ← deref buf (dhcp_hdr + dh_op);
  ht ← deref buf (dhcp_hdr + dh_htype);
  hl ← deref buf (dhcp_hdr + dh_hlen);
  hp ← deref buf (dhcp_hdr + dh_hops);
  x ← load32 buf (dhcp_hdr + dh_xid);
  ci ← load_n buf (dhcp_hdr + dh_ciaddr) 4;
  yi ← load_n buf (dhcp_hdr + dh_yiaddr) 4;
  si ← load_n buf (dhcp_hdr + dh_siaddr) 4;
  gi ← load_n buf (dhcp_hdr + dh_giaddr) 4;
  Ret [PEther smac dmac (htons ety);
       PIPv4 [vihl; t; htons tl; htons id] [htons fl; tt; pr; htons ck] sip dip;
       PUDP [htons sp; htons dp; htons ul; htons uc];
       PDHCP [op; ht; hl; hp; htonl x] ci yi si gi].

(** The UDP checks of [debug_frame], which prints requests as well as replies *)
Definition debug_udp_check (buf : list Z) (buflen : Z) : outcome bool :=
  s ← load16 buf (udp_hdr + srcPort);
  if negb (s =? htons 67) && negb (s =? htons 68) then Ret false else
  d ← load16 buf (udp_hdr + dstPort);
  if negb (d =? htons 67) && negb (d =? htons 68) then Ret false else
  l ← load16 buf (udp_hdr + udp_totalLen);
  Ret (l =? htons (u16 (udp_len buflen))).

(** [debug_frame] of a build without [DEBUG]; a frame with a bad checksum is
    left with its checksum field zeroed. *)
Definition debug_frame (buf : list Z) (buflen : Z) : outcome (list Z * list debug_line) :=
  if u64 buflen <? MIN_RECV_LEN then Ret (buf, []) else
  ety ← load16 buf (eth_hdr + etherType);
  if negb (ety =? htons 0x0800) then Ret (buf, []) else
  iok ← ip_check buf buflen;
  if negb iok then Ret (buf, []) else
  reported_cksum ← load16 buf (ip_hdr + ip_checksum);
  buf ← store16 buf (ip_hdr + ip_checksum) 0;
  c ← ip_cksum buf ip_hdr IPv4_LEN;
  if negb (reported_cksum =? c) then Ret (buf, []) else
  buf ← store16 buf (ip_hdr + ip_checksum) reported_cksum;
  uok ← debug_udp_check buf buflen;
  if negb uok then Ret (buf, []) else
  out ← debug_headers buf;
  out ← option_loop (debug_option buf) (option_fuel (opts_len buflen)) buf (opts_len buflen) 0 out;
  Ret (buf, out).

(** ** The Internet checksum *)

(** The sum of the little-endian 16-bit words of a byte string *)
Fixpoint words_sum (l : list Z) : Z :=
  match l with
  | a :: b :: l => a + 256 * b + words_sum l
  | [a] => a
  | [] => 0
  end.

(** One's complement: the representative of [s] modulo 65535 in 1 .. 65535, and
    0 for 0. *)
Definition fold16 (s : Z) : Z := if s =? 0 then 0 else (s - 1) `mod` 65535 + 1.

Lemma words_sum_app n : ∀ l1 l2, length l1 = (2 * n)%nat →
  words_sum (l1 ++ l2) = words_sum l1 + words_sum l2.
Proof.
  induction n as [|n IH]; intros l1 l2 Hl.
  - by apply length_zero_iff_nil in Hl as ->.
  - destruct l1 as [|a [|b l1]]; simpl in Hl; try lia.
    cbn [app words_sum]. rewrite IH by lia. lia.
Qed.

Lemma words_sum_range l : Forall byte l → 0 ≤ words_sum l ≤ 65535 * Z.of_nat (length l).
Proof.
  induction l as [l IH] using (induction_ltof1 _ (@length Z)). unfold ltof in IH.
  destruct l as [|a [|b l]]; intros Hl; cbn [words_sum length]; [lia| |].
  - apply Forall_inv in Hl. unfold uword in Hl. lia.
  - apply Forall_cons in Hl as [Ha Hl]. apply Forall_cons in Hl as [Hb Hl].
    unfold uword in Ha, Hb. specialize (IH l). simpl in IH. specialize (IH ltac:(lia) Hl). lia.
Qed.

Lemma load_le_2 l p a b : l !! p = Some a → l !! (p + 1)%nat = Some b →
  load16 l p = Ret (a + 256 * b).
Proof.
  intros Ha Hb. unfold load_le. rewrite load_n_le.
  2:{ apply lookup_lt_Some in Hb. lia. }
  rewrite (drop_S _ a) by done. replace (S p) with (p + 1)%nat by lia.
  rewrite (drop_S _ b) by done.
  rewrite !firstn_cons, take_0. cbn -[Z.add Z.mul]. f_equal. lia.
Qed.

Lemma cksum_sum_eq l : ∀ pre post acc, is_u32 acc →
  cksum_sum (pre ++ l ++ post) (length pre) (length l) acc = Ret (u32 (acc + words_sum l)).
Proof.
  induction l as [l IH] using (induction_ltof1 _ (@length Z)). unfold ltof in IH.
  destruct l as [|a [|b l]]; intros pre post acc Hacc; cbn [words_sum length cksum_sum app].
  - by rewrite Z.add_0_r, wrap_small.
  - rewrite deref_app_0. done.
  - rewrite (load_le_2 _ _ a b).
    2:{ rewrite lookup_app_r, Nat.sub_diag by lia. done. }
    2:{ rewrite lookup_app_r, Nat.add_comm, Nat.add_sub by lia. done. }
    rewrite bind_Ret, app_cons_2.
    replace (length pre + 2)%nat with (length (pre ++ [a; b])) by solve_length.
    rewrite IH by (simpl; try lia; apply wrap_range; lia).
    rewrite wrap_add_l by lia. do 2 f_equal. lia.
Qed.

Lemma fold16_step s : 0 ≤ s < 2 ^ 32 →
  0 ≤ s `mod` 65536 + s `div` 65536 ≤ 131070 ∧
  fold16 (s `mod` 65536 + s `div` 65536) = fold16 s.
Proof.
  intros Hs. pose proof (Z.div_mod s 65536) as Hdm. pose proof (Z.mod_pos_bound s 65536) as Hm.
  assert (0 ≤ s `div` 65536 ≤ 65535) by (split; [apply Z.div_pos; lia |
    apply Z.lt_succ_r, Z.div_lt_upper_bound; lia]).
  split; [lia|]. unfold fold16. zcases; try lia. f_equal.
  replace (s - 1) with (s `mod` 65536 + s `div` 65536 - 1 + s `div` 65536 * 65535) by lia.
  by rewrite Z.mod_add by lia.
Qed.

Lemma fold16_small s : 0 ≤ s ≤ 65535 → fold16 s = s.
Proof. intros Hs. unfold fold16. zcases; [lia|]. rewrite Z.mod_small by lia. lia. Qed.

Lemma cksum_fold_eq s : is_u32 s → cksum_fold 2 s = Ret (fold16 s).
Proof.
  intros Hs. unfold uword in Hs.
  assert (Hstep : ∀ s, 0 ≤ s < 2 ^ 32 →
    Z.land s 65535 ⊞ (s ≫ 16) = s `mod` 65536 + s `div` 65536).
  { intros t Ht. change 65535 with (Z.ones 16). rewrite Z.land_ones, Z.shiftr_div_pow2 by lia.
    destruct (fold16_step t Ht). apply wrap_small. unfold uword. lia. }
  assert (Hdone : ∀ s n, 0 ≤ s ≤ 65535 → cksum_fold n s = Ret (fold16 s)).
  { intros t n Ht. rewrite fold16_small by done.
    destruct n; cbn [cksum_fold]; rewrite Z.shiftr_div_pow2, Z.div_small by lia; done. }
  destruct (decide (s ≤ 65535)); [apply Hdone; lia|].
  cbn [cksum_fold]. destruct (truth (s ≫ 16)) eqn:E.
  2:{ unfold truth in E. apply negb_false_iff, Z.eqb_eq in E.
      rewrite Z.shiftr_div_pow2 in E by lia. pose proof (Z.div_mod s (2 ^ 16)).
      pose proof (Z.mod_pos_bound s (2 ^ 16)). lia. }
  rewrite Hstep by done. destruct (fold16_step s) as [Hr <-]; [lia|].
  revert Hr. generalize (s `mod` 65536 + s `div` 65536). clear E. intros t Ht.
  destruct (decide (t ≤ 65535)) as [Hle|].
  { pose proof (Hdone t 1%nat) as Hd. cbn [cksum_fold] in Hd. apply Hd. lia. }
  destruct (truth (t ≫ 16)) eqn:E2.
  2:{ unfold truth in E2. apply negb_false_iff, Z.eqb_eq in E2.
      rewrite Z.shiftr_div_pow2 in E2 by lia. pose proof (Z.div_mod t (2 ^ 16)).
      pose proof (Z.mod_pos_bound t (2 ^ 16)). lia. }
  rewrite Hstep by lia. destruct (fold16_step t) as [_ <-]; [lia|]. apply (Hdone _ 0%nat).
  assert (t `div` 65536 = 1) as ->.
  { apply Z.le_antisymm; [apply Z.lt_succ_r, Z.div_lt_upper_bound; lia |
      apply Z.div_le_lower_bound; lia]. }
  pose proof (Z.div_mod t 65536). assert (t `div` 65536 = 1); [|lia].
  apply Z.le_antisymm; [apply Z.lt_succ_r, Z.div_lt_upper_bound; lia |
    apply Z.div_le_lower_bound; lia].
Qed.

Lemma ip_cksum_eq pre l post :
  Forall byte l → Z.of_nat (length l) ≤ 65536 →
  ip_cksum (pre ++ l ++ post) (length pre) (length l) = Ret (65535 - fold16 (words_sum l)).
Proof.
  intros Hl Hlen. pose proof (words_sum_range l Hl).
  assert (Hs : is_u32 (words_sum l)) by (unfold uword; lia).
  unfold ip_cksum. rewrite cksum_sum_eq by (unfold uword; lia).
  rewrite Z.add_0_l, (wrap_small _ _ Hs), bind_Ret, cksum_fold_eq by done.
  rewrite bind_Ret. f_equal. unfold Z.lnot.
  assert (0 ≤ fold16 (words_sum l) ≤ 65535).
  { unfold fold16. pose proof (Z.mod_pos_bound (words_sum l - 1) 65535). zcases; lia. }
  unfold wrap. symmetry. apply Z.mod_unique_pos with (-1); lia.
Qed.

Lemma fold16_complement s : 0 ≤ s → fold16 (s + (65535 - fold16 s)) = 65535.
Proof.
  intros Hs. unfold fold16 at 2. destruct (Z.eqb_spec s 0) as [->|]; [done|].
  pose proof (Z.mod_pos_bound (s - 1) 65535). pose proof (Z.div_mod (s - 1) 65535).
  unfold fold16. zcases; [lia|].
  replace (s + (65535 - ((s - 1) `mod` 65535 + 1)) - 1)
    with (65534 + (s - 1) `div` 65535 * 65535) by lia.
  by rewrite Z.mod_add by lia.
Qed.

Lemma ip_cksum_store (pre l1 l2 post : list Z) (n : nat) :
  length l1 = (2 * n)%nat → Forall byte (l1 ++ l2) → Z.of_nat (length (l1 ++ l2)) ≤ 65534 →
  ∃ c, ip_cksum (pre ++ (l1 ++ [0; 0] ++ l2) ++ post) (length pre) (length l1 + 2 + length l2) = Ret c ∧
    is_u16 c ∧ (0 < words_sum l1 + words_sum l2 → c ≠ 65535) ∧
    ip_cksum (pre ++ (l1 ++ le_split 2 c ++ l2) ++ post) (length pre) (length l1 + 2 + length l2) = Ret 0.
Proof.
  intros Hn Hb Hlen. apply Forall_app in Hb as [Hb1 Hb2]. rewrite length_app in Hlen.
  assert (Hsum : ∀ c, words_sum (l1 ++ le_split 2 c ++ l2)
    = words_sum l1 + words_sum l2 + le_combine (le_split 2 c)).
  { intros c. rewrite (words_sum_app n) by done. rewrite (words_sum_app 1) by done.
    cbn [words_sum le_split le_combine]. lia. }
  assert (Hck : ∀ c, ip_cksum (pre ++ (l1 ++ le_split 2 c ++ l2) ++ post) (length pre)
      (length l1 + 2 + length l2)
    = Ret (65535 - fold16 (words_sum l1 + words_sum l2 + le_combine (le_split 2 c)))).
  { intros c. rewrite <- Hsum.
    replace (length l1 + 2 + length l2)%nat with (length (l1 ++ le_split 2 c ++ l2)) by solve_length.
    apply ip_cksum_eq; [|solve_length].
    rewrite !Forall_app. split_and!; [done | apply le_split_bytes | done]. }
  change [0; 0] with (le_split 2 0). rewrite Hck. change (le_combine (le_split 2 0)) with 0.
  pose proof (words_sum_range l1 Hb1). pose proof (words_sum_range l2 Hb2).
  rewrite Z.add_0_r. eexists. split; [done|].
  assert (Hc : is_u16 (65535 - fold16 (words_sum l1 + words_sum l2))).
  { unfold uword, fold16. pose proof (Z.mod_pos_bound (words_sum l1 + words_sum l2 - 1) 65535).
    zcases; lia. }
  split; [done|]. split.
  { intros Hpos Heq. assert (fold16 (words_sum l1 + words_sum l2) = 0) as Hz by lia. revert Hz.
    unfold fold16. pose proof (Z.mod_pos_bound (words_sum l1 + words_sum l2 - 1) 65535).
    zcases; lia. }
  rewrite Hck, le_combine_split by exact Hc.
  by rewrite fold16_complement by lia.
Qed.

(** [ip_cksum] is the Internet checksum.  Its folding loop always ends; over
    a header whose checksum word is zero it returns the 16-bit word that, stored
    there, makes the same computation over the whole header return 0, the
    receiver's test of RFC 1071.  The header is any byte string of up to 65534
    bytes with the checksum word at an even offset. *)
Theorem ip_cksum_verifies (pre l1 l2 post : list Z) (n : nat) :
  length l1 = (2 * n)%nat → Forall byte (l1 ++ l2) → Z.of_nat (length (l1 ++ l2)) ≤ 65534 →
  ∃ c, ip_cksum (pre ++ (l1 ++ [0; 0] ++ l2) ++ post) (length pre) (length l1 + 2 + length l2) = Ret c ∧
    is_u16 c ∧
    ip_cksum (pre ++ (l1 ++ le_split 2 c ++ l2) ++ post) (length pre) (length l1 + 2 + length l2) = Ret 0.
Proof.
  intros Hn Hb Hl. destruct (ip_cksum_store pre l1 l2 post n Hn Hb Hl) as (c & ? & ? & _ & ?).
  exists c. split_and!; done.
Qed.

(** The header a client sends, RFC 1071's worked shape: no byte before or after. *)
Definition sample_header : list Z :=
  [0x45; 0; 0x02; 0x44; 0; 0; 0x40; 0; 64; 17].

Lemma ip_cksum_verifies_witness :
  length sample_header = 10%nat ∧
  ∃ c, ip_cksum ([1] ++ (sample_header ++ [0; 0] ++ replicate 4 0 ++ replicate 4 255) ++ [])
         1 20 = Ret c ∧ is_u16 c ∧
       ip_cksum ([1] ++ (sample_header ++ le_split 2 c ++ replicate 4 0 ++ replicate 4 255) ++ [])
         1 20 = Ret 0.
Proof.
  split; [done|].
  apply (ip_cksum_verifies [1] sample_header (replicate 4 0 ++ replicate 4 255) [] 5).
  - done.
  - apply (bool_decide_eq_true_1 _). vm_compute. done.
  - vm_compute. done.
Defined.

(** ** Accesses to a buffer do not depend on what follows the bytes they touch *)

Lemma store_n_ext {A} (l r : list A) i s l' :
  store_n l i s = Ret l' → store_n (l ++ r) i s = Ret (l' ++ r).
Proof.
  unfold store_n. case_decide; [|done]. intros [= <-]. rewrite decide_True by solve_length.
  f_equal. apply list_eq. intros k.
  destruct (decide (i ≤ k < i + length s)%nat) as [Hk|Hk].
  - rewrite list_lookup_inserts by solve_length.
    rewrite lookup_app_l by (rewrite length_inserts; lia).
    by rewrite list_lookup_inserts by lia.
  - assert (k < i ∨ i + length s ≤ k)%nat as [?|?] by lia.
    + rewrite list_lookup_inserts_lt by lia.
      rewrite !lookup_app_l by (rewrite ?length_inserts; lia).
      by rewrite list_lookup_inserts_lt by lia.
    + rewrite list_lookup_inserts_ge by lia.
      destruct (decide (k < length l)%nat).
      * rewrite !lookup_app_l by (rewrite ?length_inserts; lia).
        by rewrite list_lookup_inserts_ge by lia.
      * rewrite !lookup_app_r by (rewrite ?length_inserts; lia). by rewrite length_inserts.
Qed.

Lemma store_ext {A} (l r : list A) i a l' :
  store l i a = Ret l' → store (l ++ r) i a = Ret (l' ++ r).
Proof.
  unfold store. case_decide; [|done]. intros [= <-]. rewrite decide_True by solve_length.
  by rewrite insert_app_l by lia.
Qed.

Lemma load_n_ext {A} (l r : list A) i n s : load_n l i n = Ret s → load_n (l ++ r) i n = Ret s.
Proof.
  unfold load_n. case_decide; [|done]. intros [= <-]. rewrite decide_True by solve_length.
  f_equal. rewrite drop_app_le by lia. rewrite take_app_le by solve_length. done.
Qed.

Lemma deref_ext {A} (l r : list A) i a : deref l i = Ret a → deref (l ++ r) i = Ret a.
Proof. rewrite !deref_Ret. intros H. by apply lookup_app_l_Some. Qed.

Lemma load_le_ext n l r i x : load_le n l i = Ret x → load_le n (l ++ r) i = Ret x.
Proof.
  unfold load_le. destruct (load_n l i n) eqn:E; [|done..]. by rewrite (load_n_ext _ r _ _ _ E).
Qed.

Lemma store_le_ext n l r i x l' : store_le n l i x = Ret l' → store_le n (l ++ r) i x = Ret (l' ++ r).
Proof. apply store_n_ext. Qed.

Lemma cksum_sum_ext len l r : ∀ p acc s,
  cksum_sum l p len acc = Ret s → cksum_sum (l ++ r) p len acc = Ret s.
Proof.
  induction len as [len IH] using lt_wf_ind. destruct len as [|[|len]]; intros p acc s Hs;
    cbn [cksum_sum] in *; [done | | ]; inv_ret.
  - rewrite (deref_ext _ _ _ _ Hv). done.
  - rewrite (load_le_ext _ _ _ _ _ Hv), bind_Ret. apply IH; [lia | done].
Qed.

Lemma ip_cksum_ext l r p len c : ip_cksum l p len = Ret c → ip_cksum (l ++ r) p len = Ret c.
Proof.
  unfold ip_cksum. intros H. inv_ret. rewrite (cksum_sum_ext _ _ _ _ _ _ Hv), bind_Ret, Hv0. done.
Qed.

Lemma put_ext l r o bs l' o' : put (l, o) bs = Ret (l', o') → put (l ++ r, o) bs = Ret (l' ++ r, o').
Proof. unfold put. intros H. inv_ret. rewrite (store_n_ext _ _ _ _ _ Hv). done. Qed.

(** Replay on [l ++ r] the statements that returned on [l]. *)
Ltac replay :=
  repeat match goal with v : (list Z * nat)%type |- _ => destruct v end; cbn [fst snd] in *;
  repeat match goal with
  | H : store_n ?l ?i ?s = Ret _ |- context [store_n (?l ++ ?r) ?i ?s] =>
      rewrite (store_n_ext l r i s _ H), bind_Ret
  | H : store ?l ?i ?s = Ret _ |- context [store (?l ++ ?r) ?i ?s] =>
      rewrite (store_ext l r i s _ H), ?bind_Ret
  | H : store_le ?n ?l ?i ?s = Ret _ |- context [store_le ?n (?l ++ ?r) ?i ?s] =>
      rewrite (store_le_ext n l r i s _ H), ?bind_Ret
  | H : ip_cksum ?l ?i ?s = Ret _ |- context [ip_cksum (?l ++ ?r) ?i ?s] =>
      rewrite (ip_cksum_ext l r i s _ H), bind_Ret
  | H : put (?l, ?o) ?s = Ret (_, _) |- context [put (?l ++ ?r, ?o) ?s] =>
      rewrite (put_ext l r o s _ _ H), ?bind_Ret
  end.

Lemma build_ether_ext l r meta l' : build_ether l meta = Ret l' → build_ether (l ++ r) meta = Ret (l' ++ r).
Proof. unfold build_ether. intros H. inv_ret. replay. done. Qed.

Lemma build_ip_ext l r l' : build_ip l = Ret l' → build_ip (l ++ r) = Ret (l' ++ r).
Proof. unfold build_ip. intros H. inv_ret. replay. done. Qed.

Lemma build_udp_ext l r l' : build_udp l = Ret l' → build_udp (l ++ r) = Ret (l' ++ r).
Proof. unfold build_udp. intros H. inv_ret. replay. done. Qed.

Lemma build_dhcp_ext l r meta l' : build_dhcp l meta = Ret l' → build_dhcp (l ++ r) meta = Ret (l' ++ r).
Proof. unfold build_dhcp. intros H. inv_ret. replay. by apply store_n_ext. Qed.

Lemma build_options_ext l r meta l' :
  build_options l meta = Ret l' → build_options (l ++ r) meta = Ret (l' ++ r).
Proof.
  unfold build_options. destruct (b_dhcp_type meta =? DHCP_REQUEST); intros H; inv_ret; replay;
    inv_ret; done.
Qed.

(** ** The frame a client sends *)

(** A 32-bit word in network byte order *)
Definition be32 (x : Z) : list Z := rev (le_split 4 x).

Definition client_items (meta : build_meta) : list item :=
  Opt OPT_MSG_TYPE [u8 (b_dhcp_type meta)] ::
  (if b_dhcp_type meta =? DHCP_REQUEST
   then [Opt OPT_REQUEST_IP (b_requested_ip meta); Opt OPT_SERVER_IP (b_server_ip meta)]
   else []).

Definition ether_header (dst src : list Z) : list Z := dst ++ src ++ [8; 0].

(** The IPv4 header of a packet of [len] bytes from 0.0.0.0 to 255.255.255.255,
    with its checksum as two bytes. *)
Definition client_ip_header (cksum : list Z) : list Z :=
  [0x45; 0; 0x02; 0x44; 0; 0; 0x40; 0; 64; 17] ++ cksum ++ replicate 4 0 ++ replicate 4 255.

Definition client_udp_header : list Z := [0; 68; 0; 67; 0x02; 0x30; 0; 0].

Definition client_dhcp_header (meta : build_meta) : list Z :=
  [1; 1; 6; 0] ++ be32 (u32 (b_xid meta)) ++ [0; 0; 0x80; 0] ++ replicate 16 0 ++
  b_client_mac meta ++ replicate 10 0 ++ replicate 192 0 ++ [0x63; 0x82; 0x53; 0x63].

Definition client_options (meta : build_meta) : list Z :=
  let e := encode (client_items meta) ++ [OPT_END] in e ++ replicate (312 - length e) 0.

Definition client_frame (meta : build_meta) : list Z :=
  ether_header (replicate 6 255) (b_client_mac meta) ++ client_ip_header [0x38; 0xaa] ++
  client_udp_header ++ client_dhcp_header meta ++ client_options meta.

Record meta_ok (meta : build_meta) : Prop := {
  mo_mac : length (b_client_mac meta) = 6%nat;
  mo_req : length (b_requested_ip meta) = 4%nat;
  mo_srv : length (b_server_ip meta) = 4%nat
}.

Lemma le_split_bswap n x : le_split n (bswap n x) = rev (le_split n x).
Proof.
  unfold bswap. rewrite <- (le_split_combine (rev (le_split n x))) at 2.
  2:{ apply Forall_rev, le_split_bytes. }
  by rewrite length_rev, le_split_length.
Qed.

Lemma client_body meta : meta_ok meta →
  (buf ← build_ether (replicate 594 0) meta; buf ← build_ip buf; buf ← build_udp buf;
   buf ← build_dhcp buf meta; build_options buf meta) = Ret (client_frame meta).
Proof.
  intros [Hm Hr Hs]. unfold client_frame, client_options, client_items, build_options, build_dhcp.
  unfold client_dhcp_header, be32, build_ether, store_le.
  rewrite (le_split_bswap 4 (u32 (b_xid meta))).
  pose proof (le_split_length 4 (u32 (b_xid meta))) as Hx. rewrite <- length_rev in Hx.
  generalize (u8 (b_dhcp_type meta)). intros t.
  destruct meta as [mac rip sip ty xid]; simpl in Hm, Hr, Hs.
  cbn [b_client_mac b_requested_ip b_server_ip b_dhcp_type b_xid] in *.
  destruct (rev (le_split 4 (u32 xid))) as [|x0 [|x1 [|x2 [|x3 [|]]]]]; try discriminate Hx.
  destruct mac as [|m0 [|m1 [|m2 [|m3 [|m4 [|m5 [|]]]]]]]; try discriminate Hm.
  destruct rip as [|r0 [|r1 [|r2 [|r3 [|]]]]]; try discriminate Hr.
  destruct sip as [|s0 [|s1 [|s2 [|s3 [|]]]]]; try discriminate Hs.
  destruct (ty =? DHCP_REQUEST); vm_compute; reflexivity.
Qed.

Lemma client_body_inv meta : meta_ok meta →
  ∃ b1 b2 b3 b4, build_ether (replicate 594 0) meta = Ret b1 ∧ build_ip b1 = Ret b2 ∧
    build_udp b2 = Ret b3 ∧ build_dhcp b3 meta = Ret b4 ∧
    build_options b4 meta = Ret (client_frame meta).
Proof.
  intros Hm. pose proof (client_body meta Hm) as H. inv_ret. by exists v, v0, v1, v2.
Qed.

Lemma memset_prefix buf n : (n ≤ length buf)%nat →
  store_n buf 0 (replicate n 0) = Ret (replicate n 0 ++ drop n buf).
Proof.
  intros Hn. rewrite store_n_le by solve_length. f_equal.
  rewrite <- (take_drop n buf) at 1.
  apply (list_inserts_app [] (take n buf) (drop n buf)). solve_length.
Qed.

Lemma build_frame_eq buf buflen meta :
  meta_ok meta → MIN_SEND_LEN ≤ buflen ≤ Z.of_nat (length buf) → buflen < 2 ^ 31 →
  build_frame buf buflen meta = Ret (MIN_SEND_LEN,
    client_frame meta ++ replicate (Z.to_nat buflen - 594) 0 ++ drop (Z.to_nat buflen) buf).
Proof.
  intros Hm Hl Hb. unfold build_frame.
  assert (Hu : u64 buflen = buflen) by (apply wrap_small; unfold uword, MIN_SEND_LEN in *; lia).
  rewrite Hu, (proj2 (Z.ltb_ge _ _)) by lia.
  rewrite memset_prefix, bind_Ret by lia.
  assert (594 ≤ Z.to_nat buflen)%nat by (change MIN_SEND_LEN with 594 in Hl; lia).
  replace (replicate (Z.to_nat buflen) 0)
    with (replicate 594 0 ++ replicate (Z.to_nat buflen - 594) 0)
    by (rewrite <- replicate_add; f_equal; lia).
  rewrite <- app_assoc. set (r := _ ++ drop _ _).
  destruct (client_body_inv meta Hm) as (b1 & b2 & b3 & b4 & H1 & H2 & H3 & H4 & H5).
  rewrite (build_ether_ext _ r _ _ H1), bind_Ret, (build_ip_ext _ r _ H2), bind_Ret.
  rewrite (build_udp_ext _ r _ H3), bind_Ret, (build_dhcp_ext _ r _ _ H4), bind_Ret.
  by rewrite (build_options_ext _ r _ _ H5).
Qed.

(** C23: [build_frame] writes exactly the frame the protocol asks for: into any
    buffer of at least 594 bytes it puts a broadcast Ethernet header, an IPv4
    header whose checksum verifies, the UDP header of ports 68 to 67 and a
    BOOTREQUEST that carries the client's address, transaction id and options,
    and returns 594; into a shorter one it writes nothing and returns 0. *)
Theorem build_frame_correct (buf : list Z) (buflen : Z) (meta : build_meta) :
  meta_ok meta → 0 ≤ buflen ≤ Z.of_nat (length buf) → buflen < 2 ^ 31 →
  (buflen < MIN_SEND_LEN → build_frame buf buflen meta = Ret (0, buf)) ∧
  (MIN_SEND_LEN ≤ buflen →
     build_frame buf buflen meta = Ret (MIN_SEND_LEN,
       client_frame meta ++ replicate (Z.to_nat buflen - 594) 0 ++ drop (Z.to_nat buflen) buf) ∧
     ip_cksum (client_frame meta) ip_hdr IPv4_LEN = Ret 0).
Proof.
  intros Hm Hl Hb. split; intros Hs.
  - unfold build_frame. rewrite wrap_small by (unfold uword; lia).
    by rewrite (proj2 (Z.ltb_lt _ _)).
  - split; [apply build_frame_eq; [done | lia | done]|].
    unfold client_frame. destruct Hm as [Hmac _ _].
    destruct (b_client_mac meta) as [|m0 [|m1 [|m2 [|m3 [|m4 [|m5 [|]]]]]]]; try discriminate Hmac.
    unfold ether_header. rewrite <- !app_assoc.
    apply (ip_cksum_ext (replicate 6 255 ++ [m0; m1; m2; m3; m4; m5] ++ [8; 0]
      ++ client_ip_header [0x38; 0xaa])). vm_compute. reflexivity.
Qed.

Definition sample_meta : build_meta :=
  mkBuild [2; 0xde; 0xad; 0xbe; 0xef; 1] [192; 168; 4; 100] [192; 168; 4; 1] DHCP_REQUEST (-2).

Lemma build_frame_correct_witness :
  MIN_SEND_LEN ≤ 1024 ∧
  build_frame (replicate 1024 7) 1024 sample_meta
  = Ret (MIN_SEND_LEN, client_frame sample_meta ++ replicate 430 0).
Proof.
  split; [done|].
  destruct (build_frame_correct (replicate 1024 7) 1024 sample_meta) as [_ H];
    [split; reflexivity | split; [done | vm_compute; done] | done |].
  destruct H as [H _]; [done|]. exact H.
Defined.

(** ** The option loop *)

(** A field of [n] bytes of which [k] are options: nothing is left, or an END. *)
Definition options_end (n : Z) (k : nat) (rest : list Z) : Prop :=
  Z.of_nat k = n ∨ (Z.of_nat k < n ∧ ∃ r, rest = OPT_END :: r).

Lemma options_end_le n k rest : options_end n k rest → Z.of_nat k ≤ n.
Proof. intros [?|[? _]]; lia. Qed.

(** On a field of well-formed options, up to its end or an END, the loop folds [step] over
    them when each round of [body] performs one [step]. *)
Section option_loop.
Context {A : Type} (body : Z → Z → Z → A → outcome A) (step : A → item → A) (buf : list Z).
Context (body_step : ∀ pre c d rest i acc, buf = pre ++ d ++ rest →
  length pre = (dhcp_options + i)%nat →
  body (Z.of_nat i) c (Z.of_nat (length d)) acc = Ret (step acc (Opt c d))).
Context (step_pad : ∀ acc, step acc Pad = acc).

Lemma opt_at_app pre x rest i :
  buf = pre ++ x :: rest → length pre = (dhcp_options + i)%nat → opt_at buf (Z.of_nat i) = Ret x.
Proof. intros -> Hl. unfold opt_at. by rewrite Nat2Z.id, <- Hl, deref_app_0. Qed.

Lemma option_loop_items n its : ∀ fuel i pre rest acc,
  Forall item_ok its → buf = pre ++ encode its ++ rest →
  length pre = (dhcp_options + i)%nat → options_end n (i + length (encode its)) rest →
  (Z.to_nat n - i < fuel)%nat →
  option_loop body fuel buf n (Z.of_nat i) acc = Ret (fold_left step its acc).
Proof.
  induction its as [|[|c d] its IH]; intros [|fuel] i pre rest acc Hok Hbuf Hpre Hn Hf; try lia;
    cbn [option_loop fold_left]; rewrite ?encode_cons in *; cbn [enc_item app length] in *.
  - cbn [encode mbind list_bind app length] in *. rewrite Nat.add_0_r in Hn.
    destruct Hn as [<-|[Hn [r ->]]]; [by rewrite Z.ltb_irrefl|].
    rewrite (proj2 (Z.ltb_lt _ _)) by lia.
    by rewrite (opt_at_app _ _ _ _ Hbuf Hpre), bind_Ret.
  - pose proof (options_end_le _ _ _ Hn) as Hle.
    rewrite (proj2 (Z.ltb_lt _ _)) by lia.
    rewrite (opt_at_app _ _ _ _ Hbuf Hpre), bind_Ret. cbn [Z.eqb].
    rewrite step_pad. replace (Z.of_nat i + 1) with (Z.of_nat (i + 1)) by lia.
    apply (IH _ _ (pre ++ [0]) rest); [by inversion Hok | by rewrite <- app_assoc | | |].
    + solve_length.
    + by replace (i + 1 + length (encode its))%nat with (i + S (length (encode its)))%nat by lia.
    + lia.
  - pose proof (options_end_le _ _ _ Hn) as Hle. rewrite length_app in Hn, Hle.
    apply Forall_cons in Hok as [[Hc Hd] Hok'].
    rewrite (proj2 (Z.ltb_lt _ _)) by lia.
    rewrite (opt_at_app _ _ _ _ Hbuf Hpre), bind_Ret.
    rewrite (proj2 (Z.eqb_neq _ _)), (proj2 (Z.eqb_neq _ _)) by (unfold OPT_PAD, OPT_END;
      unfold DHCP_OPT_PAD, DHCP_OPT_END in Hc; lia).
    rewrite (proj2 (Z.leb_gt _ _)) by lia. cbn [orb].
    replace (Z.of_nat i + 1) with (Z.of_nat (i + 1)) by lia.
    rewrite app_cons_2 in Hbuf.
    rewrite (opt_at_app (pre ++ [c]) (Z.of_nat (length d)) ((d ++ encode its) ++ rest))
      by (rewrite ?Hbuf, <- ?app_assoc; done || solve_length).
    rewrite bind_Ret, (proj2 (Z.ltb_ge _ _)) by lia.
    replace (Z.of_nat (i + 1) + 1) with (Z.of_nat (i + 2)) by lia.
    rewrite (body_step (pre ++ [c; Z.of_nat (length d)]) c d (encode its ++ rest))
      by (rewrite ?Hbuf, <- ?app_assoc; done || solve_length).
    rewrite bind_Ret, <- Nat2Z.inj_add.
    apply (IH _ _ ((pre ++ [c; Z.of_nat (length d)]) ++ d) rest); [done | | | |].
    + rewrite Hbuf. by rewrite <- !app_assoc.
    + solve_length.
    + by replace (i + 2 + length d + length (encode its))%nat
        with (i + S (S (length d + length (encode its))))%nat by lia.
    + lia.
Qed.

End option_loop.

Lemma option_loop_total {A} (body : Z → Z → Z → A → outcome A) buf n :
  (∀ i t l acc, 0 ≤ i → 0 ≤ l → i + l ≤ n → ∃ acc', body i t l acc = Ret acc') →
  Forall byte buf → (dhcp_options + Z.to_nat n ≤ length buf)%nat →
  ∀ fuel i acc, 0 ≤ i → (Z.to_nat n - Z.to_nat i < fuel)%nat →
  ∃ acc', option_loop body fuel buf n i acc = Ret acc'.
Proof.
  intros Hbody Hb Hlen. induction fuel as [|fuel IH]; intros i acc Hi Hf; [lia|].
  cbn [option_loop]. destruct (Z.ltb_spec i n); [|by eexists].
  unfold opt_at. destruct (deref_lt buf (dhcp_options + Z.to_nat i)) as (t & Ht & ->); [lia|].
  rewrite bind_Ret. destruct (t =? OPT_PAD); [apply IH; lia|].
  destruct (_ || _) eqn:E; [by eexists|].
  apply orb_false_iff in E as [_ E%Z.leb_gt].
  destruct (deref_lt buf (dhcp_options + Z.to_nat (i + 1))) as (l & Hl & ->); [lia|].
  rewrite bind_Ret. destruct (Z.ltb_spec n (i + 1 + 1 + l)); [by eexists|].
  assert (0 ≤ l) by (eapply Forall_lookup_1 in Hl; [|done]; unfold uword in Hl; lia).
  destruct (Hbody (i + 1 + 1) t l acc) as [acc' ->]; [lia..|].
  rewrite bind_Ret. apply IH; lia.
Qed.

(** ** Fields of a received frame *)

(** The [n] bytes at [o]. *)
Definition field (buf : list Z) (o n : nat) : list Z := take n (drop o buf).
Definition be16 (x : Z) : list Z := rev (le_split 2 x).

Lemma field_length buf o n : (o + n ≤ length buf)%nat → length (field buf o n) = n.
Proof. intros. unfold field. solve_length. Qed.

Lemma field_bytes buf o n : Forall byte buf → Forall byte (field buf o n).
Proof. intros. by apply Forall_take, Forall_drop. Qed.

Lemma load_field buf o n : (o + n ≤ length buf)%nat → load_n buf o n = Ret (field buf o n).
Proof. apply load_n_le. Qed.

Lemma load_le_field n buf o : (o + n ≤ length buf)%nat →
  load_le n buf o = Ret (le_combine (field buf o n)).
Proof. intros. unfold load_le. by rewrite load_field. Qed.

Lemma le_combine_inj l1 l2 : Forall byte l1 → Forall byte l2 → length l1 = length l2 →
  le_combine l1 = le_combine l2 → l1 = l2.
Proof.
  intros H1 H2 Hl E. rewrite <- (le_split_combine l1), <- (le_split_combine l2) by done.
  by rewrite Hl, E.
Qed.

(** Comparing a loaded word with a swapped constant compares the bytes with the
    big-endian constant. *)
Lemma field_eqb n buf o x : Forall byte buf → (o + n ≤ length buf)%nat →
  (le_combine (field buf o n) =? bswap n x) = bool_decide (field buf o n = rev (le_split n x)).
Proof.
  intros Hb Hlen. assert (Hfl := field_length buf o n Hlen).
  assert (Hfb := field_bytes buf o n Hb).
  case_bool_decide as E.
  - rewrite E. apply Z.eqb_refl.
  - apply Z.eqb_neq. intros Heq. apply E. apply le_combine_inj; [done | | | done].
    + apply Forall_rev, le_split_bytes.
    + by rewrite length_rev, le_split_length.
Qed.

Lemma field_field_app buf o n m : field buf o (n + m) = field buf o n ++ field buf (o + n) m.
Proof. unfold field. by rewrite <- take_take_drop, drop_drop. Qed.

Lemma frame_split buf o n : buf = field buf 0 o ++ field buf o n ++ drop (o + n) buf.
Proof. unfold field. by rewrite drop_0, <- drop_drop, take_drop, take_drop. Qed.

(** ** What a client accepts as a reply to [xid] *)

Definition is_reply (buf : list Z) (buflen xid : Z) : Prop :=
  field buf (eth_hdr + etherType) 2 = [8; 0] ∧
  field buf (ip_hdr + protocol) 1 = [17] ∧
  field buf (ip_hdr + ip_totalLen) 2 = be16 (buflen - 14) ∧
  ip_cksum buf ip_hdr IPv4_LEN = Ret 0 ∧
  field buf (ip_hdr + ip_checksum) 2 ≠ [255; 255] ∧
  field buf (udp_hdr + srcPort) 4 = [0; 67; 0; 68] ∧
  field buf (udp_hdr + udp_totalLen) 2 = be16 (buflen - 34) ∧
  field buf (dhcp_hdr + dh_xid) 4 = be32 xid.

(** The buffer with its checksum word zeroed *)
Definition cksum_zeroed (buf : list Z) : list Z := list_inserts (ip_hdr + ip_checksum) [0; 0] buf.

(** What an option does to the result. *)
Definition apply_item (m : parse_meta) (i : item) : parse_meta :=
  match i with
  | Pad => m
  | Opt c d =>
      if c =? OPT_MSG_TYPE then match d with [t] => set_type m t | _ => m end
      else if c =? OPT_SERVER_IP then if (length d =? 4)%nat then set_server_ip m d else m
      else if c =? OPT_LEASE_TIME then
        if (length d =? 4)%nat then set_lease m (int32 (le_combine (rev d))) else m
      else if c =? OPT_SUBNET_MASK then if (length d =? 4)%nat then set_subnet m d else m
      else m
  end.

Definition no_meta (xid : Z) : parse_meta :=
  mkParse (replicate 6 0) (replicate 4 0) (replicate 4 0) (replicate 4 0) DHCP_UNKNOWN 0 xid.

(** The result of an accepted frame before its options are read. *)
Definition header_meta (buf : list Z) (xid : Z) : parse_meta :=
  mkParse (field buf (eth_hdr + srcMAC) 6) (field buf (dhcp_hdr + dh_yiaddr) 4)
    (field buf (dhcp_hdr + dh_siaddr) 4) (replicate 4 0) DHCP_UNKNOWN 0 xid.

#[export] Instance outcome_eq_dec {A} `{EqDecision A} : EqDecision (outcome A).
Proof. solve_decision. Defined.

#[export] Instance is_reply_dec buf buflen xid : Decision (is_reply buf buflen xid).
Proof. unfold is_reply. apply _. Defined.

(** A buffer a receive call filled with [buflen] bytes, long enough to hold the
    headers. *)
Record received (buf : list Z) (buflen : Z) : Prop := {
  rc_bytes : Forall byte buf;
  rc_len : MIN_RECV_LEN ≤ buflen ≤ Z.of_nat (length buf);
  rc_int : buflen < 2 ^ 31
}.

Lemma received_282 buf buflen : received buf buflen → (282 ≤ length buf)%nat.
Proof. intros [_ H _]. change MIN_RECV_LEN with 282 in H. lia. Qed.

Lemma int32_small z : 0 ≤ z < 2 ^ 31 → int32 z = z.
Proof.
  intros Hz. unfold int32. rewrite wrap_small by (unfold uword; lia).
  by rewrite (proj2 (Z.ltb_lt _ _)) by lia.
Qed.

Lemma received_lens buf buflen : received buf buflen →
  opts_len buflen = buflen - 282 ∧ udp_len buflen = buflen - 34 ∧ ip_len buflen = buflen - 14 ∧
  (u64 buflen <? MIN_RECV_LEN) = false.
Proof.
  intros [_ H Hi]. change MIN_RECV_LEN with 282 in *.
  assert (Ho : opts_len buflen = buflen - 282) by (apply int32_small; change MIN_RECV_LEN with 282; lia).
  assert (Hu : udp_len buflen = buflen - 34).
  { unfold udp_len. rewrite Ho. change (Z.of_nat (UDP_LEN + DHCPHDR_LEN)) with 248.
    rewrite int32_small; lia. }
  assert (Hp : ip_len buflen = buflen - 14).
  { unfold ip_len. rewrite Hu. change (Z.of_nat IPv4_LEN) with 20. rewrite int32_small; lia. }
  split_and!; [done..|]. apply Z.ltb_ge. rewrite wrap_small by (unfold uword; lia). lia.
Qed.

Lemma le_split_u16 x : le_split 2 (u16 x) = le_split 2 x.
Proof.
  cbn [le_split]. unfold wrap. change (2 ^ 16) with 65536.
  f_equal; [|f_equal]; Z.to_euclidean_division_equations; lia.
Qed.

Lemma bswap_u16 x : htons (u16 x) = htons x.
Proof. unfold bswap. by rewrite le_split_u16. Qed.

Ltac in_range := match goal with H : (282 ≤ length _)%nat |- _ =>
  unfold dhcp_options, dhcp_hdr, udp_hdr, ip_hdr, eth_hdr, ETHER_LEN, IPv4_LEN, UDP_LEN,
    DHCPHDR_LEN, dstMAC, srcMAC, etherType, ip_checksum, ip_totalLen, protocol, srcPort,
    dstPort, udp_totalLen, dh_xid, dh_yiaddr, dh_siaddr in *;
  rewrite ?length_inserts; lia end.

Lemma deref_field buf o : (o < length buf)%nat → ∃ x, deref buf o = Ret x ∧ field buf o 1 = [x].
Proof.
  intros H. destruct (deref_lt buf o H) as (x & Hx & Hd). exists x. split; [done|].
  unfold field. by rewrite (drop_S _ _ _ Hx), firstn_cons, take_0.
Qed.

Lemma ip_check_eq buf buflen : received buf buflen →
  ip_check buf buflen = Ret (bool_decide (field buf (ip_hdr + protocol) 1 = [17] ∧
    field buf (ip_hdr + ip_totalLen) 2 = be16 (buflen - 14))).
Proof.
  intros Hr. pose proof (received_282 _ _ Hr) as Hlen.
  destruct (received_lens _ _ Hr) as (_ & _ & Hip & _). destruct Hr as [Hb _ _].
  unfold ip_check. destruct (deref_field buf (ip_hdr + protocol)) as (x & -> & ->); [in_range|].
  rewrite bind_Ret. destruct (Z.eqb_spec x 17) as [->|Hne]; cbn [negb].
  - rewrite load_le_field, bind_Ret by in_range. rewrite Hip, bswap_u16.
    rewrite field_eqb by (done || in_range). f_equal. unfold be16.
    apply bool_decide_ext. split; [by split | by intros [_ ?]].
  - rewrite bool_decide_false; [done|]. intros [[=] _]. done.
Qed.

Lemma udp_check_eq buf buflen : received buf buflen →
  udp_check buf buflen = Ret (bool_decide (field buf (udp_hdr + srcPort) 4 = [0; 67; 0; 68] ∧
    field buf (udp_hdr + udp_totalLen) 2 = be16 (buflen - 34))).
Proof.
  intros Hr. pose proof (received_282 _ _ Hr) as Hlen.
  destruct (received_lens _ _ Hr) as (_ & Hu & _ & _). destruct Hr as [Hb _ _].
  unfold udp_check. change 4%nat with (2 + 2)%nat. rewrite field_field_app.
  change (udp_hdr + srcPort + 2)%nat with (udp_hdr + dstPort)%nat.
  rewrite !load_le_field, !bind_Ret by in_range.
  rewrite Hu, bswap_u16, !field_eqb by (done || in_range).
  change (rev (le_split 2 67)) with [0; 67]. change (rev (le_split 2 68)) with [0; 68].
  pose proof (field_length buf (udp_hdr + srcPort) 2) as Hl1.
  pose proof (field_length buf (udp_hdr + dstPort) 2) as Hl2.
  set (A := field buf (udp_hdr + srcPort) 2) in *. set (B := field buf (udp_hdr + dstPort) 2) in *.
  rewrite (bool_decide_ext (A ++ B = [0; 67; 0; 68] ∧ _)
    ((A = [0; 67] ∧ B = [0; 68]) ∧ field buf (udp_hdr + udp_totalLen) 2 = be16 (buflen - 34))).
  - rewrite !bool_decide_and. destruct (bool_decide (A = _)), (bool_decide (B = _)); done.
  - apply and_iff_compat_r. change [0; 67; 0; 68] with ([0; 67] ++ [0; 68]). split.
    + apply app_inj_1. apply Hl1. in_range.
    + by intros [-> ->].
Qed.

(** *** The checksum test *)

Lemma fold16_range s : 0 ≤ s → 0 ≤ fold16 s ≤ 65535.
Proof.
  intros. unfold fold16. pose proof (Z.mod_pos_bound (s - 1) 65535). zcases; lia.
Qed.

Lemma cksum_match s r : 0 < s → is_u16 r →
  r = 65535 - fold16 s ↔ 65535 - fold16 (s + r) = 0 ∧ r ≠ 65535.
Proof.
  intros Hs Hr. change (is_u16 r) with (0 ≤ r < 65536) in Hr.
  assert (Hf : fold16 s ≠ 0).
  { unfold fold16. pose proof (Z.mod_pos_bound (s - 1) 65535). zcases; lia. }
  split.
  - intros ->. rewrite fold16_complement by lia. split; [done | lia].
  - intros [Heq Hne]. revert Heq Hf. unfold fold16.
    rewrite (proj2 (Z.eqb_neq s 0)), (proj2 (Z.eqb_neq (s + r) 0)) by lia.
    intros Heq _. pose proof (Z.div_mod (s - 1) 65535). pose proof (Z.mod_pos_bound (s - 1) 65535).
    pose proof (Z.div_mod (s + r - 1) 65535). lia.
Qed.

Lemma field_zeroed buf o n : (282 ≤ length buf)%nat →
  (o + n ≤ ip_hdr + ip_checksum ∨ ip_hdr + ip_checksum + 2 ≤ o)%nat →
  field (cksum_zeroed buf) o n = field buf o n.
Proof.
  intros Hlen Ho. unfold field, cksum_zeroed. apply list_eq. intros i.
  change (ip_hdr + ip_checksum)%nat with 24%nat in *.
  destruct (decide (i < n)%nat); [|by rewrite !lookup_take_ge by lia].
  rewrite !lookup_take_lt, !lookup_drop by lia.
  destruct Ho; [apply list_lookup_inserts_lt | apply list_lookup_inserts_ge]; simpl; lia.
Qed.

Lemma zeroed_length buf : length (cksum_zeroed buf) = length buf.
Proof. apply length_inserts. Qed.

Lemma ip_split buf : (282 ≤ length buf)%nat →
  buf = field buf 0 14 ++ (field buf 14 10 ++ field buf 24 2 ++ field buf 26 8) ++ drop 34 buf.
Proof.
  intros H. rewrite (frame_split buf 14 20) at 1. f_equal. f_equal.
  change 20%nat with (10 + (2 + 8))%nat. by rewrite !field_field_app.
Qed.

Lemma zeroed_split buf : (282 ≤ length buf)%nat →
  cksum_zeroed buf
  = field buf 0 14 ++ (field buf 14 10 ++ [0; 0] ++ field buf 26 8) ++ drop 34 buf.
Proof.
  intros H. unfold cksum_zeroed. rewrite (ip_split buf H) at 1.
  pose proof (field_length buf 0 14) as LA. pose proof (field_length buf 14 10) as LB.
  pose proof (field_length buf 24 2) as LC.
  generalize dependent (drop 34 buf). generalize dependent (field buf 26 8). intros D E.
  set (A := field buf 0 14) in *. set (B := field buf 14 10) in *. set (C := field buf 24 2) in *.
  replace (A ++ (B ++ C ++ D) ++ E) with ((A ++ B) ++ C ++ (D ++ E)) by (by rewrite <- !app_assoc).
  replace (ip_hdr + ip_checksum)%nat with (length (A ++ B))
    by (rewrite length_app, LA, LB by lia; done).
  rewrite list_inserts_app by (rewrite LC by lia; done). by rewrite <- !app_assoc.
Qed.

Lemma cksum_test buf : (282 ≤ length buf)%nat → Forall byte buf →
  field buf (ip_hdr + protocol) 1 = [17] →
  ∃ c, ip_cksum (cksum_zeroed buf) ip_hdr IPv4_LEN = Ret c ∧
    (le_combine (field buf (ip_hdr + ip_checksum) 2) =? c)
    = bool_decide (ip_cksum buf ip_hdr IPv4_LEN = Ret 0 ∧
        field buf (ip_hdr + ip_checksum) 2 ≠ [255; 255]).
Proof.
  intros Hlen Hb Hproto. change (ip_hdr + ip_checksum)%nat with 24%nat.
  change (ip_hdr + protocol)%nat with 23%nat in Hproto.
  pose proof (λ o n, field_bytes buf o n Hb) as Hfb.
  assert (Hlens : length (field buf 0 14) = 14%nat ∧ length (field buf 14 10) = 10%nat ∧
    length (field buf 24 2) = 2%nat ∧ length (field buf 26 8) = 8%nat)
    by (split_and!; apply field_length; lia).
  destruct Hlens as (L0 & L1 & L2 & L3).
  assert (Hck : ∀ w post, length w = 2%nat → Forall byte w →
    ip_cksum (field buf 0 14 ++ (field buf 14 10 ++ w ++ field buf 26 8) ++ post) ip_hdr IPv4_LEN
    = Ret (65535 - fold16 (words_sum (field buf 14 10) + words_sum (field buf 26 8) + le_combine w))).
  { intros w post Hw Hwb. destruct w as [|a [|b [|]]]; try discriminate Hw.
    replace ip_hdr with (length (field buf 0 14)) by exact L0.
    replace IPv4_LEN with (length (field buf 14 10 ++ [a; b] ++ field buf 26 8))
      by (rewrite !length_app, L1, L3; done).
    rewrite ip_cksum_eq.
    - rewrite (words_sum_app 5), (words_sum_app 1) by done.
      cbn [words_sum le_combine]. do 3 f_equal. lia.
    - rewrite !Forall_app. split_and!; auto.
    - rewrite !length_app, L1, L3. simpl. lia. }
  rewrite (zeroed_split buf Hlen), (Hck [0; 0]);
    [| done | apply (bool_decide_eq_true_1 _); vm_compute; reflexivity].
  eexists. split; [done|].
  pose proof (Hck (field buf 24 2) (drop 34 buf) L2 (Hfb _ _)) as Hfull.
  rewrite <- (ip_split buf Hlen) in Hfull. rewrite Hfull.
  assert (Hpos : 0 < words_sum (field buf 14 10) + words_sum (field buf 26 8)).
  { rewrite (field_field_app buf 14 8 2 : field buf 14 10 = field buf 14 8 ++ field buf 22 2).
    rewrite (field_field_app buf 22 1 1 : field buf 22 2 = field buf 22 1 ++ field buf 23 1), Hproto.
    rewrite (words_sum_app 4) by (apply field_length; lia).
    pose proof (words_sum_range _ (Hfb 14%nat 8%nat)). pose proof (words_sum_range _ (Hfb 26%nat 8%nat)).
    assert (length (field buf 22 1) = 1%nat) as L by (apply field_length; lia).
    pose proof (words_sum_range _ (Hfb 22%nat 1%nat)) as Hw.
    destruct (field buf 22 1) as [|x [|]]; try discriminate L. cbn [words_sum app] in *. lia. }
  assert (Hr : is_u16 (le_combine (field buf 24 2))).
  { pose proof (le_combine_range _ (Hfb 24%nat 2%nat)) as Hr. rewrite L2 in Hr. exact Hr. }
  change (le_combine [0; 0]) with 0. rewrite Z.add_0_r.
  apply Bool.eq_true_iff_eq. rewrite Z.eqb_eq, bool_decide_eq_true, (cksum_match _ _ Hpos Hr).
  split; (intros [H1 H2]; split; [congruence|]); intros H3; apply H2.
  - by rewrite H3.
  - apply le_combine_inj; [auto | apply (bool_decide_eq_true_1 _); vm_compute; reflexivity | done | done].
Qed.

(** *** The two receivers *)

Lemma zeroed_received buf buflen : received buf buflen → received (cksum_zeroed buf) buflen.
Proof.
  intros Hr. pose proof (received_282 _ _ Hr) as H. destruct Hr as [Hb Hl Hi].
  split; [|by rewrite zeroed_length|done].
  rewrite (zeroed_split buf H), !Forall_app.
  split_and!; auto using field_bytes, Forall_drop; apply (bool_decide_eq_true_1 _); vm_compute; reflexivity.
Qed.

Lemma store_cksum_zero buf : (282 ≤ length buf)%nat →
  store16 buf (ip_hdr + ip_checksum) 0 = Ret (cksum_zeroed buf).
Proof. intros. apply store_n_le. change (26 ≤ length buf)%nat. lia. Qed.

Lemma restore_cksum buf : (282 ≤ length buf)%nat → Forall byte buf →
  store16 (cksum_zeroed buf) (ip_hdr + ip_checksum) (le_combine (field buf (ip_hdr + ip_checksum) 2))
  = Ret buf.
Proof.
  intros H Hb. unfold store_le.
  assert (L : length (field buf (ip_hdr + ip_checksum) 2) = 2%nat)
    by (apply field_length; change (26 ≤ length buf)%nat; lia).
  rewrite <- L at 1. rewrite le_split_combine by (by apply field_bytes).
  rewrite store_n_le by (rewrite zeroed_length, L; change (26 ≤ length buf)%nat; lia).
  f_equal. unfold cksum_zeroed. apply list_eq. intros i.
  destruct (decide (24 ≤ i < 26)%nat) as [Hi|Hi].
  - rewrite list_lookup_inserts.
    + unfold field. rewrite lookup_take_lt, lookup_drop by (change (i - 24 < 2)%nat; lia).
      f_equal. change (24 + (i - 24) = i)%nat. lia.
    + rewrite L. exact Hi.
    + rewrite length_inserts. lia.
  - assert (i < 24 ∨ 26 ≤ i)%nat as [?|?] by lia.
    + by rewrite !list_lookup_inserts_lt.
    + by rewrite !list_lookup_inserts_ge by (rewrite ?L; done).
Qed.

(** The checks the two receivers share, up to the checksum. *)
Definition header_ok (buf : list Z) (buflen : Z) : Prop :=
  field buf (eth_hdr + etherType) 2 = [8; 0] ∧
  field buf (ip_hdr + protocol) 1 = [17] ∧
  field buf (ip_hdr + ip_totalLen) 2 = be16 (buflen - 14) ∧
  ip_cksum buf ip_hdr IPv4_LEN = Ret 0 ∧
  field buf (ip_hdr + ip_checksum) 2 ≠ [255; 255].

#[export] Instance header_ok_dec buf buflen : Decision (header_ok buf buflen).
Proof. unfold header_ok. apply _. Defined.

Definition udp_ok (buf : list Z) (buflen : Z) : Prop :=
  field buf (udp_hdr + srcPort) 4 = [0; 67; 0; 68] ∧
  field buf (udp_hdr + udp_totalLen) 2 = be16 (buflen - 34).

Lemma is_reply_alt buf buflen xid :
  is_reply buf buflen xid ↔ header_ok buf buflen ∧ udp_ok buf buflen ∧
    field buf (dhcp_hdr + dh_xid) 4 = be32 xid.
Proof. unfold is_reply, header_ok, udp_ok. tauto. Qed.

Section receive.
Context (buf : list Z) (buflen : Z) (Hr : received buf buflen).

Lemma recv_len : (282 ≤ length buf)%nat.
Proof. by apply (received_282 _ buflen). Qed.

Lemma recv_bytes : Forall byte buf.
Proof. by destruct Hr. Qed.

Lemma ether_check : ∃ w, load16 buf (eth_hdr + etherType) = Ret w ∧
  (w =? htons 0x0800) = bool_decide (field buf (eth_hdr + etherType) 2 = [8; 0]).
Proof.
  pose proof recv_len as Hlen. rewrite load_le_field by in_range. eexists. split; [done|].
  by rewrite field_eqb by (apply recv_bytes || in_range).
Qed.

Lemma cksum_check : field buf (ip_hdr + protocol) 1 = [17] →
  ∃ r c, load16 buf (ip_hdr + ip_checksum) = Ret r ∧
    r = le_combine (field buf (ip_hdr + ip_checksum) 2) ∧
    ip_cksum (cksum_zeroed buf) ip_hdr IPv4_LEN = Ret c ∧
    (r =? c) = bool_decide (ip_cksum buf ip_hdr IPv4_LEN = Ret 0 ∧
      field buf (ip_hdr + ip_checksum) 2 ≠ [255; 255]).
Proof.
  intros Hp. pose proof recv_len as Hlen.
  destruct (cksum_test buf Hlen recv_bytes Hp) as (c & Hc & E).
  eexists _, c. split; [|split; [done | by split]]. apply load_le_field. in_range.
Qed.

Lemma zeroed_udp_check : udp_check (cksum_zeroed buf) buflen = Ret (bool_decide (udp_ok buf buflen)).
Proof.
  rewrite udp_check_eq by (by apply zeroed_received). unfold udp_ok.
  rewrite !field_zeroed by (apply recv_len || (right; vm_compute; lia)). done.
Qed.

End receive.

Lemma parse_option_step buf pre c d rest i m :
  Forall byte buf → buf = pre ++ d ++ rest → length pre = (dhcp_options + i)%nat →
  parse_option buf (Z.of_nat i) c (Z.of_nat (length d)) m = Ret (apply_item m (Opt c d)).
Proof.
  intros Hb Hbuf Hpre.
  assert (Hd : Forall byte d) by (rewrite Hbuf, !Forall_app in Hb; tauto).
  assert (Hload : length d = 4%nat → opt_quad buf (Z.of_nat i) = Ret d).
  { intros L. unfold opt_quad. rewrite Nat2Z.id, <- Hpre, <- L, load_n_le by (rewrite Hbuf; solve_length).
    by rewrite Hbuf, drop_app_length, take_app_length. }
  assert (Hz : (Z.of_nat (length d) =? 4) = (length d =? 4)%nat).
  { apply Bool.eq_true_iff_eq. rewrite Z.eqb_eq, Nat.eqb_eq. lia. }
  unfold parse_option, apply_item. rewrite !Hz.
  destruct (c =? OPT_MSG_TYPE).
  { destruct d as [|t [|]]; [done | | by rewrite (proj2 (Z.eqb_neq _ _)) by (simpl; lia)].
    unfold opt_at. rewrite Nat2Z.id, <- Hpre, Hbuf. cbn [app]. by rewrite deref_app_0. }
  destruct (Nat.eqb_spec (length d) 4) as [L|]; cbn [negb];
    [|by repeat match goal with |- context [if ?b then _ else _] => destruct b end].
  rewrite (Hload L), !bind_Ret. unfold bswap.
  rewrite <- L, le_split_combine by done.
  by repeat match goal with |- context [if ?b then _ else _] => destruct b end.
Qed.

Definition cleared (meta : parse_meta) : parse_meta := no_meta (p_xid meta).

(** The outcome of the next check of a receiver. *)
Tactic Notation "check_case" "as" simple_intropattern(pat) :=
  match goal with |- context [bool_decide ?P] => destruct (bool_decide_reflect P) as pat end;
  cbn [negb].

(** [parse_frame] on an accepted frame goes on to the options; on any other it
    leaves the result cleared. *)
Lemma parse_frame_eq buf buflen meta : received buf buflen →
  parse_frame buf buflen meta =
    if decide (is_reply buf buflen (u32 (p_xid meta))) then
      m ← option_loop (parse_option (cksum_zeroed buf)) (option_fuel (buflen - 282))
            (cksum_zeroed buf) (buflen - 282) 0 (header_meta buf (p_xid meta));
      Ret (cksum_zeroed buf, m)
    else Ret (if decide (field buf (eth_hdr + etherType) 2 = [8; 0] ∧
                field buf (ip_hdr + protocol) 1 = [17] ∧
                field buf (ip_hdr + ip_totalLen) 2 = be16 (buflen - 14))
              then cksum_zeroed buf else buf, cleared meta).
Proof.
  intros Hr. pose proof (recv_len _ _ Hr) as Hlen. pose proof (recv_bytes _ _ Hr) as Hb.
  destruct (received_lens _ _ Hr) as (Ho & _ & _ & Hge).
  unfold parse_frame. rewrite Hge. unfold is_reply.
  destruct (ether_check _ _ Hr) as (w & -> & Hw). rewrite bind_Ret, Hw.
  check_case as [He|He].
  2:{ by rewrite !decide_False by (intros (? & _); done). }
  rewrite (ip_check_eq _ _ Hr), bind_Ret.
  check_case as [[Hp Ht]|Hn].
  2:{ rewrite decide_False by (intros (_ & ? & ? & _); by apply Hn).
      by rewrite decide_False by (intros (_ & ? & ?); by apply Hn). }
  rewrite (decide_True _ _ (conj He (conj Hp Ht))).
  destruct (cksum_check _ _ Hr Hp) as (r & c & -> & -> & Hc & Htest).
  rewrite bind_Ret, store_cksum_zero, bind_Ret, Hc, bind_Ret, Htest by done.
  check_case as [[Hz Hf]|Hn].
  2:{ rewrite decide_False; [done|]. intros (_ & _ & _ & ? & ? & _). by apply Hn. }
  rewrite (zeroed_udp_check _ _ Hr), bind_Ret. unfold udp_ok.
  check_case as [[Hs Hu]|Hn].
  2:{ rewrite decide_False; [done|]. intros (_ & _ & _ & _ & _ & ? & ? & _). by apply Hn. }
  cbn [p_xid]. rewrite load_le_field, bind_Ret by (rewrite ?zeroed_length; in_range).
  rewrite field_eqb by (apply zeroed_received in Hr; (by destruct Hr) || (rewrite zeroed_length; in_range)).
  rewrite field_zeroed by (done || (right; vm_compute; lia)).
  change (rev (le_split 4 (u32 (p_xid meta)))) with (be32 (u32 (p_xid meta))).
  check_case as [Hx|Hn].
  2:{ rewrite decide_False; [done|]. intros (_ & _ & _ & _ & _ & _ & _ & ?). done. }
  rewrite decide_True by done.
  rewrite !load_field, !bind_Ret by (rewrite ?zeroed_length; in_range).
  rewrite !field_zeroed by (done || (right; vm_compute; lia) || (left; vm_compute; lia)).
  by rewrite Ho.
Qed.

Lemma zeroed_app pre t : (26 ≤ length pre)%nat → cksum_zeroed (pre ++ t) = cksum_zeroed pre ++ t.
Proof.
  intros H.
  assert (E : store_n pre 24 [0; 0] = Ret (cksum_zeroed pre)) by (apply store_n_le; simpl; lia).
  apply (store_n_ext _ t) in E. rewrite store_n_le in E by solve_length. by injection E.
Qed.

Lemma option_fuel_enough n : (Z.to_nat n - 0 < option_fuel n)%nat.
Proof. unfold option_fuel. lia. Qed.

(** A field of an accepted frame is read as its options in order. *)
Lemma parse_items buf buflen its pre rest m :
  received buf buflen → Forall item_ok its →
  buf = pre ++ encode its ++ rest → length pre = dhcp_options →
  options_end (buflen - 282) (length (encode its)) rest →
  option_loop (parse_option (cksum_zeroed buf)) (option_fuel (buflen - 282))
    (cksum_zeroed buf) (buflen - 282) 0 m = Ret (fold_left apply_item its m).
Proof.
  intros Hr Hok Hbuf Hpre Hn. apply zeroed_received in Hr. destruct Hr as [Hb _ _].
  apply (option_loop_items _ apply_item (cksum_zeroed buf)
    (λ p c d r i a, parse_option_step (cksum_zeroed buf) p c d r i a Hb) (λ _, eq_refl)
    (buflen - 282) its (option_fuel (buflen - 282)) 0 (cksum_zeroed pre) rest m Hok).
  - rewrite Hbuf, zeroed_app; [done|]. rewrite Hpre. unfold dhcp_options. simpl. lia.
  - by rewrite zeroed_length, Hpre.
  - exact Hn.
  - apply option_fuel_enough.
Qed.

Lemma parse_frame_total buf buflen meta : received buf buflen →
  ∃ buf' meta', parse_frame buf buflen meta = Ret (buf', meta').
Proof.
  intros Hr. rewrite parse_frame_eq by done. destruct (decide _); [|by eexists _, _].
  pose proof (zeroed_received _ _ Hr) as [Hb Hl Hint].
  assert (Hlen : (dhcp_options + Z.to_nat (buflen - 282) ≤ length (cksum_zeroed buf))%nat).
  { change MIN_RECV_LEN with 282 in Hl. change dhcp_options with 282%nat. lia. }
  destruct (option_loop_total (parse_option (cksum_zeroed buf)) (cksum_zeroed buf) (buflen - 282))
    with (fuel := option_fuel (buflen - 282)) (i := 0) (acc := header_meta buf (p_xid meta))
    as [m ->]; [| done | done | done | apply option_fuel_enough | by eexists _, _].
  intros j t l acc Hi0 Hl0 Hil. unfold parse_option, opt_at, opt_quad.
  repeat match goal with
  | |- context [if negb (l =? ?k) then _ else _] => destruct (Z.eqb_spec l k); cbn [negb]
  | |- context [if t =? ?k then _ else _] => destruct (t =? k)
  end; try (by eexists); try (rewrite load_field by lia; by eexists).
  all: destruct (deref_lt (cksum_zeroed buf) (dhcp_options + Z.to_nat j)) as (x & _ & ->); [lia|].
  all: by eexists.
Qed.

(** A buffer in which a receive call has left [buflen] bytes, however few *)
Record delivered (buf : list Z) (buflen : Z) : Prop := {
  dl_bytes : Forall byte buf;
  dl_len : 0 ≤ buflen ≤ Z.of_nat (length buf);
  dl_int : buflen < 2 ^ 31
}.

Lemma delivered_short buf buflen meta : delivered buf buflen → buflen < MIN_RECV_LEN →
  parse_frame buf buflen meta = Ret (buf, no_meta (p_xid meta)).
Proof.
  intros [_ Hl Hi] Hs. unfold parse_frame. cbv zeta. rewrite wrap_small by (unfold uword; lia).
  by rewrite (proj2 (Z.ltb_lt _ _) Hs).
Qed.

Lemma delivered_received buf buflen : delivered buf buflen → MIN_RECV_LEN ≤ buflen → received buf buflen.
Proof. intros [Hb Hl Hi] Hs. split; [done|lia|done]. Qed.

(** C22: [parse_frame] on anything the socket delivers, of any length down to no
    byte at all.  It always returns and never reads outside the received bytes.  A
    frame too short for the headers is left as it is.  Of the others it accepts
    exactly the replies to its transaction id: IPv4 over UDP from port 67 to 68,
    with length fields that match the bytes received, a header checksum that
    verifies and that transaction id.  From an accepted frame whose options field
    is a sequence of well-formed options up to its end (nothing is said about the
    values taken from another one) it takes the addresses of the headers and then
    the options in order, later ones overriding; any other frame leaves an empty
    result of type UNKNOWN. *)
Theorem parse_frame_correct (buf : list Z) (buflen : Z) (meta : parse_meta) :
  delivered buf buflen →
  (∃ buf' meta', parse_frame buf buflen meta = Ret (buf', meta')) ∧
  (buflen < MIN_RECV_LEN → parse_frame buf buflen meta = Ret (buf, no_meta (p_xid meta))) ∧
  (MIN_RECV_LEN ≤ buflen → is_reply buf buflen (u32 (p_xid meta)) → ∀ its pre rest,
     Forall item_ok its → buf = pre ++ encode its ++ rest → length pre = dhcp_options →
     options_end (buflen - 282) (length (encode its)) rest →
     parse_frame buf buflen meta
     = Ret (cksum_zeroed buf, fold_left apply_item its (header_meta buf (p_xid meta)))) ∧
  (¬ is_reply buf buflen (u32 (p_xid meta)) →
     ∃ buf', parse_frame buf buflen meta = Ret (buf', no_meta (p_xid meta))).
Proof.
  intros Hd. destruct (Z.lt_ge_cases buflen MIN_RECV_LEN) as [Hs|Hge].
  { rewrite (delivered_short buf buflen meta Hd Hs). split; [by eexists _, _|]. split; [done|]. split; [lia|by eexists]. }
  pose proof (delivered_received _ _ Hd Hge) as Hr. split; [by apply parse_frame_total|]. split; [lia|].
  rewrite parse_frame_eq by done. split.
  - intros _ Hre its pre rest Hok Hbuf Hpre Hn. rewrite decide_True by done.
    by rewrite (parse_items _ _ _ _ _ _ Hr Hok Hbuf Hpre Hn).
  - intros Hre. rewrite decide_False by done. by eexists.
Qed.

(** ** Reading a frame that lies at the start of a larger buffer *)

Lemma store_n_length {A} (l : list A) i s l' : store_n l i s = Ret l' → length l' = length l.
Proof. unfold store_n. case_decide; [|done]. intros [= <-]. by rewrite length_inserts. Qed.

Lemma option_loop_ext {A} (body body' : Z → Z → Z → A → outcome A) l r n x :
  (∀ j t k a y, body j t k a = Ret y → body' j t k a = Ret y) →
  ∀ fuel i acc, option_loop body fuel l n i acc = Ret x → option_loop body' fuel (l ++ r) n i acc = Ret x.
Proof.
  intros Hb. induction fuel as [|fuel IH]; intros i acc H; cbn [option_loop] in *; [done|].
  destruct (i <? n); [|done]. unfold opt_at in *. inv_ret.
  rewrite (deref_ext _ r _ _ Hv), bind_Ret.
  destruct (v =? OPT_PAD); [by apply IH|].
  destruct ((v =? OPT_END) || (n <=? i + 1)); [done|]. inv_ret.
  rewrite (deref_ext _ r _ _ Hv0), bind_Ret.
  destruct (n <? i + 1 + 1 + v0); [done|]. inv_ret. rewrite (Hb _ _ _ _ _ Hv1), bind_Ret. by apply IH.
Qed.

Lemma parse_option_ext l r j t k m m' :
  parse_option l j t k m = Ret m' → parse_option (l ++ r) j t k m = Ret m'.
Proof.
  unfold parse_option, opt_at, opt_quad. intros H.
  repeat match goal with |- context [if ?b then _ else _] => destruct b; [try exact H|] end; try exact H.
  all: inv_ret; first [rewrite (deref_ext _ r _ _ Hv) | rewrite (load_n_ext _ r _ _ _ Hv)]; done.
Qed.

(** Split the [if]s of a hypothesis and of the goal together, replaying reads. *)
Ltac replay_reads :=
  repeat match goal with
  | H : (_ ≫= _) = Ret _ |- _ => progress inv_ret
  | H : load_le ?n ?l ?i = Ret _ |- context [load_le ?n (?l ++ ?r) ?i] =>
      rewrite (load_le_ext n l r i _ H), bind_Ret
  | H : load_n ?l ?i ?n = Ret _ |- context [load_n (?l ++ ?r) ?i ?n] =>
      rewrite (load_n_ext l r i n _ H), bind_Ret
  | H : deref ?l ?i = Ret _ |- context [deref (?l ++ ?r) ?i] => rewrite (deref_ext l r i _ H), bind_Ret
  | H : (if ?b then _ else _) = Ret _ |- context [if ?b then _ else _] => destruct b; inv_ret
  | _ => progress replay
  end; try done.

Lemma ip_check_ext l r n b : ip_check l n = Ret b → ip_check (l ++ r) n = Ret b.
Proof. unfold ip_check. intros H. replay_reads. Qed.

Lemma udp_check_ext l r n b : udp_check l n = Ret b → udp_check (l ++ r) n = Ret b.
Proof. unfold udp_check. intros H. replay_reads. Qed.

Lemma parse_frame_ext l r n m l' m' :
  parse_frame l n m = Ret (l', m') → parse_frame (l ++ r) n m = Ret (l' ++ r, m').
Proof.
  unfold parse_frame. intros H. cbv zeta in *.
  destruct (u64 n <? MIN_RECV_LEN); [by injection H as <- <-|].
  replay_reads. rewrite (ip_check_ext _ r _ _ Hv0), bind_Ret.
  replay_reads. rewrite (udp_check_ext _ r _ _ Hv4), bind_Ret. replay_reads.
  rewrite (option_loop_ext (parse_option l') (parse_option (l' ++ r)) l' r _ m');
    [done | intros; by apply parse_option_ext | done].
Qed.

Lemma parse_frame_length l n m l' m' : parse_frame l n m = Ret (l', m') → length l' = length l.
Proof.
  unfold parse_frame. intros H. cbv zeta in *.
  repeat match goal with
  | H : (if ?b then _ else _) = Ret _ |- _ => destruct b
  | H : (_ ≫= _) = Ret _ |- _ => progress inv_ret
  end; inv_ret; try done; by apply store_n_length in Hv2.
Qed.

(** ** Demultiplexing *)

(** The transaction id of a frame, in host order *)
Definition frame_xid (buf : list Z) : Z := le_combine (rev (field buf (dhcp_hdr + dh_xid) 4)).

Lemma be32_inj x y : is_u32 x → is_u32 y → be32 x = be32 y → x = y.
Proof.
  intros Hx Hy E. apply le_split4_inj; [done..|]. unfold be32 in E.
  by rewrite <- (rev_involutive (le_split 4 x)), E, rev_involutive.
Qed.

Lemma be32_frame_xid buf : (282 ≤ length buf)%nat → Forall byte buf →
  field buf (dhcp_hdr + dh_xid) 4 = be32 (frame_xid buf) ∧ is_u32 (frame_xid buf).
Proof.
  intros Hlen Hb. unfold be32, frame_xid.
  assert (L : length (field buf (dhcp_hdr + dh_xid) 4) = 4%nat) by (apply field_length; in_range).
  assert (Hf : Forall byte (rev (field buf (dhcp_hdr + dh_xid) 4)))
    by (by apply Forall_rev, field_bytes).
  split.
  - rewrite <- (rev_involutive (field buf _ 4)) at 1. f_equal.
    rewrite <- (le_split_combine (rev (field buf (dhcp_hdr + dh_xid) 4))) at 1 by done.
    by rewrite length_rev, L.
  - pose proof (le_combine_range _ Hf) as H. rewrite length_rev, L in H. exact H.
Qed.

Lemma parse_xid_eq buf buflen : received buf buflen →
  parse_xid buf buflen
  = Ret (buf, if decide (header_ok buf buflen ∧ udp_ok buf buflen) then Some (frame_xid buf) else None).
Proof.
  intros Hr. pose proof (recv_len _ _ Hr) as Hlen. pose proof (recv_bytes _ _ Hr) as Hb.
  destruct (received_lens _ _ Hr) as (_ & _ & _ & Hge).
  unfold parse_xid. rewrite Hge. unfold header_ok.
  destruct (ether_check _ _ Hr) as (w & -> & Hw). rewrite bind_Ret, Hw.
  check_case as [He|He]; [|by rewrite decide_False by (intros ((? & _) & _); done)].
  rewrite (ip_check_eq _ _ Hr), bind_Ret.
  check_case as [[Hp Ht]|Hn].
  2:{ rewrite decide_False; [done|]. intros ((_ & ? & ? & _) & _). by apply Hn. }
  destruct (cksum_check _ _ Hr Hp) as (r & c & -> & -> & Hc & Htest).
  rewrite bind_Ret, store_cksum_zero, bind_Ret, Hc, bind_Ret, restore_cksum, bind_Ret, Htest by done.
  check_case as [[Hz Hf]|Hn].
  2:{ rewrite decide_False; [done|]. intros ((_ & _ & _ & ? & ?) & _). by apply Hn. }
  rewrite (udp_check_eq _ _ Hr), bind_Ret. unfold udp_ok.
  check_case as [Hu|Hn]; [|by rewrite decide_False by (intros (_ & ?); done)].
  rewrite decide_True by done. rewrite load_le_field, bind_Ret by in_range.
  unfold frame_xid, bswap.
  rewrite <- (field_length buf (dhcp_hdr + dh_xid) 4) at 1 by in_range.
  by rewrite le_split_combine by (by apply field_bytes).
Qed.

Lemma parse_xid_reply buf buflen : received buf buflen →
  ∃ r, parse_xid buf buflen = Ret (buf, r) ∧
    ∀ x, is_u32 x → (r = Some x ↔ is_reply buf buflen x).
Proof.
  intros Hr. rewrite parse_xid_eq by done. eexists. split; [done|]. intros x Hx.
  destruct (be32_frame_xid buf (recv_len _ _ Hr) (recv_bytes _ _ Hr)) as [Hf Hfx].
  rewrite is_reply_alt. destruct (decide _) as [[Hh Hu]|Hn].
  - split.
    + by intros [= <-].
    + intros (_ & _ & E). rewrite E in Hf. f_equal. symmetry. by apply be32_inj.
  - split; [done|]. intros (? & ? & _). exfalso. by apply Hn.
Qed.


Lemma parse_xid_ext l r n l' x :
  parse_xid l n = Ret (l', x) → parse_xid (l ++ r) n = Ret (l' ++ r, x).
Proof.
  unfold parse_xid. intros H. destruct (u64 n <? MIN_RECV_LEN); [by injection H as <- <-|].
  replay_reads. rewrite (ip_check_ext _ r _ _ Hv0), bind_Ret.
  replay_reads.
  rewrite ?bind_Ret. match goal with H : udp_check _ _ = Ret _ |- _ => rewrite (udp_check_ext _ r _ _ H), bind_Ret end.
  replay_reads.
Qed.

(** A frame at the start of a receive buffer, on its way to its worker *)
Lemma parse_xid_in_buffer l r : Forall byte l → Z.of_nat (length l) < 2 ^ 31 →
  ∃ x, parse_xid (l ++ r) (Z.of_nat (length l)) = Ret (l ++ r, x) ∧
    ∀ xid, x = Some xid → is_u32 xid ∧ is_reply l (Z.of_nat (length l)) xid.
Proof.
  intros Hl Hn. destruct (Z.ltb_spec (Z.of_nat (length l)) MIN_RECV_LEN) as [Hs|Hs].
  - exists None. split; [|done]. unfold parse_xid. rewrite wrap_small by (unfold uword; lia).
    by rewrite (proj2 (Z.ltb_lt _ _) Hs).
  - assert (Hrc : received l (Z.of_nat (length l))) by (by split; [|lia|]).
    pose proof (parse_xid_eq _ _ Hrc) as E. destruct (parse_xid_reply _ _ Hrc) as (x & E' & Hx).
    exists x. split; [by apply parse_xid_ext|]. intros xid ->. rewrite E in E'.
    case_decide; [|done]. injection E' as <-.
    destruct (be32_frame_xid l (recv_len _ _ Hrc) Hl) as [_ Hu]. split; [done|]. by apply Hx.
Qed.

(** C30: The receive manager's [parse_xid] agrees with the worker's [parse_frame], on
    anything the socket delivers: it leaves the buffer as it was, reads no byte
    outside, and returns the transaction id [x] exactly when the frame is long enough
    for the headers and a reply to [x], which is when [parse_frame] accepts it for
    [x] (see [parse_frame_correct]).  So a frame is delivered to a client that will
    accept it, and to none that would not. *)
Theorem parse_xid_demultiplexes (buf : list Z) (buflen : Z) :
  delivered buf buflen →
  ∃ r, parse_xid buf buflen = Ret (buf, r) ∧
    ∀ x, is_u32 x → (r = Some x ↔ MIN_RECV_LEN ≤ buflen ∧ is_reply buf buflen x).
Proof.
  intros Hd. destruct (Z.lt_ge_cases buflen MIN_RECV_LEN) as [Hs|Hge].
  - exists None. split; [|intros x _; split; [done|lia]]. destruct Hd as [_ Hl Hi].
    unfold parse_xid. rewrite wrap_small by (unfold uword; lia). by rewrite (proj2 (Z.ltb_lt _ _) Hs).
  - destruct (parse_xid_reply buf buflen (delivered_received _ _ Hd Hge)) as (r & E & Hr). exists r.
    split; [exact E|]. intros x Hx. rewrite (Hr x Hx). split; [by intros|by intros [_ ?]].
Qed.

(** ** A reply, for the examples *)

Definition reply_items : list item :=
  [Opt OPT_MSG_TYPE [DHCP_OFFER]; Opt OPT_SERVER_IP [192; 168; 4; 1];
   Opt OPT_SUBNET_MASK [255; 255; 255; 0]; Opt OPT_LEASE_TIME [0; 0; 0x0e; 0x10]].

Definition reply_headers : list Z :=
  ether_header (replicate 6 255) [0xb8; 0x27; 0xeb; 1; 2; 3] ++
  [0x45; 0; 0x01; 0x22; 0; 0; 0x40; 0; 64; 17; 0x75; 0x22; 192; 168; 4; 1; 255; 255; 255; 255] ++
  [0; 67; 0; 68; 0x01; 0x0e; 0; 0] ++
  [2; 1; 6; 0] ++ be32 0x1234 ++ replicate 8 0 ++ [192; 168; 4; 100] ++ [192; 168; 4; 1] ++
  replicate 4 0 ++ [2; 0xde; 0xad; 0xbe; 0xef; 1] ++ replicate 202 0 ++ [0x63; 0x82; 0x53; 0x63].

Definition sample_reply : list Z :=
  reply_headers ++ encode reply_items ++ OPT_END :: replicate 720 0.

Definition reply_meta : parse_meta :=
  mkParse [0xb8; 0x27; 0xeb; 1; 2; 3] [192; 168; 4; 100] [192; 168; 4; 1] [255; 255; 255; 0]
    DHCP_OFFER 3600 0x1234.

Lemma sample_received : received sample_reply 304.
Proof.
  split.
  - apply (bool_decide_eq_true_1 _). vm_compute. reflexivity.
  - vm_compute. split; discriminate.
  - done.
Qed.

Lemma sample_is_reply : is_reply sample_reply 304 0x1234.
Proof. apply (bool_decide_eq_true_1 _). vm_compute. reflexivity. Qed.

Lemma sample_delivered : delivered sample_reply 304.
Proof. destruct sample_received as [Hb Hl Hi]. split; [exact Hb|vm_compute; split; discriminate|exact Hi]. Qed.

Lemma parse_frame_correct_witness :
  delivered sample_reply 304 ∧
  parse_frame sample_reply 304 (no_meta 0x1234) = Ret (cksum_zeroed sample_reply, reply_meta) ∧
  (∃ buf', parse_frame sample_reply 304 (no_meta 0x1235) = Ret (buf', no_meta 0x1235)) ∧
  parse_frame [7] 1 (no_meta 0x1234) = Ret ([7], no_meta 0x1234).
Proof.
  split; [exact sample_delivered|]. split; [|split].
  - destruct (parse_frame_correct sample_reply 304 (no_meta 0x1234) sample_delivered) as (_ & _ & H & _).
    apply (H ltac:(vm_compute; discriminate) sample_is_reply reply_items reply_headers (OPT_END :: replicate 720 0)).
    + repeat constructor; vm_compute; reflexivity.
    + reflexivity.
    + vm_compute. reflexivity.
    + right. split; [vm_compute; reflexivity | by eexists].
  - apply (parse_frame_correct sample_reply 304 (no_meta 0x1235) sample_delivered).
    apply (bool_decide_eq_true_1 _). vm_compute. reflexivity.
  - apply (parse_frame_correct [7] 1 (no_meta 0x1234)); [|vm_compute; reflexivity].
    split; [repeat constructor; vm_compute; (reflexivity || discriminate)|vm_compute; split; discriminate|
      vm_compute; reflexivity].
Defined.

Lemma parse_xid_demultiplexes_witness :
  delivered sample_reply 304 ∧
  ∃ r, parse_xid sample_reply 304 = Ret (sample_reply, r) ∧
    ∀ x, is_u32 x → (r = Some x ↔ MIN_RECV_LEN ≤ 304 ∧ is_reply sample_reply 304 x).
Proof. split; [exact sample_delivered | exact (parse_xid_demultiplexes _ _ sample_delivered)]. Defined.
