(* ===== verification/Adapter.v ===== *)
(** * The bare-metal server: from Ethernet frame to Ethernet frame

    The Circle sample [circle/sample/06-ethernet-dhcp-lib]: [mystring.cpp], the
    conversions and entry points of [dhcp-server.cpp] and the frame handling of
    [CKernel::Run] in [kernel.cpp].  Logging is left out.  A [DHCPHdr *] into a
    received frame is the list of the bytes from there to the end of the frame
    buffer; the header offsets are those of [headers.h], which [Frame] lists.
    The clock register is an argument ([ticks], microseconds as 32 bits). *)
From S2P Require Import Frame.
From S2P Require Import Prelude Options Message LeaseStore ArrayPool HashTab HashPool BitmapOps BitmapVar BitmapUni Nprc Server.

Open Scope Z_scope.

(** ** mystring.cpp *)

Fixpoint my_memcpy (dest : list Z) (d : nat) (src : list Z) (s n : nat) : outcome (list Z) :=
  match n with
  | O => Ret dest
  | S n =>
      x ← deref src s;
      dest ← store dest d x;
      my_memcpy dest (S d) src (S s) n
  end.

Fixpoint my_memset (l : list Z) (p : nat) (c : Z) (n : nat) : outcome (list Z) :=
  match n with
  | O => Ret l
  | S n => l ← store l p (u8 c); my_memset l (S p) c n
  end.

Fixpoint my_memcmp (a b : list Z) (i n : nat) : outcome Z :=
  match n with
  | O => Ret 0
  | S n =>
      x ← deref a i; y ← deref b i;
      if negb (x =? y) then Ret (x - y) else my_memcmp a b (S i) n
  end.

(** ** headers.h and dhcp.h *)

(** [BE32] *)
Definition BE32 (x : Z) : Z :=
  Z.lor (Z.lor (Z.lor (Z.land (x ≫ 24) 0xFF) (Z.land (x ≫ 8) 0xFF00))
           (Z.land (u32 (x ≪ 8)) 0xFF0000)) (Z.land (u32 (x ≪ 24)) 0xFF000000).

(** [BE] of [circle/macros.h], on 16-bit values *)
Definition BE (x : Z) : Z :=
  Z.lor (Z.land x 0xFF00 ≫ 8) (Z.land x 0x00FF ≪ 8).

(** [sizeof (DHCPHdr)], with its 312 bytes of options *)
Definition DHCPHdr_SIZE : nat := 552.
Definition dh_options : nat := 240.

Definition DHCP_FIXED_LEN : Z := 240.
Definition DHCP_MAX_LEASES : Z := 2048.
Definition DHCP_BMUNI_NUM_RANGES : Z := 4.
Definition DHCP_POOL_START : Z := 0xC0A80464.
Definition DHCP_POOL_END : Z := 0xC0A8FFFF.
Definition DHCP_POOL_SIZE : Z := DHCP_POOL_END ⊟ DHCP_POOL_START ⊞ 1.

(** ** dhcp-server.cpp *)

Definition unpackIP (p : list Z) (o : nat) : outcome Z :=
  b0 ← deref p o; b1 ← deref p (o + 1); b2 ← deref p (o + 2); b3 ← deref p (o + 3);
  Ret (Z.lor (Z.lor (Z.lor (b0 ≪ 24) (b1 ≪ 16)) (b2 ≪ 8)) b3).

Definition packIP (ip : Z) (p : list Z) (o : nat) : outcome (list Z) :=
  p ← store p o (Z.land (ip ≫ 24) 0xFF);
  p ← store p (o + 1) (Z.land (ip ≫ 16) 0xFF);
  p ← store p (o + 2) (Z.land (ip ≫ 8) 0xFF);
  store p (o + 3) (Z.land ip 0xFF).

(** [hdrToMsg] up to the options. *)
Definition hdrFields (pHdr : list Z) : outcome dhcp_message_t :=
  let pMsg := zero_msg in
  op ← deref pHdr dh_op;
  htype ← deref pHdr dh_htype;
  hlen ← deref pHdr dh_hlen;
  hops ← deref pHdr dh_hops;
  xid ← load32 pHdr dh_xid;
  secs ← load16 pHdr dh_secs;
  flags ← load16 pHdr dh_flags;
  ciaddr ← unpackIP pHdr dh_ciaddr;
  yiaddr ← unpackIP pHdr dh_yiaddr;
  siaddr ← unpackIP pHdr dh_siaddr;
  giaddr ← unpackIP pHdr dh_giaddr;
  chaddr ← my_memcpy (m_chaddr pMsg) 0 pHdr dh_chaddr 16;
  magic ← load32 pHdr dh_magic;
  Ret (mkMsg op htype hlen hops xid secs flags ciaddr yiaddr siaddr giaddr chaddr
         (m_sname pMsg) (m_file pMsg) (BE32 magic) (m_options pMsg)).

Definition hdrToMsg (pHdr : list Z) (nLength : Z) : outcome dhcp_message_t :=
  pMsg ← hdrFields pHdr;
  let optLen := if DHCP_FIXED_LEN <? nLength then nLength ⊟ DHCP_FIXED_LEN else 0 in
  let optLen := if Z.of_nat OPTIONS_LEN <? optLen then Z.of_nat OPTIONS_LEN else optLen in
  options ← my_memcpy (m_options pMsg) 0 pHdr dh_options (Z.to_nat optLen);
  Ret (set_options pMsg options).

(** The loop over [pMsg->options]: one more than the index of the first 0xFF. *)
Fixpoint wire_opt_len (n i : nat) (opts : list Z) (optLen : nat) : outcome nat :=
  match n with
  | O => Ret optLen
  | S n =>
      let optLen := S optLen in
      o ← deref opts i;
      if o =? 0xFF then Ret optLen else wire_opt_len n (S i) opts optLen
  end.

(** [msgToHdr] up to the options. *)
Definition msgFields (pMsg : dhcp_message_t) : outcome (list Z) :=
  h ← my_memset (replicate DHCPHdr_SIZE 0) 0 0 DHCPHdr_SIZE;
  h ← store h dh_op (m_op pMsg);
  h ← store h dh_htype (m_htype pMsg);
  h ← store h dh_hlen (m_hlen pMsg);
  h ← store h dh_hops (m_hops pMsg);
  h ← store32 h dh_xid (m_xid pMsg);
  h ← store16 h dh_secs (m_secs pMsg);
  h ← store16 h dh_flags (m_flags pMsg);
  h ← packIP (m_ciaddr pMsg) h dh_ciaddr;
  h ← packIP (m_yiaddr pMsg) h dh_yiaddr;
  h ← packIP (m_siaddr pMsg) h dh_siaddr;
  h ← packIP (m_giaddr pMsg) h dh_giaddr;
  h ← my_memcpy h dh_chaddr (m_chaddr pMsg) 0 16;
  store32 h dh_magic (BE32 (m_magic_cookie pMsg)).

(** The header it fills and [*pLength] *)
Definition msgToHdr (pMsg : dhcp_message_t) : outcome (list Z * Z) :=
  h ← msgFields pMsg;
  optLen ← wire_opt_len OPTIONS_LEN 0 (m_options pMsg) 0;
  h ← my_memcpy h dh_options (m_options pMsg) 0 optLen;
  Ret (h, DHCP_FIXED_LEN ⊞ Z.of_nat optLen).

(** The configuration the constructor builds. *)
Definition circle_config : dhcp_config_t :=
  mkConfig 0xC0A80401 0xFFFFFF00 0xC0A80401 0xC0A80401 DHCP_POOL_START DHCP_POOL_END 3600.

(** A lease mode, chosen at compile time: the process function of [dhcp-lib] and
    whether [HandleDHCPDecline] calls it. *)
Record lease_mode (P : Type) := mkMode {
  lm_process : dhcp_server_t P → dhcp_message_t → Z → outcome (reply * dhcp_server_t P);
  lm_declines : bool
}.
Arguments mkMode {P} _ _.
Arguments lm_process {P} _.
Arguments lm_declines {P} _.

Definition array_mode : lease_mode dhcp_arraypool_t := mkMode dhcp_process_message_array true.
Definition hashmap_mode (HASH_N : nat) (junk : list Z) : lease_mode dhcp_hashpool_t :=
  mkMode (dhcp_process_message_hashmap HASH_N junk) true.
Definition bmvar_mode : lease_mode dhcp_bmpool_var_t := mkMode dhcp_process_message_bmvar false.
Definition bmuni_mode : lease_mode dhcp_bmpool_uni_t := mkMode dhcp_process_message_bmuni false.
Definition nprc_mode (W : Z) : lease_mode dhcp_nprcpool_t :=
  mkMode (λ srv request _, dhcp_process_message_nprc W srv request) false.

(** The [m_server] the constructor leaves behind, from the storage before it. *)
Definition circle_array (leases : list dhcp_lease_t) : dhcp_server_t dhcp_arraypool_t :=
  dhcp_init_server_array circle_config (Some leases) DHCP_MAX_LEASES.
Definition circle_hashmap (HASH_N : nat) (p : dhcp_hashpool_t) : outcome (dhcp_server_t dhcp_hashpool_t) :=
  dhcp_init_server_hashmap HASH_N p circle_config DHCP_MAX_LEASES.
Definition circle_bmvar (p : dhcp_bmpool_var_t) (range : dhcp_bmrange_t)
    : outcome (dhcp_server_t dhcp_bmpool_var_t) :=
  dhcp_init_server_bmvar p circle_config range DHCP_POOL_SIZE.
Definition circle_bmuni (p : dhcp_bmpool_uni_t) (ranges : list dhcp_bmrange_t)
    : outcome (dhcp_server_t dhcp_bmpool_uni_t) :=
  dhcp_init_server_bmuni p circle_config ranges (DHCP_POOL_SIZE / DHCP_BMUNI_NUM_RANGES)
    DHCP_BMUNI_NUM_RANGES.
Definition circle_nprc : dhcp_server_t dhcp_nprcpool_t := dhcp_init_server_nprc circle_config.

(** Returns the message type, 0 on a packet too short or a bad magic cookie. *)
Definition ProcessDHCPHdr (pDHCP : list Z) (nLength : Z) : outcome Z :=
  if nLength <? DHCP_FIXED_LEN then Ret 0 else
  m ← load32 pDHCP dh_magic;
  if negb (BE32 m =? DHCP_MAGIC_COOKIE) then Ret 0 else
  msg ← hdrToMsg pDHCP nLength;
  dhcp_get_message_type msg.

(** [CTimer::Get ()->GetClockTicks () / 1000000] *)
Definition ts_in_sec (ticks : Z) : Z := ticks / 1000000.

Section CDHCPServer.
Context {P : Type} (mode : lease_mode P).

(** The response the library leaves in a zeroed [resp]. *)
Definition run_library (srv : dhcp_server_t P) (req : dhcp_message_t) (ticks : Z)
    : outcome (dhcp_message_t * dhcp_server_t P) :=
  '(r, srv) ← lm_process mode srv req (ts_in_sec ticks);
  Ret (default zero_msg r, srv).

(** The two [Craft] methods return the length and the response header, or 0. *)
Definition CraftDHCPOffer (srv : dhcp_server_t P) (pRequest : list Z) (ticks : Z)
    : outcome (option (list Z * Z) * dhcp_server_t P) :=
  req ← hdrToMsg pRequest (Z.of_nat DHCPHdr_SIZE);
  '(resp, srv) ← run_library srv req ticks;
  if m_op resp =? 0 then Ret (None, srv) else
  r ← msgToHdr resp;
  Ret (Some r, srv).

Definition CraftDHCPAck (srv : dhcp_server_t P) (pRequest : list Z) (requestLen ticks : Z)
    : outcome (option (list Z * Z) * dhcp_server_t P) :=
  req ← hdrToMsg pRequest requestLen;
  '(resp, srv) ← run_library srv req ticks;
  if m_op resp =? 0 then Ret (None, srv) else
  respType ← dhcp_get_message_type resp;
  r ← msgToHdr resp;
  Ret (Some r, srv).

Definition HandleDHCPDecline (srv : dhcp_server_t P) (pDHCP : list Z) (ticks : Z)
    : outcome (dhcp_server_t P) :=
  req ← hdrToMsg pDHCP (Z.of_nat DHCPHdr_SIZE);
  if lm_declines mode then '(_, srv) ← run_library srv req ticks; Ret srv else Ret srv.

(** ** kernel.cpp *)

Definition ipChecksum (frame : list Z) (p : nat) : outcome Z :=
  sum ← cksum_sum frame p IPv4_LEN 0;
  sum ← cksum_fold 2 sum;
  Ret (u16 (Z.lnot (u16 sum))).

(** [sizeof (ResponseFrameBuffer)] *)
Definition RESPONSE_SIZE : nat := ETHER_LEN + IPv4_LEN + UDP_LEN + DHCPHdr_SIZE.

(** The headers of a response, in the cleared [ResponseFrameBuffer]; [etype] is
    the request's type word, [mac] the device's address. *)
Definition response_headers (mac : list Z) (etype : Z) : outcome (list Z) :=
  f ← my_memset (replicate RESPONSE_SIZE 0) 0 0 RESPONSE_SIZE;
  f ← my_memcpy f (eth_hdr + srcMAC) mac 0 6;
  f ← my_memset f (eth_hdr + dstMAC) 0xff 6;
  f ← store16 f (eth_hdr + etherType) etype;
  f ← store f (ip_hdr + versionIhl) 0x45;
  f ← store f (ip_hdr + tos) 0;
  f ← store16 f (ip_hdr + ip_totalLen) (BE (Z.of_nat (IPv4_LEN + UDP_LEN + DHCPHdr_SIZE)));
  f ← store f (ip_hdr + ttl) 64;
  f ← store f (ip_hdr + protocol) 17;
  f ← store16 f (ip_hdr + ip_checksum) 0;
  f ← store16 f (udp_hdr + srcPort) (BE 67);
  f ← store16 f (udp_hdr + dstPort) (BE 68);
  f ← store16 f (udp_hdr + udp_totalLen) (BE (Z.of_nat (UDP_LEN + DHCPHdr_SIZE)));
  store16 f (udp_hdr + udp_checksum) 0.

(** The response frame once the DHCP header [h] is in place. *)
Definition finish_frame (f h : list Z) : outcome (list Z) :=
  f ← store_n f dhcp_hdr h;
  siaddr ← load_n f (dhcp_hdr + dh_siaddr) 4;
  f ← my_memcpy f (ip_hdr + srcIP) siaddr 0 4;
  f ← my_memset f (ip_hdr + dstIP) 0xff 4;
  c ← ipChecksum f ip_hdr;
  store16 f (ip_hdr + ip_checksum) c.

(** What is sent for the outcome of a [Craft] method. *)
Definition send_response (f : list Z) (r : option (list Z * Z)) : outcome (option (list Z)) :=
  match r with
  | Some (h, DHCPLen) =>
      if 0 <? DHCPLen then f ← finish_frame f h; Ret (Some f) else Ret None
  | None => Ret None
  end.

(** One received frame in the loop of [CKernel::Run]: the frame sent, if any,
    and the new server.  The received length is not looked at, as in the code. *)
Definition handle_frame (mac FrameBuffer : list Z) (ticks : Z) (srv : dhcp_server_t P)
    : outcome (option (list Z) * dhcp_server_t P) :=
  etype ← load16 FrameBuffer (eth_hdr + etherType);
  if negb (etype =? BE 0x800) then Ret (None, srv) else
  proto ← deref FrameBuffer (ip_hdr + protocol);
  if negb (proto =? 17) then Ret (None, srv) else
  dport ← load16 FrameBuffer (udp_hdr + dstPort);
  if negb (BE dport =? 67) then Ret (None, srv) else
  f ← response_headers mac etype;
  let dhcp := drop dhcp_hdr FrameBuffer in
  totalLen ← load16 FrameBuffer (udp_hdr + udp_totalLen);
  let DHCPRequestLen := BE totalLen ⊟ Z.of_nat UDP_LEN in
  msgType ← ProcessDHCPHdr dhcp DHCPRequestLen;
  if msgType =? DHCP_DISCOVER then
    '(r, srv) ← CraftDHCPOffer srv dhcp ticks;
    f ← send_response f r; Ret (f, srv)
  else if msgType =? DHCP_REQUEST then
    '(r, srv) ← CraftDHCPAck srv dhcp DHCPRequestLen ticks;
    f ← send_response f r; Ret (f, srv)
  else if msgType =? DHCP_DECLINE then
    srv ← HandleDHCPDecline srv dhcp ticks; Ret (None, srv)
  else Ret (None, srv).

End CDHCPServer.

(** ** The byte loops are the block operations of the C library *)

Lemma my_memcpy_eq src n : ∀ dest d s,
  (s + n ≤ length src)%nat → (d + n ≤ length dest)%nat →
  my_memcpy dest d src s n = Ret (list_inserts d (field src s n) dest).
Proof.
  induction n as [|n IH]; intros dest d s Hs Hd; cbn [my_memcpy]; [done|].
  destruct (deref_lt src s) as (x & Hx & ->); [lia|].
  rewrite bind_Ret, store_lt, bind_Ret by lia.
  rewrite IH by (rewrite ?length_insert; lia). f_equal. unfold field.
  rewrite (drop_S _ _ _ Hx), firstn_cons. cbn [list_inserts]. apply list_eq. intros i.
  destruct (decide (i = d)) as [->|Hne].
  - rewrite list_lookup_inserts_lt by lia. rewrite !list_lookup_insert_eq by
      (rewrite ?length_inserts; lia). done.
  - rewrite list_lookup_insert_ne by done.
    assert (L : length (take n (drop (S s) src)) = n) by solve_length.
    destruct (decide (S d ≤ i < S d + n)%nat) as [Hi|Hi].
    + by rewrite !list_lookup_inserts by (rewrite ?length_insert; lia).
    + assert (i < S d ∨ S d + n ≤ i)%nat as [?|?] by lia.
      * rewrite !list_lookup_inserts_lt by lia. by rewrite list_lookup_insert_ne.
      * rewrite !list_lookup_inserts_ge by lia. by rewrite list_lookup_insert_ne.
Qed.

Lemma my_memset_eq c n : ∀ l p, (p + n ≤ length l)%nat →
  my_memset l p c n = Ret (list_inserts p (replicate n (u8 c)) l).
Proof.
  induction n as [|n IH]; intros l p Hl; cbn [my_memset]; [done|].
  rewrite store_lt, bind_Ret by lia. rewrite IH by (rewrite length_insert; lia).
  f_equal. cbn [replicate list_inserts]. apply list_eq. intros i.
  destruct (decide (i = p)) as [->|Hne].
  - rewrite list_lookup_inserts_lt by lia.
    by rewrite !list_lookup_insert_eq by (rewrite ?length_inserts; lia).
  - rewrite list_lookup_insert_ne by done.
    destruct (decide (S p ≤ i < S p + n)%nat) as [Hi|Hi].
    + by rewrite !list_lookup_inserts by (rewrite ?length_insert, ?length_replicate; lia).
    + assert (i < S p ∨ S p + n ≤ i)%nat as [?|?] by lia.
      * rewrite !list_lookup_inserts_lt by lia. by rewrite list_lookup_insert_ne.
      * rewrite !list_lookup_inserts_ge by (rewrite length_replicate; lia).
        by rewrite list_lookup_insert_ne.
Qed.

Lemma my_memcmp_eq n : ∀ a b i, (i + n ≤ length a)%nat → (i + n ≤ length b)%nat →
  ∃ r, my_memcmp a b i n = Ret r ∧ (r = 0 ↔ field a i n = field b i n).
Proof.
  induction n as [|n IH]; intros a b i Ha Hb; cbn [my_memcmp]; [by exists 0|].
  destruct (deref_lt a i) as (x & Hx & ->); [lia|]. destruct (deref_lt b i) as (y & Hy & ->); [lia|].
  rewrite !bind_Ret. unfold field. rewrite (drop_S _ _ _ Hx), (drop_S _ _ _ Hy), !firstn_cons.
  destruct (Z.eqb_spec x y) as [->|Hne]; cbn [negb].
  - destruct (IH a b (S i)) as (r & -> & Hr); [lia..|]. exists r. split; [done|].
    rewrite Hr. unfold field. split; [by intros -> | by intros [= ->]].
  - exists (x - y). split; [done|]. split; [lia|]. intros [=]. lia.
Qed.

(** ** Byte order *)

(** [BE32] swaps the bytes, like [htonl]; [BE] like [htons]. *)
Lemma BE_eq x : is_u16 x → BE x = htons x.
Proof.
  intros Hx. unfold BE, bswap. cbn [le_split rev app le_combine].
  change 0x00FF with 255. rewrite land_255.
  assert (E : Z.land x 0xFF00 ≫ 8 = (x / 256) `mod` 256).
  { rewrite Z.shiftr_land. change (0xFF00 ≫ 8) with 255. by rewrite land_255, Z.shiftr_div_pow2. }
  rewrite E, Z.lor_comm, lor_shiftl_add; [|lia|apply Z.mod_pos_bound; lia].
  change (2 ^ 8) with 256. lia.
Qed.

Lemma land_mask y m n : 0 ≤ n → Z.land y (m ≪ n) = Z.land (y ≫ n) m ≪ n.
Proof.
  intros Hn. apply Z.bits_inj'. intros i Hi. rewrite Z.land_spec, !Z.shiftl_spec by lia.
  destruct (decide (i < n)).
  - rewrite !(Z.testbit_neg_r _ (i - n)) by lia. apply andb_false_r.
  - rewrite Z.land_spec, Z.shiftr_spec by lia. by replace (i - n + n) with i by lia.
Qed.

Lemma lor_bytes a b c d : 0 ≤ a < 256 → 0 ≤ b < 256 → 0 ≤ c < 256 → 0 ≤ d < 256 →
  Z.lor (Z.lor (Z.lor a (b ≪ 8)) (c ≪ 16)) (d ≪ 24) = a + 256 * (b + 256 * (c + 256 * d)).
Proof.
  intros Ha Hb Hc Hd. rewrite (Z.lor_comm a), lor_shiftl_add by lia.
  rewrite (Z.lor_comm _ (c ≪ 16)), lor_shiftl_add by lia.
  rewrite Z.lor_comm, lor_shiftl_add by lia. lia.
Qed.

Lemma BE32_eq x : is_u32 x → BE32 x = htonl x.
Proof.
  intros Hx. unfold BE32, bswap. cbn [le_split rev app le_combine]. rewrite Z.mul_0_r, Z.add_0_r.
  change 0xFF00 with (255 ≪ 8). change 0xFF0000 with (255 ≪ 16).
  change 0xFF000000 with (255 ≪ 24). change 0xFF with 255.
  rewrite !land_mask, !land_255 by lia.
  assert (E2 : ((x ≫ 8) ≫ 8) `mod` 256 = (x / 256 / 256) `mod` 256).
  { rewrite Z.shiftr_shiftr, Z.shiftr_div_pow2, Z.div_div by lia. done. }
  assert (E3 : (u32 (x ≪ 8) ≫ 16) `mod` 256 = (x / 256) `mod` 256).
  { unfold wrap. rewrite Z.shiftl_mul_pow2, Z.shiftr_div_pow2 by lia.
    change (2 ^ 8) with 256. change (2 ^ 32) with 4294967296. change (2 ^ 16) with 65536.
    Z.to_euclidean_division_equations; lia. }
  assert (E4 : (u32 (x ≪ 24) ≫ 24) `mod` 256 = x `mod` 256).
  { unfold wrap. rewrite Z.shiftl_mul_pow2, Z.shiftr_div_pow2 by lia.
    change (2 ^ 24) with 16777216. change (2 ^ 32) with 4294967296.
    Z.to_euclidean_division_equations; lia. }
  assert (E1 : (x ≫ 24) `mod` 256 = (x / 256 / 256 / 256) `mod` 256).
  { rewrite Z.shiftr_div_pow2, !Z.div_div by lia. done. }
  rewrite E1, E2, E3, E4. apply lor_bytes; apply Z.mod_pos_bound; lia.
Qed.

(** ** The wire header of a message *)

(** The first 240 bytes of a [DHCPHdr]. *)
Definition wire_fields (m : dhcp_message_t) : list Z :=
  [m_op m; m_htype m; m_hlen m; m_hops m] ++ le_split 4 (m_xid m) ++ le_split 2 (m_secs m) ++
  le_split 2 (m_flags m) ++ uint32_to_ip (m_ciaddr m) ++ uint32_to_ip (m_yiaddr m) ++
  uint32_to_ip (m_siaddr m) ++ uint32_to_ip (m_giaddr m) ++ m_chaddr m ++ replicate 192 0 ++
  le_split 4 (BE32 (m_magic_cookie m)).

(** How many option bytes are sent: up to the first 0xFF byte. *)
Fixpoint wire_len (opts : list Z) : nat :=
  match opts with
  | [] => 0
  | o :: opts => if o =? 0xFF then 1 else S (wire_len opts)
  end.

Definition wire_options (opts : list Z) : list Z :=
  take (wire_len opts) opts ++ replicate (312 - wire_len opts) 0.

Lemma wire_len_le opts : (wire_len opts ≤ length opts)%nat.
Proof. induction opts as [|o opts IH]; cbn; [lia|]. destruct (o =? 255); lia. Qed.

Lemma wire_opt_len_eq opts : ∀ pre k,
  wire_opt_len (length opts) (length pre) (pre ++ opts) k = Ret (k + wire_len opts)%nat.
Proof.
  induction opts as [|o opts IH]; intros pre k; cbn [wire_opt_len length wire_len].
  - f_equal. lia.
  - rewrite deref_app_0, bind_Ret. destruct (o =? 255); [f_equal; lia|].
    replace (S (length pre)) with (length (pre ++ [o])) by solve_length.
    replace (pre ++ o :: opts) with ((pre ++ [o]) ++ opts) by (by rewrite <- app_assoc).
    rewrite IH. f_equal. lia.
Qed.

Lemma list_4 {A} (l : list A) : length l = 4%nat → ∃ a b c d, l = [a; b; c; d].
Proof.
  intros H. do 4 (destruct l as [|? l]; [discriminate H|]). destruct l; [|discriminate H].
  by eexists _, _, _, _.
Qed.

Lemma list_2 {A} (l : list A) : length l = 2%nat → ∃ a b, l = [a; b].
Proof.
  intros H. do 2 (destruct l as [|? l]; [discriminate H|]). destruct l; [|discriminate H].
  by eexists _, _.
Qed.

Lemma list_6 {A} (l : list A) : length l = 6%nat → ∃ a b c d e f, l = [a; b; c; d; e; f].
Proof.
  intros H. do 6 (destruct l as [|? l]; [discriminate H|]). destruct l; [|discriminate H].
  by eexists _, _, _, _, _, _.
Qed.

Lemma list_16 {A} (l : list A) : length l = 16%nat →
  ∃ a b c d e f g h i j k x n o p q, l = [a; b; c; d; e; f; g; h; i; j; k; x; n; o; p; q].
Proof.
  intros H. do 16 (destruct l as [|? l]; [discriminate H|]). destruct l; [|discriminate H].
  by eexists _, _, _, _, _, _, _, _, _, _, _, _, _, _, _, _.
Qed.

(** [packIP] stores the four bytes of [uint32_to_ip]. *)
Lemma packIP_eq a b c d ip p o : uint32_to_ip ip = [a; b; c; d] →
  packIP ip p o =
    (p ← store p o a; p ← store p (o + 1) b; p ← store p (o + 2) c; store p (o + 3) d).
Proof. unfold uint32_to_ip. by intros [= <- <- <- <-]. Qed.

Lemma msgFields_eq m : length (m_chaddr m) = 16%nat →
  msgFields m = Ret (wire_fields m ++ replicate 312 0).
Proof.
  intros Hch. unfold msgFields, wire_fields, store_le.
  destruct (list_4 (le_split 4 (m_xid m))) as (x0 & x1 & x2 & x3 & Hx); [apply le_split_length|].
  destruct (list_2 (le_split 2 (m_secs m))) as (s0 & s1 & Hs); [apply le_split_length|].
  destruct (list_2 (le_split 2 (m_flags m))) as (f0 & f1 & Hf); [apply le_split_length|].
  destruct (list_4 (le_split 4 (BE32 (m_magic_cookie m)))) as (k0 & k1 & k2 & k3 & Hk);
    [apply le_split_length|].
  rewrite Hx, Hs, Hf, Hk. unfold packIP, uint32_to_ip. change 0xFF with 255.
  generalize (Z.land (m_ciaddr m ≫ 24) 255), (Z.land (m_ciaddr m ≫ 16) 255),
    (Z.land (m_ciaddr m ≫ 8) 255), (Z.land (m_ciaddr m) 255).
  generalize (Z.land (m_yiaddr m ≫ 24) 255), (Z.land (m_yiaddr m ≫ 16) 255),
    (Z.land (m_yiaddr m ≫ 8) 255), (Z.land (m_yiaddr m) 255).
  generalize (Z.land (m_siaddr m ≫ 24) 255), (Z.land (m_siaddr m ≫ 16) 255),
    (Z.land (m_siaddr m ≫ 8) 255), (Z.land (m_siaddr m) 255).
  generalize (Z.land (m_giaddr m ≫ 24) 255), (Z.land (m_giaddr m ≫ 16) 255),
    (Z.land (m_giaddr m ≫ 8) 255), (Z.land (m_giaddr m) 255).
  destruct (list_16 _ Hch) as (? & ? & ? & ? & ? & ? & ? & ? & ? & ? & ? & ? & ? & ? & ? & ? & ->).
  generalize (m_op m), (m_htype m), (m_hlen m), (m_hops m). clear. intros.
  vm_compute. reflexivity.
Qed.

Lemma wire_fields_length m : length (m_chaddr m) = 16%nat → length (wire_fields m) = 240%nat.
Proof. intros H. unfold wire_fields. rewrite !length_app, !le_split_length, H. done. Qed.

(** [msgToHdr] in closed form. *)
Lemma msgToHdr_eq m : length (m_chaddr m) = 16%nat → length (m_options m) = OPTIONS_LEN →
  msgToHdr m = Ret (wire_fields m ++ wire_options (m_options m),
    240 + Z.of_nat (wire_len (m_options m))).
Proof.
  intros Hch Ho. unfold msgToHdr. rewrite msgFields_eq, bind_Ret by done. rewrite <- Ho.
  rewrite (wire_opt_len_eq (m_options m) [] 0
    : wire_opt_len (length (m_options m)) 0 (m_options m) 0 = _), bind_Ret. cbn [Nat.add].
  pose proof (wire_len_le (m_options m)) as Hk. pose proof Ho as Ho'. unfold OPTIONS_LEN in Ho'.
  rewrite my_memcpy_eq, bind_Ret; [|lia|].
  2:{ rewrite length_app, wire_fields_length, length_replicate by done. unfold dh_options. lia. }
  f_equal. f_equal.
  - unfold field, wire_options. rewrite drop_0.
    assert (L : length (take (wire_len (m_options m)) (m_options m)) = wire_len (m_options m))
      by (rewrite length_take; lia).
    replace dh_options with (length (wire_fields m)) by (by apply wire_fields_length).
    replace (replicate 312 0) with (replicate (wire_len (m_options m)) 0
      ++ replicate (312 - wire_len (m_options m)) 0) by (rewrite <- replicate_add; f_equal; lia).
    rewrite list_inserts_app; [done|]. by rewrite L, length_replicate.
  - unfold DHCP_FIXED_LEN. apply wrap_small. unfold uword. lia.
Qed.

(** ** Reading a wire header back *)

(** The fixed fields are in the range of their types. *)
Record msg_ok (m : dhcp_message_t) : Prop := {
  mk_xid : is_u32 (m_xid m);
  mk_secs : is_u16 (m_secs m);
  mk_flags : is_u16 (m_flags m);
  mk_addrs : is_u32 (m_ciaddr m) ∧ is_u32 (m_yiaddr m) ∧ is_u32 (m_siaddr m) ∧ is_u32 (m_giaddr m);
  mk_chaddr : length (m_chaddr m) = 16%nat;
  mk_cookie : is_u32 (m_magic_cookie m);
  mk_options : length (m_options m) = OPTIONS_LEN
}.

Lemma unpackIP_ext l r o x : unpackIP l o = Ret x → unpackIP (l ++ r) o = Ret x.
Proof.
  unfold unpackIP. intros H. inv_ret.
  by rewrite (deref_ext _ r _ _ Hv), (deref_ext _ r _ _ Hv0), (deref_ext _ r _ _ Hv1),
    (deref_ext _ r _ _ Hv2).
Qed.

Lemma my_memcpy_src_ext l r n : ∀ dest d s x,
  my_memcpy dest d l s n = Ret x → my_memcpy dest d (l ++ r) s n = Ret x.
Proof.
  induction n as [|n IH]; intros dest d s x H; cbn [my_memcpy] in *; [done|]. inv_ret.
  rewrite (deref_ext _ r _ _ Hv), bind_Ret, Hv0, bind_Ret. by apply IH.
Qed.

Lemma hdrFields_ext l r m : hdrFields l = Ret m → hdrFields (l ++ r) = Ret m.
Proof.
  unfold hdrFields. intros H. inv_ret.
  repeat match goal with
  | H : deref ?l ?i = Ret _ |- context [deref (?l ++ ?r) ?i] =>
      rewrite (deref_ext l r i _ H), bind_Ret
  | H : load_le ?n ?l ?i = Ret _ |- context [load_le ?n (?l ++ ?r) ?i] =>
      rewrite (load_le_ext n l r i _ H), bind_Ret
  | H : unpackIP ?l ?i = Ret _ |- context [unpackIP (?l ++ ?r) ?i] =>
      rewrite (unpackIP_ext l r i _ H), bind_Ret
  | H : my_memcpy ?a ?d ?l ?s ?n = Ret _ |- context [my_memcpy ?a ?d (?l ++ ?r) ?s ?n] =>
      rewrite (my_memcpy_src_ext l r n a d s _ H), bind_Ret
  end. done.
Qed.

Lemma bswap_involutive n x : 0 ≤ x < 256 ^ Z.of_nat n → bswap n (bswap n x) = x.
Proof.
  intros Hx. unfold bswap at 1. rewrite le_split_bswap, rev_involutive. by apply le_combine_split.
Qed.

Lemma bswap_range n x : 0 ≤ bswap n x < 256 ^ Z.of_nat n.
Proof.
  unfold bswap. pose proof (le_combine_range (rev (le_split n x))) as H.
  rewrite length_rev, le_split_length in H. apply H, Forall_rev, le_split_bytes.
Qed.

Lemma BE32_involutive x : is_u32 x → BE32 (BE32 x) = x.
Proof.
  intros Hx. rewrite (BE32_eq x Hx), BE32_eq; [by apply bswap_involutive | apply (bswap_range 4)].
Qed.

Lemma BE32_range x : is_u32 x → is_u32 (BE32 x).
Proof. intros Hx. rewrite BE32_eq by done. apply (bswap_range 4). Qed.

Lemma u32_bytes x : is_u32 x →
  ∃ a b c d, uint32_to_ip x = [a; b; c; d] ∧ x = ip_to_uint32 a b c d.
Proof.
  intros Hx. exists (Z.land (x ≫ 24) 255), (Z.land (x ≫ 16) 255), (Z.land (x ≫ 8) 255), (Z.land x 255).
  split; [done|]. symmetry. exact (ip_of_uint32_to_ip x Hx).
Qed.

(** The message with the fields [msgToHdr] does not transfer cleared. *)
Definition fields_msg (m : dhcp_message_t) (opts : list Z) : dhcp_message_t :=
  mkMsg (m_op m) (m_htype m) (m_hlen m) (m_hops m) (m_xid m) (m_secs m) (m_flags m)
    (m_ciaddr m) (m_yiaddr m) (m_siaddr m) (m_giaddr m) (m_chaddr m)
    (replicate 64 0) (replicate 128 0) (m_magic_cookie m) opts.

Lemma hdrFields_wire m t : msg_ok m →
  hdrFields (wire_fields m ++ t) = Ret (fields_msg m (replicate OPTIONS_LEN 0)).
Proof.
  intros [Hx Hs Hf (Hc & Hy & Hsi & Hg) Hch Hk _]. apply hdrFields_ext.
  unfold wire_fields, fields_msg.
  rewrite <- (BE32_involutive (m_magic_cookie m)) at 2 by done.
  rewrite <- (le_combine_split4 (BE32 (m_magic_cookie m))) at 2 by (by apply BE32_range).
  rewrite <- (le_combine_split4 (m_xid m) Hx) at 2.
  rewrite <- (le_combine_split 2 (m_secs m)) at 2 by exact Hs.
  rewrite <- (le_combine_split 2 (m_flags m)) at 2 by exact Hf.
  destruct (list_4 (le_split 4 (m_xid m))) as (x0 & x1 & x2 & x3 & ->); [apply le_split_length|].
  destruct (list_2 (le_split 2 (m_secs m))) as (s0 & s1 & ->); [apply le_split_length|].
  destruct (list_2 (le_split 2 (m_flags m))) as (f0 & f1 & ->); [apply le_split_length|].
  destruct (list_4 (le_split 4 (BE32 (m_magic_cookie m)))) as (k0 & k1 & k2 & k3 & ->);
    [apply le_split_length|].
  destruct (u32_bytes _ Hc) as (c0 & c1 & c2 & c3 & -> & ->).
  destruct (u32_bytes _ Hy) as (y0 & y1 & y2 & y3 & -> & ->).
  destruct (u32_bytes _ Hsi) as (i0 & i1 & i2 & i3 & -> & ->).
  destruct (u32_bytes _ Hg) as (g0 & g1 & g2 & g3 & -> & ->).
  destruct (list_16 _ Hch) as (? & ? & ? & ? & ? & ? & ? & ? & ? & ? & ? & ? & ? & ? & ? & ? & ->).
  generalize (m_op m), (m_htype m), (m_hlen m), (m_hops m). clear. intros.
  unfold hdrFields, load_le, unpackIP, ip_to_uint32. generalize BE32, le_combine, Z.lor, Z.shiftl.
  intros. vm_compute. reflexivity.
Qed.

(** The 308 option bytes [hdrToMsg] keeps of a wire header. *)
Definition kept_options (opts : list Z) : list Z :=
  take (wire_len opts) opts ++ replicate (OPTIONS_LEN - wire_len opts) 0.

Lemma inserts_zeros (s : list Z) k : (length s ≤ k)%nat →
  list_inserts 0 s (replicate k 0) = s ++ replicate (k - length s) 0.
Proof.
  intros H. replace (replicate k 0) with (replicate (length s) 0 ++ replicate (k - length s) 0)
    by (rewrite <- replicate_add; f_equal; lia).
  apply (list_inserts_app []). by rewrite length_replicate.
Qed.

Lemma set_options_fields m o o' : set_options (fields_msg m o) o' = fields_msg m o'.
Proof. done. Qed.

(** A header followed by [n] option bytes is read as its fields and those bytes,
    zero-filled to 308. *)
Lemma hdrToMsg_eq m t (n : nat) : msg_ok m → (min n OPTIONS_LEN ≤ length t)%nat → Z.of_nat n < 2 ^ 31 →
  hdrToMsg (wire_fields m ++ t) (240 + Z.of_nat n)
  = Ret (fields_msg m (take (min n OPTIONS_LEN) t ++ replicate (OPTIONS_LEN - n) 0)).
Proof.
  intros Hm Ht Hn. unfold hdrToMsg. rewrite hdrFields_wire, bind_Ret by done.
  assert (E : (let optLen := if DHCP_FIXED_LEN <? 240 + Z.of_nat n
                then 240 + Z.of_nat n ⊟ DHCP_FIXED_LEN else 0 in
    Z.to_nat (if Z.of_nat OPTIONS_LEN <? optLen then Z.of_nat OPTIONS_LEN else optLen))
    = min n OPTIONS_LEN).
  { cbv zeta. unfold DHCP_FIXED_LEN.
    assert (W : (if 240 <? 240 + Z.of_nat n then u32 (240 + Z.of_nat n - 240) else 0) = Z.of_nat n).
    { zcases; [|lia]. rewrite wrap_small; [lia|]. unfold uword. lia. }
    rewrite W. zcases; lia. }
  cbv zeta in *. rewrite E. cbn [m_options fields_msg].
  assert (Lw : length (wire_fields m) = dh_options) by (apply wire_fields_length; by destruct Hm).
  rewrite my_memcpy_eq, bind_Ret;
    [|rewrite length_app, Lw; lia|rewrite length_replicate; lia].
  unfold field. rewrite <- Lw, drop_app_length, set_options_fields. do 2 f_equal.
  assert (L : length (take (min n OPTIONS_LEN) t) = min n OPTIONS_LEN) by (rewrite length_take; lia).
  rewrite inserts_zeros, L by (rewrite L; lia). do 2 f_equal. lia.
Qed.

(** Wire round trip.  A message converted to a wire header and read back with
    the length the conversion reports is the message again, except that [sname]
    and [file] are not transferred and the options stop at the first 0xFF byte,
    be it the END marker or a data byte. *)
Theorem wire_roundtrip (m : dhcp_message_t) :
  msg_ok m →
  ∃ h len, msgToHdr m = Ret (h, len) ∧ length h = DHCPHdr_SIZE ∧
    hdrToMsg h len = Ret (fields_msg m (kept_options (m_options m))).
Proof.
  intros Hm. pose proof (mk_chaddr _ Hm) as Hch. pose proof (mk_options _ Hm) as Ho.
  eexists _, _. split; [by apply msgToHdr_eq|].
  pose proof (wire_len_le (m_options m)) as Hk. rewrite Ho in Hk. unfold OPTIONS_LEN in *.
  unfold wire_options. split.
  { rewrite !length_app, wire_fields_length, length_take, length_replicate by done.
    unfold DHCPHdr_SIZE. lia. }
  rewrite hdrToMsg_eq; [| done | solve_length | lia].
  unfold kept_options, OPTIONS_LEN. do 3 f_equal.
  rewrite Nat.min_l by done. rewrite take_app_le by solve_length. rewrite take_take. f_equal. lia.
Qed.

Lemma wire_roundtrip_witness :
  let m := request_msg client_a 192 168 4 100 in
  msg_ok m ∧ ∃ h len, msgToHdr m = Ret (h, len) ∧ length h = DHCPHdr_SIZE ∧
    hdrToMsg h len = Ret (fields_msg m (kept_options (m_options m))).
Proof.
  assert (H : msg_ok (request_msg client_a 192 168 4 100)) by (constructor; vm_compute; repeat split; congruence).
  split; [exact H | exact (wire_roundtrip _ H)].
Defined.

(** ** A client's frame, as the server reads it *)

Definition client_msg (meta : build_meta) : dhcp_message_t :=
  mkMsg 1 1 6 0 (htonl (u32 (b_xid meta))) 0 (htons 0x8000) 0 0 0 0
    (b_client_mac meta ++ replicate 10 0) (replicate 64 0) (replicate 128 0)
    DHCP_MAGIC_COOKIE (take OPTIONS_LEN (client_options meta)).

(** The values of a client's request are bytes, and it asks for nothing else. *)
Record client_ok (meta : build_meta) : Prop := {
  co_meta : meta_ok meta;
  co_mac : Forall byte (b_client_mac meta);
  co_req : Forall byte (b_requested_ip meta);
  co_srv : Forall byte (b_server_ip meta);
  co_type : b_dhcp_type meta = DHCP_DISCOVER ∨ b_dhcp_type meta = DHCP_REQUEST
}.

Lemma client_header_wire meta : client_dhcp_header meta = wire_fields (client_msg meta).
Proof.
  unfold client_dhcp_header, wire_fields, client_msg. cbn [m_op m_htype m_hlen m_hops m_xid m_secs
    m_flags m_ciaddr m_yiaddr m_siaddr m_giaddr m_chaddr m_magic_cookie].
  rewrite le_split_bswap. rewrite <- !app_assoc. reflexivity.
Qed.

Lemma client_items_length meta : client_ok meta →
  (length (encode (client_items meta) ++ [OPT_END]) ≤ 16)%nat.
Proof.
  intros [[_ Hr Hs] _ _ _ _]. unfold client_items.
  destruct (_ =? _); [|simpl; lia].
  unfold encode. cbn. rewrite !length_app. cbn. rewrite length_app. cbn. rewrite Hr, Hs. simpl. lia.
Qed.

Lemma client_options_length meta : client_ok meta → length (client_options meta) = 312%nat.
Proof.
  intros Hc. pose proof (client_items_length meta Hc). unfold client_options.
  rewrite length_app, length_replicate. lia.
Qed.

Lemma client_items_ok meta : client_ok meta → Forall item_ok (client_items meta).
Proof.
  intros [[_ Hr Hs] _ _ _ _]. unfold client_items.
  assert (item_ok (Opt OPT_MSG_TYPE [u8 (b_dhcp_type meta)])) by item_ok_tac.
  assert (item_ok (Opt OPT_REQUEST_IP (b_requested_ip meta)))
    by (split; [split; reflexivity | rewrite Hr; lia]).
  assert (item_ok (Opt OPT_SERVER_IP (b_server_ip meta)))
    by (split; [split; reflexivity | rewrite Hs; lia]).
  destruct (_ =? _); auto.
Qed.

Lemma client_represents meta : client_ok meta →
  represents (take OPTIONS_LEN (client_options meta)) (client_items meta).
Proof.
  intros Hc. pose proof (client_items_length meta Hc) as L. rewrite length_app in L. simpl in L.
  split; [|split].
  - rewrite length_take, client_options_length by done. reflexivity.
  - by apply client_items_ok.
  - unfold client_options.
    rewrite take_app_ge by (rewrite length_app; unfold OPTIONS_LEN; simpl; lia).
    rewrite <- app_assoc. by eexists.
Qed.

Lemma client_options_bytes meta : client_ok meta → Forall byte (client_options meta).
Proof.
  intros [[_ Hr Hs] _ Hrb Hsb Ht]. unfold client_options, client_items.
  rewrite !Forall_app. split_and!; try (apply (bool_decide_eq_true_1 _); vm_compute; reflexivity).
  2:{ apply Forall_replicate. unfold uword. lia. }
  assert (Hty : byte (u8 (b_dhcp_type meta))) by (apply wrap_range; lia).
  assert (Hb : ∀ z, 0 ≤ z < 256 → byte z) by (intros z Hz; exact Hz).
  destruct (_ =? _); unfold encode; cbn [mbind list_bind enc_item length app];
    repeat (constructor; [first [done | apply Hb; unfold OPT_MSG_TYPE, OPT_REQUEST_IP, OPT_SERVER_IP;
      rewrite ?Hr, ?Hs; simpl; lia]|]); try constructor.
  rewrite Forall_app. split; [done|].
  repeat (constructor; [apply Hb; unfold OPT_SERVER_IP; rewrite ?Hs; simpl; lia|]).
  by rewrite app_nil_r.
Qed.

Lemma client_msg_ok meta : client_ok meta → msg_ok (client_msg meta).
Proof.
  intros Hc. pose proof Hc as [[Hm _ _] _ _ _ _]. split; cbn.
  - apply (bswap_range 4).
  - unfold uword. lia.
  - apply (bswap_range 2).
  - split_and!; unfold uword; lia.
  - rewrite length_app, Hm. done.
  - unfold uword, DHCP_MAGIC_COOKIE. lia.
  - by destruct (client_represents meta Hc).
Qed.

Lemma client_request_ok meta : client_ok meta → request_ok (client_msg meta) (client_items meta).
Proof.
  intros Hc. split; cbn [client_msg m_options m_chaddr].
  - by apply client_represents.
  - by apply Forall_take, client_options_bytes.
  - destruct Hc as [[Hm _ _] Hb _ _ _]. split; [by rewrite length_app, Hm|].
    rewrite Forall_app. split; [done|]. apply Forall_replicate. unfold uword. lia.
Qed.

Lemma client_msg_mac meta : client_ok meta → client_mac (client_msg meta) = b_client_mac meta.
Proof.
  intros [[Hm _ _] _ _ _ _]. unfold client_mac. cbn [client_msg m_chaddr].
  rewrite <- Hm. apply take_app_length.
Qed.

Lemma client_type meta : client_ok meta → msg_type_of (client_items meta) = b_dhcp_type meta.
Proof.
  intros [_ _ _ _ Ht]. unfold msg_type_of, client_items. cbn.
  destruct Ht as [-> | ->]; reflexivity.
Qed.

(** Both lengths the server uses give the same message. *)
Lemma client_hdrToMsg meta junk : client_ok meta →
  hdrToMsg (client_dhcp_header meta ++ client_options meta ++ junk) 552 = Ret (client_msg meta).
Proof.
  intros Hc. rewrite client_header_wire.
  pose proof (client_options_length meta Hc) as L.
  rewrite (hdrToMsg_eq _ _ 312).
  - f_equal. rewrite take_app_le by (rewrite L; unfold OPTIONS_LEN; lia).
    change (OPTIONS_LEN - 312)%nat with 0%nat. cbn [replicate]. rewrite app_nil_r. done.
  - by apply client_msg_ok.
  - rewrite length_app, L. unfold OPTIONS_LEN. lia.
  - done.
Qed.

Lemma wire_magic m t : msg_ok m →
  load32 (wire_fields m ++ t) dh_magic = Ret (BE32 (m_magic_cookie m)).
Proof.
  intros Hm. pose proof (wire_fields_length m (mk_chaddr _ Hm)) as L.
  apply load_le_ext. unfold wire_fields in *. rewrite !app_assoc in *.
  set (A := _ ++ replicate 192 0) in *.
  assert (LA : length A = dh_magic).
  { rewrite length_app, le_split_length in L. unfold dh_magic. lia. }
  rewrite load_le_field by (rewrite length_app, le_split_length, LA; lia).
  f_equal. unfold field. rewrite <- LA, drop_app_length.
  rewrite firstn_all2 by (by rewrite le_split_length).
  apply le_combine_split4, BE32_range. by destruct Hm.
Qed.

Lemma client_process meta junk : client_ok meta →
  ProcessDHCPHdr (client_dhcp_header meta ++ client_options meta ++ junk) 552
  = Ret (b_dhcp_type meta).
Proof.
  intros Hc. unfold ProcessDHCPHdr. change (552 <? DHCP_FIXED_LEN) with false. cbn iota.
  rewrite client_header_wire, wire_magic, bind_Ret by (by apply client_msg_ok).
  rewrite BE32_involutive by (by apply mk_cookie, client_msg_ok). cbn [client_msg m_magic_cookie].
  rewrite Z.eqb_refl. cbn [negb].
  rewrite <- client_header_wire, client_hdrToMsg, bind_Ret by done.
  rewrite (message_type_of _ _ (client_request_ok meta Hc)). by rewrite client_type.
Qed.

(** ** The response frame *)

Lemma ipChecksum_eq f p c : ip_cksum f p IPv4_LEN = Ret c → ipChecksum f p = Ret c.
Proof.
  unfold ip_cksum, ipChecksum. intros H. inv_ret. rewrite Hv, bind_Ret, Hv0, bind_Ret. f_equal.
  unfold Z.lnot, wrap. rewrite <- !Z.sub_1_r, <- !Z.add_opp_r.
  Z.to_euclidean_division_equations. lia.
Qed.

(** Ethernet, IPv4 and UDP headers of a response from [src] with checksum [ck]. *)
Definition response_ip (ck src dst : list Z) : list Z :=
  [0x45; 0; 0x02; 0x44; 0; 0; 0; 0; 64; 17] ++ ck ++ src ++ dst.
Definition response_prefix (mac ck src dst : list Z) : list Z :=
  ether_header (replicate 6 255) mac ++ response_ip ck src dst ++ [0; 67; 0; 68; 0x02; 0x30; 0; 0].

Lemma response_headers_eq mac : length mac = 6%nat →
  response_headers mac (htons 0x0800)
  = Ret (response_prefix mac [0; 0] (replicate 4 0) (replicate 4 0) ++ replicate DHCPHdr_SIZE 0).
Proof.
  intros Hm. destruct (list_6 mac Hm) as (? & ? & ? & ? & ? & ? & ->). vm_compute. reflexivity.
Qed.

Lemma my_memcpy_block dest d src n : length src = n → (d + n ≤ length dest)%nat →
  my_memcpy dest d src 0 n = store_n dest d src.
Proof.
  intros Hs Hd. rewrite my_memcpy_eq by lia. unfold field. rewrite drop_0, <- Hs, firstn_all.
  by rewrite store_n_le by lia.
Qed.

Lemma my_memset_block l p c n : (p + n ≤ length l)%nat →
  my_memset l p c n = store_n l p (replicate n (u8 c)).
Proof.
  intros H. rewrite my_memset_eq by done. by rewrite store_n_le by (rewrite length_replicate; lia).
Qed.

Lemma response_prefix_length mac ck src dst :
  length mac = 6%nat → length ck = 2%nat → length src = 4%nat → length dst = 4%nat →
  length (response_prefix mac ck src dst) = dhcp_hdr.
Proof.
  intros H1 H2 H3 H4. unfold response_prefix, ether_header, response_ip.
  rewrite !length_app, H1, H2, H3, H4. done.
Qed.

(** Writes into the IPv4 header of a response. *)
Lemma response_write mac src h :
  length mac = 6%nat → length src = 4%nat →
  (f ← store_n (response_prefix mac [0; 0] (replicate 4 0) (replicate 4 0) ++ h) (ip_hdr + srcIP) src;
   store_n f (ip_hdr + dstIP) (replicate 4 255))
  = Ret (response_prefix mac [0; 0] src (replicate 4 255) ++ h).
Proof.
  intros Hm Hs. destruct (list_6 mac Hm) as (? & ? & ? & ? & ? & ? & ->).
  destruct (list_4 src Hs) as (? & ? & ? & ? & ->).
  set (mac := [_; _; _; _; _; _]). set (src := [_; _; _; _]).
  assert (E1 : store_n (response_prefix mac [0; 0] (replicate 4 0) (replicate 4 0)) (ip_hdr + srcIP) src
    = Ret (response_prefix mac [0; 0] src (replicate 4 0))) by (vm_compute; reflexivity).
  assert (E2 : store_n (response_prefix mac [0; 0] src (replicate 4 0)) (ip_hdr + dstIP) (replicate 4 255)
    = Ret (response_prefix mac [0; 0] src (replicate 4 255))) by (vm_compute; reflexivity).
  rewrite (store_n_ext _ h _ _ _ E1), bind_Ret. by rewrite (store_n_ext _ h _ _ _ E2).
Qed.

Lemma response_checksum mac src h :
  length mac = 6%nat → length src = 4%nat → Forall byte src →
  ∃ c, is_u16 c ∧ c ≠ 65535 ∧
    ip_cksum (response_prefix mac [0; 0] src (replicate 4 255) ++ h) ip_hdr IPv4_LEN = Ret c ∧
    ip_cksum (response_prefix mac (le_split 2 c) src (replicate 4 255) ++ h) ip_hdr IPv4_LEN = Ret 0.
Proof.
  intros Hm Hs Hb. set (l1 := [0x45; 0; 0x02; 0x44; 0; 0; 0; 0; 64; 17]).
  set (l2 := src ++ replicate 4 255).
  set (pre := ether_header (replicate 6 255) mac).
  assert (Lp : length pre = ip_hdr) by (unfold pre, ether_header; rewrite !length_app, Hm; done).
  assert (L2 : length l2 = 8%nat) by (unfold l2; rewrite length_app, Hs; done).
  assert (Hl : Forall byte (l1 ++ l2)).
  { unfold l1, l2. rewrite !Forall_app. split_and!; try done;
      apply (bool_decide_eq_true_1 _); vm_compute; reflexivity. }
  destruct (ip_cksum_store pre l1 l2 ([0; 67; 0; 68; 0x02; 0x30; 0; 0] ++ h) 5)
    as (c & Hc & Hr & Hne & Hz); [done | done | rewrite length_app, L2; cbn; lia |].
  rewrite L2, Lp in Hc, Hz. change (length l1 + 2 + 8)%nat with IPv4_LEN in *.
  exists c. split; [done|].
  assert (E : ∀ ck, pre ++ (l1 ++ ck ++ l2) ++ [0; 67; 0; 68; 0x02; 0x30; 0; 0] ++ h
    = response_prefix mac ck src (replicate 4 255) ++ h).
  { intros ck. unfold response_prefix, response_ip, pre, l1, l2. by rewrite <- !app_assoc. }
  rewrite E in Hc, Hz. split; [|by split]. apply Hne.
  apply Forall_app in Hl as [_ Hl2]. pose proof (words_sum_range _ Hl2).
  cbn in *. lia.
Qed.

Lemma response_store_checksum mac src h c :
  length mac = 6%nat → length src = 4%nat →
  store16 (response_prefix mac [0; 0] src (replicate 4 255) ++ h) (ip_hdr + ip_checksum) c
  = Ret (response_prefix mac (le_split 2 c) src (replicate 4 255) ++ h).
Proof.
  intros Hm Hs. unfold store_le.
  destruct (list_2 (le_split 2 c)) as (c0 & c1 & ->); [apply le_split_length|].
  destruct (list_6 mac Hm) as (? & ? & ? & ? & ? & ? & ->).
  destruct (list_4 src Hs) as (? & ? & ? & ? & ->).
  apply (store_n_ext _ h). vm_compute. reflexivity.
Qed.

(** The frame [finish_frame] sends: its IPv4 header is addressed from the DHCP
    header's [siaddr] and its checksum verifies. *)
Lemma finish_frame_eq mac h src : length mac = 6%nat → length h = DHCPHdr_SIZE →
  field h dh_siaddr 4 = src → Forall byte src →
  ∃ c, finish_frame (response_prefix mac [0; 0] (replicate 4 0) (replicate 4 0)
        ++ replicate DHCPHdr_SIZE 0) h
      = Ret (response_prefix mac (le_split 2 c) src (replicate 4 255) ++ h) ∧
    is_u16 c ∧ c ≠ 65535 ∧
    ip_cksum (response_prefix mac (le_split 2 c) src (replicate 4 255) ++ h) ip_hdr IPv4_LEN = Ret 0.
Proof.
  intros Hm Hh Hsrc Hb.
  assert (Hs : length src = 4%nat).
  { rewrite <- Hsrc. apply field_length. rewrite Hh. unfold DHCPHdr_SIZE, dh_siaddr. lia. }
  assert (Lp : length (response_prefix mac [0; 0] (replicate 4 0) (replicate 4 0)) = dhcp_hdr)
    by (by apply response_prefix_length).
  destruct (response_checksum mac src h Hm Hs Hb) as (c & Hr & Hne & Hc & Hz).
  exists c. split; [|done]. unfold finish_frame.
  assert (Ln : (dhcp_hdr + length h ≤ dhcp_hdr + DHCPHdr_SIZE)%nat) by lia.
  rewrite store_n_le by (rewrite length_app, length_replicate, Lp, Hh; lia).
  rewrite <- Lp at 1. rewrite <- (app_nil_r (replicate DHCPHdr_SIZE 0)).
  rewrite list_inserts_app, app_nil_r, bind_Ret by (by rewrite length_replicate).
  rewrite load_field by (rewrite length_app, Lp, Hh; unfold DHCPHdr_SIZE, dh_siaddr; lia).
  assert (Ef : field (response_prefix mac [0; 0] (replicate 4 0) (replicate 4 0) ++ h)
    (dhcp_hdr + dh_siaddr) 4 = src).
  { rewrite <- Hsrc. unfold field. rewrite <- Lp, <- drop_drop, drop_app_length. done. }
  rewrite bind_Ret, Ef.
  assert (Lh : (42 ≤ length (response_prefix mac [0; 0]%Z (replicate 4 0%Z) (replicate 4 0%Z) ++ h))%nat)
    by (rewrite length_app, Lp; change dhcp_hdr with 42%nat; lia).
  rewrite my_memcpy_block by (done || (change (ip_hdr + srcIP + 4)%nat with 30%nat; lia)).
  pose proof (response_write mac src h Hm Hs) as Hw.
  destruct (store_n (_ ++ h) (ip_hdr + srcIP) src) as [f1| |] eqn:E1; try discriminate Hw.
  rewrite bind_Ret in Hw. rewrite bind_Ret, my_memset_block.
  2:{ apply store_n_length in E1. rewrite E1. change (ip_hdr + dstIP + 4)%nat with 34%nat. lia. }
  change (u8 0xff) with 255. rewrite Hw, bind_Ret, (ipChecksum_eq _ _ _ Hc), bind_Ret.
  by apply response_store_checksum.
Qed.

(** ** The response, as the client reads it *)

Lemma field_app_r A B o n : field (A ++ B) (length A + o) n = field B o n.
Proof. unfold field. by rewrite <- drop_drop, drop_app_length. Qed.

(** A response to a client is accepted by that client. *)
Lemma response_accepted mac src h x c :
  length mac = 6%nat → length src = 4%nat → length h = DHCPHdr_SIZE → is_u16 c → c ≠ 65535 →
  field h dh_xid 4 = be32 x →
  let f := response_prefix mac (le_split 2 c) src (replicate 4 255) ++ h in
  ip_cksum f ip_hdr IPv4_LEN = Ret 0 → is_reply f 594 x.
Proof.
  intros Hm Hs Hh Hc Hne Hx f Hz.
  assert (Lp : length (response_prefix mac (le_split 2 c) src (replicate 4 255)) = dhcp_hdr)
    by (apply response_prefix_length; done || apply le_split_length).
  assert (Exid : field f (dhcp_hdr + dh_xid) 4 = be32 x).
  { unfold f. rewrite <- Lp. by rewrite field_app_r. }
  assert (Hck : le_split 2 c ≠ [255; 255]).
  { intros E. apply Hne. apply (f_equal le_combine) in E. rewrite le_combine_split in E by exact Hc.
    by rewrite E. }
  unfold is_reply. revert Hz Exid. unfold f. clear f.
  destruct (list_2 (le_split 2 c)) as (c0 & c1 & Ec); [apply le_split_length|]. rewrite Ec in *.
  destruct (list_6 mac Hm) as (? & ? & ? & ? & ? & ? & ->).
  destruct (list_4 src Hs) as (? & ? & ? & ? & ->).
  intros Hz Exid. split_and!; try done.
Qed.

(** *** The replies of the library to a client's request *)

(** The reply message all three builders make, up to its address and options. *)
Definition reply_msg (meta : build_meta) (yi si : Z) (opts : list Z) : dhcp_message_t :=
  mkMsg 2 1 6 0 (htonl (u32 (b_xid meta))) 0 (htons 0x8000) 0 yi si 0
    (take 16 (b_client_mac meta ++ replicate 10 0)) (replicate 64 0) (replicate 128 0)
    DHCP_MAGIC_COOKIE opts.

Lemma offer_exact c meta ip : ∃ opts,
  dhcp_build_offer c (client_msg meta) ip = Ret (reply_msg meta ip (server_ip c) opts) ∧
  represents opts (config_items DHCP_OFFER c).
Proof.
  unfold dhcp_build_offer. cbv zeta.
  match goal with |- context [dhcp_set_message_type ?m _] => set (m0 := m) end.
  destruct (build_with_options c m0 DHCP_OFFER) as (opts & -> & Hr); [done|]. by exists opts.
Qed.

Lemma ack_exact c meta ip : ∃ opts,
  dhcp_build_ack c (client_msg meta) ip = Ret (reply_msg meta ip (server_ip c) opts) ∧
  represents opts (config_items DHCP_ACK c).
Proof.
  unfold dhcp_build_ack. cbv zeta.
  match goal with |- context [dhcp_set_message_type ?m _] => set (m0 := m) end.
  destruct (build_with_options c m0 DHCP_ACK) as (opts & -> & Hr); [done|]. by exists opts.
Qed.

Lemma nak_exact meta : ∃ opts,
  dhcp_build_nak (client_msg meta) = Ret (reply_msg meta 0 0 opts) ∧
  represents opts [Opt DHCP_OPT_MESSAGE_TYPE [DHCP_NAK]].
Proof.
  eexists. split; [reflexivity|].
  apply (represents_intro [Opt DHCP_OPT_MESSAGE_TYPE [DHCP_NAK]] (replicate 304 0)); [|done].
  constructor; [item_ok_tac | done].
Qed.

(** The options of an OFFER or ACK of this server as they reach the wire: the
    first 0xFF byte is the first byte of the subnet mask 255.255.255.0, so the
    copy ends there and the rest of the field is PAD. *)
Definition config_wire (t : Z) : list item :=
  [Opt OPT_MSG_TYPE [t]; Opt OPT_SERVER_IP [192; 168; 4; 1]; Opt OPT_SUBNET_MASK [255; 0; 0; 0]]
  ++ replicate 297 Pad.

Lemma config_wire_options t opts : t = DHCP_OFFER ∨ t = DHCP_ACK →
  represents opts (config_items t circle_config) →
  wire_options opts = encode (config_wire t) ++ [].
Proof. intros [-> | ->] (_ & _ & rest & ->); vm_compute; reflexivity. Qed.

Lemma nak_wire_options opts : represents opts [Opt DHCP_OPT_MESSAGE_TYPE [DHCP_NAK]] →
  wire_options opts = encode [Opt OPT_MSG_TYPE [DHCP_NAK]] ++ OPT_END :: replicate 308 0.
Proof. intros (_ & _ & rest & ->). vm_compute. reflexivity. Qed.

(** What the client reads from the server's answer. *)
Definition client_sees (mac : list Z) (xid : Z) (a : answer) : option parse_meta :=
  match a with
  | NoReply => None
  | Offer ip =>
      Some (mkParse mac (uint32_to_ip ip) [192; 168; 4; 1] [255; 0; 0; 0] DHCP_OFFER 0 xid)
  | Ack ip =>
      Some (mkParse mac (uint32_to_ip ip) [192; 168; 4; 1] [255; 0; 0; 0] DHCP_ACK 0 xid)
  | Nak => Some (mkParse mac (replicate 4 0) (replicate 4 0) (replicate 4 0) DHCP_NAK 0 xid)
  end.

(** A frame to the client and what the client makes of it. *)
Definition reaches_client (xid : Z) (f : list Z) (r : parse_meta) : Prop :=
  length f = RESPONSE_SIZE ∧ Forall byte f ∧
  parse_frame f 594 (no_meta xid) = Ret (cksum_zeroed f, r).

Lemma reply_wire_bytes meta yi si opts : client_ok meta →
  Forall byte (wire_fields (reply_msg meta yi si opts)).
Proof.
  intros [[Hm _ _] Hb _ _ _]. unfold wire_fields. cbn [reply_msg m_op m_htype m_hlen m_hops m_xid
    m_secs m_flags m_ciaddr m_yiaddr m_siaddr m_giaddr m_chaddr m_magic_cookie].
  rewrite !Forall_app.
  split_and!; try apply le_split_bytes; try apply uint32_to_ip_bytes;
    try (apply (bool_decide_eq_true_1 _); vm_compute; reflexivity).
  apply Forall_take, Forall_app. split; [done|]. apply Forall_replicate. unfold uword. lia.
Qed.

Lemma wire_options_length opts : length opts = OPTIONS_LEN → length (wire_options opts) = 312%nat.
Proof.
  intros H. pose proof (wire_len_le opts) as L. rewrite H in L. unfold OPTIONS_LEN in *.
  unfold wire_options. solve_length.
Qed.

(** The fields of a reply's wire header a client looks at. *)
Lemma reply_wire_lookup meta yi si opts t : let h := wire_fields (reply_msg meta yi si opts) ++ t in
  field h dh_xid 4 = be32 (u32 (b_xid meta)) ∧ field h dh_yiaddr 4 = uint32_to_ip yi ∧
  field h dh_siaddr 4 = uint32_to_ip si.
Proof.
  cbv zeta. unfold wire_fields. cbn [reply_msg m_op m_htype m_hlen m_hops m_xid m_secs m_flags
    m_ciaddr m_yiaddr m_siaddr m_giaddr].
  rewrite le_split_bswap. fold (be32 (u32 (b_xid meta))).
  destruct (list_4 (be32 (u32 (b_xid meta)))) as (? & ? & ? & ? & ->);
    [unfold be32; by rewrite length_rev, le_split_length|].
  split_and!; reflexivity.
Qed.

Lemma response_bytes mac ck src h : Forall byte mac → Forall byte ck → Forall byte src →
  Forall byte h → Forall byte (response_prefix mac ck src (replicate 4 255) ++ h).
Proof.
  intros. unfold response_prefix, ether_header, response_ip. rewrite !Forall_app.
  split_and!; try done; apply (bool_decide_eq_true_1 _); vm_compute; reflexivity.
Qed.

(** A response frame around the wire header of a reply, parsed by its client. *)
Lemma response_parsed mac meta yi si opts its rest c :
  let h := wire_fields (reply_msg meta yi si opts) ++ encode its ++ rest in
  let f := response_prefix mac (le_split 2 c) (uint32_to_ip si) (replicate 4 255) ++ h in
  is_mac mac → client_ok meta → length h = DHCPHdr_SIZE → Forall item_ok its →
  Forall byte (encode its ++ rest) → options_end 312 (length (encode its)) rest →
  is_u16 c → c ≠ 65535 → ip_cksum f ip_hdr IPv4_LEN = Ret 0 →
  reaches_client (b_xid meta) f (fold_left apply_item its
    (mkParse mac (uint32_to_ip yi) (uint32_to_ip si) (replicate 4 0) DHCP_UNKNOWN 0 (b_xid meta))).
Proof.
  intros h f [Hm Hmb] Hc Lh Hits Hwb Hend Hcr Hne Hz.
  destruct (reply_wire_lookup meta yi si opts (encode its ++ rest)) as (Hx & Hyi & Hsi).
  fold h in Hx, Hyi, Hsi.
  assert (Lp : length (response_prefix mac (le_split 2 c) (uint32_to_ip si) (replicate 4 255)) = dhcp_hdr)
    by (apply response_prefix_length; done || apply le_split_length).
  assert (Hf : length f = RESPONSE_SIZE) by (unfold f; rewrite length_app, Lp, Lh; done).
  assert (Hfb : Forall byte f).
  { apply response_bytes; [done | apply le_split_bytes | apply uint32_to_ip_bytes |].
    apply Forall_app. split; [by apply reply_wire_bytes | done]. }
  assert (Hrec : received f 594) by (split; [done | rewrite Hf; by vm_compute | done]).
  assert (Lw : length (wire_fields (reply_msg meta yi si opts)) = 240%nat).
  { apply wire_fields_length. destruct Hc as [[Hl _ _] _ _ _ _]. cbn.
    by rewrite length_take, length_app, Hl. }
  split; [done|]. split; [done|].
  rewrite parse_frame_eq, decide_True by (done || by apply (response_accepted mac (uint32_to_ip si) h)).
  cbn [no_meta p_xid].
  rewrite (parse_items f 594 its (response_prefix mac (le_split 2 c) (uint32_to_ip si) (replicate 4 255)
    ++ wire_fields (reply_msg meta yi si opts)) rest _ Hrec Hits); [| | |exact Hend].
  - rewrite bind_Ret. do 3 f_equal. unfold header_meta, f.
    rewrite <- Lp, !field_app_r, Hyi, Hsi. f_equal.
    destruct (list_6 mac Hm) as (? & ? & ? & ? & ? & ? & ->). reflexivity.
  - unfold f, h. by rewrite <- !app_assoc.
  - by rewrite length_app, Lp, Lw.
Qed.

(** The frame that carries a reply, sent and parsed. *)
Lemma reply_reaches mac meta yi si opts its rest :
  is_mac mac → client_ok meta → length opts = OPTIONS_LEN →
  wire_options opts = encode its ++ rest → Forall item_ok its → Forall byte (encode its ++ rest) →
  options_end 312 (length (encode its)) rest →
  ∃ f, (r ← msgToHdr (reply_msg meta yi si opts);
        send_response (response_prefix mac [0; 0] (replicate 4 0) (replicate 4 0)
          ++ replicate DHCPHdr_SIZE 0) (Some r)) = Ret (Some f) ∧
    reaches_client (b_xid meta) f (fold_left apply_item its
      (mkParse mac (uint32_to_ip yi) (uint32_to_ip si) (replicate 4 0) DHCP_UNKNOWN 0 (b_xid meta))).
Proof.
  intros Hmac Hc Hlo Hw Hits Hwb Hend. pose proof Hmac as [Hm _].
  assert (Hch : length (m_chaddr (reply_msg meta yi si opts)) = 16%nat).
  { destruct Hc as [[Hl _ _] _ _ _ _]. cbn. by rewrite length_take, length_app, Hl. }
  rewrite msgToHdr_eq, bind_Ret by done. cbn [send_response].
  rewrite (proj2 (Z.ltb_lt 0 _)) by lia. cbn [reply_msg m_options].
  pose proof (wire_options_length opts Hlo) as Lo. rewrite Hw in *.
  set (h := wire_fields _ ++ encode its ++ rest).
  assert (Lh : length h = DHCPHdr_SIZE)
    by (unfold h; rewrite length_app, wire_fields_length, Lo by done; done).
  destruct (reply_wire_lookup meta yi si opts (encode its ++ rest)) as (_ & _ & Hsi).
  destruct (finish_frame_eq mac h (uint32_to_ip si) Hm Lh Hsi (uint32_to_ip_bytes si))
    as (c & -> & Hcr & Hne & Hz).
  rewrite bind_Ret. eexists. split; [done|].
  by apply (response_parsed mac meta yi si opts its rest c).
Qed.

(** The response frame before the DHCP header is in place. *)
Definition base_frame (mac : list Z) : list Z :=
  response_prefix mac [0; 0] (replicate 4 0) (replicate 4 0) ++ replicate DHCPHdr_SIZE 0.

(** [r], turned into a frame, is read by the client as [seen]. *)
Definition reply_delivers (mac : list Z) (xid : Z) (r : reply) (seen : option parse_meta) : Prop :=
  match seen with
  | None => r = None
  | Some pm => ∃ m hl f, r = Some m ∧ m_op m = 2 ∧ (∃ t, dhcp_get_message_type m = Ret t) ∧
      msgToHdr m = Ret hl ∧ send_response (base_frame mac) (Some hl) = Ret (Some f) ∧
      reaches_client xid f pm
  end.

Lemma reply_delivers_intro mac meta yi si opts its its' rest t d :
  is_mac mac → client_ok meta → represents opts (Opt DHCP_OPT_MESSAGE_TYPE (t :: d) :: its') →
  wire_options opts = encode its ++ rest → Forall item_ok its → Forall byte (encode its ++ rest) →
  options_end 312 (length (encode its)) rest →
  reply_delivers mac (b_xid meta) (Some (reply_msg meta yi si opts)) (Some (fold_left apply_item its
    (mkParse mac (uint32_to_ip yi) (uint32_to_ip si) (replicate 4 0) DHCP_UNKNOWN 0 (b_xid meta)))).
Proof.
  intros Hmac Hc Hr Hw Hits Hwb Hend.
  destruct (reply_reaches mac meta yi si opts its rest Hmac Hc) as (f & Hf & Hreach);
    [by destruct Hr | done..|].
  apply bind_Ret_inv in Hf as (hl & Hhl & Hs).
  exists (reply_msg meta yi si opts), hl, f. split; [reflexivity|]. split; [reflexivity|].
  split; [|split; [exact Hhl | split; [exact Hs | exact Hreach]]].
  exists t. exact (get_message_type_represents (reply_msg meta yi si opts) _ t d Hr eq_refl).
Qed.

Lemma answer_delivers mac meta a : is_mac mac → client_ok meta →
  ∃ r, answer_reply circle_config (client_msg meta) a = Ret r ∧
    reply_delivers mac (b_xid meta) r (client_sees mac (b_xid meta) a).
Proof.
  intros Hmac Hc.
  assert (Hcfg : ∀ t opts ip, t = DHCP_OFFER ∨ t = DHCP_ACK →
    represents opts (config_items t circle_config) →
    reply_delivers mac (b_xid meta) (Some (reply_msg meta ip (server_ip circle_config) opts))
      (Some (mkParse mac (uint32_to_ip ip) [192; 168; 4; 1] [255; 0; 0; 0] t 0 (b_xid meta)))).
  { intros t opts ip Ht Hr. pose proof (config_wire_options t opts Ht Hr) as Hw.
    replace (mkParse mac (uint32_to_ip ip) [192; 168; 4; 1] [255; 0; 0; 0] t 0 (b_xid meta))
      with (fold_left apply_item (config_wire t) (mkParse mac (uint32_to_ip ip)
        (uint32_to_ip (server_ip circle_config)) (replicate 4 0) DHCP_UNKNOWN 0 (b_xid meta)))
      by reflexivity.
    apply (reply_delivers_intro mac meta ip _ opts (config_wire t) _ [] t [] Hmac Hc Hr Hw).
    - unfold config_wire. apply Forall_app. split; [|by apply Forall_replicate].
      repeat (constructor; [item_ok_tac|]). constructor.
    - destruct Ht as [-> | ->]; apply (bool_decide_eq_true_1 _); vm_compute; reflexivity.
    - left. by destruct Ht as [-> | ->]. }
  destruct a as [|ip|ip|]; cbn [answer_reply client_sees].
  - by exists None.
  - destruct (offer_exact circle_config meta ip) as (opts & E & Hr).
    unfold offer_reply. rewrite E. eexists. split; [done|]. by apply Hcfg; [left|].
  - destruct (ack_exact circle_config meta ip) as (opts & E & Hr).
    unfold ack_reply. rewrite E. eexists. split; [done|]. by apply Hcfg; [right|].
  - destruct (nak_exact meta) as (opts & E & Hr).
    unfold nak_reply. rewrite E. eexists. split; [done|].
    apply (reply_delivers_intro mac meta 0 0 opts [Opt OPT_MSG_TYPE [DHCP_NAK]] [] _ DHCP_NAK []
      Hmac Hc Hr (nak_wire_options opts Hr)).
    + repeat (constructor; [item_ok_tac|]). constructor.
    + apply (bool_decide_eq_true_1 _). vm_compute. reflexivity.
    + right. split; [done|]. by eexists.
Qed.

(** *** One frame through the server *)

(** The client's frame up to its DHCP header. *)
Definition client_prefix (meta : build_meta) : list Z :=
  ether_header (replicate 6 255) (b_client_mac meta) ++ client_ip_header [0x38; 0xaa] ++
  client_udp_header.

Lemma client_frame_split meta junk :
  client_frame meta ++ junk
  = client_prefix meta ++ client_dhcp_header meta ++ client_options meta ++ junk.
Proof. unfold client_frame, client_prefix. by rewrite <- !app_assoc. Qed.

Lemma client_gate {P} (mode : lease_mode P) mac meta junk ticks srv :
  client_ok meta → length mac = 6%nat →
  handle_frame mode mac (client_frame meta ++ junk) ticks srv =
    if b_dhcp_type meta =? DHCP_DISCOVER then
      '(r, srv) ← CraftDHCPOffer mode srv
        (client_dhcp_header meta ++ client_options meta ++ junk) ticks;
      f ← send_response (base_frame mac) r; Ret (f, srv)
    else
      '(r, srv) ← CraftDHCPAck mode srv
        (client_dhcp_header meta ++ client_options meta ++ junk) 552 ticks;
      f ← send_response (base_frame mac) r; Ret (f, srv).
Proof.
  intros Hc Hm. rewrite client_frame_split. set (t := client_dhcp_header meta ++ _).
  pose proof Hc as [[Hcm _ _] _ _ _ Hty].
  assert (Hpre : load16 (client_prefix meta) (eth_hdr + etherType) = Ret (htons 0x0800) ∧
    deref (client_prefix meta) (ip_hdr + protocol) = Ret 17 ∧
    load16 (client_prefix meta) (udp_hdr + dstPort) = Ret (htons 67) ∧
    load16 (client_prefix meta) (udp_hdr + udp_totalLen) = Ret (htons 560) ∧
    drop dhcp_hdr (client_prefix meta ++ t) = t).
  { unfold client_prefix.
    destruct (list_6 _ Hcm) as (? & ? & ? & ? & ? & ? & ->). split_and!; reflexivity. }
  destruct Hpre as (H1 & H2 & H3 & H4 & H5).
  unfold handle_frame.
  rewrite (load_le_ext _ _ t _ _ H1), bind_Ret. change (htons 0x0800 =? BE 0x800) with true. cbn [negb].
  rewrite (deref_ext _ t _ _ H2), bind_Ret. change (17 =? 17) with true. cbn [negb].
  rewrite (load_le_ext _ _ t _ _ H3), bind_Ret. change (BE (htons 67) =? 67) with true. cbn [negb].
  rewrite response_headers_eq, bind_Ret by done.
  rewrite (load_le_ext _ _ t _ _ H4), bind_Ret, H5. cbv zeta.
  change (BE (htons 560) ⊟ Z.of_nat UDP_LEN) with 552.
  unfold t. rewrite client_process, bind_Ret by done. fold (base_frame mac).
  by destruct Hty as [-> | ->].
Qed.

(** The lease-keeping modes, ARRAY and HASHMAP. *)
Definition store_mode {P} `{LeaseStore P} : lease_mode P := mkMode process_message_store true.

Lemma ts_in_sec_u32 ticks : is_u32 ticks → is_u32 (ts_in_sec ticks) ∧ ts_in_sec ticks ≤ 4294.
Proof.
  unfold uword, ts_in_sec. intros Ht.
  pose proof (Z.div_lt_upper_bound ticks 1000000 4295). pose proof (Z.div_pos ticks 1000000). lia.
Qed.

Section exchange.
Context {P : Type} `{LeaseStoreLaws P}.

Lemma op_sent {A} (a b : A) : (if 2 =? 0 then a else b) = b.
Proof. done. Qed.

(** What a [Craft] method and the sending do with a reply of the library. *)
Lemma send_delivered mac xid (srv : dhcp_server_t P) r seen :
  reply_delivers mac xid r seen →
  let resp := default zero_msg r in
  ∃ tx, ('(r, s) ← (if m_op resp =? 0 then Ret (None, srv)
                    else hl ← msgToHdr resp; Ret (Some hl, srv));
         f ← send_response (base_frame mac) r; Ret (f, s)) = Ret (tx, srv) ∧
    ('(r, s) ← (if m_op resp =? 0 then Ret (None, srv)
                else _ ← dhcp_get_message_type resp; hl ← msgToHdr resp; Ret (Some hl, srv));
     f ← send_response (base_frame mac) r; Ret (f, s)) = Ret (tx, srv) ∧
    match seen with
    | None => tx = None
    | Some pm => ∃ f, tx = Some f ∧ reaches_client xid f pm
    end.
Proof.
  intros Hd resp. destruct seen as [pm|]; cbn [reply_delivers] in Hd.
  - destruct Hd as (m & hl & f & -> & Hop & [t Ht] & Hhl & Hs & Hre).
    subst resp. change (default zero_msg (Some m)) with m. exists (Some f).
    rewrite Hop, !op_sent, Ht, Hhl, !bind_Ret, Hs, bind_Ret.
    split; [reflexivity|]. split; [reflexivity|]. exists f. split; [reflexivity | exact Hre].
  - subst r. exists None. split; [reflexivity|]. split; reflexivity.
Qed.

Lemma frame_exchange_core (srv : dhcp_server_t P) meta mac junk ticks :
  srv_inv srv → config srv = circle_config → client_ok meta → is_mac mac → is_u32 ticks →
  ∃ tx srv' a, handle_frame store_mode mac (client_frame meta ++ junk) ticks srv = Ret (tx, srv') ∧
    srv_inv srv' ∧ config srv' = circle_config ∧ srv_cap srv' = srv_cap srv ∧
    lease_step circle_config (srv_cap srv) (ts_in_sec ticks) (b_client_mac meta) (client_items meta)
      (srv_leases srv) a (srv_leases srv') ∧
    match client_sees mac (b_xid meta) a with
    | None => tx = None
    | Some pm => ∃ f, tx = Some f ∧ reaches_client (b_xid meta) f pm
    end.
Proof.
  intros Hi Hcfg Hc Hmac Hticks. destruct (ts_in_sec_u32 _ Hticks) as [Hnow _].
  destruct (process_store_exact srv (client_msg meta) (client_items meta) (ts_in_sec ticks) Hi
    (client_request_ok meta Hc) Hnow) as (r & srv' & a & Hp & Hi' & Ec & Ecap & Hstep & _ & Hex).
  rewrite Hcfg in *. rewrite client_msg_mac in Hstep by done.
  destruct (answer_delivers mac meta a Hmac Hc) as (r' & Hex' & Hd).
  rewrite Hex in Hex'. injection Hex' as <-.
  destruct (send_delivered mac (b_xid meta) srv' r _ Hd) as (tx & Ho & Ha & Htx).
  exists tx, srv', a. split; [|split; [assumption|]; split; [exact Ec|]; split; [exact Ecap|];
    split; [exact Hstep | exact Htx]].
  rewrite client_gate by (done || by destruct Hmac).
  unfold CraftDHCPOffer, CraftDHCPAck, run_library. change (Z.of_nat DHCPHdr_SIZE) with 552.
  rewrite client_hdrToMsg by done. rewrite !bind_Ret. cbn [store_mode lm_process].
  rewrite Hp, !bind_Ret. by destruct (b_dhcp_type meta =? DHCP_DISCOVER).
Qed.

(** C8: One exchange, from the client's memory to the client's memory, with a server in
    ARRAY or HASHMAP mode and the configuration of the sample.  Given the
    frame [build_frame] makes of a DISCOVER or REQUEST, with any bytes after it
    in the receive buffer, the bare-metal server performs one step of the
    lease-map specification for the client's MAC and answers with a frame that
    [parse_frame] accepts for the client's transaction id and reads as the
    answer of that step.  As the code is, the client sees the subnet mask
    255.0.0.0 and the lease time 0: the copy to the wire stops at the first 0xFF
    byte. *)
Theorem frame_exchange (srv : dhcp_server_t P) (meta : build_meta) (mac junk : list Z) (ticks : Z) :
  srv_inv srv → config srv = circle_config → client_ok meta → is_mac mac → is_u32 ticks →
  ∃ tx srv' a, handle_frame store_mode mac (client_frame meta ++ junk) ticks srv = Ret (tx, srv') ∧
    srv_inv srv' ∧
    lease_step circle_config (srv_cap srv) (ts_in_sec ticks) (b_client_mac meta) (client_items meta)
      (srv_leases srv) a (srv_leases srv') ∧
    match client_sees mac (b_xid meta) a with
    | None => tx = None
    | Some pm => ∃ f, tx = Some f ∧
        parse_frame f 594 (no_meta (b_xid meta)) = Ret (cksum_zeroed f, pm)
    end.
Proof.
  intros Hi Hcfg Hc Hmac Hticks.
  destruct (frame_exchange_core srv meta mac junk ticks Hi Hcfg Hc Hmac Hticks)
    as (tx & srv' & a & ? & ? & _ & _ & ? & Htx).
  exists tx, srv', a. split; [assumption|]. split; [assumption|]. split; [assumption|].
  destruct (client_sees mac (b_xid meta) a); [|exact Htx].
  destruct Htx as (f & -> & _ & _ & Hf). exists f. split; [reflexivity | exact Hf].
Qed.
End exchange.

Definition sample_dev : list Z := [0xb8; 0x27; 0xeb; 1; 2; 3].
Definition sample_discover : build_meta :=
  mkBuild [2; 0xde; 0xad; 0xbe; 0xef; 1] (replicate 4 0) (replicate 4 0) DHCP_DISCOVER 0x1234.
Definition circle_server : dhcp_server_t dhcp_arraypool_t :=
  circle_array (replicate (Z.to_nat DHCP_MAX_LEASES) free_lease).

Lemma circle_server_inv : srv_inv circle_server.
Proof.
  split; [|reflexivity].
  apply (array_init_inv DHCP_POOL_START DHCP_POOL_END (replicate (Z.to_nat DHCP_MAX_LEASES) free_lease));
    rewrite ?length_replicate; unfold DHCP_POOL_START, DHCP_POOL_END, DHCP_MAX_LEASES; lia.
Qed.

Lemma sample_discover_ok : client_ok sample_discover.
Proof. split; try (by split); try (by left); apply (bool_decide_eq_true_1 _); vm_compute; reflexivity. Qed.

Lemma sample_dev_mac : is_mac sample_dev.
Proof. apply (bool_decide_eq_true_1 _). vm_compute. reflexivity. Qed.

Lemma frame_exchange_witness :
  srv_inv circle_server ∧ client_ok sample_discover ∧
  ∃ tx srv' a, handle_frame array_mode sample_dev (client_frame sample_discover ++ replicate 1006 7)
      5000000 circle_server = Ret (tx, srv') ∧
    srv_inv srv' ∧
    lease_step circle_config (srv_cap circle_server) 5 (b_client_mac sample_discover)
      (client_items sample_discover) (srv_leases circle_server) a (srv_leases srv') ∧
    match client_sees sample_dev 0x1234 a with
    | None => tx = None
    | Some pm => ∃ f, tx = Some f ∧ parse_frame f 594 (no_meta 0x1234) = Ret (cksum_zeroed f, pm)
    end.
Proof.
  split; [exact circle_server_inv|]. split; [exact sample_discover_ok|].
  apply (frame_exchange circle_server sample_discover sample_dev (replicate 1006 7) 5000000
    circle_server_inv eq_refl sample_discover_ok sample_dev_mac).
  unfold uword. lia.
Defined.

(** ** The clock

    [GetClockTicks] is the low word of a microsecond counter: the seconds the
    server sees never exceed 4294 and start again at 0. *)

Section clock.
Context {P : Type} `{LeaseStoreLaws P}.

(** A lease whose end the clock never reaches survives every message of another
    client, and its address is acknowledged to nobody else. *)
Lemma lease_step_stuck c cap now mac' its M a M' mac ip x :
  lease_inj M → lease_step c cap now mac' its M a M' → mac' ≠ mac →
  M !! mac = Some (ip, x) → now < x → M' !! mac = Some (ip, x) ∧ a ≠ Ack ip.
Proof.
  intros Hinj Hstep Hne Hm Hnow.
  destruct Hstep as [M M' ip0 _ Hpru _|M M1 M' ip0 b _ _ _ Hpru _ Hg|M ip0|M|M Ht|M].
  - split; [by eapply pruned_live|]. by destruct (ip0 =? 0).
  - assert (Hm1 : M1 !! mac = Some (ip, x)) by (by eapply pruned_live).
    assert (Hinj1 : lease_inj M1) by (destruct Hpru; by eapply lease_inj_subseteq).
    unfold grant in Hg. destruct (M1 !! mac') as [[ip1 e1]|] eqn:Em.
    + destruct Hg as [(-> & -> & ->)|(_ & -> & ->)]; [|by split].
      rewrite lookup_insert_ne by done. split; [done|]. intros [= ->]. by apply Hne, (Hinj1 mac' mac ip e1 x).
    + destruct Hg as [(Hnh & _ & -> & ->)|(_ & -> & ->)]; [|by split].
      rewrite lookup_insert_ne by done. split; [done|]. intros [= ->]. apply Hnh. by exists mac, x.
  - by split.
  - by split.
  - by rewrite lookup_delete_ne.
  - by split.
Qed.

Lemma run_stuck mac ip x : ∀ evs (srv : dhcp_server_t P),
  srv_inv srv → srv_leases srv !! mac = Some (ip, x) → 4294 < x →
  Forall (λ ev, event_ok ev ∧ ev_time ev ≤ 4294 ∧ client_mac (ev_msg ev) ≠ mac) evs →
  ∃ rs srv', server_run srv evs = Ret (rs, srv') ∧ srv_leases srv' !! mac = Some (ip, x) ∧
    Forall (λ r, ¬ acks r ip) rs.
Proof.
  induction evs as [|ev evs IH]; intros srv Hi Hm Hx Hok.
  { exists [], srv. by split_and!. }
  apply Forall_cons in Hok as [([Hrq Hnow] & Ht & Hne) Hok]. cbn [server_run].
  destruct (process_store_refines srv (ev_msg ev) (ev_items ev) (ev_time ev) Hi Hrq Hnow)
    as (r & srv1 & a & -> & Hi1 & _ & _ & Hstep & Hr). rewrite bind_Ret.
  assert (Hinj : lease_inj (srv_leases srv)) by (destruct Hi as [Hi _]; by eapply ls_inj).
  destruct (lease_step_stuck _ _ _ _ _ _ _ _ mac ip x Hinj Hstep Hne Hm) as [Hm1 Ha]; [lia|].
  destruct (IH srv1 Hi1 Hm1 Hx Hok) as (rs & srv2 & -> & Hm2 & Hall). rewrite bind_Ret.
  exists (r :: rs), srv2. split_and!; [done|done|]. constructor; [|done].
  by rewrite (reply_is_acks _ _ _ _ _ Hr).
Qed.

(** The clock wraps and leases outlive it.  A one-hour lease the bare-metal
    server grants when its clock shows 695 s or more ends at a time the clock
    never shows again.  From then on, whatever the other clients send and
    whenever, the lease stays and its address is acknowledged to nobody else,
    however long its owner has been silent. *)
Theorem clock_wrap_lease_never_ends (srv : dhcp_server_t P) (mac : list Z) (ip ticks x : Z)
    (evs : list (Z * dhcp_message_t * list item)) :
  srv_inv srv → is_u32 ticks → 695 ≤ ts_in_sec ticks → x = ts_in_sec ticks ⊞ lease_time circle_config →
  srv_leases srv !! mac = Some (ip, x) →
  Forall (λ '(t, m, its), is_u32 t ∧ request_ok m its ∧ client_mac m ≠ mac) evs →
  ∃ rs srv', server_run srv ((λ '(t, m, its), mkEvent (ts_in_sec t) m its) <$> evs) = Ret (rs, srv') ∧
    srv_leases srv' !! mac = Some (ip, x) ∧ Forall (λ r, ¬ acks r ip) rs.
Proof.
  intros Hi Ht Hge -> Hm Hall. destruct (ts_in_sec_u32 _ Ht) as [_ Hle].
  apply run_stuck; [done | done | |].
  - change (lease_time circle_config) with 3600. rewrite wrap_small by (unfold uword; lia). lia.
  - apply Forall_fmap. eapply Forall_impl; [exact Hall|].
    intros [[t m] its] (Htt & Hrq & Hne). destruct (ts_in_sec_u32 _ Htt) as [? ?].
    split_and!; [split; done | done | done].
Qed.
End clock.

(** The server after an ACK at 700 s, and another client's request 100 s after
    the clock has wrapped. *)
Definition small_server : dhcp_server_t dhcp_arraypool_t :=
  dhcp_init_server_array circle_config (Some (replicate 2 free_lease)) 2.
Definition late_request : dhcp_message_t := request_msg client_a 192 168 4 100.
Definition late_server : dhcp_server_t dhcp_arraypool_t :=
  snd (ret_srv small_server (process_message_store small_server late_request 700)).

Lemma small_server_inv : srv_inv small_server.
Proof.
  split; [|reflexivity].
  apply (array_init_inv DHCP_POOL_START DHCP_POOL_END (replicate 2 free_lease));
    rewrite ?length_replicate; unfold DHCP_POOL_START, DHCP_POOL_END; lia.
Qed.

Lemma late_request_ok : request_ok late_request (request_items 192 168 4 100).
Proof. eval_request. Qed.

Lemma late_server_inv : srv_inv late_server.
Proof.
  destruct (process_store_refines small_server late_request (request_items 192 168 4 100) 700
    small_server_inv late_request_ok) as (r & srv' & a & E & Hi & _); [unfold uword; lia|].
  unfold late_server. by rewrite E.
Qed.

Lemma clock_wrap_lease_never_ends_witness :
  srv_leases late_server !! client_a = Some (0xC0A80464, 4300) ∧
  ∃ rs srv', server_run late_server [mkEvent 100 (request_msg client_b 192 168 4 100)
      (request_items 192 168 4 100)] = Ret (rs, srv') ∧
    srv_leases srv' !! client_a = Some (0xC0A80464, 4300) ∧ Forall (λ r, ¬ acks r 0xC0A80464) rs.
Proof.
  assert (Hl : srv_leases late_server !! client_a = Some (0xC0A80464, 4300)) by (vm_compute; reflexivity).
  split; [exact Hl|].
  apply (clock_wrap_lease_never_ends late_server client_a 0xC0A80464 700000000 4300
    [(100000000, request_msg client_b 192 168 4 100, request_items 192 168 4 100)]).
  - exact late_server_inv.
  - unfold uword. lia.
  - vm_compute. discriminate.
  - reflexivity.
  - exact Hl.
  - constructor; [|constructor]. split; [unfold uword; lia|]. split; [eval_request|]. vm_compute. discriminate.
Defined.

(** The wire copy loses options.  The OFFER the library builds carries the
    configured subnet mask, router, name server and lease time; the header
    [msgToHdr] makes of it carries none of the last three, and a mask of
    255.0.0.0. *)
Example offer_loses_options :
  ∃ m h, dhcp_build_offer circle_config (client_msg sample_discover) 0xC0A80464 = Ret m ∧
    carries_config m circle_config ∧
    msgToHdr m = Ret (h, 252) ∧
    drop 240 h = encode (config_wire DHCP_OFFER) ∧
    item_data DHCP_OPT_SUBNET_MASK (config_wire DHCP_OFFER) = Some [255; 0; 0; 0] ∧
    item_data DHCP_OPT_ROUTER (config_wire DHCP_OFFER) = None ∧
    item_data DHCP_OPT_DNS_SERVER (config_wire DHCP_OFFER) = None ∧
    item_data DHCP_OPT_LEASE_TIME (config_wire DHCP_OFFER) = None.
Proof.
  destruct (offer_exact circle_config sample_discover 0xC0A80464) as (opts & E & Hr).
  eexists _, _. split; [exact E|].
  destruct (config_items_carried (reply_msg sample_discover 0xC0A80464 (server_ip circle_config) opts)
    DHCP_OFFER circle_config Hr) as [_ Hcar].
  split; [exact Hcar|]. pose proof (config_wire_options _ _ (or_introl eq_refl) Hr) as Hw.
  rewrite app_nil_r in Hw.
  rewrite msgToHdr_eq; [|reflexivity|by destruct Hr].
  assert (Hl : wire_len opts = 12%nat) by (destruct Hr as (_ & _ & rest & ->); reflexivity).
  cbn [reply_msg m_options]. rewrite Hl, Hw. split_and!; try reflexivity.
Qed.
