(* ===== verification/Client.v ===== *)
(** * The load-test client

    [bench-live/dhcp-client.h], [utils.c] and the client session of
    [dhcp-client.c] ([run_client] and the loop of [main]).  The network is the
    session's input: the result of every [recv] and of every checked [sendto], in
    order.  A round of the [while] loop is one step; a session whose input is
    used up is still running.  Time measurements enter [main] as the list of the
    elapsed milliseconds; printing is left out, and so are the parts of [DEBUG]
    builds. *)
From S2P Require Import Prelude Options Frame.

Open Scope Z_scope.

Definition MAX_RETRIES : Z := 3.
Definition NUM_CLIENTS : Z := 2048.

Definition STATE_DISCOVER : Z := 1.
Definition STATE_REQUEST : Z := 2.
Definition STATE_DONE : Z := 3.
Definition STATE_FAILED : Z := 4.

Record client := mkClient {
  c_mac : list Z;
  c_xid : Z;
  c_state : Z;
  c_retries : Z;
  c_assigned_ip : list Z
}.

Definition set_state (c : client) (s : Z) : client :=
  mkClient (c_mac c) (c_xid c) s (c_retries c) (c_assigned_ip c).
Definition set_retries (c : client) (n : Z) : client :=
  mkClient (c_mac c) (c_xid c) (c_state c) n (c_assigned_ip c).
Definition set_assigned (c : client) (a : list Z) : client :=
  mkClient (c_mac c) (c_xid c) (c_state c) (c_retries c) a.

(** ** utils.c *)

(** [random_mac] on six results of [rand ()] *)
Definition random_mac (rand : list Z) : list Z :=
  let mac := (λ r, Z.land r 0xff) <$> rand in
  match mac with
  | m0 :: rest => Z.lor (Z.land m0 0xfe) 0x02 :: rest
  | [] => []
  end.

(** ** The session

    The locals of [run_client] (and of a worker): the metadata and the two
    buffers. *)
Record session := mkSession {
  s_client : client;
  s_bmeta : build_meta;
  s_pmeta : parse_meta;
  s_sbuf : list Z;
  s_rbuf : list Z
}.

Inductive verdict :=
  | Running (s : session)
  | Finished (rc : Z) (c : client).

Definition finished (c : client) : bool :=
  (c_state c =? STATE_DONE) || (c_state c =? STATE_FAILED).

(** The test of the [while] loop and, after it, the result of [run_client]. *)
Definition loop_test (s : session) : verdict :=
  if finished (s_client s)
  then Finished (if c_state (s_client s) =? STATE_DONE then 0 else -1) (s_client s)
  else Running s.

Definition set_client (s : session) (c : client) : session :=
  mkSession c (s_bmeta s) (s_pmeta s) (s_sbuf s) (s_rbuf s).

(** [build_frame (sbuf, sizeof (sbuf), bmeta)]: its result and the new [sbuf]. *)
Definition build_into (sbuf : list Z) (bmeta : build_meta) : outcome (Z * list Z) :=
  build_frame sbuf (Z.of_nat (length sbuf)) bmeta.

Definition discover_meta (c : client) : build_meta :=
  mkBuild (c_mac c) (replicate 4 0) (replicate 4 0) DHCP_DISCOVER (c_xid c).

(** The REQUEST that answers the offer in [pmeta]. *)
Definition request_meta (c : client) (pmeta : parse_meta) : build_meta :=
  mkBuild (c_mac c) (p_offered_ip pmeta) (p_server_ip pmeta) DHCP_REQUEST (c_xid c).

(** The first [len] bytes of a buffer, as [sendto] transmits them. *)
Definition transmit (buf : list Z) (len : Z) : outcome (list Z) := load_n buf 0 (Z.to_nat len).

(** Up to the loop: the DISCOVER is built and sent; [sent] says whether [sendto]
    succeeded.  [sbuf], [rbuf] and [pmeta] are uninitialised storage. *)
Definition start_session (c : client) (pmeta : parse_meta) (sbuf rbuf : list Z) (sent : bool)
    : outcome (list Z * verdict) :=
  let bmeta := discover_meta c in
  '(slen, sbuf) ← build_into sbuf bmeta;
  f ← transmit sbuf slen;
  if sent then
    Ret (f, loop_test (mkSession (set_state c STATE_DISCOVER) bmeta pmeta sbuf rbuf))
  else Ret (f, Finished (-1) c).

(** The [switch] on a parsed frame.  [request_len] is the length the REQUEST is
    sent with: a worker sends the frame, [run_client] the whole buffer. *)
Definition on_frame (request_len : Z → list Z → Z) (s : session) (pm : parse_meta) (sent : bool)
    : outcome (list (list Z) * verdict) :=
  let c := s_client s in
  let s := mkSession c (s_bmeta s) pm (s_sbuf s) (s_rbuf s) in
  if p_dhcp_type pm =? DHCP_OFFER then
    if negb (c_state c =? STATE_DISCOVER) then Ret ([], loop_test s) else
    let bmeta := request_meta c pm in
    '(slen, sbuf) ← build_into (s_sbuf s) bmeta;
    f ← transmit sbuf (request_len slen sbuf);
    if sent then
      let c := set_retries (set_state c STATE_REQUEST) 0 in
      Ret ([f], loop_test (mkSession c bmeta pm sbuf (s_rbuf s)))
    else Ret ([f], Finished (-1) c)
  else if p_dhcp_type pm =? DHCP_ACK then
    if negb (c_state c =? STATE_REQUEST) then Ret ([], loop_test s) else
    let c := set_state (set_assigned c (p_offered_ip pm)) STATE_DONE in
    Ret ([], loop_test (set_client s c))
  else if p_dhcp_type pm =? DHCP_NAK then
    Ret ([], loop_test (set_client s (set_state c STATE_FAILED)))
  else Ret ([], loop_test s).

(** A receive timeout: give up, or send the current message again. *)
Definition on_timeout (s : session) : outcome (list (list Z) * verdict) :=
  let c := set_retries (s_client s) (int32 (c_retries (s_client s) + 1)) in
  if MAX_RETRIES <=? c_retries c then Ret ([], Finished (-1) (set_state c STATE_FAILED)) else
  '(slen, sbuf) ← build_into (s_sbuf s) (s_bmeta s);
  f ← transmit sbuf slen;
  Ret ([f], loop_test (mkSession c (s_bmeta s) (s_pmeta s) sbuf (s_rbuf s))).

(** One [recv]: a frame, a timeout ([EAGAIN], [EWOULDBLOCK]) or another error;
    with a frame, whether the [sendto] it may lead to succeeds. *)
Inductive recv_result :=
  | Got (bytes : list Z) (sent : bool)
  | TimedOut
  | RecvError.

Definition set_xid (pm : parse_meta) (x : Z) : parse_meta :=
  mkParse (p_server_mac pm) (p_offered_ip pm) (p_server_ip pm) (p_subnet_mask pm)
    (p_dhcp_type pm) (p_lease_time pm) x.

Definition session_step (request_len : Z → list Z → Z) (s : session) (r : recv_result)
    : outcome (list (list Z) * verdict) :=
  let pmeta := set_xid (s_pmeta s) (c_xid (s_client s)) in
  match r with
  | Got bytes sent =>
      rbuf ← store_n (s_rbuf s) 0 bytes;
      '(rbuf, pm) ← parse_frame rbuf (Z.of_nat (length bytes)) pmeta;
      on_frame request_len (mkSession (s_client s) (s_bmeta s) pm (s_sbuf s) rbuf) pm sent
  | TimedOut => on_timeout (mkSession (s_client s) (s_bmeta s) pmeta (s_sbuf s) (s_rbuf s))
  | RecvError => Ret ([], Finished (-1) (s_client s))
  end.

(** The rounds of the loop over the results of [recv]; also the frames sent. *)
Fixpoint session_run (request_len : Z → list Z → Z) (v : verdict) (rs : list recv_result)
    : outcome (list (list Z) * verdict) :=
  match v, rs with
  | Running s, r :: rs =>
      '(fs, v) ← session_step request_len s r;
      '(fs', v) ← session_run request_len v rs;
      Ret (fs ++ fs', v)
  | _, _ => Ret ([], v)
  end.

(** [sendto (sockfd, sbuf, sizeof (sbuf), ...)]: the REQUEST of [run_client]. *)
Definition whole_buffer (slen : Z) (sbuf : list Z) : Z := Z.of_nat (length sbuf).

Definition run_client (c : client) (pmeta : parse_meta) (sbuf rbuf : list Z) (sent : bool)
    (rs : list recv_result) : outcome (list (list Z) * verdict) :=
  '(f, v) ← start_session c pmeta sbuf rbuf sent;
  '(fs, v) ← session_run whole_buffer v rs;
  Ret (f :: fs, v).

(** ** The statistics of [main]

    [rcs]: for every client the result of [run_client] and the milliseconds it
    took. *)
Record stats := mkStats {
  st_passed : Z;
  st_failed : Z;
  st_total_ms : Z;
  st_success_ms : Z;
  st_fail_ms : Z
}.

Definition count_client (st : stats) (r : Z * Z) : stats :=
  let '(rc, ms) := r in
  if rc =? 0
  then mkStats (st_passed st + 1) (st_failed st) (st_total_ms st + ms) (st_success_ms st + ms) (st_fail_ms st)
  else mkStats (st_passed st) (st_failed st + 1) (st_total_ms st + ms) (st_success_ms st) (st_fail_ms st + ms).

Definition main_stats (rcs : list (Z * Z)) : stats :=
  fold_left count_client rcs (mkStats 0 0 0 0 0).

(** The three averages printed. *)
Definition averages (st : stats) : Z * Z * Z :=
  (Z.quot (st_total_ms st) NUM_CLIENTS,
   if st_passed st =? 0 then 0 else Z.quot (st_success_ms st) (st_passed st),
   if st_failed st =? 0 then 0 else Z.quot (st_fail_ms st) (st_failed st)).

(** ** The session as a protocol machine

    The specification speaks of messages and not of bytes: an event is what the
    client understands of a received frame, a timeout or an I/O error. *)

Definition understood (xid : Z) (bytes : list Z) : parse_meta :=
  match parse_frame bytes (Z.of_nat (length bytes)) (no_meta xid) with
  | Ret (_, pm) => pm
  | _ => no_meta xid
  end.

Inductive event :=
  | Message (pm : parse_meta) (sent : bool)
  | Timeout
  | IOError.

Definition event_of (xid : Z) (r : recv_result) : event :=
  match r with
  | Got bytes sent => Message (understood xid bytes) sent
  | TimedOut => Timeout
  | RecvError => IOError
  end.

Inductive ending :=
  | Leased (ack : parse_meta)
  | GaveUp
  | Refused
  | Failed.

Inductive phase :=
  | Discovering (retries : Z)
  | Requesting (offer : parse_meta) (retries : Z)
  | Over (e : ending).

(** [pad]: the zero bytes sent after a REQUEST. *)
Definition request_frame (pad : nat) (c : client) (offer : parse_meta) : list Z :=
  client_frame (request_meta c offer) ++ replicate pad 0.

Definition retry (n : Z) (again : list Z) (p : Z → phase) : list (list Z) * phase :=
  if MAX_RETRIES <=? n + 1 then ([], Over GaveUp) else ([again], p (n + 1)).

Definition phase_step (pad : nat) (c : client) (p : phase) (e : event) : list (list Z) * phase :=
  match p, e with
  | Over _, _ => ([], p)
  | _, IOError => ([], Over Failed)
  | Discovering n, Timeout => retry n (client_frame (discover_meta c)) Discovering
  | Requesting o n, Timeout => retry n (client_frame (request_meta c o)) (Requesting o)
  | Discovering n, Message pm sent =>
      if p_dhcp_type pm =? DHCP_OFFER
      then ([request_frame pad c pm], if sent then Requesting pm 0 else Over Failed)
      else if p_dhcp_type pm =? DHCP_NAK then ([], Over Refused) else ([], p)
  | Requesting _ _, Message pm _ =>
      if p_dhcp_type pm =? DHCP_ACK then ([], Over (Leased pm))
      else if p_dhcp_type pm =? DHCP_NAK then ([], Over Refused) else ([], p)
  end.

Fixpoint phase_run (pad : nat) (c : client) (p : phase) (es : list event) : list (list Z) * phase :=
  match es with
  | [] => ([], p)
  | e :: es =>
      let '(fs, p) := phase_step pad c p e in
      let '(fs', p) := phase_run pad c p es in (fs ++ fs', p)
  end.

Lemma phase_run_over pad c x es : phase_run pad c (Over x) es = ([], Over x).
Proof. induction es as [|e es IH]; [done|]. cbn. by rewrite IH. Qed.

(** ** What is read from frames *)

Lemma parse_frame_meta l n m : parse_frame l n m = parse_frame l n (no_meta (p_xid m)).
Proof. reflexivity. Qed.

Lemma option_loop_inv {A} (P : A → Prop) (body : Z → Z → Z → A → outcome A) buf n :
  (∀ j t k a a', P a → body j t k a = Ret a' → P a') →
  ∀ fuel i a a', P a → option_loop body fuel buf n i a = Ret a' → P a'.
Proof.
  intros Hb. induction fuel as [|fuel IH]; intros i a a' Ha H; cbn [option_loop] in H; [done|].
  destruct (i <? n); inv_ret; [|done].
  destruct (v =? OPT_PAD); [by eapply IH|].
  destruct ((v =? OPT_END) || (n <=? i + 1)); inv_ret; [done|].
  destruct (n <? i + 1 + 1 + v0); inv_ret; [done|]. eapply IH; [|done]. by eapply Hb.
Qed.

(** The address fields of a result have their lengths. *)
Definition quads (pm : parse_meta) : Prop :=
  length (p_offered_ip pm) = 4%nat ∧ length (p_server_ip pm) = 4%nat.

Lemma load_n_length {A} (l : list A) i n s : load_n l i n = Ret s → length s = n.
Proof. unfold load_n. case_decide; [|done]. intros [= <-]. solve_length. Qed.

Lemma parse_option_quads buf j t k m m' : quads m → parse_option buf j t k m = Ret m' → quads m'.
Proof.
  unfold parse_option, opt_at, opt_quad. intros Hq H.
  repeat match goal with H : (if ?b then _ else _) = Ret _ |- _ => destruct b end; inv_ret; try done.
  all: destruct Hq; split; try done; by eapply load_n_length.
Qed.

Lemma parse_frame_quads l n m l' pm : parse_frame l n m = Ret (l', pm) → quads pm.
Proof.
  unfold parse_frame. intros H. cbv zeta in *.
  repeat match goal with
  | H : (if ?b then _ else _) = Ret _ |- _ => destruct b
  | H : (_ ≫= _) = Ret _ |- _ => progress inv_ret
  end; inv_ret; try (split; reflexivity).
  match goal with H : option_loop _ _ _ _ _ _ = Ret _ |- _ =>
    eapply option_loop_inv; [| |exact H] end.
  - intros ?????. apply parse_option_quads.
  - split; by eapply load_n_length.
Qed.

Lemma parse_frame_returns l m : Forall byte l → Z.of_nat (length l) < 2 ^ 31 →
  ∃ l' pm, parse_frame l (Z.of_nat (length l)) m = Ret (l', pm).
Proof.
  intros Hl Hn. destruct (Z.ltb_spec (Z.of_nat (length l)) MIN_RECV_LEN) as [Hs|Hs].
  - unfold parse_frame. cbv zeta. rewrite wrap_small by (unfold uword; lia).
    rewrite (proj2 (Z.ltb_lt _ _) Hs). by eexists _, _.
  - apply parse_frame_total. by split; [|lia|].
Qed.

Lemma parse_frame_understood l r m : Forall byte l → Z.of_nat (length l) < 2 ^ 31 →
  ∃ l', parse_frame (l ++ r) (Z.of_nat (length l)) m = Ret (l' ++ r, understood (p_xid m) l) ∧
    length l' = length l.
Proof.
  intros Hl Hn. destruct (parse_frame_returns l m Hl Hn) as (l' & pm & H). exists l'.
  split; [|by eapply parse_frame_length]. apply (parse_frame_ext _ r) in H as Hr. rewrite Hr.
  unfold understood. rewrite parse_frame_meta in H. by rewrite H.
Qed.

Lemma understood_quads xid l : quads (understood xid l).
Proof.
  unfold understood. destruct (parse_frame _ _ _) as [[l' pm]| |] eqn:E; [|split; reflexivity..].
  by eapply parse_frame_quads.
Qed.

(** A frame that is no reply to [xid] is understood as an UNKNOWN message. *)
Lemma understood_reply xid l : is_u32 xid → Forall byte l → Z.of_nat (length l) < 2 ^ 31 →
  p_dhcp_type (understood xid l) ≠ DHCP_UNKNOWN → is_reply l (Z.of_nat (length l)) xid.
Proof.
  intros Hx Hl Hn. unfold understood.
  destruct (Z.ltb_spec (Z.of_nat (length l)) MIN_RECV_LEN) as [Hs|Hs].
  - unfold parse_frame. cbv zeta. rewrite wrap_small by (unfold uword; lia).
    rewrite (proj2 (Z.ltb_lt _ _) Hs). done.
  - rewrite parse_frame_eq by (by split; [|lia|]). rewrite wrap_small by exact Hx.
    destruct (decide _) as [Hr|]; [done|]. done.
Qed.

(** ** The code runs the protocol machine *)

Lemma client_frame_length meta : meta_ok meta → length (client_frame meta) = 594%nat.
Proof.
  intros [Hm Hr Hs]. unfold client_frame, client_options, client_dhcp_header, be32.
  set (e := encode _ ++ _).
  assert (length e ≤ 312)%nat.
  { unfold e, client_items. destruct (_ =? _); [|simpl; lia].
    unfold encode. cbn. rewrite !length_app. cbn. rewrite length_app. cbn. rewrite Hr, Hs. simpl. lia. }
  unfold client_ip_header, ether_header.
  rewrite !length_app, length_rev, le_split_length, !length_replicate, Hm.
  cbn [length client_udp_header]. lia.
Qed.

(** Building a frame in [sbuf] and sending its first [594 + k] bytes *)
Lemma build_and_send sbuf meta k : meta_ok meta → length sbuf = 1024%nat → (k ≤ 430)%nat →
  ∃ sbuf', build_into sbuf meta = Ret (MIN_SEND_LEN, sbuf') ∧ length sbuf' = 1024%nat ∧
    transmit sbuf' (Z.of_nat (594 + k)) = Ret (client_frame meta ++ replicate k 0).
Proof.
  intros Hm Hl Hk. pose proof (client_frame_length _ Hm) as Lf.
  exists (client_frame meta ++ replicate 430 0). unfold build_into. rewrite Hl. split; [|split].
  - rewrite build_frame_eq; [|done|rewrite Hl; vm_compute; split; congruence|done].
    rewrite drop_ge by (rewrite Hl; vm_compute; lia). by rewrite app_nil_r.
  - rewrite length_app, length_replicate, Lf. done.
  - unfold transmit. rewrite Nat2Z.id, load_n_le by (rewrite length_app, length_replicate, Lf; lia).
    rewrite drop_0, take_app. rewrite (take_ge (client_frame meta)) by lia.
    rewrite Lf, take_replicate. do 3 f_equal. lia.
Qed.

Section session.
Context (request_len : Z → list Z → Z) (pad : nat).
Hypothesis pad_le : (pad ≤ 430)%nat.
Hypothesis request_len_eq : ∀ sbuf, length sbuf = 1024%nat →
  request_len MIN_SEND_LEN sbuf = Z.of_nat (594 + pad).
Variable c : client.
Hypothesis mac_len : length (c_mac c) = 6%nat.

Definition client_at (state retries : Z) : client := set_retries (set_state c state) retries.

(** What a protocol phase looks like in the code. *)
Inductive shows (n : nat) : phase → verdict → Prop :=
  | shows_discovering k pm sbuf rbuf :
      0 ≤ k < MAX_RETRIES → length sbuf = 1024%nat → length rbuf = n →
      shows n (Discovering k)
        (Running (mkSession (client_at STATE_DISCOVER k) (discover_meta c) pm sbuf rbuf))
  | shows_requesting o k pm sbuf rbuf :
      quads o → 0 ≤ k < MAX_RETRIES → length sbuf = 1024%nat → length rbuf = n →
      shows n (Requesting o k)
        (Running (mkSession (client_at STATE_REQUEST k) (request_meta c o) pm sbuf rbuf))
  | shows_leased a k :
      shows n (Over (Leased a))
        (Finished 0 (set_assigned (client_at STATE_DONE k) (p_offered_ip a)))
  | shows_over e st k :
      (∀ a, e ≠ Leased a) → st ≠ STATE_DONE →
      shows n (Over e) (Finished (-1) (client_at st k)).

Definition recv_ok (n : nat) (r : recv_result) : Prop :=
  match r with Got bytes _ => Forall byte bytes ∧ (length bytes ≤ n)%nat | _ => True end.

Lemma discover_meta_ok : meta_ok (discover_meta c).
Proof. by split. Qed.

Lemma request_meta_ok o : quads o → meta_ok (request_meta c o).
Proof. intros []. by split. Qed.

Lemma on_timeout_shows n p s : shows n p (Running s) → ∃ v,
  on_timeout s = Ret (fst (phase_step pad c p Timeout), v) ∧ shows n (snd (phase_step pad c p Timeout)) v.
Proof.
  intros Hs. unfold on_timeout.
  inversion Hs as [k pm sbuf rbuf Hk Hsb Hrb | o k pm sbuf rbuf Ho Hk Hsb Hrb | |]; subst;
    cbn [s_client client_at set_state set_retries c_retries s_sbuf s_bmeta s_pmeta s_rbuf phase_step
      snd]; unfold MAX_RETRIES in *; rewrite int32_small by lia; unfold retry; fold MAX_RETRIES;
    (destruct (MAX_RETRIES <=? k + 1) eqn:E;
     [eexists; split; [done | by refine (shows_over _ GaveUp STATE_FAILED (k + 1) _ _)] |]); unfold MAX_RETRIES in E.
  - destruct (build_and_send sbuf (discover_meta c) 0 discover_meta_ok Hsb) as (sb & -> & Hl & Ht); [lia|].
    rewrite bind_Ret. change MIN_SEND_LEN with (Z.of_nat (594 + 0)). rewrite Ht, bind_Ret, app_nil_r.
    eexists. split; [done|]. refine (shows_discovering _ (k + 1) _ _ _ _ _ _); [unfold MAX_RETRIES; lia | done..].
  - destruct (build_and_send sbuf (request_meta c o) 0 (request_meta_ok o Ho) Hsb) as (sb & -> & Hl & Ht); [lia|].
    rewrite bind_Ret. change MIN_SEND_LEN with (Z.of_nat (594 + 0)). rewrite Ht, bind_Ret, app_nil_r.
    eexists. split; [done|]. refine (shows_requesting _ o (k + 1) _ _ _ _ _ _ _); [done | unfold MAX_RETRIES; lia | done..].
Qed.

Lemma on_frame_shows n p s pm sent : quads pm → shows n p (Running s) → ∃ v,
  on_frame request_len s pm sent = Ret (fst (phase_step pad c p (Message pm sent)), v) ∧
  shows n (snd (phase_step pad c p (Message pm sent))) v.
Proof.
  intros Hq Hs. unfold on_frame.
  inversion Hs as [k pm0 sbuf rbuf Hk Hsb Hrb | o k pm0 sbuf rbuf Ho Hk Hsb Hrb | |]; subst;
    cbn [s_client client_at set_state set_retries c_state s_sbuf s_bmeta s_rbuf phase_step]; cbv zeta.
  - destruct (Z.eqb_spec (p_dhcp_type pm) DHCP_OFFER) as [E|E].
    + cbn [negb Z.eqb Pos.eqb STATE_DISCOVER].
      destruct (build_and_send sbuf (request_meta c pm) pad (request_meta_ok pm Hq) Hsb)
        as (sb & Hb & Hl & Ht); [done|].
      change (request_meta _ pm) with (request_meta c pm).
      rewrite Hb, bind_Ret, request_len_eq, Ht, bind_Ret by done.
      destruct sent; (eexists; split; [done|]).
      * apply shows_requesting; [done | unfold MAX_RETRIES; lia | done..].
      * by refine (shows_over _ Failed STATE_DISCOVER k _ _).
    + destruct (Z.eqb_spec (p_dhcp_type pm) DHCP_ACK) as [E'|E'];
        [rewrite E'; by eexists; split; [|apply shows_discovering] |].
      destruct (p_dhcp_type pm =? DHCP_NAK); (eexists; split; [done|]).
      * by refine (shows_over _ Refused STATE_FAILED k _ _).
      * by apply shows_discovering.
  - destruct (Z.eqb_spec (p_dhcp_type pm) DHCP_OFFER) as [E|E];
      [rewrite E; eexists; split; [done|]; by apply shows_requesting|].
    destruct (p_dhcp_type pm =? DHCP_ACK).
    + eexists. split; [done|]. apply (shows_leased _ pm k).
    + destruct (p_dhcp_type pm =? DHCP_NAK); (eexists; split; [done|]).
      * by refine (shows_over _ Refused STATE_FAILED k _ _).
      * by apply shows_requesting.
Qed.

Lemma session_step_shows n p s r : Z.of_nat n < 2 ^ 31 → recv_ok n r → shows n p (Running s) → ∃ v,
  session_step request_len s r = Ret (fst (phase_step pad c p (event_of (c_xid c) r)), v) ∧
  shows n (snd (phase_step pad c p (event_of (c_xid c) r))) v.
Proof.
  intros Hn Hr Hs.
  assert (Hx : c_xid (s_client s) = c_xid c) by (by inversion Hs).
  assert (Hrb : length (s_rbuf s) = n) by (by inversion Hs).
  assert (Hset : ∀ pm rb, length rb = n →
    shows n p (Running (mkSession (s_client s) (s_bmeta s) pm (s_sbuf s) rb))).
  { intros pm rb Hl. inversion Hs; subst; cbn; by constructor. }
  unfold session_step. destruct r as [bytes sent| |]; cbn [event_of].
  - destruct Hr as [Hb Hl].
    rewrite store_n_le, bind_Ret by lia.
    replace (list_inserts 0 bytes (s_rbuf s)) with (bytes ++ drop (length bytes) (s_rbuf s)).
    2:{ rewrite <- (take_drop (length bytes) (s_rbuf s)) at 2. symmetry.
        apply (list_inserts_app [] (take (length bytes) (s_rbuf s))). solve_length. }
    destruct (parse_frame_understood bytes (drop (length bytes) (s_rbuf s))
      (set_xid (s_pmeta s) (c_xid (s_client s)))) as (l' & -> & Hl'); [done | lia |].
    rewrite bind_Ret. cbn [set_xid p_xid]. rewrite Hx. apply on_frame_shows.
    + apply understood_quads.
    + apply Hset. rewrite length_app, length_drop. lia.
  - apply on_timeout_shows. by apply Hset.
  - inversion Hs; subst; (eexists; split; [done|]); by apply (shows_over _ Failed).
Qed.

Lemma session_run_shows n rs : Z.of_nat n < 2 ^ 31 → Forall (recv_ok n) rs → ∀ p v, shows n p v →
  ∃ v', session_run request_len v rs
        = Ret (fst (phase_run pad c p (event_of (c_xid c) <$> rs)), v') ∧
    shows n (snd (phase_run pad c p (event_of (c_xid c) <$> rs))) v'.
Proof.
  intros Hn. induction 1 as [|r rs Hr Hrs IH]; intros p v Hs; cbn [fmap list_fmap phase_run session_run].
  - destruct v; by eexists.
  - destruct v as [s|rc c'].
    + destruct (session_step_shows n p s r Hn Hr Hs) as (v1 & -> & H1). rewrite bind_Ret.
      destruct (phase_step pad c p _) as [fs p1]. cbn [fst snd] in *.
      destruct (IH _ _ H1) as (v2 & -> & H2). rewrite bind_Ret.
      destruct (phase_run pad c p1 _) as [fs' p2]. by eexists.
    + destruct (IH _ _ Hs) as (v2 & E & H2). inversion Hs; subst; cbn [phase_step];
      destruct (phase_run pad c _ _) as [fs' p2]; destruct rs; cbn in E; injection E as E1 E2;
      cbn [fst snd] in *; subst; by eexists.
Qed.
End session.

(** ** Sessions of the synchronous client *)

(** A client as [main] hands it to [run_client]. *)
Record fresh_client (c : client) : Prop := {
  fc_mac : length (c_mac c) = 6%nat;
  fc_xid : is_u32 (c_xid c);
  fc_state : c_state c = 0;
  fc_retries : c_retries c = 0
}.

(** The whole session in terms of messages: a DISCOVER, then the events. *)
Definition protocol_run (pad : nat) (c : client) (sent : bool) (es : list event)
    : list (list Z) * phase :=
  let d := client_frame (discover_meta c) in
  if sent then let '(fs, p) := phase_run pad c (Discovering 0) es in (d :: fs, p)
  else ([d], Over Failed).

Lemma client_at_fresh c st : fresh_client c → set_state c st = client_at c st 0.
Proof. intros [_ _ _ Hr]. destruct c. simpl in *. by subst. Qed.

Lemma client_unchanged c : fresh_client c → c = client_at c 0 0.
Proof. intros [_ _ Hs Hr]. destruct c. simpl in *. by subst. Qed.

Lemma start_session_shows n c pm sbuf rbuf sent : fresh_client c →
  length sbuf = 1024%nat → length rbuf = n →
  ∃ v, start_session c pm sbuf rbuf sent = Ret (client_frame (discover_meta c), v) ∧
    shows c n (if sent then Discovering 0 else Over Failed) v.
Proof.
  intros Hc Hs Hr. unfold start_session.
  destruct (build_and_send sbuf (discover_meta c) 0 (discover_meta_ok c (fc_mac c Hc)) Hs)
    as (sb & -> & Hl & Ht); [lia|].
  rewrite bind_Ret. change MIN_SEND_LEN with (Z.of_nat (594 + 0)). rewrite Ht, bind_Ret, app_nil_r.
  destruct sent; (eexists; split; [done|]).
  - rewrite client_at_fresh by done. by refine (shows_discovering _ _ 0 _ _ _ _ _ _).
  - rewrite (client_unchanged c Hc) at 2. by apply (shows_over _ _ Failed).
Qed.

Lemma run_client_shows c pm sbuf rbuf sent rs : fresh_client c →
  length sbuf = 1024%nat → length rbuf = 2048%nat → Forall (recv_ok 2048) rs →
  ∃ v, run_client c pm sbuf rbuf sent rs
       = Ret (fst (protocol_run 430 c sent (event_of (c_xid c) <$> rs)), v) ∧
    shows c 2048 (snd (protocol_run 430 c sent (event_of (c_xid c) <$> rs))) v.
Proof.
  intros Hc Hs Hr Hrs. unfold run_client, protocol_run.
  destruct (start_session_shows 2048 c pm sbuf rbuf sent Hc Hs Hr) as (v & -> & Hv). rewrite bind_Ret.
  destruct (session_run_shows whole_buffer 430) with (c := c) (n := 2048%nat) (rs := rs)
    (p := if sent then Discovering 0 else Over Failed) (v := v) as (v' & -> & Hv').
  - lia.
  - intros sb Hsb. unfold whole_buffer. by rewrite Hsb.
  - by destruct Hc.
  - done.
  - done.
  - done.
  - rewrite bind_Ret. exists v'. destruct sent.
    + by destruct (phase_run _ _ _ _).
    + rewrite phase_run_over in *. done.
Qed.

(** *** Properties of the protocol machine *)

Fixpoint timeouts (es : list event) : Z :=
  match es with
  | [] => 0
  | Timeout :: es => 1 + timeouts es
  | _ :: es => timeouts es
  end.

(** The timeouts a phase survives, and the frames it can still send. *)
Definition budget (p : phase) : Z :=
  match p with Discovering n => 4 - n | Requesting _ n => 2 - n | Over _ => 0 end.
Definition frames_left (p : phase) : Z :=
  match p with Discovering n => 5 - n | Requesting _ n => 2 - n | Over _ => 0 end.
Definition ongoing (p : phase) : Prop := match p with Over _ => False | _ => True end.
Definition in_bounds (p : phase) : Prop :=
  match p with Discovering n | Requesting _ n => 0 ≤ n ≤ 2 | Over _ => True end.

Lemma timeouts_cons e es : timeouts (e :: es) = timeouts [e] + timeouts es.
Proof. destruct e; cbn; lia. Qed.

Lemma phase_step_bounds pad c p e : in_bounds p →
  let '(fs, p') := phase_step pad c p e in
  in_bounds p' ∧ Z.of_nat (length fs) + frames_left p' ≤ frames_left p ∧
  (ongoing p' → ongoing p ∧ timeouts [e] + budget p' ≤ budget p).
Proof.
  intros Hb. destruct p as [n|o n|x], e as [pm sent| |]; cbn [phase_step]; unfold retry, MAX_RETRIES;
    repeat case_match; simplify_eq; cbn in *; zcases; try discriminate; split_and?; try lia; naive_solver lia.
Qed.

Lemma phase_run_bounds pad c es : ∀ p, in_bounds p →
  let '(fs, p') := phase_run pad c p es in
  Z.of_nat (length fs) + frames_left p' ≤ frames_left p ∧ 0 ≤ frames_left p' ∧
  (ongoing p' → timeouts es + budget p' ≤ budget p ∧ 0 ≤ budget p').
Proof.
  induction es as [|e es IH]; intros p Hb; cbn [phase_run].
  { destruct p; cbn in *; lia. }
  pose proof (phase_step_bounds pad c p e Hb) as H1. destruct (phase_step pad c p e) as [fs p1].
  destruct H1 as (Hb1 & Hf1 & Ht1). specialize (IH p1 Hb1).
  destruct (phase_run pad c p1 es) as [fs' p2] eqn:E. destruct IH as (Hf2 & H0 & Ht2).
  rewrite length_app. split; [lia|]. split; [done|]. intros Ho. destruct (Ht2 Ho) as [? ?].
  rewrite timeouts_cons. destruct p1 as [n|o n|x]; [| |by rewrite phase_run_over in E; simplify_eq].
  all: destruct (Ht1 I); lia.
Qed.

Lemma leased_from_requesting pad c es : ∀ o n a,
  snd (phase_run pad c (Requesting o n) es) = Over (Leased a) →
  ∃ e1 s e2, es = e1 ++ Message a s :: e2 ∧ p_dhcp_type a = DHCP_ACK.
Proof.
  induction es as [|e es IH]; intros o n a H; cbn [phase_run] in H; [done|].
  destruct (phase_step pad c (Requesting o n) e) as [fs p] eqn:E.
  destruct (phase_run pad c p es) as [fs' p'] eqn:E'. cbn in H. subst p'.
  destruct p as [k|o' k|x].
  - exfalso. destruct e; cbn in E; unfold retry in E; repeat case_match; simplify_eq.
  - destruct (IH o' k a) as (e1 & s & e2 & -> & Ha); [by rewrite E'|]. by exists (e :: e1), s, e2.
  - rewrite phase_run_over in E'. simplify_eq. exists [].
    destruct e as [pm s| |]; cbn in E; unfold retry in E; repeat case_match; simplify_eq.
    exists s, es. split; [done|]. by apply Z.eqb_eq.
Qed.

Lemma leased_from_discovering pad c es : ∀ n a,
  snd (phase_run pad c (Discovering n) es) = Over (Leased a) →
  ∃ e1 o e2 s e3, es = e1 ++ Message o true :: e2 ++ Message a s :: e3 ∧
    p_dhcp_type o = DHCP_OFFER ∧ p_dhcp_type a = DHCP_ACK ∧
    request_frame pad c o ∈ fst (phase_run pad c (Discovering n) es).
Proof.
  induction es as [|e es IH]; intros n a H; cbn [phase_run] in H |- *; [done|].
  destruct (phase_step pad c (Discovering n) e) as [fs p] eqn:E.
  destruct (phase_run pad c p es) as [fs' p'] eqn:E'. cbn in H. subst p'. cbn [fst].
  destruct p as [k|o k|x].
  - destruct (IH k a) as (e1 & o & e2 & s & e3 & -> & Ho & Ha & Hf); [by rewrite E'|].
    rewrite E' in Hf. exists (e :: e1), o, e2, s, e3. split_and!; try done. set_solver.
  - destruct (leased_from_requesting pad c es o k a) as (e1 & s & e2 & -> & Ha); [by rewrite E'|].
    destruct e as [pm sent| |]; cbn in E; unfold retry in E; repeat case_match; simplify_eq.
    exists [], o, e1, s, e2. split_and!; [done | by apply Z.eqb_eq | done | set_solver].
  - rewrite phase_run_over in E'. simplify_eq.
    destruct e; cbn in E; unfold retry in E; repeat case_match; simplify_eq.
Qed.

Lemma event_of_message xid r pm s :
  event_of xid r = Message pm s → ∃ b, r = Got b s ∧ pm = understood xid b.
Proof. destruct r; intros [=]; subst. by eexists. Qed.

Lemma recv_ok_reply n xid b s : Z.of_nat n < 2 ^ 31 → is_u32 xid → recv_ok n (Got b s) →
  p_dhcp_type (understood xid b) ≠ DHCP_UNKNOWN → is_reply b (Z.of_nat (length b)) xid.
Proof. intros Hn Hx [Hb Hl]. apply understood_reply; [done | done | lia]. Qed.

(** C16: The client runs the DHCP protocol.  Whatever frames (of up to the 2,048 bytes of
    its buffer), timeouts and errors the network gives a client that has not begun, [run_client] returns, reads no byte outside its buffers,
    and the frames it sends and the state it ends in are those of the protocol
    machine run on what the received frames mean: a DISCOVER, sent again on a
    timeout; a REQUEST to the first OFFER; success at the ACK; failure at a NAK,
    at the third timeout of a phase or at an I/O error. *)
Theorem run_client_refines (c : client) (pm : parse_meta) (sbuf rbuf : list Z) (sent : bool)
    (rs : list recv_result) :
  fresh_client c → length sbuf = 1024%nat → length rbuf = 2048%nat → Forall (recv_ok 2048) rs →
  ∃ v, run_client c pm sbuf rbuf sent rs
       = Ret (fst (protocol_run 430 c sent (event_of (c_xid c) <$> rs)), v) ∧
    shows c 2048 (snd (protocol_run 430 c sent (event_of (c_xid c) <$> rs))) v.
Proof. apply run_client_shows. Qed.

(** A session that reports success has its lease.  [run_client] returns 0 only
    after a frame that is an OFFER to its transaction id, a REQUEST it sent for
    that offer, and a later frame that is an ACK to its transaction id; the
    address it records is the one of that ACK. *)
Theorem client_lease_sound (c c' : client) (pm : parse_meta) (sbuf rbuf : list Z) (sent : bool)
    (rs : list recv_result) (fs : list (list Z)) :
  fresh_client c → length sbuf = 1024%nat → length rbuf = 2048%nat → Forall (recv_ok 2048) rs →
  run_client c pm sbuf rbuf sent rs = Ret (fs, Finished 0 c') →
  let meaning := understood (c_xid c) in
  ∃ r1 offer r2 ack s r3, rs = r1 ++ Got offer true :: r2 ++ Got ack s :: r3 ∧
    is_reply offer (Z.of_nat (length offer)) (c_xid c) ∧ p_dhcp_type (meaning offer) = DHCP_OFFER ∧
    is_reply ack (Z.of_nat (length ack)) (c_xid c) ∧ p_dhcp_type (meaning ack) = DHCP_ACK ∧
    request_frame 430 c (meaning offer) ∈ fs ∧
    c_state c' = STATE_DONE ∧ c_assigned_ip c' = p_offered_ip (meaning ack).
Proof.
  intros Hc Hs Hr Hrs Hrun meaning.
  destruct (run_client_shows c pm sbuf rbuf sent rs Hc Hs Hr Hrs) as (v & E & Hv).
  rewrite Hrun in E. injection E as Ef <-. unfold protocol_run in Hv, Ef. destruct sent; [|by inversion Hv].
  destruct (phase_run 430 c (Discovering 0) _) as [fs1 p] eqn:Ep. cbn [fst snd] in *.
  inversion Hv as [| |a k Ha|]; subst p.
  destruct (leased_from_discovering 430 c (event_of (c_xid c) <$> rs) 0 a)
    as (e1 & o & e2 & s & e3 & Hes & Ho & Hack & Hf); [by rewrite Ep|]. rewrite Ep in Hf.
  apply fmap_app_inv in Hes as (r1 & rs1 & _ & Hes & ->). symmetry in Hes.
  apply fmap_cons_inv in Hes as (x & rs2 & Hx & Hes & ->). symmetry in Hes.
  apply fmap_app_inv in Hes as (r2 & rs3 & _ & Hes & ->). symmetry in Hes.
  apply fmap_cons_inv in Hes as (y & r3 & Hy & _ & ->).
  symmetry in Hx, Hy. apply event_of_message in Hx as (bo & -> & ->), Hy as (ba & -> & ->).
  rewrite !Forall_app, !Forall_cons, !Forall_app, !Forall_cons in Hrs.
  destruct Hrs as (_ & Hbo & _ & Hba & _).
  exists r1, bo, r2, ba, s, r3. subst fs.
  split; [reflexivity|]. split; [|split; [exact Ho|split; [|split; [exact Hack|split; [|done]]]]].
  - eapply recv_ok_reply; [|apply Hc|exact Hbo|by rewrite Ho]. lia.
  - eapply recv_ok_reply; [|apply Hc|exact Hba|by rewrite Hack]. lia.
  - by apply elem_of_cons; right.
Qed.

(** C28: A session of a client that has not begun ends.  After five timeouts, in whatever order with frames, it is
    over; and it never sends more than six frames. *)
Theorem client_session_ends (c : client) (pm : parse_meta) (sbuf rbuf : list Z) (sent : bool)
    (rs : list recv_result) :
  fresh_client c → length sbuf = 1024%nat → length rbuf = 2048%nat → Forall (recv_ok 2048) rs →
  ∃ fs v, run_client c pm sbuf rbuf sent rs = Ret (fs, v) ∧ (length fs ≤ 6)%nat ∧
    (5 ≤ timeouts (event_of (c_xid c) <$> rs) → ∃ rc c', v = Finished rc c').
Proof.
  intros Hc Hs Hr Hrs.
  destruct (run_client_shows c pm sbuf rbuf sent rs Hc Hs Hr Hrs) as (v & E & Hv).
  eexists _, v. split; [exact E|]. unfold protocol_run in *. destruct sent.
  - pose proof (phase_run_bounds 430 c (event_of (c_xid c) <$> rs) (Discovering 0)) as B.
    destruct (phase_run 430 c (Discovering 0) _) as [fs1 p]. cbn [fst snd] in *.
    destruct B as (Hf & H0 & Ht); [done|]. cbn [frames_left length] in *. split; [lia|].
    intros H5. inversion Hv; subst; [destruct (Ht I); cbn in *; lia..|by eexists _, _|by eexists _, _].
  - cbn. split; [lia|]. intros _. inversion Hv. by eexists _, _.
Qed.

(** *** A session on concrete frames: a timeout, a foreign frame, OFFER, ACK *)

Definition sample_client : client :=
  mkClient [2; 0xde; 0xad; 0xbe; 0xef; 1] 0x1234 0 0 (replicate 4 0).
Definition sample_offer : list Z := take 304 sample_reply.
Definition sample_ack : list Z :=
  reply_headers ++ encode [Opt OPT_MSG_TYPE [DHCP_ACK]] ++ OPT_END :: replicate 18 0.
Definition sample_session : list recv_result :=
  [TimedOut; Got [1; 2; 3] true; Got sample_offer true; TimedOut; Got sample_ack true].

Lemma got_ok bytes sent :
  bool_decide (Forall byte bytes) && (length bytes <=? 2048)%nat = true → recv_ok 2048 (Got bytes sent).
Proof.
  intros [H1 H2]%andb_true_iff. split; [exact (bool_decide_eq_true_1 _ H1) | by apply Nat.leb_le].
Qed.

Lemma sample_session_ok : Forall (recv_ok 2048) sample_session.
Proof.
  apply Forall_cons; split; [exact I|].
  apply Forall_cons; split; [apply got_ok; vm_compute; reflexivity|].
  apply Forall_cons; split; [apply got_ok; vm_compute; reflexivity|].
  apply Forall_cons; split; [exact I|].
  apply Forall_cons; split; [apply got_ok; vm_compute; reflexivity|]. apply Forall_nil_2.
Qed.

Lemma sample_client_fresh : fresh_client sample_client.
Proof. by split. Qed.

Definition sample_done : client :=
  mkClient (c_mac sample_client) 0x1234 STATE_DONE 1 [192; 168; 4; 100].

Lemma run_client_refines_witness :
  Forall (recv_ok 2048) sample_session ∧
  ∃ v, run_client sample_client (no_meta 0) (replicate 1024 7) (replicate 2048 7) true sample_session
       = Ret (fst (protocol_run 430 sample_client true (event_of 0x1234 <$> sample_session)), v) ∧
    shows sample_client 2048
      (snd (protocol_run 430 sample_client true (event_of 0x1234 <$> sample_session))) v.
Proof.
  split; [exact sample_session_ok|].
  exact (run_client_refines sample_client (no_meta 0) (replicate 1024 7) (replicate 2048 7) true
    sample_session sample_client_fresh eq_refl eq_refl sample_session_ok).
Defined.

Lemma client_lease_sound_witness :
  let fs := fst (protocol_run 430 sample_client true (event_of 0x1234 <$> sample_session)) in
  run_client sample_client (no_meta 0) (replicate 1024 7) (replicate 2048 7) true sample_session
  = Ret (fs, Finished 0 sample_done) ∧
  ∃ offer ack, p_dhcp_type (understood 0x1234 offer) = DHCP_OFFER ∧
    p_dhcp_type (understood 0x1234 ack) = DHCP_ACK ∧
    request_frame 430 sample_client (understood 0x1234 offer) ∈ fs ∧
    c_assigned_ip sample_done = p_offered_ip (understood 0x1234 ack).
Proof.
  intros fs.
  assert (H : run_client sample_client (no_meta 0) (replicate 1024 7) (replicate 2048 7) true
    sample_session = Ret (fs, Finished 0 sample_done)) by (vm_compute; reflexivity).
  split; [exact H|].
  destruct (client_lease_sound sample_client sample_done (no_meta 0) (replicate 1024 7)
    (replicate 2048 7) true sample_session fs sample_client_fresh eq_refl eq_refl sample_session_ok H)
    as (r1 & o & r2 & a & s & r3 & _ & _ & Ho & _ & Ha & Hf & _ & Hip).
  exists o, a. exact (conj Ho (conj Ha (conj Hf Hip))).
Defined.

Lemma client_session_ends_witness :
  Forall (recv_ok 2048) (replicate 5 TimedOut) ∧
  ∃ fs rc c', run_client sample_client (no_meta 0) (replicate 1024 7) (replicate 2048 7) true
    (replicate 5 TimedOut) = Ret (fs, Finished rc c') ∧ (length fs ≤ 6)%nat.
Proof.
  assert (H : Forall (recv_ok 2048) (replicate 5 TimedOut)) by (repeat constructor).
  split; [exact H|].
  destruct (client_session_ends sample_client (no_meta 0) (replicate 1024 7) (replicate 2048 7) true
    (replicate 5 TimedOut) sample_client_fresh eq_refl eq_refl H) as (fs & v & E & Hl & Ht).
  destruct Ht as (rc & c' & ->); [vm_compute; discriminate|]. exists fs, rc, c'. exact (conj E Hl).
Defined.
