(* ===== verification/EndToEnd.v ===== *)
(** * A client and the server on one network

    The session of [bench-live/dhcp-client.c] against the packet loop of the
    bare-metal sample: the frames one side sends are the frames the other side
    receives.  The server runs in a lease-keeping mode (ARRAY or HASHMAP), any
    implementation of the lease-store interface. *)
From S2P Require Import Frame.
From S2P Require Import Prelude Options Message LeaseStore ArrayPool HashTab HashPool Server.
From S2P Require Import Adapter Client.

Open Scope Z_scope.

(** The REQUEST that answers the server's offer of [ip]. *)
Definition answer_to (c : client) (ip : Z) : build_meta :=
  mkBuild (c_mac c) (uint32_to_ip ip) [192; 168; 4; 1] DHCP_REQUEST (c_xid c).

(** The REQUEST frame for the offered [ip], sent with the whole buffer. *)
Definition request_of (c : client) (ip : Z) : list Z := client_frame (answer_to c ip) ++ replicate 430 0.

Section end_to_end.
Context {P : Type} `{LeaseStoreLaws P}.
Variables (c : client) (mac : list Z).
Hypothesis c_fresh : fresh_client c.
Hypothesis c_mac_bytes : Forall byte (c_mac c).
Hypothesis mac_ok : is_mac mac.

Lemma discover_client_ok : client_ok (discover_meta c).
Proof. split; try (by left); [by apply discover_meta_ok, c_fresh | done |..]; by vm_compute; repeat constructor. Qed.

Lemma answer_client_ok ip : client_ok (answer_to c ip).
Proof.
  split; try (by right); [split; [apply c_fresh | done | done] | done | apply uint32_to_ip_bytes |].
  apply (bool_decide_eq_true_1 _). vm_compute. reflexivity.
Qed.

Lemma discover_items_of : msg_type_of (client_items (discover_meta c)) = Options.DHCP_DISCOVER.
Proof. reflexivity. Qed.

Lemma answer_items_of ip : is_u32 ip →
  msg_type_of (client_items (answer_to c ip)) = Options.DHCP_REQUEST ∧
  requested_of (client_items (answer_to c ip)) = Some ip.
Proof.
  intros Hip. split; [reflexivity|]. rewrite <- (ip_of_uint32_to_ip ip) at 2 by done. reflexivity.
Qed.

Lemma reply_understood f pm : reaches_client (c_xid c) f pm → understood (c_xid c) f = pm.
Proof. intros (Hl & _ & Hp). unfold understood. rewrite Hl. change (Z.of_nat RESPONSE_SIZE) with 594. by rewrite Hp. Qed.

Lemma reply_recv_ok f pm sent : reaches_client (c_xid c) f pm → recv_ok 2048 (Got f sent).
Proof. intros (Hl & Hb & _). split; [done|]. rewrite Hl. vm_compute. lia. Qed.

(** What the client does with an OFFER and an ACK of the server *)
Lemma handshake_session pm sbuf rbuf f1 f2 ip :
  length sbuf = 1024%nat → length rbuf = 2048%nat →
  (∃ p, client_sees mac (c_xid c) (Offer ip) = Some p ∧ reaches_client (c_xid c) f1 p) →
  (∃ p, client_sees mac (c_xid c) (Ack ip) = Some p ∧ reaches_client (c_xid c) f2 p) →
  ∃ c', run_client c pm sbuf rbuf true [Got f1 true; Got f2 true]
        = Ret ([client_frame (discover_meta c); client_frame (answer_to c ip) ++ replicate 430 0],
               Finished 0 c') ∧
    c_assigned_ip c' = uint32_to_ip ip.
Proof.
  intros Hs Hr (p1 & E1 & R1) (p2 & E2 & R2). injection E1 as <-. injection E2 as <-.
  destruct (run_client_shows c pm sbuf rbuf true [Got f1 true; Got f2 true] c_fresh Hs Hr)
    as (v & E & Hv).
  { repeat apply Forall_cons_2; [by eapply reply_recv_ok..|]. constructor. }
  cbn [fmap list_fmap event_of] in E, Hv. rewrite (reply_understood _ _ R1), (reply_understood _ _ R2) in *.
  cbn in Hv.
  inversion Hv as [| | |e st k Hne]; subst; [|by destruct (Hne _ eq_refl)]. eexists. split; [exact E|]. reflexivity.
Qed.

(** What the server does with the client's REQUEST for an address it may offer *)
Lemma request_granted (srv : dhcp_server_t P) ip junk ticks :
  srv_inv srv → config srv = circle_config → is_u32 ticks →
  offerable (srv_cap srv) DHCP_POOL_START DHCP_POOL_END (c_mac c) (srv_leases srv) ip → ip ≠ 0 →
  DHCP_POOL_START ≤ ip ≤ DHCP_POOL_END →
  ∃ f p srv', handle_frame store_mode mac (client_frame (answer_to c ip) ++ junk) ticks srv
        = Ret (Some f, srv') ∧
    client_sees mac (c_xid c) (Ack ip) = Some p ∧ reaches_client (c_xid c) f p ∧
    srv_leases srv' !! c_mac c = Some (ip, ts_in_sec ticks ⊞ 3600).
Proof.
  intros Hi Hcfg Ht Hof Hne Hin.
  assert (Hip : is_u32 ip) by (unfold uword, DHCP_POOL_START, DHCP_POOL_END in *; lia).
  destruct (frame_exchange_core srv (answer_to c ip) mac junk ticks Hi Hcfg (answer_client_ok ip)
    mac_ok Ht) as (tx & srv' & a & Hf & _ & _ & _ & Hstep & Htx).
  destruct (answer_items_of ip Hip) as [Et Er]. cbn [answer_to b_client_mac b_xid] in *.
  destruct Hi as [Hi _].
  assert (Hsz : (size (srv_leases srv) ≤ srv_cap srv)%nat) by (by eapply ls_size).
  assert (Hinj : lease_inj (srv_leases srv)) by by eapply ls_inj.
  inversion Hstep as [|M M1 M' ip2 b _ E2 _ Hpr Hsame Hg| | | |]; subst;
    try (exfalso; unfold Options.DHCP_DISCOVER, Options.DHCP_REQUEST, Options.DHCP_DECLINE in *; congruence).
  2:{ exfalso. rewrite Er in *. by simplify_eq. }
  rewrite Er in E2. injection E2 as <-.
  assert (b = true) as -> by
    exact (offerable_grant _ _ _ _ _ M1 _ ip _ b _ Hsz Hinj Hof Hne Hpr Hsame Hg).
  destruct Htx as (f & -> & Hre). exists f. eexists _, srv'. split; [exact Hf|].
  split; [reflexivity|]. split; [exact Hre|].
  unfold grant in Hg. destruct (M1 !! c_mac c) as [[ip1 e1]|];
    [destruct Hg as [(_ & _ & ->)|(_ & ? & _)] | destruct Hg as [(_ & _ & _ & ->)|(_ & ? & _)]];
    try done; by rewrite lookup_insert_eq.
Qed.

(** C9: From the DISCOVER to the lease, with a server in ARRAY or HASHMAP mode and the
    configuration of the sample.  A fresh client starts a session and the
    server receives the very frames it sends, with any bytes after them in the
    receive buffer, at any two times.  Either the server has nothing to offer (it
    holds no lease of the client, and all its leases are in use or the whole pool
    is), and then it sends nothing; or the session, given the server's two
    answers, succeeds with the address [ip] after sending one DISCOVER and one
    REQUEST, and the server has recorded [ip] as leased to the client's MAC for
    one hour. *)
Theorem end_to_end_lease (srv : dhcp_server_t P) (pm : parse_meta) (sbuf rbuf junk1 junk2 : list Z)
    (ticks1 ticks2 : Z) :
  srv_inv srv → config srv = circle_config → length sbuf = 1024%nat → length rbuf = 2048%nat →
  is_u32 ticks1 → is_u32 ticks2 →
  let discover := client_frame (discover_meta c) in
  ∃ tx srv1, handle_frame store_mode mac (discover ++ junk1) ticks1 srv = Ret (tx, srv1) ∧
    match tx with
    | None => srv_leases srv1 !! c_mac c = None ∧
        ((srv_cap srv ≤ size (srv_leases srv1))%nat ∨
         ∀ x, DHCP_POOL_START ≤ x ≤ DHCP_POOL_END → held x (srv_leases srv1))
    | Some offer => ∃ ack srv2 c' ip,
        handle_frame store_mode mac (request_of c ip ++ junk2) ticks2 srv1 = Ret (Some ack, srv2) ∧
        run_client c pm sbuf rbuf true [Got offer true; Got ack true]
        = Ret ([discover; request_of c ip], Finished 0 c') ∧
        c_assigned_ip c' = uint32_to_ip ip ∧ DHCP_POOL_START ≤ ip ≤ DHCP_POOL_END ∧
        srv_leases srv2 !! c_mac c = Some (ip, ts_in_sec ticks2 ⊞ 3600)
    end.
Proof.
  intros Hi Hcfg Hs Hr Ht1 Ht2 discover.
  destruct (frame_exchange_core srv (discover_meta c) mac junk1 ticks1 Hi Hcfg discover_client_ok
    mac_ok Ht1) as (tx & srv1 & a & Hf & Hi1 & Hcfg1 & Hcap & Hstep & Htx).
  exists tx, srv1. split; [exact Hf|]. cbn [discover_meta b_client_mac b_xid] in *.
  pose proof discover_items_of as Et.
  inversion Hstep as [M M' ip _ Hpr Hof| | | | |]; subst;
    try (exfalso; unfold Options.DHCP_DISCOVER, Options.DHCP_REQUEST, Options.DHCP_DECLINE in *; congruence).
  change (pool_start circle_config) with DHCP_POOL_START in Hof.
  change (pool_end circle_config) with DHCP_POOL_END in Hof.
  destruct Hi1 as [Hl1 Hp1]. pose proof (ls_in_pool _ _ _ Hl1) as Hpool.
  clear Hstep. destruct (Z.eqb_spec ip 0) as [E0|Hne]; cbn [client_sees] in Htx.
  - subst tx ip. unfold offerable in Hof. destruct (srv_leases srv1 !! c_mac c) as [[ip0 e0]|] eqn:Em.
    + subst ip0. exfalso. specialize (Hpool _ _ _ Em). rewrite Hcfg1 in Hpool.
      cbn in Hpool. unfold DHCP_POOL_START in Hpool. lia.
    + split; [done|]. destruct Hof as [[? _]|(_ & [[[? _] _]|[_ ?]])]; [by left | done | by right].
  - destruct Htx as (f & -> & Hre).
    assert (Hin : DHCP_POOL_START ≤ ip ≤ DHCP_POOL_END).
    { unfold offerable in Hof. destruct (srv_leases srv1 !! c_mac c) as [[ip0 e0]|] eqn:Em.
      - subst ip0. specialize (Hpool _ _ _ Em). by rewrite Hcfg1 in Hpool.
      - by destruct Hof as [[_ ?]|(_ & [[? _]|[? _]])]. }
    destruct (request_granted srv1 ip (replicate 430 0 ++ junk2) ticks2) as (f2 & p & srv2 & Hf2 & Hp & Hre2 & Hm);
      [by split | done | done | by rewrite Hcap | done | done |].
    destruct (handshake_session pm sbuf rbuf f f2 ip Hs Hr) as (c' & Hrun & Hc').
    { eexists. split; [reflexivity | exact Hre]. }
    { exists p. split; [exact Hp | exact Hre2]. }
    exists f2, srv2, c', ip. unfold request_of.
    rewrite <- app_assoc. split; [exact Hf2|]. split; [exact Hrun|]. split; [exact Hc'|].
    split; [exact Hin | exact Hm].
Qed.
End end_to_end.

(** *** The sample client at a fresh server *)
Lemma sample_client_bytes : Forall byte (c_mac sample_client).
Proof. apply (bool_decide_eq_true_1 _). vm_compute. reflexivity. Qed.

Lemma end_to_end_lease_witness :
  srv_inv circle_server ∧
  ∃ tx srv1,
    handle_frame store_mode sample_dev (client_frame (discover_meta sample_client) ++ replicate 1006 7)
      5000000 circle_server = Ret (tx, srv1) ∧
    match tx with
    | None => srv_leases srv1 !! c_mac sample_client = None
    | Some offer => ∃ ack srv2 c' ip,
        handle_frame store_mode sample_dev (request_of sample_client ip ++ replicate 100 7) 6000000 srv1
        = Ret (Some ack, srv2) ∧
        run_client sample_client (no_meta 0) (replicate 1024 7) (replicate 2048 7) true
          [Got offer true; Got ack true]
        = Ret ([client_frame (discover_meta sample_client); request_of sample_client ip], Finished 0 c') ∧
        srv_leases srv2 !! c_mac sample_client = Some (ip, 3606)
    end.
Proof.
  split; [exact circle_server_inv|].
  destruct (end_to_end_lease sample_client sample_dev sample_client_fresh sample_client_bytes
    sample_dev_mac circle_server (no_meta 0) (replicate 1024 7) (replicate 2048 7)
    (replicate 1006 7) (replicate 100 7) 5000000 6000000 circle_server_inv eq_refl eq_refl eq_refl)
    as (tx & srv1 & Hf & Htx); [unfold uword; lia..|].
  exists tx, srv1. split; [exact Hf|]. destruct tx as [offer|]; [|exact (proj1 Htx)].
  destruct Htx as (ack & srv2 & c' & ip & H1 & H2 & _ & _ & H3).
  exists ack, srv2, c', ip. exact (conj H1 (conj H2 H3)).
Defined.
