(* ===== verification/Network.v ===== *)
(** * The server and many clients on one unreliable network

    The packet loop of the bare-metal sample ([handle_frame]) and any number of
    sessions of the load-test client ([start_session], [session_step]) exchange
    frames over a network that may lose, delay, repeat and reorder them.  The
    server runs in a lease-keeping mode (ARRAY or HASHMAP), any implementation of
    the lease-store interface; the clients are those of [run_client] or of the
    workers, which differ in the length a REQUEST is sent with and in the size of
    the receive buffer.

    A state holds the server, the last reading of its clock, the sessions, and
    every frame ever sent with the second it was sent in: a frame that was sent
    can be received at any later time, or never. *)
From S2P Require Import Prelude Options Message LeaseStore ArrayPool HashTab HashPool Server.
From S2P Require Import Adapter Client EndToEnd.
From S2P Require Import Frame.

Open Scope Z_scope.

(** ** Frames *)

(** Traffic the packet loop does not look into: no IP, no UDP, or another port. *)
Definition other_traffic (frame : list Z) : Prop :=
  ∃ etype, load16 frame (eth_hdr + etherType) = Ret etype ∧
    (etype ≠ BE 0x800 ∨
     ∃ proto, deref frame (ip_hdr + protocol) = Ret proto ∧
       (proto ≠ 17 ∨
        ∃ dport, load16 frame (udp_hdr + dstPort) = Ret dport ∧ BE dport ≠ 67)).

Lemma other_traffic_ignored {P} (mode : lease_mode P) mac frame ticks srv :
  other_traffic frame → handle_frame mode mac frame ticks srv = Ret (None, srv).
Proof.
  intros (etype & He & Ho). unfold handle_frame. rewrite He, bind_Ret.
  destruct (Z.eqb_spec etype (BE 0x800)) as [Ee|]; [|done]. cbn [negb].
  destruct Ho as [Hne|(proto & Hp & Ho)]; [by destruct (Hne Ee)|]. rewrite Hp, bind_Ret.
  destruct (Z.eqb_spec proto 17) as [Ep|]; [|done]. cbn [negb].
  destruct Ho as [Hne|(dport & Hd & Ho)]; [by destruct (Hne Ep)|]. rewrite Hd, bind_Ret.
  by rewrite (proj2 (Z.eqb_neq _ _) Ho).
Qed.

(** A frame of the client is no reply: it goes from port 68 to port 67. *)
Lemma client_frame_no_reply meta z xid n : length (b_client_mac meta) = 6%nat →
  ¬ is_reply (client_frame meta ++ z) n xid.
Proof.
  intros Hm (_ & _ & _ & _ & _ & Hp & _). rewrite client_frame_split in Hp.
  unfold client_prefix in Hp. destruct (list_6 _ Hm) as (? & ? & ? & ? & ? & ? & E).
  rewrite E in Hp. discriminate Hp.
Qed.

(** A reply is no frame for the server: it goes to port 68. *)
Lemma reply_other_traffic f junk n xid : (42 ≤ length f)%nat → is_reply f n xid →
  other_traffic (f ++ junk).
Proof.
  intros Hl (_ & _ & _ & _ & _ & Hu & _).
  assert (Hd : field f (udp_hdr + dstPort) 2 = [0; 68]).
  { change 4%nat with (2 + 2)%nat in Hu. rewrite field_field_app in Hu.
    apply (f_equal (drop 2)) in Hu. rewrite drop_app_length' in Hu; [exact Hu|].
    symmetry. apply field_length. cbn. lia. }
  eexists. split; [eapply load_le_ext, load_le_field; cbn; lia|]. right.
  destruct (deref_field f (ip_hdr + protocol)) as (proto & Hp & _); [exact (Nat.le_trans 24 42 _ ltac:(lia) Hl)|].
  exists proto. split; [by apply deref_ext|]. right.
  eexists. split; [eapply load_le_ext, load_le_field; cbn; lia|]. rewrite Hd. by vm_compute.
Qed.

(** *** The addresses a client reads from a frame of bytes are bytes *)

Definition byte_quads (pm : parse_meta) : Prop :=
  Forall byte (p_offered_ip pm) ∧ Forall byte (p_server_ip pm).

Lemma load_n_bytes (l : list Z) i n s : Forall byte l → load_n l i n = Ret s → Forall byte s.
Proof. intros Hl. unfold load_n. case_decide; [|done]. intros [= <-]. by apply Forall_take, Forall_drop. Qed.

Lemma parse_option_bytes buf j t k m m' : Forall byte buf → byte_quads m →
  parse_option buf j t k m = Ret m' → byte_quads m'.
Proof.
  unfold parse_option, opt_at, opt_quad. intros Hb Hq H.
  repeat match goal with H : (if ?b then _ else _) = Ret _ |- _ => destruct b end; inv_ret; try done.
  all: destruct Hq; split; try done; (eapply load_n_bytes; [exact Hb | eassumption]).
Qed.

Lemma understood_bytes xid l : Forall byte l → Z.of_nat (length l) < 2 ^ 31 →
  byte_quads (understood xid l).
Proof.
  intros Hl Hn. assert (H0 : byte_quads (no_meta xid)) by (split; apply Forall_replicate; unfold uword; lia).
  unfold understood.
  destruct (Z.ltb_spec (Z.of_nat (length l)) MIN_RECV_LEN) as [Hs|Hs].
  { unfold parse_frame. cbv zeta. rewrite wrap_small by (unfold uword; lia).
    by rewrite (proj2 (Z.ltb_lt _ _) Hs). }
  assert (Hr : received l (Z.of_nat (length l))) by (by split; [|lia|]).
  rewrite parse_frame_eq by done. destruct (decide _); [|exact H0].
  destruct (option_loop _ _ _ _ _ _) as [pm| |] eqn:E; [|exact H0..]. rewrite bind_Ret.
  pose proof (zeroed_received _ _ Hr) as [Hb _ _].
  eapply option_loop_inv; [| |exact E]; [intros ?????; by apply parse_option_bytes|].
  split; by apply field_bytes.
Qed.

Lemma client_frame_bytes meta : client_ok meta → Forall byte (client_frame meta).
Proof.
  intros Hok. pose proof (client_options_bytes meta Hok) as Ho. pose proof (co_mac meta Hok) as Hm.
  assert (Hx : Forall byte (be32 (u32 (b_xid meta)))) by apply Forall_rev, le_split_bytes.
  unfold client_frame, ether_header, client_dhcp_header. rewrite !Forall_app.
  repeat match goal with
  | |- _ ∧ _ => split
  | |- Forall byte (b_client_mac _) => exact Hm
  | |- Forall byte (be32 _) => exact Hx
  | |- Forall byte (client_options _) => exact Ho
  | _ => apply (bool_decide_eq_true_1 _); vm_compute; reflexivity
  end.
Qed.

(** ** The system *)

(** [n_wire]: the frames sent so far, each with the second the server's clock
    showed. *)
Record network (P : Type) := mkNetwork {
  n_server : dhcp_server_t P;
  n_clock : Z;
  n_sessions : list (option verdict);
  n_wire : list (Z * list Z)
}.
Arguments mkNetwork {_} _ _ _ _.
Arguments n_server {_} _.
Arguments n_clock {_} _.
Arguments n_sessions {_} _.
Arguments n_wire {_} _.

Inductive action :=
  | ServerGets (frame : list Z) (ticks : Z)
  | ClientStarts (i : nat) (pm : parse_meta) (sbuf rbuf : list Z) (sent : bool)
  | ClientGets (i : nat) (r : recv_result).

Definition seconds {P} (n : network P) : Z := ts_in_sec (n_clock n).

(** A frame a client makes: if it carries the transaction id of one of ours, it
    carries its MAC. *)
Definition from_client (clients : list client) (frame : list Z) : Prop :=
  ∃ meta junk, frame = client_frame meta ++ junk ∧ client_ok meta ∧ is_u32 (b_xid meta) ∧
    ∀ c, c ∈ clients → b_xid meta = c_xid c → b_client_mac meta = c_mac c.

Section system.
Context {P : Type} `{LeaseStore P}.
(** The server's MAC address; the clients; the length a REQUEST is sent with. *)
Variables (mac : list Z) (clients : list client) (request_len : Z → list Z → Z).

Definition net_step (n : network P) (a : action) : outcome (network P) :=
  match a with
  | ServerGets frame ticks =>
      '(tx, srv) ← handle_frame store_mode mac frame ticks (n_server n);
      Ret (mkNetwork srv ticks (n_sessions n) (n_wire n ++ (pair (ts_in_sec ticks) <$> option_list tx)))
  | ClientStarts i pm sbuf rbuf sent =>
      match clients !! i with
      | Some c =>
          '(f, v) ← start_session c pm sbuf rbuf sent;
          Ret (mkNetwork (n_server n) (n_clock n) (<[i := Some v]> (n_sessions n))
                 (n_wire n ++ [(seconds n, f)]))
      | None => Ret n
      end
  | ClientGets i r =>
      match n_sessions n !! i with
      | Some (Some v) =>
          '(fs, v) ← session_run request_len v [r];
          Ret (mkNetwork (n_server n) (n_clock n) (<[i := Some v]> (n_sessions n))
                 (n_wire n ++ (pair (seconds n) <$> fs)))
      | _ => Ret n
      end
  end.
End system.

(** ** What the network may do

    The server's clock does not run backwards and does not wrap around (see
    [clock_wrap_lease_never_ends] for what happens when it does).  The server may
    receive any other traffic and any frame a client makes: those the clients
    sent, at any later time and any number of times, and those of clients we do
    not follow.  A client may receive anything that is no DHCP reply to it, and
    every frame ever sent: there is no other DHCP server.

    The clients are ones that have not begun ([fresh_client]), of which no two
    have the same transaction id; [request_len] is the length a REQUEST is sent
    with, 594 bytes and the padding [pad]; [rlen] is the size of the buffer a
    client receives into. *)
Section network.
Context {P : Type} `{LeaseStoreLaws P}.
Variables (mac : list Z) (clients : list client) (request_len : Z → list Z → Z) (pad rlen : nat).

Definition allowed (n : network P) (a : action) : Prop :=
  match a with
  | ServerGets frame ticks =>
      n_clock n ≤ ticks < 2 ^ 32 ∧ (other_traffic frame ∨ from_client clients frame)
  | ClientStarts i _ sbuf rbuf _ =>
      n_sessions n !! i = Some None ∧ length sbuf = 1024%nat ∧ length rbuf = rlen
  | ClientGets i r =>
      recv_ok rlen r ∧
      ∀ c bytes sent, clients !! i = Some c → r = Got bytes sent →
        p_dhcp_type (understood (c_xid c) bytes) ≠ DHCP_UNKNOWN → bytes ∈ (n_wire n).*2
  end.

Inductive reachable : network P → Prop :=
  | reachable_start srv ticks :
      srv_inv srv → config srv = circle_config → is_u32 ticks →
      reachable (mkNetwork srv ticks (replicate (length clients) None) [])
  | reachable_step n a n' :
      reachable n → allowed n a → net_step mac clients request_len n a = Ret n' → reachable n'.

(** The frame [f], sent in second [t], acknowledges [ip] to [c]. *)
Definition ack_sent (n : network P) (c : client) (t ip : Z) : Prop :=
  ∃ f, (t, f) ∈ n_wire n ∧ p_dhcp_type (understood (c_xid c) f) = DHCP_ACK ∧
    p_offered_ip (understood (c_xid c) f) = uint32_to_ip ip.

(** The session of client [i] has ended successfully with the address [ip]. *)
Definition session_leased (n : network P) (i : nat) (ip : Z) : Prop :=
  ∃ c', n_sessions n !! i = Some (Some (Finished 0 c')) ∧ c_assigned_ip c' = uint32_to_ip ip.

(** ** The invariant

    [acks] lists every acknowledgement of the server: its second, the MAC it was
    made out to, the address. *)
Definition ack_record : Type := Z * list Z * Z.

Definition recorded (srv : dhcp_server_t P) (now : Z) (a : ack_record) : Prop :=
  let '(t, m, ip) := a in
  0 ≤ t ≤ now ∧ (now < t + 3600 → protected m ip (t + 3600) (srv_leases srv)).

Definition apart (a b : ack_record) : Prop :=
  let '(t, m, ip) := a in let '(t', m', ip') := b in
  ip = ip' → m ≠ m' → t + 3600 ≤ t' ∨ t' + 3600 ≤ t.

(** What is known of a frame on the wire. *)
Definition packet_ok (acks : list ack_record) (p : Z * list Z) : Prop :=
  let '(t, f) := p in
  Forall byte f ∧ Z.of_nat (length f) < 2 ^ 31 ∧
  (∀ junk, other_traffic (f ++ junk) ∨ from_client clients (f ++ junk)) ∧
  ∀ c, c ∈ clients → p_dhcp_type (understood (c_xid c) f) = DHCP_ACK →
    ∃ ip, DHCP_POOL_START ≤ ip ≤ DHCP_POOL_END ∧
      p_offered_ip (understood (c_xid c) f) = uint32_to_ip ip ∧ (t, c_mac c, ip) ∈ acks.

(** What is known of a session. *)
Definition phase_ok (acks : list ack_record) (wire : list (Z * list Z)) (c : client) (p : phase) : Prop :=
  match p with
  | Discovering _ => True
  | Requesting o _ => quads o ∧ byte_quads o
  | Over (Leased a) => ∃ t f ip, (t, f) ∈ wire ∧ a = understood (c_xid c) f ∧ p_dhcp_type a = DHCP_ACK ∧
      p_offered_ip a = uint32_to_ip ip ∧ DHCP_POOL_START ≤ ip ≤ DHCP_POOL_END ∧ (t, c_mac c, ip) ∈ acks
  | Over _ => True
  end.

Record net_inv (acks : list ack_record) (n : network P) : Prop := {
  ni_srv : srv_inv (n_server n);
  ni_config : config (n_server n) = circle_config;
  ni_clock : is_u32 (n_clock n);
  ni_length : length (n_sessions n) = length clients;
  ni_recorded : Forall (recorded (n_server n) (seconds n)) acks;
  ni_apart : ∀ a b, a ∈ acks → b ∈ acks → apart a b;
  ni_wire : Forall (packet_ok acks) (n_wire n);
  ni_sessions : ∀ i c v, clients !! i = Some c → n_sessions n !! i = Some (Some v) →
    ∃ p, shows c rlen p v ∧ phase_ok acks (n_wire n) c p
}.

Hypothesis mac_ok : is_mac mac.
Hypothesis pad_le : (pad ≤ 430)%nat.
Hypothesis request_len_eq : ∀ sbuf, length sbuf = 1024%nat →
  request_len MIN_SEND_LEN sbuf = Z.of_nat (594 + pad).
Hypothesis rlen_small : Z.of_nat rlen < 2 ^ 31.
Hypothesis clients_fresh : Forall (λ c, fresh_client c ∧ Forall byte (c_mac c)) clients.
Hypothesis xids_distinct : NoDup (c_xid <$> clients).

(** *** Frames the clients send *)

Lemma xid_owner c c' : c ∈ clients → c' ∈ clients → c_xid c = c_xid c' → c_mac c = c_mac c'.
Proof.
  intros [i Hi]%list_elem_of_lookup [j Hj]%list_elem_of_lookup Hx.
  assert (i = j) as ->.
  { eapply (NoDup_lookup (c_xid <$> clients)); [exact xids_distinct|..];
      rewrite list_lookup_fmap, ?Hi, ?Hj; cbn; [reflexivity | by rewrite Hx]. }
  by rewrite Hi in Hj; injection Hj as ->.
Qed.

Lemma client_frame_unknown meta k c : length (b_client_mac meta) = 6%nat → is_u32 (c_xid c) →
  let f := client_frame meta ++ replicate k 0 in
  Forall byte f → Z.of_nat (length f) < 2 ^ 31 → p_dhcp_type (understood (c_xid c) f) = DHCP_UNKNOWN.
Proof.
  intros Hm Hx f Hf Hn. destruct (decide (p_dhcp_type (understood (c_xid c) f) = DHCP_UNKNOWN)) as [|Hne]; [done|].
  exfalso. eapply client_frame_no_reply; [exact Hm|]. by eapply understood_reply.
Qed.

(** A frame of client [c]. *)
Definition sent_by (c : client) (f : list Z) : Prop :=
  ∃ meta k, f = client_frame meta ++ replicate k 0 ∧ (k ≤ 430)%nat ∧ client_ok meta ∧
    b_client_mac meta = c_mac c ∧ b_xid meta = c_xid c.

Lemma sent_by_bytes c f : sent_by c f → Forall byte f ∧ Z.of_nat (length f) < 2 ^ 31.
Proof.
  intros (meta & k & -> & Hk & Hok & _). split.
  - apply Forall_app. split; [by apply client_frame_bytes|]. apply Forall_replicate. unfold uword. lia.
  - rewrite length_app, length_replicate, client_frame_length by apply Hok. lia.
Qed.

(** No client of ours reads the frame of a client as a reply. *)
Lemma sent_by_unknown c c' f : sent_by c f → c' ∈ clients → p_dhcp_type (understood (c_xid c') f) = DHCP_UNKNOWN.
Proof.
  intros Hsent Hc'. pose proof (sent_by_bytes c f Hsent) as [Hb Hl].
  destruct Hsent as (meta & k & -> & _ & Hok & _). rewrite Forall_forall in clients_fresh.
  apply client_frame_unknown; [apply Hok| |done..]. by apply clients_fresh.
Qed.

Lemma sent_by_packet_ok acks c t f : c ∈ clients → sent_by c f → packet_ok acks (t, f).
Proof.
  intros Hc Hsent. pose proof (sent_by_bytes c f Hsent) as [Hb Hl]. pose proof (λ c', sent_by_unknown c c' f Hsent) as Hu.
  destruct Hsent as (meta & k & -> & _ & Hok & Hm & Hx).
  rewrite Forall_forall in clients_fresh. split; [exact Hb|]. split; [exact Hl|]. split.
  - intros junk. right. exists meta, (replicate k 0 ++ junk). split; [by rewrite app_assoc|].
    split; [done|]. split; [rewrite Hx; by apply clients_fresh|].
    intros c' Hc' Hxid. rewrite Hm. apply xid_owner; [done..|]. by rewrite <- Hx.
  - intros c' Hc' Hack. by rewrite (Hu c' Hc') in Hack.
Qed.

Lemma discover_meta_client_ok c : fresh_client c → Forall byte (c_mac c) → client_ok (discover_meta c).
Proof.
  intros Hc Hb. split; try done; [by apply discover_meta_ok, fc_mac | | | by left];
    apply Forall_replicate; unfold uword; lia.
Qed.

Lemma request_meta_client_ok c o : fresh_client c → Forall byte (c_mac c) → quads o → byte_quads o →
  client_ok (request_meta c o).
Proof.
  intros Hc Hb Hq [Ho Hs]. split; try done; [|by right]. apply request_meta_ok; [by apply fc_mac | done].
Qed.

Lemma sent_whole c meta k : (k ≤ 430)%nat → client_ok meta → b_client_mac meta = c_mac c → b_xid meta = c_xid c →
  sent_by c (client_frame meta ++ replicate k 0).
Proof. intros. by exists meta, k. Qed.

Lemma sent_plain c meta : client_ok meta → b_client_mac meta = c_mac c → b_xid meta = c_xid c →
  sent_by c (client_frame meta).
Proof. intros. rewrite <- (app_nil_r (client_frame meta)). apply (sent_whole c meta 0); [lia | done..]. Qed.

(** What an event may tell a session: a message has been read from a frame of
    bytes, and an ACK is on the wire. *)
Definition event_fine (acks : list ack_record) (wire : list (Z * list Z)) (c : client) (e : event) : Prop :=
  match e with
  | Message pm _ => quads pm ∧ byte_quads pm ∧
      (p_dhcp_type pm = DHCP_ACK → phase_ok acks wire c (Over (Leased pm)))
  | _ => True
  end.

Lemma phase_step_fine acks wire c p e : fresh_client c → Forall byte (c_mac c) →
  phase_ok acks wire c p → event_fine acks wire c e →
  let '(fs, p') := phase_step pad c p e in
  phase_ok acks wire c p' ∧ Forall (sent_by c) fs.
Proof.
  intros Hc Hb Hp He. pose proof (discover_meta_client_ok c Hc Hb) as Hd.
  destruct p as [n|o n|x].
  - destruct e as [pm sent| |]; cbn [phase_step]; [|unfold retry; by destruct (_ <=? _);
      (split; [done|]); [constructor | repeat constructor; apply sent_plain] | by split].
    destruct He as (Hq & Hbq & _). destruct (_ =? DHCP_OFFER); [|by destruct (_ =? DHCP_NAK)].
    split; [by destruct sent|]. constructor; [|constructor].
    apply sent_whole; [done | by apply request_meta_client_ok | done | done].
  - destruct Hp as [Hq Hbq]. pose proof (request_meta_client_ok c o Hc Hb Hq Hbq).
    destruct e as [pm sent| |]; cbn [phase_step]; [|unfold retry; by destruct (_ <=? _);
      (split; [done|]); [constructor | repeat constructor; apply sent_plain] | by split].
    destruct He as (_ & _ & Hack). destruct (Z.eqb_spec (p_dhcp_type pm) DHCP_ACK) as [E|_].
    + split; [by apply Hack | constructor].
    + by destruct (_ =? DHCP_NAK).
  - by destruct e.
Qed.

Lemma phase_ok_mono acks acks' wire wire' c p : acks ⊆ acks' → wire ⊆ wire' →
  phase_ok acks wire c p → phase_ok acks' wire' c p.
Proof.
  intros Ha Hw. destruct p as [| |[a| | |]]; try done.
  intros (t & f & ip & H1 & H2 & H3 & H4 & H5 & H6). exists t, f, ip. split; [by apply Hw|].
  repeat (split; [assumption|]). by apply Ha.
Qed.

Lemma packet_ok_mono acks acks' p : acks ⊆ acks' → packet_ok acks p → packet_ok acks' p.
Proof.
  intros Ha. destruct p as [t f]. intros (H1 & H2 & H3 & H4). repeat (split; [done|]). intros c Hc Hack.
  destruct (H4 c Hc Hack) as (ip & ? & ? & ?). exists ip. split; [done|]. split; [done|]. by apply Ha.
Qed.

(** *** The invariant holds at the start and is kept *)

Lemma net_inv_start srv ticks : srv_inv srv → config srv = circle_config → is_u32 ticks →
  net_inv [] (mkNetwork srv ticks (replicate (length clients) None) []).
Proof.
  intros Hi Hc Ht. split; cbn; try done; [apply length_replicate | set_solver |].
  intros i c v _ [? _]%lookup_replicate. done.
Qed.

Lemma clients_fresh_at i c : clients !! i = Some c → fresh_client c ∧ Forall byte (c_mac c) ∧ c ∈ clients.
Proof.
  intros Hi. pose proof (list_elem_of_lookup_2 _ _ _ Hi) as Hin. rewrite Forall_forall in clients_fresh.
  by destruct (clients_fresh c Hin).
Qed.

(** Replacing session [i] and appending frames of its client *)
Lemma net_inv_session acks n i c p v fs : net_inv acks n → clients !! i = Some c →
  (i < length (n_sessions n))%nat → shows c rlen p v → phase_ok acks (n_wire n) c p →
  Forall (sent_by c) fs →
  net_inv acks (mkNetwork (n_server n) (n_clock n) (<[i := Some v]> (n_sessions n))
                  (n_wire n ++ (pair (seconds n) <$> fs))).
Proof.
  intros [Hs Hcfg Hck Hl Hr Ha Hw Hss] Hi Hlt Hv Hp Hfs. destruct (clients_fresh_at i c Hi) as (_ & _ & Hin).
  assert (Hsub : ∀ q : list (Z * list Z), n_wire n ⊆ n_wire n ++ q) by set_solver.
  split; cbn [n_server n_clock n_sessions n_wire]; try assumption.
  - by rewrite length_insert.
  - apply Forall_app. split; [done|]. apply Forall_fmap. eapply Forall_impl; [exact Hfs|].
    intros f Hf. by eapply sent_by_packet_ok.
  - intros j c' v' Hj Hv'. destruct (decide (i = j)) as [<-|Hne].
    + rewrite list_lookup_insert_eq in Hv' by done. rewrite Hi in Hj.
      injection Hj as <-. injection Hv' as <-.
      exists p. split; [done|]. by apply (phase_ok_mono acks acks (n_wire n)).
    + rewrite list_lookup_insert_ne in Hv' by done. destruct (Hss j c' v' Hj Hv') as (p' & ? & ?).
      exists p'. split; [done|]. by apply (phase_ok_mono acks acks (n_wire n)).
Qed.

(** *** A frame at the server *)

(** A frame read as a reply by two transaction ids is read by the same one. *)
Lemma reply_xid x y f : is_u32 x → is_u32 y → Forall byte f → Z.of_nat (length f) < 2 ^ 31 →
  p_dhcp_type (understood x f) ≠ DHCP_UNKNOWN → p_dhcp_type (understood y f) ≠ DHCP_UNKNOWN → x = y.
Proof.
  intros Hx Hy Hf Hl Ux Uy. apply be32_inj; [done..|].
  destruct (understood_reply x f Hx Hf Hl Ux) as (_ & _ & _ & _ & _ & _ & _ & <-).
  by destruct (understood_reply y f Hy Hf Hl Uy) as (_ & _ & _ & _ & _ & _ & _ & <-).
Qed.

Lemma client_sees_known x a pm : client_sees mac x a = Some pm → p_dhcp_type pm ≠ DHCP_UNKNOWN.
Proof. by destruct a; intros [= <-]. Qed.

Lemma client_sees_ack x a pm : client_sees mac x a = Some pm → p_dhcp_type pm = DHCP_ACK →
  ∃ ip, a = Ack ip ∧ p_offered_ip pm = uint32_to_ip ip.
Proof. destruct a as [|ip|ip|]; intros [= <-]; try done. by exists ip. Qed.

Definition ack_of (t : Z) (meta : build_meta) (a : answer) : list ack_record :=
  match a with Ack ip => [(t, b_client_mac meta, ip)] | _ => [] end.

(** The server's answer on the wire *)
Lemma answer_packet_ok acks t meta a pm f : is_u32 (b_xid meta) →
  (∀ c, c ∈ clients → b_xid meta = c_xid c → b_client_mac meta = c_mac c) →
  (∀ ip, a = Ack ip → DHCP_POOL_START ≤ ip ≤ DHCP_POOL_END) →
  client_sees mac (b_xid meta) a = Some pm → reaches_client (b_xid meta) f pm →
  packet_ok (ack_of t meta a ++ acks) (t, f).
Proof.
  intros Hx Hown Hin Hsee (Hl & Hb & Hp).
  assert (U : understood (b_xid meta) f = pm).
  { unfold understood. rewrite Hl. change (Z.of_nat RESPONSE_SIZE) with 594. by rewrite Hp. }
  pose proof (client_sees_known _ _ _ Hsee) as Hk.
  assert (Hl' : Z.of_nat (length f) < 2 ^ 31) by (rewrite Hl; by vm_compute).
  split; [done|]. split; [done|]. split.
  - intros junk. left. eapply reply_other_traffic; [rewrite Hl; vm_compute; lia|].
    eapply (understood_reply (b_xid meta)); [done | done | done | by rewrite U].
  - intros c Hc Hack. rewrite Forall_forall in clients_fresh.
    assert (Hxid : b_xid meta = c_xid c).
    { eapply (reply_xid _ _ f); [done | by apply clients_fresh | done | done | by rewrite U | by rewrite Hack]. }
    rewrite <- Hxid, U in *. destruct (client_sees_ack _ _ _ Hsee Hack) as (ip & -> & Hip).
    exists ip. split; [by apply Hin|]. split; [done|]. rewrite <- (Hown c Hc Hxid). cbn. by left.
Qed.

(** The records after an answer *)
Lemma lease_step_records cap meta a srv srv' now now' acks :
  lease_inj (srv_leases srv) → now ≤ now' ≤ 4294 →
  lease_step circle_config cap now' (b_client_mac meta) (client_items meta)
    (srv_leases srv) a (srv_leases srv') → client_ok meta → 0 ≤ now' →
  Forall (recorded srv now) acks → (∀ x y, x ∈ acks → y ∈ acks → apart x y) →
  let acks' := ack_of now' meta a ++ acks in
  Forall (recorded srv' now') acks' ∧ (∀ x y, x ∈ acks' → y ∈ acks' → apart x y).
Proof.
  intros Hinj Hnow Hstep Hok Hpos Hrec Hap acks'.
  assert (Hwr : now' ⊞ lease_time circle_config = now' + 3600)
    by (apply wrap_small; change (lease_time circle_config) with 3600; unfold uword; lia).
  assert (Hkeep : ∀ t m ip, (t, m, ip) ∈ acks → 0 ≤ t ≤ now ∧
    (now' < t + 3600 → protected m ip (t + 3600) (srv_leases srv') ∧
       (a = Ack ip → b_client_mac meta = m))).
  { intros t m ip Hin. rewrite Forall_forall in Hrec. destruct (Hrec _ Hin) as [Ht Hp].
    split; [done|]. intros Hlt. eapply lease_step_protected; [exact Hinj | exact Hstep | apply Hp; lia
      | done | rewrite Hwr; lia |]. intros Hd. rewrite client_type in Hd by done.
    by destruct (co_type _ Hok) as [E|E]; rewrite E in Hd. }
  assert (Hold : Forall (recorded srv' now') acks).
  { apply Forall_forall. intros [[t m] ip] Hin. destruct (Hkeep t m ip Hin) as [Ht Hp].
    split; [lia|]. intros Hlt. by apply Hp. }
  subst acks'. destruct a as [|ip|ip|]; cbn [ack_of app]; try by split.
  apply lease_step_ack in Hstep as [Hnew _]. rewrite Hwr in Hnew.
  assert (Hfar : ∀ t m ip', (t, m, ip') ∈ acks → apart (now', b_client_mac meta, ip) (t, m, ip')).
  { intros t m ip' Hin <- Hne. destruct (Hkeep t m ip Hin) as [Ht Hp].
    destruct (decide (now' < t + 3600)) as [Hlt|]; [|lia]. by destruct Hne; apply Hp. }
  split.
  - constructor; [|done]. split; [lia | done].
  - intros x y [->|Hx]%elem_of_cons [->|Hy]%elem_of_cons; [by intros _ [] | | | by apply Hap].
    + destruct y as [[t m] ip']. by apply Hfar.
    + destruct x as [[t m] ip']. intros E Hne. destruct (Hfar t m ip' Hx); [done|congruence|lia..].
Qed.

(** Advancing the server: its new state, records and frames *)
Lemma net_inv_server acks acks' n srv ticks fs : net_inv acks n →
  srv_inv srv → config srv = circle_config → is_u32 ticks → acks ⊆ acks' →
  Forall (recorded srv (ts_in_sec ticks)) acks' → (∀ x y, x ∈ acks' → y ∈ acks' → apart x y) →
  Forall (packet_ok acks') fs →
  net_inv acks' (mkNetwork srv ticks (n_sessions n) (n_wire n ++ fs)).
Proof.
  intros [Hs Hcfg Hck Hl Hr Ha Hw Hss] Hs' Hcfg' Ht Hsub Hr' Ha' Hfs.
  split; cbn [n_server n_clock n_sessions n_wire]; try assumption.
  - apply Forall_app. split; [|done]. eapply Forall_impl; [exact Hw|].
    intros p. by apply packet_ok_mono.
  - intros i c v Hi Hv. destruct (Hss i c v Hi Hv) as (p & ? & ?). exists p. split; [done|].
    apply (phase_ok_mono acks acks' (n_wire n)); [done | set_solver | done].
Qed.

Lemma server_gets_inv acks n frame ticks : net_inv acks n → allowed n (ServerGets frame ticks) →
  ∃ n' acks', net_step mac clients request_len n (ServerGets frame ticks) = Ret n' ∧ net_inv acks' n'.
Proof.
  intros Hi [Ht Hf]. pose proof Hi as [Hs Hcfg Hck _ Hr Ha _ _].
  assert (Hticks : is_u32 ticks) by (unfold uword in *; lia).
  assert (Hnow : seconds n ≤ ts_in_sec ticks) by (apply Z.div_le_mono; lia).
  pose proof (ts_in_sec_u32 _ Hticks) as [[Hpos _] Hle]. cbn [net_step].
  destruct Hf as [Hf|(meta & junk & -> & Hok & Hx & Hown)].
  - rewrite (other_traffic_ignored _ _ _ _ _ Hf), bind_Ret. eexists _, acks. split; [reflexivity|].
    apply (net_inv_server acks); try done.
    eapply Forall_impl; [exact Hr|]. intros [[t m] ip] [? Hp]. split; [lia|].
    intros. apply Hp. lia.
  - destruct (frame_exchange_core (n_server n) meta mac junk ticks Hs Hcfg Hok mac_ok Hticks)
      as (tx & srv' & a & -> & Hs' & Hcfg' & _ & Hstep & Htx). rewrite bind_Ret.
    assert (Hinj : lease_inj (srv_leases (n_server n))) by (destruct Hs as [Hs _]; by eapply ls_inj).
    destruct (lease_step_records (srv_cap (n_server n)) meta a (n_server n) srv' (seconds n) (ts_in_sec ticks) acks Hinj)
      as [Hr' Ha']; [lia | exact Hstep | assumption..|].
    eexists _, (ack_of (ts_in_sec ticks) meta a ++ acks). split; [reflexivity|].
    apply (net_inv_server acks); try assumption; [by intros x ?; apply elem_of_app; right|].
    destruct (client_sees mac (b_xid meta) a) as [pm|] eqn:Esee; [|subst tx; constructor].
    destruct Htx as (f & -> & Hre). constructor; [|constructor].
    eapply answer_packet_ok; [done | done | | exact Esee | exact Hre].
    intros ip ->. by apply lease_step_ack in Hstep as [_ ?].
Qed.

(** A session that starts has sent its DISCOVER. *)
Lemma session_starts acks n i c pm sbuf rbuf sent : clients !! i = Some c →
  allowed n (ClientStarts i pm sbuf rbuf sent) →
  ∃ f v p, start_session c pm sbuf rbuf sent = Ret (f, v) ∧ shows c rlen p v ∧ phase_ok acks (n_wire n) c p ∧
    sent_by c f.
Proof.
  intros Hc (_ & Hsb & Hrb). destruct (clients_fresh_at i c Hc) as (Hfr & Hb & _).
  destruct (start_session_shows rlen c pm sbuf rbuf sent Hfr Hsb Hrb) as (v & E & Hsh).
  eexists _, v, _. split; [exact E|]. split; [exact Hsh|]. split; [by destruct sent|].
  apply sent_plain; [by apply discover_meta_client_ok | done | done].
Qed.

Lemma client_starts_inv acks n i pm sbuf rbuf sent : net_inv acks n →
  allowed n (ClientStarts i pm sbuf rbuf sent) →
  ∃ n', net_step mac clients request_len n (ClientStarts i pm sbuf rbuf sent) = Ret n' ∧ net_inv acks n'.
Proof.
  intros Hi Ha. cbn [net_step]. pose proof (lookup_lt_Some _ _ _ (proj1 Ha)) as Hlt. pose proof Hlt as Hlt'.
  rewrite (ni_length _ _ Hi) in Hlt'. destruct (lookup_lt_is_Some_2 _ _ Hlt') as [c Hc]. rewrite Hc.
  destruct (session_starts acks n i c pm sbuf rbuf sent Hc Ha) as (f & v & p & -> & Hsh & Hp & Hf).
  rewrite bind_Ret. eexists. split; [reflexivity|].
  eapply (net_inv_session acks n i c p v [f]); [done..|by constructor].
Qed.

Lemma received_fine acks n i c r : net_inv acks n → clients !! i = Some c →
  allowed n (ClientGets i r) → event_fine acks (n_wire n) c (event_of (c_xid c) r).
Proof.
  intros Hi Hc [Hok Hgot]. destruct r as [bytes sent| |]; [|done..]. cbn [event_of event_fine].
  destruct Hok as [Hb Hl]. assert (Hl' : Z.of_nat (length bytes) < 2 ^ 31) by lia.
  split; [apply understood_quads|]. split; [by apply understood_bytes|]. intros Hack.
  destruct (list_elem_of_fmap_1 _ _ _ (Hgot c bytes sent Hc eq_refl ltac:(by rewrite Hack)))
    as ([t f] & -> & Hin). cbn [snd] in *.
  pose proof (ni_wire _ _ Hi) as Hw. rewrite Forall_forall in Hw. destruct (Hw _ Hin) as (_ & _ & _ & Hp).
  destruct (Hp c) as (ip & ? & ? & ?); [by eapply clients_fresh_at | done |].
  by exists t, f, ip.
Qed.

(** What a session sends when something arrives *)
Lemma session_gets acks n i c r v : net_inv acks n → clients !! i = Some c → n_sessions n !! i = Some (Some v) →
  allowed n (ClientGets i r) →
  ∃ fs v' p', session_run request_len v [r] = Ret (fs, v') ∧ shows c rlen p' v' ∧ phase_ok acks (n_wire n) c p' ∧
    Forall (sent_by c) fs.
Proof.
  intros Hi Hc Hv Ha. destruct (clients_fresh_at i c Hc) as (Hfr & Hb & _).
  destruct (ni_sessions _ _ Hi i c v Hc Hv) as (p & Hsh & Hp).
  destruct (session_run_shows request_len pad pad_le request_len_eq c (fc_mac c Hfr) rlen [r] rlen_small
    ltac:(by repeat constructor; destruct Ha) p v Hsh) as (v' & E & Hsh').
  pose proof (phase_step_fine acks (n_wire n) c p _ Hfr Hb Hp (received_fine acks n i c r Hi Hc Ha)) as Hfine.
  cbn [fmap list_fmap phase_run] in *. destruct (phase_step pad c p _) as [fs p'].
  cbn [fst snd] in *. rewrite app_nil_r in *. destruct Hfine as [Hp' Hfs]. by exists fs, v', p'.
Qed.

Lemma client_gets_inv acks n i r : net_inv acks n → allowed n (ClientGets i r) →
  ∃ n', net_step mac clients request_len n (ClientGets i r) = Ret n' ∧ net_inv acks n'.
Proof.
  intros Hi Ha. cbn [net_step].
  destruct (n_sessions n !! i) as [[v|]|] eqn:Hv; [|by eexists..].
  pose proof (lookup_lt_Some _ _ _ Hv) as Hlt. pose proof Hlt as Hlt'.
  rewrite (ni_length _ _ Hi) in Hlt'. destruct (lookup_lt_is_Some_2 _ _ Hlt') as [c Hc].
  destruct (session_gets acks n i c r v Hi Hc Hv Ha) as (fs & v' & p' & -> & Hsh & Hp & Hfs). rewrite bind_Ret.
  eexists. split; [reflexivity|]. by eapply net_inv_session.
Qed.

Lemma net_step_inv acks n a : net_inv acks n → allowed n a →
  ∃ n' acks', net_step mac clients request_len n a = Ret n' ∧ net_inv acks' n'.
Proof.
  intros Hi Ha. destruct a; [by eapply server_gets_inv | |].
  - destruct (client_starts_inv acks n i pm sbuf rbuf sent Hi Ha) as (n' & ? & ?). by exists n', acks.
  - destruct (client_gets_inv acks n i r Hi Ha) as (n' & ? & ?). by exists n', acks.
Qed.

Lemma reachable_inv n : reachable n → ∃ acks, net_inv acks n.
Proof.
  induction 1 as [srv ticks Hs Hc Ht|n a n' _ [acks IH] Ha Hstep].
  - exists []. by apply net_inv_start.
  - destruct (net_step_inv acks n a IH Ha) as (n'' & acks' & E & ?). rewrite Hstep in E.
    injection E as <-. by exists acks'.
Qed.

(** *** What the invariant says of sessions that ended with a lease *)

Lemma pool_u32 ip : DHCP_POOL_START ≤ ip ≤ DHCP_POOL_END → is_u32 ip.
Proof. unfold uword, DHCP_POOL_START, DHCP_POOL_END. lia. Qed.

Lemma uint32_to_ip_inj x y : is_u32 x → is_u32 y → uint32_to_ip x = uint32_to_ip y → x = y.
Proof. intros Hx Hy E. by rewrite <- (ip_of_uint32_to_ip x Hx), E, ip_of_uint32_to_ip. Qed.

(** Every ACK on the wire is a record of the server. *)
Lemma ack_recorded acks n c t ip : net_inv acks n → c ∈ clients →
  DHCP_POOL_START ≤ ip ≤ DHCP_POOL_END → ack_sent n c t ip → (t, c_mac c, ip) ∈ acks.
Proof.
  intros Hi Hc Hip (f & Hin & Hack & Ho). pose proof (ni_wire _ _ Hi) as Hw.
  rewrite Forall_forall in Hw. destruct (Hw _ Hin) as (_ & _ & _ & Hp).
  destruct (Hp c Hc Hack) as (ip' & Hip' & Ho' & ?).
  by rewrite (uint32_to_ip_inj ip ip') by (by apply pool_u32 || congruence).
Qed.

Lemma finished_recorded acks n i c c' : net_inv acks n → clients !! i = Some c →
  n_sessions n !! i = Some (Some (Finished 0 c')) →
  ∃ ip t, DHCP_POOL_START ≤ ip ≤ DHCP_POOL_END ∧ c_assigned_ip c' = uint32_to_ip ip ∧
    ack_sent n c t ip ∧ (t, c_mac c, ip) ∈ acks.
Proof.
  intros Hi Hc Hv. destruct (ni_sessions _ _ Hi i c _ Hc Hv) as (p & Hsh & Hp).
  inversion Hsh as [| |a k|]; subst. destruct Hp as (t & f & ip & Hin & -> & Hack & Ho & Hip & Hr).
  exists ip, t. split; [done|]. split; [done|]. split; [by exists f | done].
Qed.

Lemma wire_allowed acks n t f junk ticks : net_inv acks n → (t, f) ∈ n_wire n →
  n_clock n ≤ ticks < 2 ^ 32 → allowed n (ServerGets (f ++ junk) ticks).
Proof.
  intros Hi Hin Ht. split; [done|]. pose proof (ni_wire _ _ Hi) as Hw.
  rewrite Forall_forall in Hw. by destruct (Hw _ Hin) as (_ & _ & Hp & _).
Qed.

(** The system never goes wrong: whatever the network has delivered so far,
    every further delivery, timeout or start is processed to its end, by server
    and clients, without an access outside a buffer; and every frame on the wire,
    from whoever, with any stale bytes behind it, is one the server can receive
    at any later time. *)
Theorem network_runs (n : network P) : reachable n →
  (∀ a, allowed n a → ∃ n', net_step mac clients request_len n a = Ret n') ∧
  (∀ t f junk ticks, (t, f) ∈ n_wire n → n_clock n ≤ ticks < 2 ^ 32 →
     allowed n (ServerGets (f ++ junk) ticks)).
Proof.
  intros Hreach. destruct (reachable_inv n Hreach) as [acks Hi]. split.
  - intros a Ha. destruct (net_step_inv acks n a Hi Ha) as (n' & _ & E & _). by exists n'.
  - intros t f junk ticks. by apply (wire_allowed acks).
Qed.

(** C12: Client and server agree, as long as the server's 32-bit microsecond clock
    does not wrap around (its first 71 minutes; a lease granted after second 695
    is followed up to the wrap only), with a server in ARRAY or HASHMAP mode and
    for clients of which no two have the same transaction id (the code draws them
    with rand() and does not check).  A session that has ended successfully holds
    an address of the pool that the server has acknowledged to this client in
    some second [t] not after the present one, and at every moment before
    [t + 3600] that such a run can reach the server's lease of the address to the
    client's MAC stands, whatever the network loses, delays, repeats or reorders
    and whatever DISCOVERs and REQUESTs other clients send; but no other server
    sends the clients replies. *)
Theorem network_leases_backed (n : network P) (i : nat) (c c' : client) : reachable n →
  clients !! i = Some c → n_sessions n !! i = Some (Some (Finished 0 c')) →
  ∃ ip t, DHCP_POOL_START ≤ ip ≤ DHCP_POOL_END ∧ c_assigned_ip c' = uint32_to_ip ip ∧
    0 ≤ t ≤ seconds n ∧ ack_sent n c t ip ∧
    (seconds n < t + 3600 →
     ∃ x, srv_leases (n_server n) !! c_mac c = Some (ip, x) ∧ t + 3600 ≤ x).
Proof.
  intros Hreach Hc Hv. destruct (reachable_inv n Hreach) as [acks Hi].
  destruct (finished_recorded acks n i c c' Hi Hc Hv) as (ip & t & Hip & Ha & Hack & Hr).
  pose proof (ni_recorded _ _ Hi) as Hrec. rewrite Forall_forall in Hrec.
  destruct (Hrec _ Hr) as [Ht Hp]. by exists ip, t.
Qed.

Hypothesis macs_distinct : NoDup (c_mac <$> clients).

(** C4: No two clients share an address, as long as the server's 32-bit microsecond
    clock does not wrap around (its first 71 minutes; after a wrap leases can
    overlap), with a server in ARRAY or HASHMAP mode and for clients of which no
    two have the same MAC address or the same transaction id (the code draws the
    ids with rand() and does not check).  Two clients whose sessions have both
    ended successfully with the same address were acknowledged it in seconds at
    least an hour apart, whichever of the acknowledgements on the wire one takes:
    their leases do not overlap, and within the first hour of the server the
    addresses of all clients differ.  Frames may be lost, delayed, repeated and
    reordered, and other clients may send the server any DISCOVER and REQUEST; but
    no other server sends the clients replies. *)
Theorem network_no_double_lease (n : network P) (i j : nat) (ci cj ci' cj' : client) : reachable n →
  i ≠ j → clients !! i = Some ci → clients !! j = Some cj →
  n_sessions n !! i = Some (Some (Finished 0 ci')) →
  n_sessions n !! j = Some (Some (Finished 0 cj')) →
  c_assigned_ip ci' = c_assigned_ip cj' →
  ∃ ip, c_assigned_ip ci' = uint32_to_ip ip ∧
    (∃ t, ack_sent n ci t ip) ∧ (∃ t, ack_sent n cj t ip) ∧
    ∀ ti tj, ack_sent n ci ti ip → ack_sent n cj tj ip →
      0 ≤ ti ≤ seconds n ∧ 0 ≤ tj ≤ seconds n ∧ (ti + 3600 ≤ tj ∨ tj + 3600 ≤ ti).
Proof.
  intros Hreach Hne Hci Hcj Hvi Hvj Hsame. destruct (reachable_inv n Hreach) as [acks Hi].
  destruct (finished_recorded acks n i ci ci' Hi Hci Hvi) as (ip & t & Hip & Ha & Hack & _).
  destruct (finished_recorded acks n j cj cj' Hi Hcj Hvj) as (ip2 & t2 & Hip2 & Ha2 & Hack2 & _).
  assert (ip2 = ip) as -> by (apply uint32_to_ip_inj; [by apply pool_u32.. | congruence]).
  exists ip. split; [done|]. split; [by exists t|]. split; [by exists t2|]. intros ti tj Hti Htj.
  pose proof (ni_recorded _ _ Hi) as Hrec. rewrite Forall_forall in Hrec.
  apply (ack_recorded acks n ci ti ip Hi) in Hti; [|by eapply clients_fresh_at|done].
  apply (ack_recorded acks n cj tj ip Hi) in Htj; [|by eapply clients_fresh_at|done].
  split; [apply (Hrec _ Hti)|]. split; [apply (Hrec _ Htj)|].
  apply (ni_apart _ _ Hi _ _ Hti Htj eq_refl). intros Hm. apply Hne.
  eapply (NoDup_lookup (c_mac <$> clients)); [exact macs_distinct|..];
    rewrite list_lookup_fmap, ?Hci, ?Hcj; cbn; [reflexivity | by rewrite Hm].
Qed.
End network.

(** *** Two clients and a server with one lease

    The server has leased 192.168.4.100 to client A before.  A's DISCOVER arrives
    twice, A is acknowledged the address, and B reads the reply to A; B's
    DISCOVER, sent at the start, arrives when the lease has ended. *)
Definition net_clients : list client :=
  [sample_client; mkClient [2; 0xde; 0xad; 0xbe; 0xef; 2] 0x9876 0 0 (replicate 4 0)].
Definition sent_length (slen : Z) (sbuf : list Z) : Z := slen.
Definition client_of (i : nat) : client := default sample_client (net_clients !! i).

Definition early_request : dhcp_message_t := request_msg (c_mac sample_client) 192 168 4 100.
Definition one_lease : dhcp_server_t dhcp_arraypool_t :=
  dhcp_init_server_array circle_config (Some [free_lease]) 1.
Definition net_server : dhcp_server_t dhcp_arraypool_t :=
  snd (ret_srv one_lease (process_message_store one_lease early_request 0)).

Definition nth_frame {P} (n : network P) (k : nat) : list Z := default [] ((n_wire n).*2 !! k).
Definition go (n : network dhcp_arraypool_t) (a : action) : network dhcp_arraypool_t :=
  match net_step sample_dev net_clients sent_length n a with Ret n' => n' | _ => n end.

Inductive delivery :=
  | Starts (i : nat)
  | AtServer (k : nat) (ticks : Z)
  | AtClient (i k : nat).
(** The [k]-th frame of the wire reaches the server, over what its buffer held
    before, or client [i]. *)
Definition action_of (n : network dhcp_arraypool_t) (e : delivery) : action :=
  match e with
  | Starts i => ClientStarts i (no_meta 0) (replicate 1024 7) (replicate 1024 7) true
  | AtServer k ticks => ServerGets (nth_frame n k ++ drop (length (nth_frame n k)) (replicate 1600 7)) ticks
  | AtClient i k => ClientGets i (Got (nth_frame n k) true)
  end.
Definition happens (n : network dhcp_arraypool_t) (e : delivery) : network dhcp_arraypool_t := go n (action_of n e).

Definition net0 : network dhcp_arraypool_t := mkNetwork net_server 1000000 (replicate 2 None) [].
Lemma net_server_inv : srv_inv net_server.
Proof.
  assert (H0 : srv_inv one_lease).
  { split; [|reflexivity]. apply (array_init_inv DHCP_POOL_START DHCP_POOL_END [free_lease]);
      unfold DHCP_POOL_START, DHCP_POOL_END; cbn; lia. }
  assert (Hr : request_ok early_request (request_items 192 168 4 100)) by eval_request.
  destruct (process_store_refines one_lease early_request _ 0 H0 Hr) as (r & srv' & a & E & Hi & _);
    [unfold uword; lia|].
  unfold net_server. by rewrite E.
Qed.

Lemma net_clients_ok : Forall (λ c, fresh_client c ∧ Forall byte (c_mac c)) net_clients.
Proof.
  repeat constructor; try (cbn; unfold uword; lia).
Qed.

Lemma sent_length_eq sbuf : length sbuf = 1024%nat → sent_length MIN_SEND_LEN sbuf = Z.of_nat (594 + 0).
Proof. done. Qed.

Lemma net_macs_distinct : NoDup (c_mac <$> net_clients).
Proof. apply (bool_decide_eq_true_1 _). vm_compute. reflexivity. Qed.

Lemma net_xids_distinct : NoDup (c_xid <$> net_clients).
Proof. apply (bool_decide_eq_true_1 _). vm_compute. reflexivity. Qed.

Definition net_reachable : network dhcp_arraypool_t → Prop :=
  reachable sample_dev net_clients sent_length 1024.

Definition deliverable (n : network dhcp_arraypool_t) (e : delivery) : bool :=
  match e with
  | Starts i => match n_sessions n !! i with Some None => true | _ => false end
  | AtServer k ticks => (k <? length (n_wire n))%nat && (n_clock n <=? ticks) && (ticks <? 2 ^ 32)
  | AtClient _ k => (k <? length (n_wire n))%nat && (length (nth_frame n k) <=? 1024)%nat
  end.

Lemma nth_frame_on_wire {P} (n : network P) k : (k < length (n_wire n))%nat →
  ∃ t, (t, nth_frame n k) ∈ n_wire n.
Proof.
  intros Hk. destruct (lookup_lt_is_Some_2 _ _ Hk) as [[t f] Hf]. exists t.
  unfold nth_frame. rewrite list_lookup_fmap, Hf. cbn. by eapply list_elem_of_lookup_2.
Qed.

Lemma deliverable_allowed n e : net_reachable n → deliverable n e = true →
  allowed net_clients 1024 n (action_of n e).
Proof.
  intros Hn Hd.
  destruct (reachable_inv sample_dev net_clients sent_length 0 1024 sample_dev_mac ltac:(lia) sent_length_eq
    ltac:(lia) net_clients_ok net_xids_distinct n Hn) as [acks Hi].
  destruct e as [i|k ticks|i k]; cbn [deliverable action_of] in *.
  - destruct (n_sessions n !! i) as [[v|]|] eqn:E; [discriminate Hd| |discriminate Hd].
    split; [exact E | split; apply length_replicate].
  - apply andb_true_iff in Hd as [[Hk%Nat.ltb_lt H1%Z.leb_le]%andb_true_iff H2%Z.ltb_lt].
    destruct (nth_frame_on_wire n k Hk) as [t Hin]. by eapply wire_allowed.
  - apply andb_true_iff in Hd as [Hk%Nat.ltb_lt Hl%Nat.leb_le].
    destruct (nth_frame_on_wire n k Hk) as [t Hin].
    pose proof (ni_wire _ _ _ _ Hi) as Hw. rewrite Forall_forall in Hw.
    destruct (Hw _ Hin) as [Hb _]. split; [by split|]. intros c bytes sent _ [= <- <-] _.
    by apply (list_elem_of_fmap_2 snd _ (t, _)).
Qed.

Lemma happens_step n e : net_reachable n → deliverable n e = true →
  net_step sample_dev net_clients sent_length n (action_of n e) = Ret (happens n e).
Proof.
  intros Hn Hd.
  destruct (reachable_inv sample_dev net_clients sent_length 0 1024 sample_dev_mac ltac:(lia) sent_length_eq
    ltac:(lia) net_clients_ok net_xids_distinct n Hn) as [acks Hi].
  destruct (net_step_inv sample_dev net_clients sent_length 0 1024 sample_dev_mac ltac:(lia) sent_length_eq
    ltac:(lia) net_clients_ok net_xids_distinct acks n _ Hi (deliverable_allowed n e Hn Hd)) as (n' & _ & E & _).
  unfold happens, go. by rewrite E.
Qed.

Lemma happens_reachable n e : net_reachable n → deliverable n e = true → net_reachable (happens n e).
Proof.
  intros Hn Hd. eapply reachable_step; [exact Hn|by apply deliverable_allowed|by apply happens_step].
Qed.

Fixpoint deliveries (es : list delivery) (n : network dhcp_arraypool_t) : option (network dhcp_arraypool_t) :=
  match es with
  | [] => Some n
  | e :: es => if deliverable n e then deliveries es (happens n e) else None
  end.

Lemma run_reachable es : ∀ n n', net_reachable n → deliveries es n = Some n' → net_reachable n'.
Proof.
  induction es as [|e es IH]; intros n n' Hn E; cbn [deliveries] in E; [by injection E as <-|].
  destruct (deliverable n e) eqn:Hd; [|done]. apply (IH (happens n e)); [by apply happens_reachable|exact E].
Qed.

(** Both clients ask for the one address: the first gets it; an hour later, the
    second. *)
Definition deliveries_a : list delivery :=
  [Starts 0; Starts 1; AtServer 0 1000000; AtServer 0 2000000; AtClient 1 2; AtClient 0 3; AtServer 4 3000000;
   AtClient 1 5; AtClient 0 5].
Definition deliveries_ab : list delivery :=
  [AtServer 1 3700000000; AtClient 1 6; AtServer 7 3701000000; AtClient 1 8].
Definition net_a : network dhcp_arraypool_t := Eval vm_compute in default net0 (deliveries deliveries_a net0).
Definition net_ab : network dhcp_arraypool_t := Eval vm_compute in default net0 (deliveries deliveries_ab net_a).

Lemma net_a_run : deliveries deliveries_a net0 = Some net_a.
Proof. vm_compute. reflexivity. Qed.

Lemma net_ab_run : deliveries deliveries_ab net_a = Some net_ab.
Proof. vm_compute. reflexivity. Qed.

Lemma net_a_reachable : net_reachable net_a.
Proof.
  apply (run_reachable deliveries_a net0); [|exact net_a_run].
  apply (reachable_start sample_dev net_clients sent_length 1024 net_server 1000000);
    [exact net_server_inv | reflexivity | unfold uword; lia].
Qed.

Lemma net_ab_reachable : net_reachable net_ab.
Proof. exact (run_reachable deliveries_ab net_a net_ab net_a_reachable net_ab_run). Qed.

(** The client a session has ended with *)
Definition session_client (n : network dhcp_arraypool_t) (i : nat) : client :=
  match n_sessions n !! i with Some (Some (Finished _ c)) => c | _ => sample_client end.

Lemma network_runs_witness :
  net_reachable net_a ∧
  ∃ n', net_step sample_dev net_clients sent_length net_a (ClientGets 1 TimedOut) = Ret n'.
Proof.
  split; [exact net_a_reachable|].
  destruct (network_runs sample_dev net_clients sent_length 0 1024 sample_dev_mac ltac:(lia) sent_length_eq
    ltac:(lia) net_clients_ok net_xids_distinct net_a net_a_reachable) as [Hgo _].
  apply Hgo. split; [exact I|]. intros. discriminate.
Defined.

Lemma network_leases_backed_witness :
  net_reachable net_a ∧ n_sessions net_a !! 0%nat = Some (Some (Finished 0 (session_client net_a 0))) ∧
  ∃ ip t, c_assigned_ip (session_client net_a 0) = uint32_to_ip ip ∧ 0 ≤ t ≤ 3 ∧
    ∃ x, srv_leases (n_server net_a) !! c_mac sample_client = Some (ip, x) ∧ t + 3600 ≤ x.
Proof.
  assert (Hs : n_sessions net_a !! 0%nat = Some (Some (Finished 0 (session_client net_a 0))))
    by (vm_compute; reflexivity).
  assert (Hnow : seconds net_a = 3) by (vm_compute; reflexivity).
  split; [exact net_a_reachable|]. split; [exact Hs|].
  destruct (network_leases_backed sample_dev net_clients sent_length 0 1024 sample_dev_mac ltac:(lia)
    sent_length_eq ltac:(lia) net_clients_ok net_xids_distinct net_a 0 sample_client
    (session_client net_a 0) net_a_reachable eq_refl Hs) as (ip & t & _ & Ha & Ht & _ & Hx).
  rewrite Hnow in Ht, Hx. exists ip, t. split; [exact Ha|]. split; [exact Ht|]. apply Hx. lia.
Defined.

Lemma network_no_double_lease_witness :
  n_sessions net_ab !! 0%nat = Some (Some (Finished 0 (session_client net_ab 0))) ∧
  n_sessions net_ab !! 1%nat = Some (Some (Finished 0 (session_client net_ab 1))) ∧
  c_assigned_ip (session_client net_ab 0) = c_assigned_ip (session_client net_ab 1) ∧
  ∃ ip, c_assigned_ip (session_client net_ab 0) = uint32_to_ip ip ∧
    ∀ ti tj, ack_sent net_ab (client_of 0) ti ip → ack_sent net_ab (client_of 1) tj ip →
      ti + 3600 ≤ tj ∨ tj + 3600 ≤ ti.
Proof.
  assert (H0 : n_sessions net_ab !! 0%nat = Some (Some (Finished 0 (session_client net_ab 0))))
    by (vm_compute; reflexivity).
  assert (H1 : n_sessions net_ab !! 1%nat = Some (Some (Finished 0 (session_client net_ab 1))))
    by (vm_compute; reflexivity).
  assert (Hsame : c_assigned_ip (session_client net_ab 0) = c_assigned_ip (session_client net_ab 1))
    by (vm_compute; reflexivity).
  split; [exact H0|]. split; [exact H1|]. split; [exact Hsame|].
  destruct (network_no_double_lease sample_dev net_clients sent_length 0 1024 sample_dev_mac ltac:(lia)
    sent_length_eq ltac:(lia) net_clients_ok net_xids_distinct net_macs_distinct net_ab 0 1
    (client_of 0) (client_of 1) (session_client net_ab 0) (session_client net_ab 1)
    net_ab_reachable ltac:(lia) eq_refl eq_refl H0 H1 Hsame) as (ip & Ha & _ & _ & Hall).
  exists ip. split; [exact Ha|]. intros ti tj Hi Hj. apply (Hall ti tj Hi Hj).
Defined.
