(* ===== verification/XidTab.v ===== *)
(** * The table of running transactions

    [bench-live/xid-tab.c] over [bench-live/lib/hash.c]: from a transaction id to
    the [client_async] a worker is running.  The table stores 8-byte pointers and
    hashes what they point to, so its functions take the memory as an argument:
    [mem a] is the [xid] of the structure at address [a].  A lookup compares with
    a structure on its own stack, at address [dummy]; the memory it runs in is
    [mem] with that structure in it.  Locking the mutex around every call makes
    each of them one step. *)
From S2P Require Import Prelude HashTab.

Open Scope Z_scope.

Definition HASH_N : nat := 4096.
Definition HASH_ELEM_MAX : nat := 8.

(** ** lib/hash.c

    The same functions as those of [ds-lib], for elements of [HASH_ELEM_MAX]
    bytes. *)
Definition lib_insert_elem := insert_elem.
Definition lib_replace_elem := replace_elem.
Definition lib_clear_elem := clear_elem HASH_ELEM_MAX.
Definition lib_hash_init := hash_init HASH_ELEM_MAX HASH_N.
Definition lib_hash_clear := hash_clear HASH_ELEM_MAX.
Definition lib_hash_insert := hash_insert.
Definition lib_hash_replace := hash_replace.
Definition lib_hash_find := hash_find.
Definition lib_hash_delete := hash_delete HASH_ELEM_MAX.
Definition lib_hash_size := hash_size.
Definition lib_hash_empty := hash_empty.

(** ** xid-tab.c *)

(** The rounds of [fnv1a]. *)
Fixpoint fnv1a_loop (p : list Z) (h : Z) : Z :=
  match p with
  | [] => h
  | b :: p => fnv1a_loop p (u32 (Z.lxor h b * 16777619))
  end.

Definition fnv1a (data : list Z) : Z := fnv1a_loop data 2166136261 `mod` Z.of_nat HASH_N.

(** [memcpy (&c_async, e->elem, n)]: the pointer in an element *)
Definition elem_ptr (e : hash_elem) (n : nat) : Z := le_combine (take n (elem e)).

Definition ptr_elem (p : Z) : hash_elem := mkElem (le_split 8 p) 8.

Definition generic_hash (mem : Z → Z) (e : hash_elem) : Z := fnv1a (le_split 4 (mem (elem_ptr e 8))).

Definition generic_comp (mem : Z → Z) (a b : hash_elem) : Z :=
  let ca := elem_ptr a (Z.to_nat (elem_size a)) in
  let cb := elem_ptr b (Z.to_nat (elem_size b)) in
  if mem ca =? mem cb then 0 else 1.

(** The memory with a structure on the stack: [c_dummy.c.xid = xid]. *)
Definition with_dummy (mem : Z → Z) (dummy xid : Z) (a : Z) : Z := if a =? dummy then xid else mem a.

Definition xid_tab_init (h : hash_tab) : outcome hash_tab :=
  '(_, h) ← lib_hash_init h; Ret h.

Definition xid_tab_insert (mem : Z → Z) (h : hash_tab) (c_async : Z) : outcome hash_tab :=
  '(_, h) ← lib_hash_insert (generic_hash mem) (generic_comp mem) h (ptr_elem c_async);
  Ret h.

Definition xid_tab_lookup (mem : Z → Z) (dummy : Z) (h : hash_tab) (xid : Z) : outcome (option Z) :=
  let mem := with_dummy mem dummy xid in
  found_e ← lib_hash_find (generic_hash mem) (generic_comp mem) h (ptr_elem dummy);
  match found_e with
  | None => Ret None
  | Some i => e ← deref (buckets h) i; Ret (Some (elem_ptr e 8))
  end.

Definition xid_tab_remove (mem : Z → Z) (dummy : Z) (h : hash_tab) (xid : Z) : outcome hash_tab :=
  let mem := with_dummy mem dummy xid in
  '(_, h) ← lib_hash_delete (generic_hash mem) (generic_comp mem) h (ptr_elem dummy);
  Ret h.

(** ** The table as a map from transaction ids to pointers *)

(** A table whose elements hash, compare and qualify alike under two readings of
    the memory satisfies the invariant under both. *)
Lemma tab_inv_transport hash hash' valid valid' key key' h :
  tab_inv hash valid key h →
  (∀ i e, slot h i = Some e → hash' e = hash e ∧ key' e = key e ∧ valid' e) →
  tab_inv hash' valid' key' h.
Proof.
  intros [Hwf Hv Hp Hu (z & Hz & Hunc) Hc Hcap] Hsame.
  assert (Hh : ∀ i e, slot h i = Some e → home hash' h e = home hash h e).
  { intros i e He. unfold home. by destruct (Hsame i e He) as (-> & _). }
  split; [done | | | | | done | done].
  - intros i e He. apply (Hsame i e He).
  - intros i e He x Hx. rewrite (Hh i e He). by apply Hp.
  - intros i j e e' He He'. destruct (Hsame i e He) as (_ & -> & _), (Hsame j e' He') as (_ & -> & _).
    by apply Hu.
  - exists z. split; [done|]. intros i e He. rewrite (Hh i e He). by apply Hunc.
Qed.

Lemma tab_map_transport hash valid key key' h : tab_inv hash valid key h →
  (∀ i e, slot h i = Some e → key' e = key e) → tab_map key' h = tab_map key h.
Proof.
  intros [Hwf _ _ _ _ _ _] Hk. unfold tab_map. f_equal. apply list_fmap_ext. intros j e He.
  apply list_elem_of_lookup_2, elem_of_elems in He as (i & Hi); [|done]. by rewrite (Hk i e Hi).
Qed.

Lemma elem_ptr_elem p : uword 64 p → elem_ptr (ptr_elem p) 8 = p.
Proof.
  intros Hp. unfold elem_ptr, ptr_elem. cbn [elem]. rewrite take_ge by (by rewrite le_split_length).
  apply le_combine_split. unfold uword in Hp. change (256 ^ Z.of_nat 8) with (2 ^ 64). lia.
Qed.

Definition xid_key (mem : Z → Z) (e : hash_elem) : list Z := [mem (elem_ptr e 8)].
Definition ptr_valid (addrs : list Z) (e : hash_elem) : Prop := ∃ p, e = ptr_elem p ∧ p ∈ addrs.

Lemma generic_comp_key mem addrs a b : Forall (uword 64) addrs →
  ptr_valid addrs a → ptr_valid addrs b → generic_comp mem a b = 0 ↔ xid_key mem a = xid_key mem b.
Proof.
  intros _ (p & -> & _) (q & -> & _). unfold generic_comp, xid_key. cbn [elem_size ptr_elem].
  change (Z.to_nat 8) with 8%nat. fold (ptr_elem p). fold (ptr_elem q).
  destruct (Z.eqb_spec (mem (elem_ptr (ptr_elem p) 8)) (mem (elem_ptr (ptr_elem q) 8))) as [->|Hne];
    [done|]. split; [done|]. intros [=]. done.
Qed.

Lemma generic_hash_key mem a b : xid_key mem a = xid_key mem b → generic_hash mem a = generic_hash mem b.
Proof. unfold xid_key, generic_hash. by intros [= ->]. Qed.

Lemma list_to_set_length (l : list (list Z)) : (size (list_to_set l : gset (list Z)) ≤ length l)%nat.
Proof.
  induction l as [|x l IH]; [done|]. cbn [list_to_set length foldr]. rewrite size_union_alt, size_singleton.
  assert (Hs : (list_to_set l : gset (list Z)) ∖ {[x]} ⊆ list_to_set l) by (apply subseteq_difference_l; done).
  apply subseteq_size in Hs. unfold list_to_set in *. lia.
Qed.

Definition key_of (x : Z) : list Z := [x].

#[export] Instance key_of_inj : Inj (=) (=) key_of.
Proof. by intros x y [=]. Qed.

Section xid_tab.
(** The addresses of the client structures; the structure of a lookup is none of
    them. *)
Variables (mem : Z → Z) (addrs : list Z) (dummy : Z).
Hypothesis addrs_64 : Forall (uword 64) addrs.
Hypothesis addrs_few : (length addrs < HASH_N)%nat.
Hypothesis dummy_64 : uword 64 dummy.
Hypothesis dummy_fresh : dummy ∉ addrs.

(** The abstract state: the pointer stored for each transaction id. *)
Record xid_rep (h : hash_tab) (X : gmap Z Z) : Prop := {
  xr_inv : tab_inv (generic_hash mem) (ptr_valid addrs) (xid_key mem) h;
  xr_cap : capacity h = HASH_N;
  xr_map : tab_map (xid_key mem) h = kmap key_of (ptr_elem <$> X);
  xr_live : ∀ x p, X !! x = Some p → p ∈ addrs ∧ mem p = x
}.

Lemma addr_64 p : p ∈ addrs → uword 64 p.
Proof. rewrite Forall_forall in addrs_64. apply addrs_64. Qed.

Lemma xid_key_ptr m p : uword 64 p → xid_key m (ptr_elem p) = key_of (m p).
Proof. intros Hp. unfold xid_key. by rewrite elem_ptr_elem. Qed.

Lemma tab_map_at h X x : xid_rep h X → tab_map (xid_key mem) h !! key_of x = ptr_elem <$> X !! x.
Proof. intros Hr. rewrite (xr_map _ _ Hr), lookup_kmap, lookup_fmap by apply _. done. Qed.

Lemma xid_rep_size h X : xid_rep h X → (size (tab_map (xid_key mem) h) < HASH_N)%nat.
Proof.
  intros Hr. eapply Nat.le_lt_trans; [|exact addrs_few].
  assert (Hd : dom (tab_map (xid_key mem) h) ⊆ list_to_set ((λ p, key_of (mem p)) <$> addrs)).
  { intros k Hk. apply elem_of_dom in Hk as [e He]. rewrite (xr_map _ _ Hr) in He.
    apply lookup_kmap_Some in He as (x & -> & He); [|apply _].
    apply lookup_fmap_Some in He as (p & <- & Hp). destruct (xr_live _ _ Hr x p Hp) as [Ha <-].
    apply elem_of_list_to_set, list_elem_of_fmap. by exists p. }
  apply subseteq_size in Hd. rewrite size_dom in Hd.
  pose proof (list_to_set_length ((λ p, key_of (mem p)) <$> addrs)) as Hl. rewrite length_fmap in Hl. lia.
Qed.

(** A lookup or removal runs on the memory that also holds the dummy. *)
Lemma rep_with_dummy h X x : xid_rep h X →
  let mem' := with_dummy mem dummy x in
  tab_inv (generic_hash mem') (ptr_valid (dummy :: addrs)) (xid_key mem') h ∧
  tab_map (xid_key mem') h = tab_map (xid_key mem) h.
Proof.
  intros [Hinv _ _ _] mem'.
  assert (Hs : ∀ i e, slot h i = Some e → ∃ p, e = ptr_elem p ∧ p ∈ addrs ∧ mem' (elem_ptr e 8) = mem (elem_ptr e 8)).
  { intros i e He. destruct (ti_valid _ _ _ _ Hinv i e He) as (p & -> & Hp). exists p.
    split_and!; [done..|]. rewrite elem_ptr_elem by by apply addr_64.
    unfold mem', with_dummy. destruct (Z.eqb_spec p dummy); [by subst|done]. }
  split.
  - apply (tab_inv_transport (generic_hash mem) _ (ptr_valid addrs) _ (xid_key mem)); [done|].
    intros i e He. destruct (Hs i e He) as (p & -> & Hp & Hm). unfold generic_hash, xid_key.
    rewrite Hm. split_and!; [done..|]. exists p. split; [done|]. by right.
  - apply (tab_map_transport (generic_hash mem) (ptr_valid addrs)); [done|].
    intros i e He. destruct (Hs i e He) as (p & _ & _ & Hm). unfold xid_key. by rewrite Hm.
Qed.

Lemma xid_insert_spec h X p : xid_rep h X → p ∈ addrs →
  ∃ h', xid_tab_insert mem h p = Ret h' ∧ xid_rep h' (<[mem p := p]> X).
Proof.
  intros Hr Hp. pose proof (addr_64 p Hp) as H64. unfold xid_tab_insert, lib_hash_insert.
  destruct (hash_insert_map (generic_hash mem) (generic_comp mem) (ptr_valid addrs) (xid_key mem)) with
    (h := h) (x := ptr_elem p) as (rc & h' & -> & Hcase).
  - intros a b. by apply generic_comp_key.
  - intros a b _ _. apply generic_hash_key.
  - apply Hr.
  - by exists p.
  - rewrite bind_Ret. exists h'. split; [done|].
    rewrite (tab_map_size_Z _ _ _ h (xr_inv _ _ Hr)), (xr_cap _ _ Hr) in Hcase.
    pose proof (xid_rep_size h X Hr). destruct Hcase as [(? & _)|(_ & _ & Hinv & Hcap & Hmap)]; [lia|].
    split; [done | by rewrite Hcap | |].
    + by rewrite Hmap, xid_key_ptr, (xr_map _ _ Hr), fmap_insert, kmap_insert by (done || apply _).
    + intros x q. rewrite lookup_insert_Some. intros [[<- <-]|[_ Hq]]; [done|]. by apply (xr_live _ _ Hr).
Qed.

Lemma dummy_valid : ptr_valid (dummy :: addrs) (ptr_elem dummy).
Proof. exists dummy. split; [done|]. by left. Qed.

Lemma dummy_key x : xid_key (with_dummy mem dummy x) (ptr_elem dummy) = key_of x.
Proof. rewrite xid_key_ptr by done. unfold with_dummy. by rewrite Z.eqb_refl. Qed.

Lemma xid_lookup_spec h X x : xid_rep h X → xid_tab_lookup mem dummy h x = Ret (X !! x).
Proof.
  intros Hr. unfold xid_tab_lookup, lib_hash_find. cbv zeta.
  destruct (rep_with_dummy h X x Hr) as [Hinv Hmap].
  destruct (hash_find_map (generic_hash (with_dummy mem dummy x)) (generic_comp (with_dummy mem dummy x))
    (ptr_valid (dummy :: addrs)) (xid_key (with_dummy mem dummy x))) with
    (h := h) (e := ptr_elem dummy) as (r & -> & Hfound).
  - intros a b. apply generic_comp_key. by constructor.
  - intros a b _ _. apply generic_hash_key.
  - done.
  - exact dummy_valid.
  - rewrite bind_Ret. rewrite dummy_key, Hmap, (tab_map_at h X x Hr) in Hfound. destruct r as [i|].
    + destruct Hfound as (e & Hs & _ & He). apply fmap_Some in He as (p & Hp & ->).
      rewrite (slot_deref _ _ _ Hs), bind_Ret, Hp, elem_ptr_elem; [done|].
      apply addr_64. by apply (xr_live _ _ Hr x p).
    + apply fmap_None in Hfound. by rewrite Hfound.
Qed.

Lemma xid_remove_spec h X x : xid_rep h X →
  ∃ h', xid_tab_remove mem dummy h x = Ret h' ∧ xid_rep h' (delete x X).
Proof.
  intros Hr. unfold xid_tab_remove, lib_hash_delete. cbv zeta.
  destruct (rep_with_dummy h X x Hr) as [Hinv Hmap]. set (mem' := with_dummy mem dummy x) in *.
  destruct (hash_delete_map HASH_ELEM_MAX (generic_hash mem') (generic_comp mem')
    (ptr_valid (dummy :: addrs)) (xid_key mem')) with
    (h := h) (e := ptr_elem dummy) as (rc & h' & -> & Hcase).
  - intros a b. apply generic_comp_key. by constructor.
  - intros a b _ _. apply generic_hash_key.
  - done.
  - exact dummy_valid.
  - rewrite bind_Ret. exists h'. split; [done|].
    unfold mem' in Hcase. rewrite dummy_key in Hcase. fold mem' in Hcase.
    rewrite Hmap, (tab_map_at h X x Hr) in Hcase. destruct (X !! x) as [p|] eqn:Hx; cbn in Hcase.
    + destruct Hcase as (_ & Hinv' & Hcap & Hm').
      (* what is left in the table was in it before *)
      assert (Hold : ∀ i e, slot h' i = Some e → ∃ q, e = ptr_elem q ∧ q ∈ addrs).
      { intros i e He. assert (Hin : tab_map (xid_key mem') h' !! xid_key mem' e = Some e).
        { apply tab_map_lookup; [apply Hinv'|apply Hinv'|]. by exists i. }
        rewrite Hm' in Hin. apply lookup_delete_Some in Hin as [_ Hin].
        rewrite (xr_map _ _ Hr) in Hin. apply lookup_kmap_Some in Hin as (y & _ & Hy); [|apply _].
        apply lookup_fmap_Some in Hy as (q & <- & Hq). exists q. split; [done|].
        by apply (xr_live _ _ Hr y q). }
      assert (Hagree : ∀ q, q ∈ addrs → mem' (elem_ptr (ptr_elem q) 8) = mem (elem_ptr (ptr_elem q) 8)).
      { intros q Hq. rewrite elem_ptr_elem by by apply addr_64. unfold mem', with_dummy.
        destruct (Z.eqb_spec q dummy); [by subst|done]. }
      split.
      * apply (tab_inv_transport (generic_hash mem') _ (ptr_valid (dummy :: addrs)) _ (xid_key mem')); [done|].
        intros i e He. destruct (Hold i e He) as (q & -> & Hq). unfold generic_hash, xid_key.
        rewrite Hagree by done. split_and!; [done..|]. by exists q.
      * rewrite Hcap. apply Hr.
      * rewrite (tab_map_transport (generic_hash mem') (ptr_valid (dummy :: addrs)) (xid_key mem') _ h' Hinv').
        -- by rewrite Hm', (xr_map _ _ Hr), fmap_delete, kmap_delete by apply _.
        -- intros i e He. destruct (Hold i e He) as (q & -> & Hq). unfold xid_key. by rewrite Hagree.
      * intros y q. rewrite lookup_delete_Some. intros [_ Hq]. by apply (xr_live _ _ Hr).
    + destruct Hcase as [_ ->]. by rewrite delete_id.
Qed.

Lemma xid_init_spec raw : length (buckets raw) = HASH_N → length (occupied raw) = HASH_N →
  ∃ h, xid_tab_init raw = Ret h ∧ xid_rep h ∅.
Proof.
  intros Hb Ho. unfold xid_tab_init, lib_hash_init.
  destruct (hash_init_spec HASH_ELEM_MAX (generic_hash mem) (ptr_valid addrs) (xid_key mem) raw HASH_N)
    as (h & -> & Hinv & Hcap & _ & Hm); [unfold HASH_N; lia.. | done | done |].
  rewrite bind_Ret. exists h. split; [done|]. split; [done | done | | by intros x p].
  by rewrite Hm, fmap_empty, kmap_empty.
Qed.

(** ** Runs of table operations *)

Inductive xid_op :=
  | XInsert (c_async : Z)
  | XLookup (xid : Z)
  | XRemove (xid : Z).

Definition xid_op_ok (o : xid_op) : Prop := match o with XInsert p => p ∈ addrs | _ => True end.

(** Only a lookup has an answer. *)
Definition xid_call (h : hash_tab) (o : xid_op) : outcome (option (option Z) * hash_tab) :=
  match o with
  | XInsert p => h ← xid_tab_insert mem h p; Ret (None, h)
  | XLookup x => r ← xid_tab_lookup mem dummy h x; Ret (Some r, h)
  | XRemove x => h ← xid_tab_remove mem dummy h x; Ret (None, h)
  end.

Fixpoint xid_calls (h : hash_tab) (os : list xid_op) : outcome (list (option (option Z)) * hash_tab) :=
  match os with
  | [] => Ret ([], h)
  | o :: os => '(a, h) ← xid_call h o; '(l, h) ← xid_calls h os; Ret (a :: l, h)
  end.

(** The specification: a finite map. *)
Definition xmap_call (X : gmap Z Z) (o : xid_op) : option (option Z) * gmap Z Z :=
  match o with
  | XInsert p => (None, <[mem p := p]> X)
  | XLookup x => (Some (X !! x), X)
  | XRemove x => (None, delete x X)
  end.

Fixpoint xmap_calls (X : gmap Z Z) (os : list xid_op) : list (option (option Z)) * gmap Z Z :=
  match os with
  | [] => ([], X)
  | o :: os => let '(a, X) := xmap_call X o in let '(l, X) := xmap_calls X os in (a :: l, X)
  end.

Lemma xid_calls_spec os : ∀ h X, xid_rep h X → Forall xid_op_ok os →
  ∃ h', xid_calls h os = Ret ((xmap_calls X os).1, h') ∧ xid_rep h' (xmap_calls X os).2.
Proof.
  induction os as [|o os IH]; intros h X Hr Hos; [by exists h|].
  apply Forall_cons in Hos as [Ho Hos]. cbn [xid_calls xmap_calls].
  assert (∃ h1, xid_call h o = Ret ((xmap_call X o).1, h1) ∧ xid_rep h1 (xmap_call X o).2)
    as (h1 & -> & Hr1).
  { destruct o as [p|x|x]; cbn [xid_call xmap_call].
    - destruct (xid_insert_spec h X p Hr Ho) as (h1 & -> & ?). by exists h1.
    - rewrite (xid_lookup_spec h X x Hr). by exists h.
    - destruct (xid_remove_spec h X x Hr) as (h1 & -> & ?). by exists h1. }
  destruct (xmap_call X o) as [a X1]. cbn [fst snd] in *. rewrite bind_Ret.
  destruct (IH h1 X1 Hr1 Hos) as (h2 & -> & Hr2). rewrite bind_Ret.
  destruct (xmap_calls X1 os) as [l X2]. by exists h2.
Qed.

Lemma xid_run_spec raw os : length (buckets raw) = HASH_N → length (occupied raw) = HASH_N →
  Forall xid_op_ok os →
  ∃ h0 h, xid_tab_init raw = Ret h0 ∧ xid_calls h0 os = Ret ((xmap_calls ∅ os).1, h) ∧
    xid_rep h (xmap_calls ∅ os).2.
Proof.
  intros Hb Ho Hos. destruct (xid_init_spec raw Hb Ho) as (h0 & Hi & Hr).
  destruct (xid_calls_spec os h0 ∅ Hr Hos) as (h & Hc & Hr'). by exists h0, h.
Qed.

(** C18: The transaction table is a map from transaction ids to client structures.
    Whatever sequence of inserts, lookups and removes follows [xid_tab_init],
    every call returns, no insert is lost to a full table as long as there are
    fewer than [HASH_N] client structures, and every lookup, although it compares
    through a structure on its own stack, answers with the structure last
    inserted under that id and not removed since. *)
Theorem xid_table_refines_map (raw : hash_tab) (os : list xid_op) :
  length (buckets raw) = HASH_N → length (occupied raw) = HASH_N → Forall xid_op_ok os →
  ∃ h0 h, xid_tab_init raw = Ret h0 ∧ xid_calls h0 os = Ret ((xmap_calls ∅ os).1, h).
Proof.
  intros Hb Ho Hos. destruct (xid_run_spec raw os Hb Ho Hos) as (h0 & h & Hi & Hc & _).
  by exists h0, h.
Qed.

(** Two clients with one transaction id.  The ids come from [rand] and are not
    checked: if two running clients share one, the second insert takes the first
    one's entry over, and the first worker to finish removes the other's, whose
    replies are dropped from then on. *)
Theorem xid_collision (raw : hash_tab) (p q : Z) :
  length (buckets raw) = HASH_N → length (occupied raw) = HASH_N → p ∈ addrs → q ∈ addrs →
  mem p = mem q →
  ∃ h0 h, xid_tab_init raw = Ret h0 ∧
    xid_calls h0 [XInsert p; XInsert q; XLookup (mem p); XRemove (mem p); XLookup (mem q)]
    = Ret ([None; None; Some (Some q); None; Some None], h).
Proof.
  intros Hb Ho Hp Hq E.
  destruct (xid_run_spec raw [XInsert p; XInsert q; XLookup (mem p); XRemove (mem p); XLookup (mem q)]
    Hb Ho) as (h0 & h & Hi & Hc & _); [by repeat constructor|].
  exists h0, h. split; [done|]. rewrite Hc. cbn. rewrite E, lookup_insert_eq, lookup_delete_eq. done.
Qed.
End xid_tab.

(** Three client structures, two of them with one transaction id *)
Definition sample_xid (a : Z) : Z := if a =? 8192 then 77 else if a =? 8448 then 78 else 77.
Definition sample_tab : hash_tab :=
  mkTab (replicate HASH_N (ptr_elem 1)) (replicate HASH_N 1) 9 7.

Lemma sample_addrs_64 : Forall (uword 64) [8192; 8448; 8704].
Proof. apply (bool_decide_eq_true_1 _). vm_compute. reflexivity. Qed.

Lemma xid_table_refines_map_witness :
  sample_xid 8448 = 78 ∧ ∃ h0 h, xid_tab_init sample_tab = Ret h0 ∧
    xid_calls sample_xid 64 h0 [XInsert 8192; XInsert 8448; XRemove 77; XLookup 78; XLookup 77]
    = Ret ([None; None; None; Some (Some 8448); Some None], h).
Proof.
  split; [reflexivity|].
  destruct (xid_table_refines_map sample_xid [8192; 8448; 8704] 64 sample_addrs_64) with
    (raw := sample_tab) (os := [XInsert 8192; XInsert 8448; XRemove 77; XLookup 78; XLookup 77])
    as (h0 & h & Hi & Hc).
  - unfold HASH_N. cbn. lia.
  - unfold uword. lia.
  - apply (bool_decide_eq_true_1 _). vm_compute. reflexivity.
  - apply length_replicate.
  - apply length_replicate.
  - repeat constructor; apply (bool_decide_eq_true_1 _); vm_compute; reflexivity.
  - exists h0, h. split; [exact Hi|]. rewrite Hc. vm_compute. reflexivity.
Defined.

Lemma xid_collision_witness :
  sample_xid 8192 = sample_xid 8704 ∧ ∃ h0 h, xid_tab_init sample_tab = Ret h0 ∧
    xid_calls sample_xid 64 h0 [XInsert 8192; XInsert 8704; XLookup 77; XRemove 77; XLookup 77]
    = Ret ([None; None; Some (Some 8704); None; Some None], h).
Proof.
  split; [reflexivity|].
  apply (xid_collision sample_xid [8192; 8448; 8704] 64 sample_addrs_64) with (p := 8192) (q := 8704).
  - unfold HASH_N. cbn. lia.
  - unfold uword. lia.
  - apply (bool_decide_eq_true_1 _). vm_compute. reflexivity.
  - apply length_replicate.
  - apply length_replicate.
  - apply (bool_decide_eq_true_1 _). vm_compute. reflexivity.
  - apply (bool_decide_eq_true_1 _). vm_compute. reflexivity.
  - reflexivity.
Defined.
