(* ===== verification/Workers.v ===== *)
(** * The concurrent load-test client

    [bench-live/workers-async.c], [client-queue.c] and [dhcp-client-async.c]: a
    fixed number of worker threads run DHCP sessions for the clients in a queue; a
    receive manager reads the socket and puts every frame into the mailbox of the
    client whose transaction id it carries.

    The program is a system of interleaved steps.  A step of a worker is the code
    between two points where other threads can interfere: a locked section, or
    code on data only this worker uses.  [system_step] performs one action of the
    scheduler: worker [i] goes on, its wait times out or ends, the manager
    receives a frame or delivers it.  An action that is not enabled does nothing,
    so a run is any list of actions.

    Pointers are addresses: client [k] of [main]'s array is at [base + sz * k].
    [dummy] is the address of the structures on the threads' stacks that the table
    functions compare with. *)
From S2P Require Import Prelude Options Frame CQueue HashTab XidTab Client.

Open Scope Z_scope.

Definition MAX_WORKERS : Z := 32.
Definition CQ_N : Z := 4096 * 8 * 8.

(** [struct client_async]; a mailbox is a buffer and the length of what is in it,
    0 when it is empty. *)
Record client_async := mkAsync {
  a_c : client;
  a_worker_id : Z;
  a_buf : list Z;
  a_buf_len : Z;
  a_total_ms : Z
}.

Definition set_c (a : client_async) (c : client) : client_async :=
  mkAsync c (a_worker_id a) (a_buf a) (a_buf_len a) (a_total_ms a).
Definition set_worker (a : client_async) (i : Z) : client_async :=
  mkAsync (a_c a) i (a_buf a) (a_buf_len a) (a_total_ms a).
Definition set_mailbox (a : client_async) (buf : list Z) (len : Z) : client_async :=
  mkAsync (a_c a) (a_worker_id a) buf len (a_total_ms a).
Definition set_ms (a : client_async) (ms : Z) : client_async :=
  mkAsync (a_c a) (a_worker_id a) (a_buf a) (a_buf_len a) ms.

(** Where a worker is in [worker_thread], with its client. *)
Inductive pc :=
  | AtPop
  | AtPrepare (p : Z)
  | AtInsert (p : Z)
  | AtStart (p : Z)
  | AtTest (p : Z)
  | AtWait (p : Z)
  | AtOut (p : Z)
  | AtExit.

#[export] Instance pc_eq_dec : EqDecision pc.
Proof. solve_decision. Defined.

Record worker := mkWorker {
  w_pc : pc;
  w_bmeta : build_meta;
  w_pmeta : parse_meta;
  w_sbuf : list Z;
  w_rbuf : list Z
}.

Definition set_pc (w : worker) (l : pc) : worker :=
  mkWorker l (w_bmeta w) (w_pmeta w) (w_sbuf w) (w_rbuf w).

(** Where the manager is in [recv_manager_thread]. *)
Inductive manager :=
  | AtRecv (rbuf : list Z)
  | AtDeliver (rbuf : list Z) (p rlen : Z).

Record system := mkSystem {
  y_queue : cq_t;
  y_tab : hash_tab;
  y_clients : list client_async;
  y_workers : list worker;
  y_manager : manager;
  y_sent : list (list Z)
}.

Definition set_worker_at (y : system) (i : nat) (w : worker) : system :=
  mkSystem (y_queue y) (y_tab y) (y_clients y) (<[i := w]> (y_workers y)) (y_manager y) (y_sent y).
Definition set_tab (y : system) (h : hash_tab) : system :=
  mkSystem (y_queue y) h (y_clients y) (y_workers y) (y_manager y) (y_sent y).
Definition set_queue (y : system) (q : cq_t) : system :=
  mkSystem q (y_tab y) (y_clients y) (y_workers y) (y_manager y) (y_sent y).
Definition set_clients (y : system) (cs : list client_async) : system :=
  mkSystem (y_queue y) (y_tab y) cs (y_workers y) (y_manager y) (y_sent y).
Definition set_manager (y : system) (m : manager) : system :=
  mkSystem (y_queue y) (y_tab y) (y_clients y) (y_workers y) m (y_sent y).
Definition add_sent (y : system) (fs : list (list Z)) : system :=
  mkSystem (y_queue y) (y_tab y) (y_clients y) (y_workers y) (y_manager y) (y_sent y ++ fs).

Inductive action :=
  | Run (i : nat) (sent : bool) (ms : Z)
  | WaitTimeout (i : nat)
  | WakeUp (i : nat)
  | Receive (bytes : list Z)
  | Deliver.

(** ** lib/cqueue.c

    The functions of [ds-lib]'s queue with the client's size and 64-bit index
    arithmetic. *)
Definition lib_cq_empty := cq_empty.
Definition lib_cq_full := cq_full CQ_N.
Definition lib_cq_nelem := cq_nelem CQ_N 64.
Definition lib_cq_nspace := cq_nspace CQ_N 64.
Definition lib_cq_pop := cq_pop CQ_N.
Definition lib_cq_push := cq_push CQ_N.
Definition lib_cq_peek := cq_peek.
Definition lib_cq_pop_n := cq_pop_n CQ_N 64.
Definition lib_cq_peek_n := cq_peek_n CQ_N 64.
Definition lib_cq_push_n := cq_push_n CQ_N 64.
Definition lib_cq_push32 := cq_push32 CQ_N 64.
Definition lib_cq_pop32 := cq_pop32 CQ_N 64.
Definition lib_cq_push64 := cq_push64 CQ_N 64.
Definition lib_cq_pop64 := cq_pop64 CQ_N 64.
Definition lib_cq_ok := cq_ok.
Definition lib_cq_init := cq_init CQ_N 64.

Section Workers.
Context (base sz dummy : Z).

(** ** The memory *)

Definition addr (k : nat) : Z := base + sz * Z.of_nat k.

(** The client structure a pointer points to. *)
Definition client_index (p : Z) : outcome nat :=
  if (base <=? p) && ((p - base) `mod` sz =? 0) then Ret (Z.to_nat ((p - base) / sz)) else Ub.

Definition client_at (cs : list client_async) (p : Z) : outcome client_async :=
  k ← client_index p; deref cs k.

Definition client_set (cs : list client_async) (p : Z) (a : client_async) : outcome (list client_async) :=
  k ← client_index p; store cs k a.

(** The transaction id in the structure at [p], for the table's functions *)
Definition xids (cs : list client_async) : list Z := (λ a, c_xid (a_c a)) <$> cs.

Definition mem_of (xs : list Z) (p : Z) : Z :=
  match client_index p with Ret k => default 0 (xs !! k) | _ => 0 end.

Definition mem_xid (cs : list client_async) : Z → Z := mem_of (xids cs).

(** ** client-queue.c *)

Definition pop_client (q : cq_t) : outcome (option Z * cq_t) :=
  '(rc, p, q) ← lib_cq_pop64 q 0;
  if negb (rc =? CQ_OP_SUCCESS) then Ret (None, q) else Ret (Some p, q).

Definition push_client (q : cq_t) (c_async : Z) : outcome cq_t :=
  '(_, q) ← lib_cq_push64 q c_async; Ret q.

Definition client_queue_init (q : cq_t) : outcome cq_t := '(_, q) ← lib_cq_init q; Ret q.

(** ** worker_thread *)

(** The session of a worker, with the client in its structure. *)
Definition session_of (w : worker) (a : client_async) : session :=
  mkSession (a_c a) (w_bmeta w) (w_pmeta w) (w_sbuf w) (w_rbuf w).

(** Continue after a part of the session: in the loop, or at [out]. *)
Definition continue_session (y : system) (i : nat) (w : worker) (p : Z) (a : client_async)
    (fs : list (list Z)) (v : verdict) : outcome system :=
  let '(c, w) := match v with
    | Running s => (s_client s, mkWorker (AtTest p) (s_bmeta s) (s_pmeta s) (s_sbuf s) (s_rbuf s))
    | Finished _ c => (c, set_pc w (AtOut p))
    end in
  cs ← client_set (y_clients y) p (set_c a c);
  Ret (add_sent (set_worker_at (set_clients y cs) i w) fs).

(** The length a worker sends a REQUEST with. *)
Definition frame_length (slen : Z) (sbuf : list Z) : Z := slen.

Definition worker_pop (y : system) (i : nat) (w : worker) : outcome system :=
  '(r, q) ← pop_client (y_queue y);
  let y := set_queue y q in
  match r with
  | None => Ret (set_worker_at y i (set_pc w AtExit))
  | Some p => Ret (set_worker_at y i (set_pc w (AtPrepare p)))
  end.

Definition worker_prepare (y : system) (i : nat) (w : worker) (p : Z) : outcome system :=
  a ← client_at (y_clients y) p;
  cs ← client_set (y_clients y) p (set_mailbox (set_worker a (Z.of_nat i)) (a_buf a) 0);
  Ret (set_worker_at (set_clients y cs) i (set_pc w (AtInsert p))).

Definition worker_insert (y : system) (i : nat) (w : worker) (p : Z) : outcome system :=
  h ← xid_tab_insert (mem_xid (y_clients y)) (y_tab y) p;
  Ret (set_worker_at (set_tab y h) i (set_pc w (AtStart p))).

Definition worker_start (y : system) (i : nat) (w : worker) (p : Z) (sent : bool) : outcome system :=
  a ← client_at (y_clients y) p;
  '(f, v) ← start_session (a_c a) (w_pmeta w) (w_sbuf w) (w_rbuf w) sent;
  continue_session y i w p a [f] v.

(** The test of [while (!curr_c->mb.buf_len)], with the lock held; what follows
    it when there is a frame in the mailbox. *)
Definition worker_test (y : system) (i : nat) (w : worker) (p : Z) (sent : bool) : outcome system :=
  a ← client_at (y_clients y) p;
  if a_buf_len a =? 0 then Ret (set_worker_at y i (set_pc w (AtWait p))) else
  bytes ← load_n (a_buf a) 0 (Z.to_nat (a_buf_len a));
  let a := set_mailbox a (a_buf a) 0 in
  '(fs, v) ← session_step frame_length (session_of w a) (Got bytes sent);
  continue_session y i w p a fs v.

Definition worker_timeout (y : system) (i : nat) (w : worker) (p : Z) : outcome system :=
  a ← client_at (y_clients y) p;
  '(fs, v) ← session_step frame_length (session_of w a) TimedOut;
  continue_session y i w p a fs v.

Definition worker_out (y : system) (i : nat) (w : worker) (p ms : Z) : outcome system :=
  a ← client_at (y_clients y) p;
  cs ← client_set (y_clients y) p (set_ms a ms);
  h ← xid_tab_remove (mem_xid cs) dummy (y_tab y) (c_xid (a_c a));
  Ret (set_worker_at (set_tab (set_clients y cs) h) i (set_pc w AtPop)).

Definition worker_run (y : system) (i : nat) (w : worker) (sent : bool) (ms : Z) : outcome system :=
  match w_pc w with
  | AtPop => worker_pop y i w
  | AtPrepare p => worker_prepare y i w p
  | AtInsert p => worker_insert y i w p
  | AtStart p => worker_start y i w p sent
  | AtTest p => worker_test y i w p sent
  | AtWait _ => Ret y
  | AtOut p => worker_out y i w p ms
  | AtExit => Ret y
  end.

(** ** recv_manager_thread *)

Definition manager_receive (y : system) (rbuf bytes : list Z) : outcome system :=
  rbuf ← store_n rbuf 0 bytes;
  let rlen := Z.of_nat (length bytes) in
  '(rbuf, r) ← parse_xid rbuf rlen;
  match r with
  | None => Ret (set_manager y (AtRecv rbuf))
  | Some xid =>
      recv_c ← xid_tab_lookup (mem_xid (y_clients y)) dummy (y_tab y) xid;
      match recv_c with
      | None => Ret (set_manager y (AtRecv rbuf))
      | Some p => Ret (set_manager y (AtDeliver rbuf p rlen))
      end
  end.

Definition manager_deliver (y : system) (rbuf : list Z) (p rlen : Z) : outcome system :=
  a ← client_at (y_clients y) p;
  bytes ← load_n rbuf 0 (Z.to_nat rlen);
  buf ← store_n (a_buf a) 0 bytes;
  cs ← client_set (y_clients y) p (set_mailbox a buf rlen);
  Ret (set_manager (set_clients y cs) (AtRecv rbuf)).

(** ** The system *)

Definition with_worker (y : system) (i : nat) (f : worker → outcome system) : outcome system :=
  match y_workers y !! i with Some w => f w | None => Ret y end.

Definition system_step (y : system) (act : action) : outcome system :=
  match act with
  | Run i sent ms => with_worker y i (λ w, worker_run y i w sent ms)
  | WaitTimeout i => with_worker y i (λ w,
      match w_pc w with AtWait p => worker_timeout y i w p | _ => Ret y end)
  | WakeUp i => with_worker y i (λ w,
      match w_pc w with AtWait p => Ret (set_worker_at y i (set_pc w (AtTest p))) | _ => Ret y end)
  | Receive bytes =>
      match y_manager y with AtRecv rbuf => manager_receive y rbuf bytes | _ => Ret y end
  | Deliver =>
      match y_manager y with AtDeliver rbuf p rlen => manager_deliver y rbuf p rlen | _ => Ret y end
  end.

Fixpoint system_run (y : system) (acts : list action) : outcome system :=
  match acts with
  | [] => Ret y
  | act :: acts => y ← system_step y act; system_run y acts
  end.

(** ** main *)

Fixpoint push_clients (q : cq_t) (ks : list nat) : outcome cq_t :=
  match ks with
  | [] => Ret q
  | k :: ks => q ← push_client q (addr k); push_clients q ks
  end.

(** Up to the start of the threads: [workers] are the workers' uninitialised
    locals, [rbuf] the manager's. *)
Definition main_start (q : cq_t) (h : hash_tab) (cs : list client_async) (ws : list worker)
    (rbuf : list Z) : outcome system :=
  q ← client_queue_init q;
  h ← xid_tab_init h;
  q ← push_clients q (seq 0 (length cs));
  Ret (mkSystem q h cs ((λ w, set_pc w AtPop) <$> ws) (AtRecv rbuf) []).

(** The statistics after the workers have been joined. *)
Definition async_stats (cs : list client_async) : stats :=
  fold_left count_client
    ((λ a, (if c_state (a_c a) =? STATE_DONE then 0 else 1, a_total_ms a)) <$> cs)
    (mkStats 0 0 0 0 0).
(** ** Pointers and the table *)

Definition pc_ptr (l : pc) : option Z :=
  match l with
  | AtPrepare p | AtInsert p | AtStart p | AtTest p | AtWait p | AtOut p => Some p
  | AtPop | AtExit => None
  end.

(** The pointer of a worker whose client is in the table. *)
Definition pc_tab (l : pc) : option Z :=
  match l with
  | AtStart p | AtTest p | AtWait p | AtOut p => Some p
  | _ => None
  end.

Variable c0 : list client.
Hypothesis sz_pos : 0 < sz.
Hypothesis base_pos : 0 < base.
Hypothesis array_fits : base + sz * Z.of_nat (length c0) ≤ 2 ^ 64.
Hypothesis few_clients : Z.of_nat (length c0) ≤ NUM_CLIENTS.
Hypothesis clients_fresh : Forall fresh_client c0.
Hypothesis xids_distinct : NoDup (c_xid <$> c0).

Definition addrs : list Z := addr <$> seq 0 (length c0).
Hypothesis dummy_64 : uword 64 dummy.
Hypothesis dummy_fresh : dummy ∉ addrs.

Definition mem0 : Z → Z := mem_of (c_xid <$> c0).

Lemma client_index_addr k : client_index (addr k) = Ret k.
Proof.
  unfold client_index, addr. rewrite (proj2 (Z.leb_le _ _)) by lia.
  replace (base + sz * Z.of_nat k - base) with (Z.of_nat k * sz) by lia.
  rewrite Z.mod_mul, Z.div_mul by lia. cbn. by rewrite Nat2Z.id.
Qed.

Lemma addr_inj k k' : addr k = addr k' → k = k'.
Proof. unfold addr. nia. Qed.

Lemma addr_in k : (k < length c0)%nat → addr k ∈ addrs.
Proof. intros Hk. apply list_elem_of_fmap. exists k. split; [done|]. apply elem_of_seq. lia. Qed.

Lemma in_addrs p : p ∈ addrs → ∃ k, p = addr k ∧ (k < length c0)%nat.
Proof. intros (k & -> & Hk)%list_elem_of_fmap. apply elem_of_seq in Hk. exists k. split; [done | lia]. Qed.

Lemma addr_range k : (k < length c0)%nat → uword 64 (addr k).
Proof. intros Hk. unfold uword, addr. nia. Qed.

Lemma addrs_range : Forall (uword 64) addrs.
Proof. apply Forall_forall. intros p (k & -> & Hk)%in_addrs. by apply addr_range. Qed.

Lemma addrs_few : (length addrs < HASH_N)%nat.
Proof. unfold addrs. rewrite length_fmap, length_seq. unfold NUM_CLIENTS, HASH_N in *. lia. Qed.

Lemma mem0_addr k c : c0 !! k = Some c → mem0 (addr k) = c_xid c.
Proof. intros Hk. unfold mem0, mem_of. by rewrite client_index_addr, list_lookup_fmap, Hk. Qed.

Lemma mem0_inj k k' : (k < length c0)%nat → (k' < length c0)%nat → mem0 (addr k) = mem0 (addr k') → k = k'.
Proof.
  intros [c Hc]%lookup_lt_is_Some [c' Hc']%lookup_lt_is_Some. rewrite (mem0_addr _ _ Hc), (mem0_addr _ _ Hc').
  intros E. apply (NoDup_lookup _ k k' (c_xid c) xids_distinct); rewrite list_lookup_fmap; [by rewrite Hc|].
  by rewrite Hc', E.
Qed.

Lemma client_at_addr cs k : client_at cs (addr k) = deref cs k.
Proof. unfold client_at. by rewrite client_index_addr. Qed.

Lemma client_set_addr cs k a : (k < length cs)%nat → client_set cs (addr k) a = Ret (<[k := a]> cs).
Proof. intros Hk. unfold client_set. by rewrite client_index_addr, bind_Ret, store_lt. Qed.
(** ** The invariant

    [hist]: the frames the manager has received; [waiting]: the clients in the
    queue. *)

Definition frame_ok (bytes : list Z) : Prop := Forall byte bytes ∧ (length bytes ≤ 1024)%nat.

Definition heard (hist : list (list Z)) (xid t : Z) (pm : parse_meta) : Prop :=
  ∃ bytes, bytes ∈ hist ∧ pm = understood xid bytes ∧ p_dhcp_type pm = t.

(** The offer and the ACK a phase speaks of were received. *)
Definition phase_heard (hist : list (list Z)) (c : client) (ph : phase) : Prop :=
  match ph with
  | Requesting o _ => heard hist (c_xid c) DHCP_OFFER o
  | Over (Leased a) =>
      heard hist (c_xid c) DHCP_ACK a ∧ ∃ o, heard hist (c_xid c) DHCP_OFFER o
  | _ => True
  end.

Definition session_over (hist : list (list Z)) (c c' : client) : Prop :=
  ∃ e rc, shows c 1024 (Over e) (Finished rc c') ∧ phase_heard hist c (Over e).

(** A client's structure, as far as its worker has come. *)
Definition stage_ok (hist : list (list Z)) (c : client) (w : worker) (a : client_async) : Prop :=
  match w_pc w with
  | AtPop | AtExit => True
  | AtPrepare _ | AtInsert _ | AtStart _ => a_c a = c
  | AtTest _ | AtWait _ =>
      ∃ ph, shows c 1024 ph (Running (session_of w a)) ∧ phase_heard hist c ph
  | AtOut _ => session_over hist c (a_c a)
  end.

(** A received frame that is a reply to the client's transaction. *)
Definition addressed (hist : list (list Z)) (c : client) (bytes : list Z) : Prop :=
  bytes ∈ hist ∧ is_reply bytes (Z.of_nat (length bytes)) (c_xid c).

Record mailbox_ok (hist : list (list Z)) (c : client) (a : client_async) : Prop := {
  mb_buf : length (a_buf a) = 2048%nat;
  mb_len : 0 ≤ a_buf_len a ≤ 1024;
  mb_frame : a_buf_len a ≠ 0 → addressed hist c (take (Z.to_nat (a_buf_len a)) (a_buf a))
}.

Definition manager_ok (hist : list (list Z)) (m : manager) : Prop :=
  match m with
  | AtRecv rbuf => length rbuf = 1024%nat
  | AtDeliver rbuf p rlen => length rbuf = 1024%nat ∧
      ∃ k c bytes rest, p = addr k ∧ c0 !! k = Some c ∧ addressed hist c bytes ∧
        rbuf = bytes ++ rest ∧ rlen = Z.of_nat (length bytes)
  end.

Definition owns (w : worker) (k : nat) : Prop := pc_ptr (w_pc w) = Some (addr k).

(** The table holds exactly the clients that workers have put there. *)
Definition table_ok (h : hash_tab) (ws : list worker) : Prop :=
  ∃ X, xid_rep mem0 addrs h X ∧
    ∀ x p, X !! x = Some p ↔ ∃ i w, ws !! i = Some w ∧ pc_tab (w_pc w) = Some p ∧ mem0 p = x.

Definition queue_bytes (ks : list nat) : list Z := concat ((λ k, le_split 8 (addr k)) <$> ks).

Record sys_inv (hist : list (list Z)) (waiting : list nat) (y : system) : Prop := {
  si_hist : Forall frame_ok hist;
  si_xids : xids (y_clients y) = c_xid <$> c0;
  si_queue : cq_inv CQ_N (y_queue y) ∧ contents CQ_N (y_queue y) = queue_bytes waiting;
  si_waiting : NoDup waiting ∧ ∀ k, k ∈ waiting → (k < length c0)%nat;
  si_fresh : ∀ k c a, c0 !! k = Some c → y_clients y !! k = Some a → k ∈ waiting → a_c a = c;
  si_over : ∀ k c a, c0 !! k = Some c → y_clients y !! k = Some a → k ∉ waiting →
    (∀ i w, y_workers y !! i = Some w → ¬ owns w k) → session_over hist c (a_c a);
  si_exit : ∀ i w, y_workers y !! i = Some w → w_pc w = AtExit → waiting = [];
  si_owner : ∀ i w p, y_workers y !! i = Some w → pc_ptr (w_pc w) = Some p →
    ∃ k, p = addr k ∧ (k < length c0)%nat ∧ k ∉ waiting;
  si_unique : ∀ i j w w' k, y_workers y !! i = Some w → y_workers y !! j = Some w' →
    owns w k → owns w' k → i = j;
  si_stage : ∀ i w k c a, y_workers y !! i = Some w → owns w k → c0 !! k = Some c →
    y_clients y !! k = Some a → stage_ok hist c w a;
  si_bufs : ∀ i w, y_workers y !! i = Some w →
    length (w_sbuf w) = 1024%nat ∧ length (w_rbuf w) = 1024%nat;
  si_mail : ∀ k c a, c0 !! k = Some c → y_clients y !! k = Some a → mailbox_ok hist c a;
  si_tab : table_ok (y_tab y) (y_workers y);
  si_mgr : manager_ok hist (y_manager y)
}.

Lemma clients_length hist W y : sys_inv hist W y → length (y_clients y) = length c0.
Proof. intros Hi. pose proof (f_equal length (si_xids _ _ _ Hi)) as E. unfold xids in E. by rewrite !length_fmap in E. Qed.

Lemma client_lookup hist W y k : sys_inv hist W y → (k < length c0)%nat →
  ∃ c a, c0 !! k = Some c ∧ y_clients y !! k = Some a ∧ c_xid (a_c a) = c_xid c ∧ fresh_client c.
Proof.
  intros Hi Hk. destruct (lookup_lt_is_Some_2 c0 k Hk) as [c Hc].
  destruct (lookup_lt_is_Some_2 (y_clients y) k) as [a Ha]; [by rewrite (clients_length _ _ _ Hi)|].
  exists c, a. split_and!; [done | done | |].
  - pose proof (f_equal (λ l, l !! k) (si_xids _ _ _ Hi)) as E. unfold xids in E.
    rewrite !list_lookup_fmap, Hc, Ha in E. by injection E.
  - rewrite Forall_lookup in clients_fresh. by eapply clients_fresh.
Qed.

Lemma mem_xid_eq hist W y : sys_inv hist W y → mem_xid (y_clients y) = mem0.
Proof. intros Hi. unfold mem_xid, mem0. by rewrite (si_xids _ _ _ Hi). Qed.

Lemma xids_insert cs k a a' : cs !! k = Some a → c_xid (a_c a') = c_xid (a_c a) →
  xids (<[k := a']> cs) = xids cs.
Proof.
  intros Hk E. unfold xids. rewrite list_fmap_insert, E. apply list_insert_id.
  by rewrite list_lookup_fmap, Hk.
Qed.

Lemma pc_tab_ptr l p : pc_tab l = Some p → pc_ptr l = Some p.
Proof. by destruct l. Qed.

(** A worker goes on without entering or leaving the table. *)
Lemma table_same h ws i w w' : table_ok h ws → ws !! i = Some w → pc_tab (w_pc w') = pc_tab (w_pc w) →
  table_ok h (<[i := w']> ws).
Proof.
  intros (X & HX & Hin) Hw Ht. exists X. split; [done|]. intros x p. rewrite Hin.
  assert (i < length ws)%nat by by eapply lookup_lt_Some.
  split; intros (j & v & Hj & Hp & Hm).
  - destruct (decide (i = j)) as [<-|Hne].
    + exists i, w'. rewrite list_lookup_insert_eq, Ht by done. by simplify_eq.
    + exists j, v. by rewrite list_lookup_insert_ne.
  - apply list_lookup_insert_Some in Hj as [(<- & <- & _)|[Hne Hj]].
    + exists i, w. by rewrite <- Ht.
    + by exists j, v.
Qed.

(** *** What was received stays received *)

Lemma heard_mono hist hist' xid t pm : hist ⊆ hist' → heard hist xid t pm → heard hist' xid t pm.
Proof. intros Hs (b & Hb & Hr). exists b. split; [by apply Hs | done]. Qed.

Lemma phase_heard_mono hist hist' c ph : hist ⊆ hist' → phase_heard hist c ph → phase_heard hist' c ph.
Proof.
  intros Hs. destruct ph as [n|o n|[a| | |]]; cbn; [done | by apply heard_mono | | done..].
  intros [Ha [o Ho]]. split; [by eapply heard_mono|]. exists o. by eapply heard_mono.
Qed.

Lemma session_over_mono hist hist' c c' : hist ⊆ hist' → session_over hist c c' → session_over hist' c c'.
Proof. intros Hs (e & rc & He & Hh). exists e, rc. split; [done | by eapply phase_heard_mono]. Qed.

Lemma stage_mono hist hist' c w a : hist ⊆ hist' → stage_ok hist c w a → stage_ok hist' c w a.
Proof.
  intros Hs. unfold stage_ok. destruct (w_pc w); try done.
  - intros (ph & Hp & Hh). exists ph. split; [done | by eapply phase_heard_mono].
  - intros (ph & Hp & Hh). exists ph. split; [done | by eapply phase_heard_mono].
  - by apply session_over_mono.
Qed.

Lemma mailbox_mono hist hist' c a : hist ⊆ hist' → mailbox_ok hist c a → mailbox_ok hist' c a.
Proof. intros Hs [Hb Hl Hf]. split; [done | done |]. intros Hn. destruct (Hf Hn). split; [by apply Hs | done]. Qed.

Lemma manager_mono hist hist' m : hist ⊆ hist' → manager_ok hist m → manager_ok hist' m.
Proof.
  intros Hs. destruct m; [done|]. intros [Hl (k & c & b & r & Hp & Hc & [Hb Hr] & He)].
  split; [done|]. exists k, c, b, r. split; [done|]. split; [done|]. split; [|done]. split; [by apply Hs | done].
Qed.

Lemma inv_mono hist W y bytes : frame_ok bytes → sys_inv hist W y → sys_inv (hist ++ [bytes]) W y.
Proof.
  intros Hf Hi. assert (Hs : hist ⊆ hist ++ [bytes]) by by apply list_subseteq_app_l.
  destruct Hi. split; try done.
  - apply Forall_app. split; [done|]. apply Forall_cons. by split.
  - intros. eapply session_over_mono; [done|]. eauto.
  - intros. eapply stage_mono; [done|]. eauto.
  - intros. eapply mailbox_mono; [done|]. eauto.
  - by eapply manager_mono.
Qed.

(** *** Steps that change one worker and its client *)

Lemma inv_update hist W y i w k c a w' a' h sent :
  sys_inv hist W y → y_workers y !! i = Some w → owns w k →
  c0 !! k = Some c → y_clients y !! k = Some a →
  owns w' k ∨ (w_pc w' = AtPop ∧ session_over hist c (a_c a')) →
  stage_ok hist c w' a' → c_xid (a_c a') = c_xid c →
  length (w_sbuf w') = 1024%nat → length (w_rbuf w') = 1024%nat →
  mailbox_ok hist c a' → table_ok h (<[i := w']> (y_workers y)) →
  sys_inv hist W (mkSystem (y_queue y) h (<[k := a']> (y_clients y)) (<[i := w']> (y_workers y))
    (y_manager y) sent).
Proof.
  intros Hi Hw Ho Hc Ha Hown Hst Hx Hsb Hrb Hmb Htab.
  destruct (si_owner _ _ _ Hi i w _ Hw Ho) as (k1 & E & Hk & HkW). apply addr_inj in E as <-.
  assert (Hrole : ∀ j v k', <[i:=w']> (y_workers y) !! j = Some v → owns v k' →
    (j = i ∧ v = w' ∧ k' = k) ∨ (j ≠ i ∧ y_workers y !! j = Some v ∧ k' ≠ k)).
  { intros j v k' [(<- & <- & _)|[Hne Hj]]%list_lookup_insert_Some Hv.
    - left. split; [done|]. split; [done|]. destruct Hown as [Hw'|[Hp _]].
      + unfold owns in *. rewrite Hv in Hw'. injection Hw' as E. by apply addr_inj in E.
      + unfold owns in Hv. by rewrite Hp in Hv.
    - right. split; [done|]. split; [done|]. intros ->. apply Hne. by eapply (si_unique _ _ _ Hi). }
  destruct Hi as [Hh Hxs Hq HW Hfr Hov Hex Hown' Huq Hstg Hbf Hml Htb Hmg].
  split; cbn [y_clients y_queue y_workers y_tab y_manager]; try done.
  - rewrite <- Hxs. eapply xids_insert; [done|]. rewrite Hx. symmetry.
    pose proof (f_equal (λ l, l !! k) Hxs) as E. unfold xids in E.
    rewrite !list_lookup_fmap, Hc, Ha in E. by injection E.
  - intros k' c' v Hc' Hv HkW'. rewrite list_lookup_insert_ne in Hv by congruence. by eapply Hfr.
  - intros k' c' v Hc' Hv HkW' Hno. destruct (decide (k' = k)) as [->|Hne].
    + rewrite list_lookup_insert_eq in Hv by (by eapply lookup_lt_Some). injection Hv as <-.
      destruct Hown as [Hw'|[_ Hover]]; [|by simplify_eq].
      exfalso. apply (Hno i w'); [|done]. apply list_lookup_insert_eq. by eapply lookup_lt_Some.
    + rewrite list_lookup_insert_ne in Hv by done. eapply Hov; [done..|].
      intros j v' Hj Hv'. destruct (decide (j = i)) as [->|Hji].
      * rewrite Hw in Hj. injection Hj as <-. unfold owns in *. rewrite Ho in Hv'. injection Hv' as E.
        by apply addr_inj in E.
      * apply (Hno j v'); [|done]. by rewrite list_lookup_insert_ne.
  - intros j v [(<- & <- & _)|[Hne Hj]]%list_lookup_insert_Some He; [|by eapply Hex].
    destruct Hown as [Hw'|[Hp _]]; [|congruence]. unfold owns in Hw'. by rewrite He in Hw'.
  - intros j v p Hj Hp. apply list_lookup_insert_Some in Hj as [(<- & <- & _)|[Hne Hj]]; [|by eapply Hown'].
    destruct Hown as [Hw'|[Hpop _]]; [|by rewrite Hpop in Hp].
    unfold owns in Hw'. rewrite Hp in Hw'. injection Hw' as ->. by exists k.
  - intros j j' v v' k' Hj Hj' Hv Hv'.
    destruct (Hrole j v k' Hj Hv) as [(-> & -> & ->)|(Hji & Hj0 & Hk')];
      destruct (Hrole j' v' _ Hj' Hv') as [(-> & -> & ?)|(Hji' & Hj0' & Hk'')]; try done.
    by eapply Huq.
  - intros j v k' c' u Hj Hv Hc' Hu.
    destruct (Hrole j v k' Hj Hv) as [(-> & -> & ->)|(Hji & Hj0 & Hk')].
    + rewrite list_lookup_insert_eq in Hu by (by eapply lookup_lt_Some). by simplify_eq.
    + rewrite list_lookup_insert_ne in Hu by done. by eapply Hstg.
  - intros j v [(<- & <- & _)|[Hne Hj]]%list_lookup_insert_Some; [done | by eapply Hbf].
  - intros k' c' u Hc' [(<- & <- & _)|[Hne Hu]]%list_lookup_insert_Some; [by simplify_eq | by eapply Hml].
Qed.

(** The same when the client's structure stays as it is. *)
Lemma inv_update_worker hist W y i w k c a w' h sent :
  sys_inv hist W y → y_workers y !! i = Some w → owns w k →
  c0 !! k = Some c → y_clients y !! k = Some a → owns w' k →
  stage_ok hist c w' a → w_sbuf w' = w_sbuf w → w_rbuf w' = w_rbuf w →
  table_ok h (<[i := w']> (y_workers y)) →
  sys_inv hist W (mkSystem (y_queue y) h (y_clients y) (<[i := w']> (y_workers y)) (y_manager y) sent).
Proof.
  intros Hi Hw Ho Hc Ha Hown Hst Hsb Hrb Htab.
  rewrite <- (list_insert_id (y_clients y) k a) by done.
  destruct (si_bufs _ _ _ Hi i w Hw) as [Hs Hr].
  destruct (client_lookup _ _ _ k Hi) as (c1 & a1 & Hc1 & Ha1 & Hx & _); [by eapply lookup_lt_Some|].
  simplify_eq. eapply inv_update; try done.
  - by left.
  - by rewrite Hsb.
  - by rewrite Hrb.
  - by eapply (si_mail _ _ _ Hi).
Qed.

(** The mailbox of a client changes. *)
Lemma inv_mailbox hist W y k c a buf len m : sys_inv hist W y →
  c0 !! k = Some c → y_clients y !! k = Some a →
  mailbox_ok hist c (set_mailbox a buf len) → manager_ok hist m →
  sys_inv hist W (set_manager (set_clients y (<[k := set_mailbox a buf len]> (y_clients y))) m).
Proof.
  intros Hi Hc Ha Hmb Hm.
  assert (Hold : ∀ k' v, <[k := set_mailbox a buf len]> (y_clients y) !! k' = Some v →
    ∃ u, y_clients y !! k' = Some u ∧ a_c v = a_c u).
  { intros k' v [(<- & <- & _)|[Hne Hv]]%list_lookup_insert_Some; [by exists a | by exists v]. }
  destruct Hi as [Hh Hxs Hq HW Hfr Hov Hex Hown' Huq Hstg Hbf Hml Htb Hmg].
  split; cbn [set_manager set_clients y_clients y_queue y_workers y_tab y_manager]; try done.
  - rewrite <- Hxs. by eapply xids_insert.
  - intros k' c' v Hc' Hv HkW. destruct (Hold _ _ Hv) as (u & Hu & ->). by eapply Hfr.
  - intros k' c' v Hc' Hv HkW Hno. destruct (Hold _ _ Hv) as (u & Hu & ->). by eapply Hov.
  - intros i w k' c' v Hw Ho Hc' Hv. destruct (Hold _ _ Hv) as (u & Hu & E).
    pose proof (Hstg _ _ _ _ _ Hw Ho Hc' Hu) as Hst. unfold stage_ok, session_of in *. by rewrite E.
  - intros k' c' v Hc' [(<- & <- & _)|[Hne Hv]]%list_lookup_insert_Some; [by simplify_eq | by eapply Hml].
Qed.

(** *** The table as workers enter and leave it *)

Lemma others_differ hist W y i w k j v p : sys_inv hist W y → y_workers y !! i = Some w → owns w k →
  y_workers y !! j = Some v → j ≠ i → pc_ptr (w_pc v) = Some p → mem0 p ≠ mem0 (addr k).
Proof.
  intros Hi Hw Ho Hj Hne Hp E.
  destruct (si_owner _ _ _ Hi i w _ Hw Ho) as (k1 & E1 & Hk & _). apply addr_inj in E1 as <-.
  destruct (si_owner _ _ _ Hi j v p Hj Hp) as (k2 & -> & Hk2 & _).
  apply mem0_inj in E; [|done..]. subst k2. by apply Hne, (si_unique _ _ _ Hi j i v w k).
Qed.

Lemma table_enter hist W y i w k w' : sys_inv hist W y → y_workers y !! i = Some w → owns w k →
  pc_tab (w_pc w) = None → pc_tab (w_pc w') = Some (addr k) →
  ∃ h, xid_tab_insert mem0 (y_tab y) (addr k) = Ret h ∧ table_ok h (<[i := w']> (y_workers y)).
Proof.
  intros Hi Hw Ho Hnone Hsome. destruct (si_tab _ _ _ Hi) as (X & HX & Hin).
  destruct (si_owner _ _ _ Hi i w _ Hw Ho) as (k1 & E & Hk & _). apply addr_inj in E as <-.
  destruct (xid_insert_spec mem0 addrs addrs_range addrs_few _ X (addr k) HX) as (h & -> & Hh);
    [by apply addr_in|].
  exists h. split; [done|]. eexists. split; [exact Hh|]. intros x p.
  assert (Hlt : (i < length (y_workers y))%nat) by (by eapply lookup_lt_Some). split.
  - intros [[<- <-]|[Hne Hp]]%lookup_insert_Some.
    + exists i, w'. by rewrite list_lookup_insert_eq.
    + apply Hin in Hp as (j & v & Hj & Hp & Hm). exists j, v. split; [|done].
      rewrite list_lookup_insert_ne; [done|]. intros ->. by simplify_eq.
  - intros (j & v & [(<- & <- & _)|[Hne Hj]]%list_lookup_insert_Some & Hp & Hm).
    + rewrite Hsome in Hp. injection Hp as <-. rewrite Hm. apply lookup_insert_eq.
    + rewrite lookup_insert_ne; [apply Hin; by exists j, v|]. rewrite <- Hm. intros E. symmetry in E.
      revert E. eapply others_differ; [done|exact Hw|done|done| congruence | by apply pc_tab_ptr].
Qed.

Lemma table_leave hist W y i w k w' : sys_inv hist W y → y_workers y !! i = Some w → owns w k →
  pc_tab (w_pc w) = Some (addr k) → pc_tab (w_pc w') = None →
  ∃ h, xid_tab_remove mem0 dummy (y_tab y) (mem0 (addr k)) = Ret h ∧
    table_ok h (<[i := w']> (y_workers y)).
Proof.
  intros Hi Hw Ho Hsome Hnone. destruct (si_tab _ _ _ Hi) as (X & HX & Hin).
  destruct (xid_remove_spec mem0 addrs dummy addrs_range dummy_64 dummy_fresh _ X
    (mem0 (addr k)) HX) as (h & -> & Hh).
  exists h. split; [done|]. eexists. split; [exact Hh|]. intros x p. split.
  - intros [Hne Hp]%lookup_delete_Some. apply Hin in Hp as (j & v & Hj & Hp & Hm).
    exists j, v. split; [|done]. rewrite list_lookup_insert_ne; [done|]. intros ->. by simplify_eq.
  - intros (j & v & [(<- & <- & _)|[Hne Hj]]%list_lookup_insert_Some & Hp & Hm); [by rewrite Hnone in Hp|].
    rewrite lookup_delete_ne; [apply Hin; by exists j, v|]. rewrite <- Hm. intros E. symmetry in E.
    revert E. eapply others_differ; [done|exact Hw|done|done| congruence | by apply pc_tab_ptr].
Qed.

(** *** A worker's session *)

Lemma phase_heard_step hist c ph r pad :
  (∀ b s, r = Got b s → b ∈ hist) → phase_heard hist c ph →
  phase_heard hist c (snd (phase_step pad c ph (event_of (c_xid c) r))).
Proof.
  intros Hr Hh.
  assert (Hev : ∀ b s, r = Got b s → ∀ t, p_dhcp_type (understood (c_xid c) b) = t →
    heard hist (c_xid c) t (understood (c_xid c) b)).
  { intros b s -> t Ht. exists b. split; [by eapply Hr | done]. }
  destruct ph as [n|o n|e]; [| |done]; destruct r as [b s| |]; cbn [event_of phase_step snd]; try done.
  - destruct (Z.eqb_spec (p_dhcp_type (understood (c_xid c) b)) DHCP_OFFER) as [E|_].
    + destruct s; [by eapply Hev | done].
    + by destruct (_ =? DHCP_NAK).
  - unfold retry. by destruct (_ <=? _).
  - destruct (Z.eqb_spec (p_dhcp_type (understood (c_xid c) b)) DHCP_ACK) as [E|_].
    + split; [by eapply Hev | by exists o].
    + by destruct (_ =? DHCP_NAK).
  - unfold retry. by destruct (_ <=? _).
Qed.

Lemma continue_ok hist W y i w k c a0 a fs ph v : sys_inv hist W y →
  y_workers y !! i = Some w → pc_tab (w_pc w) = Some (addr k) →
  c0 !! k = Some c → y_clients y !! k = Some a0 → mailbox_ok hist c a →
  shows c 1024 ph v → phase_heard hist c ph →
  ∃ y' w' a', continue_session y i w (addr k) a fs v = Ret y' ∧ sys_inv hist W y' ∧
    y_workers y' = <[i := w']> (y_workers y) ∧ y_clients y' !! k = Some a' ∧
    match v with
    | Running s => w_pc w' = AtTest (addr k) ∧ a_c a' = s_client s ∧ a_buf_len a' = a_buf_len a
    | Finished _ _ => w_pc w' = AtOut (addr k)
    end.
Proof.
  intros Hi Hw Hp Hc Ha Hmb Hv Hh. pose proof (pc_tab_ptr _ _ Hp) as Ho. fold (owns w k) in Ho.
  destruct (si_bufs _ _ _ Hi i w Hw) as [Hsb Hrb].
  assert (Hmb' : ∀ c', mailbox_ok hist c (set_c a c')) by (intros c'; by destruct Hmb).
  unfold continue_session. destruct v as [s|rc c'].
  - rewrite client_set_addr by (by eapply lookup_lt_Some). rewrite bind_Ret. eexists _, _, _. split; [done|].
    split; [|cbn; rewrite list_lookup_insert_eq by (by eapply lookup_lt_Some); done].
    apply (inv_update hist W y i w k c a0); try done.
    + by left.
    + exists ph. split; [|done]. by destruct s.
    + by inversion Hv.
    + by inversion Hv.
    + by inversion Hv.
    + eapply table_same; [by apply (si_tab _ _ _ Hi) | done | by rewrite Hp].
  - rewrite client_set_addr by (by eapply lookup_lt_Some). rewrite bind_Ret. eexists _, _, _. split; [done|].
    split; [|cbn; rewrite list_lookup_insert_eq by (by eapply lookup_lt_Some); done].
    assert (He : ∃ e, ph = Over e) by (inversion Hv; by eexists). destruct He as [e ->].
    apply (inv_update hist W y i w k c a0); try done.
    + by left.
    + by exists e, rc.
    + by inversion Hv.
    + eapply table_same; [by apply (si_tab _ _ _ Hi) | done | by rewrite Hp].
Qed.

(** *** What each step does *)

Lemma queue_bytes_length W : length (queue_bytes W) = (8 * length W)%nat.
Proof.
  unfold queue_bytes. induction W as [|k W IH]; [done|]. cbn [fmap list_fmap concat].
  rewrite length_app, le_split_length, IH. cbn [length]. lia.
Qed.

Lemma CQ_N_range : 1 < CQ_N < 2 ^ 31.
Proof. unfold CQ_N. lia. Qed.

Lemma CQ_N_index : (64 = 32 ∨ (64 = 64 ∧ (CQ_N | 2 ^ 32)))%Z.
Proof. right. split; [done|]. by exists (2 ^ 14). Qed.

(** How far worker [w] is from leaving, apart from the clients that wait: smaller is
    closer. *)
Definition mail_rank (a : client_async) : nat := if a_buf_len a =? 0 then 0%nat else 2%nat.

Definition session_rank (a : client_async) (test : nat) : nat :=
  let n := if c_state (a_c a) =? STATE_DISCOVER then 4 - c_retries (a_c a) else 2 - c_retries (a_c a) in
  (10 + 4 * Z.to_nat n + mail_rank a + test)%nat.

Definition pc_rank (cs : list client_async) (l : pc) : nat :=
  match l with
  | AtExit => 0
  | AtPop => 1
  | AtOut _ => 2
  | AtTest p => match client_at cs p with Ret a => session_rank a 1 | _ => 0 end
  | AtWait p => match client_at cs p with Ret a => session_rank a 0 | _ => 0 end
  | AtStart _ => 50
  | AtInsert _ => 51
  | AtPrepare _ => 52
  end%nat.

Definition rank (W : list nat) (y : system) (w : worker) : nat :=
  (100 * length W + pc_rank (y_clients y) (w_pc w))%nat.

(** A step of worker [i] that keeps the invariant; unless it may be idle, it brings
    the worker closer to its end. *)
Definition step_ok (hist : list (list Z)) (W : list nat) (y : system) (i : nat) (w : worker) (idle : bool)
    (r : outcome system) : Prop :=
  ∃ y' W' w', r = Ret y' ∧ sys_inv hist W' y' ∧ y_workers y' = <[i := w']> (y_workers y) ∧
    (idle = false → rank W' y' w' < rank W y w)%nat.

Lemma inv_pop hist W W' y i w q w' : sys_inv hist W y → y_workers y !! i = Some w → w_pc w = AtPop →
  cq_inv CQ_N q → contents CQ_N q = queue_bytes W' → w_sbuf w' = w_sbuf w → w_rbuf w' = w_rbuf w →
  (W = [] ∧ W' = [] ∧ w_pc w' = AtExit) ∨ (∃ k, W = k :: W' ∧ w_pc w' = AtPrepare (addr k)) →
  sys_inv hist W' (set_worker_at (set_queue y q) i w').
Proof.
  intros Hi Hw Hp Hq Hc Hsb Hrb Hcase.
  assert (Hsub : ∀ k, k ∈ W' → k ∈ W) by (intros k Hk; destruct Hcase as [(_ & -> & _)|(k' & -> & _)]; set_solver).
  assert (Hlt : (i < length (y_workers y))%nat) by (by eapply lookup_lt_Some).
  assert (Hown : ∀ k, owns w' k → W = k :: W').
  { intros k Hk. unfold owns in Hk. destruct Hcase as [(_ & _ & E)|(k' & -> & E)]; rewrite E in Hk; [done|].
    injection Hk as Hk. by apply addr_inj in Hk as ->. }
  destruct Hi as [Hh Hxs Hq0 [Hnd HW] Hfr Hov Hex Hown' Huq Hstg Hbf Hml Htb Hmg].
  assert (Hnotin : ∀ k, W = k :: W' → k ∉ W') by (intros k E; rewrite E in Hnd; by apply NoDup_cons in Hnd as [? _]).
  split; cbn [set_worker_at set_queue y_clients y_queue y_workers y_tab y_manager]; try done.
  - split; [|intros k Hk; apply HW; by apply Hsub].
    destruct Hcase as [(_ & -> & _)|(k & -> & _)]; [constructor | by apply NoDup_cons in Hnd as [_ ?]].
  - intros k c a Hck Ha Hk. eapply Hfr; [done..|by apply Hsub].
  - intros k c a Hck Ha Hk Hno. eapply Hov; [done..| |].
    + intros Hin. destruct Hcase as [(-> & _ & _)|(k' & -> & E)]; [by apply elem_of_nil in Hin|].
      apply elem_of_cons in Hin as [->|Hin]; [|done].
      apply (Hno i w'); [by apply list_lookup_insert_eq | by unfold owns; rewrite E].
    + intros j v Hj Hv. destruct (decide (j = i)) as [->|Hne].
      * rewrite Hw in Hj. injection Hj as <-. unfold owns in Hv. by rewrite Hp in Hv.
      * apply (Hno j v); [by rewrite list_lookup_insert_ne | done].
  - intros j v [(<- & <- & _)|[Hne Hj]]%list_lookup_insert_Some He.
    + destruct Hcase as [(_ & -> & _)|(k & -> & E)]; [done|congruence].
    + pose proof (Hex _ _ Hj He) as EW. destruct Hcase as [(_ & -> & _)|(k & E & _)]; [done|congruence].
  - intros j v p [(<- & <- & _)|[Hne Hj]]%list_lookup_insert_Some Hv.
    + destruct Hcase as [(_ & _ & E)|(k & -> & E)]; rewrite E in Hv; [done|]. injection Hv as <-.
      exists k. split; [done|]. split; [apply HW; by left | by apply Hnotin].
    + destruct (Hown' _ _ _ Hj Hv) as (k & -> & Hk & Hk'). exists k. split; [done|]. split; [done|].
      intros Hin. by apply Hk', Hsub.
  - intros j j' v v' k Hj Hj' Hv Hv'.
    apply list_lookup_insert_Some in Hj as [(<- & <- & _)|[Hne Hj]],
      Hj' as [(<- & <- & _)|[Hne' Hj']]; [done| | |by eapply Huq].
    + destruct (Hown' _ _ _ Hj' Hv') as (k' & E & _ & Hk'). apply addr_inj in E as <-.
      rewrite (Hown k Hv) in Hk'. destruct Hk'. by left.
    + destruct (Hown' _ _ _ Hj Hv) as (k' & E & _ & Hk'). apply addr_inj in E as <-.
      rewrite (Hown k Hv') in Hk'. destruct Hk'. by left.
  - intros j v k c a [(<- & <- & _)|[Hne Hj]]%list_lookup_insert_Some Hv Hck Ha; [|by eapply Hstg].
    pose proof (Hown k Hv) as E. unfold stage_ok.
    destruct Hcase as [(-> & _ & _)|(k' & E' & ->)]; [done|]. eapply Hfr; [done..|]. rewrite E. by left.
  - intros j v [(<- & <- & _)|[Hne Hj]]%list_lookup_insert_Some; [|by eapply Hbf].
    rewrite Hsb, Hrb. by eapply Hbf.
  - eapply table_same; [done..|]. rewrite Hp. by destruct Hcase as [(_ & _ & ->)|(k & _ & ->)].
Qed.

Lemma pop_step hist W y i w : sys_inv hist W y → y_workers y !! i = Some w → w_pc w = AtPop →
  step_ok hist W y i w false (worker_pop y i w).
Proof.
  intros Hi Hw Hp. destruct (si_queue _ _ _ Hi) as [Hq Hcont].
  unfold worker_pop, pop_client, lib_cq_pop64.
  destruct (cq_pop64_spec CQ_N 64) with (q := y_queue y) (x0 := 0) as (q' & Hq' & _ & Hcase);
    [apply CQ_N_range | apply CQ_N_index | done |].
  rewrite <- (contents_length CQ_N), Hcont, queue_bytes_length in Hcase.
  destruct W as [|k W].
  - rewrite decide_True in Hcase by (cbn; lia). destruct Hcase as (x & -> & ->).
    rewrite !bind_Ret. cbn [negb Z.eqb CQ_OP_FAIL CQ_OP_SUCCESS Pos.eqb].
    eexists _, [], (set_pc w AtExit). split; [done|]. split; [|split; [done|]].
    + apply (inv_pop hist [] [] y i w); try done. by left.
    + unfold rank. cbn. rewrite Hp. cbn. lia.
  - rewrite decide_False in Hcase by (cbn; lia). destruct Hcase as [-> Hc].
    assert (Hk : le_combine (take 8 (queue_bytes (k :: W))) = addr k).
    { unfold queue_bytes. cbn [fmap list_fmap concat]. rewrite take_app_length' by (by rewrite le_split_length).
      apply le_combine_split. pose proof (addr_range k) as Hr. unfold uword in Hr.
      change (256 ^ Z.of_nat 8) with (2 ^ 64). apply Hr.
      destruct (si_waiting _ _ _ Hi) as [_ HW]. apply HW. by left. }
    rewrite !bind_Ret, Hk. cbn [negb Z.eqb CQ_OP_FAIL CQ_OP_SUCCESS Pos.eqb].
    eexists _, W, (set_pc w (AtPrepare (addr k))). split; [done|]. split; [|split; [done|]].
    + apply (inv_pop hist (k :: W) W y i w); try done.
      right. by exists k.
    + unfold rank. cbn. rewrite Hp. cbn. lia.
Qed.

(** The client a worker holds. *)
Lemma held hist W y i w p : sys_inv hist W y → y_workers y !! i = Some w → pc_ptr (w_pc w) = Some p →
  ∃ k c a, p = addr k ∧ owns w k ∧ c0 !! k = Some c ∧ y_clients y !! k = Some a ∧
    c_xid (a_c a) = c_xid c ∧ fresh_client c ∧ stage_ok hist c w a ∧ mailbox_ok hist c a.
Proof.
  intros Hi Hw Hp. destruct (si_owner _ _ _ Hi i w p Hw Hp) as (k & -> & Hk & _).
  destruct (client_lookup _ _ _ k Hi Hk) as (c & a & Hc & Ha & Hx & Hf). exists k, c, a.
  split_and!; try done; [by eapply (si_stage _ _ _ Hi) | by eapply (si_mail _ _ _ Hi)].
Qed.

Lemma client_at_lookup cs k a : cs !! k = Some a → client_at cs (addr k) = Ret a.
Proof. intros Hk. rewrite client_at_addr. by apply deref_lookup. Qed.

Lemma prepare_step hist W y i w p : sys_inv hist W y → y_workers y !! i = Some w → w_pc w = AtPrepare p →
  step_ok hist W y i w false (worker_prepare y i w p).
Proof.
  intros Hi Hw Hp.
  destruct (held _ _ _ i w p Hi Hw) as (k & c & a & -> & Ho & Hc & Ha & Hx & Hf & Hst & [Hb Hl Hm]);
    [by rewrite Hp|].
  unfold worker_prepare. rewrite (client_at_lookup _ _ _ Ha), bind_Ret.
  rewrite client_set_addr, bind_Ret by (by eapply lookup_lt_Some).
  destruct (si_bufs _ _ _ Hi i w Hw) as [Hsb Hrb]. unfold stage_ok in Hst. rewrite Hp in Hst.
  eexists _, W, _. split; [done|]. split; [|split; [done|]].
  - apply (inv_update hist W y i w k c a); try done.
    + by left.
    + apply (table_same _ _ i w); [apply Hi | done | by rewrite Hp].
  - unfold rank. cbn. rewrite Hp. cbn. lia.
Qed.

Lemma insert_step hist W y i w p : sys_inv hist W y → y_workers y !! i = Some w → w_pc w = AtInsert p →
  step_ok hist W y i w false (worker_insert y i w p).
Proof.
  intros Hi Hw Hp.
  destruct (held _ _ _ i w p Hi Hw) as (k & c & a & -> & Ho & Hc & Ha & Hx & Hf & Hst & Hm); [by rewrite Hp|].
  unfold worker_insert. rewrite (mem_xid_eq _ _ _ Hi).
  destruct (table_enter hist W y i w k (set_pc w (AtStart (addr k)))) as (h & -> & Htab);
    [done..|by rewrite Hp|done|].
  rewrite bind_Ret. unfold stage_ok in Hst. rewrite Hp in Hst.
  eexists _, W, _. split; [done|]. split; [|split; [done|]].
  - by apply (inv_update_worker hist W y i w k c a).
  - unfold rank. cbn. rewrite Hp. cbn. lia.
Qed.

(** The rank of a running session *)
Lemma shows_rank c n ph s a t : shows c n ph (Running s) → a_c a = s_client s →
  session_rank a t = (10 + 4 * Z.to_nat (budget ph) + mail_rank a + t)%nat
  ∧ in_bounds ph ∧ ongoing ph.
Proof. intros Hs E. unfold session_rank, mail_rank. rewrite E. inversion Hs; subst; cbn; unfold MAX_RETRIES in *; lia. Qed.

Lemma continue_step hist W y i w k c a0 a fs ph v : sys_inv hist W y →
  y_workers y !! i = Some w → pc_tab (w_pc w) = Some (addr k) →
  c0 !! k = Some c → y_clients y !! k = Some a0 → mailbox_ok hist c a →
  shows c 1024 ph v → phase_heard hist c ph →
  (ongoing ph → (11 + 4 * Z.to_nat (budget ph) + mail_rank a
    < pc_rank (y_clients y) (w_pc w))%nat) →
  (2 < pc_rank (y_clients y) (w_pc w))%nat →
  step_ok hist W y i w false (continue_session y i w (addr k) a fs v).
Proof.
  intros Hi Hw Hp Hc Ha Hmb Hv Hh Hrun Hend.
  destruct (continue_ok hist W y i w k c a0 a fs ph v) as (y' & w' & a' & Hr & Hi' & Hws & Ha' & Hcase); [done..|].
  exists y', W, w'. split; [done|]. split; [done|]. split; [done|]. intros _. unfold rank.
  destruct v as [s|rc c'].
  - destruct Hcase as (Hpc & Hs & Hlen). rewrite Hpc. cbn [pc_rank].
    rewrite (client_at_lookup _ _ _ Ha').
    destruct (shows_rank c 1024 ph s a' 1 Hv Hs) as (-> & _ & Hon).
    unfold mail_rank in *. rewrite Hlen. specialize (Hrun Hon). lia.
  - rewrite Hcase. cbn [pc_rank]. lia.
Qed.

Lemma start_step hist W y i w p sent : sys_inv hist W y → y_workers y !! i = Some w → w_pc w = AtStart p →
  step_ok hist W y i w false (worker_start y i w p sent).
Proof.
  intros Hi Hw Hp.
  destruct (held _ _ _ i w p Hi Hw) as (k & c & a & -> & Ho & Hc & Ha & Hx & Hf & Hst & Hm); [by rewrite Hp|].
  unfold worker_start. rewrite (client_at_lookup _ _ _ Ha), bind_Ret.
  unfold stage_ok in Hst. rewrite Hp in Hst. rewrite Hst.
  destruct (si_bufs _ _ _ Hi i w Hw) as [Hsb Hrb].
  destruct (start_session_shows 1024 c (w_pmeta w) (w_sbuf w) (w_rbuf w) sent Hf Hsb Hrb) as (v & -> & Hv).
  rewrite bind_Ret. eapply continue_step; try done.
  - by rewrite Hp.
  - by destruct sent.
  - rewrite Hp. cbn [pc_rank]. intros _. destruct sent; [change (Z.to_nat _) with 4%nat | change (Z.to_nat _) with 0%nat];
      unfold mail_rank; destruct (_ =? _); lia.
  - rewrite Hp. cbn [pc_rank]. lia.
Qed.

(** The loop of the session, with [AtTest] and [AtWait] taken together. *)
Lemma in_session hist W y i w p : sys_inv hist W y → y_workers y !! i = Some w →
  w_pc w = AtTest p ∨ w_pc w = AtWait p →
  ∃ k c a ph, p = addr k ∧ owns w k ∧ c0 !! k = Some c ∧ y_clients y !! k = Some a ∧ fresh_client c ∧
    mailbox_ok hist c a ∧ pc_tab (w_pc w) = Some (addr k) ∧
    shows c 1024 ph (Running (session_of w a)) ∧ phase_heard hist c ph ∧
    pc_rank (y_clients y) (w_pc w)
    = (10 + 4 * Z.to_nat (budget ph) + mail_rank a + (if w_pc w is AtTest _ then 1 else 0))%nat ∧
    in_bounds ph.
Proof.
  intros Hi Hw Hp.
  destruct (held _ _ _ i w p Hi Hw) as (k & c & a & -> & Ho & Hc & Ha & Hx & Hf & Hst & Hm);
    [by destruct Hp as [->| ->]|].
  assert (∃ ph, shows c 1024 ph (Running (session_of w a)) ∧ phase_heard hist c ph) as (ph & Hs & Hh).
  { unfold stage_ok in Hst. by destruct Hp as [E|E]; rewrite E in Hst. }
  exists k, c, a, ph. split; [done|]. split; [done|]. split; [done|]. split; [done|]. split; [done|].
  split; [done|]. split; [by destruct Hp as [->| ->]|]. split; [done|]. split; [done|].
  destruct Hp as [E|E]; rewrite E; cbn [pc_rank]; rewrite (client_at_lookup _ _ _ Ha).
  - by destruct (shows_rank c 1024 ph _ a 1 Hs) as (-> & ? & _).
  - by destruct (shows_rank c 1024 ph _ a 0 Hs) as (-> & ? & _).
Qed.

(** A part of the session: what the event does to the phase and to the rank. *)
Lemma event_step hist W y i w k c a0 a ph r n : sys_inv hist W y → y_workers y !! i = Some w →
  pc_tab (w_pc w) = Some (addr k) → c0 !! k = Some c → y_clients y !! k = Some a0 → fresh_client c →
  mailbox_ok hist c a → shows c 1024 ph (Running (session_of w a)) → phase_heard hist c ph →
  in_bounds ph → recv_ok 1024 r → (∀ b s, r = Got b s → b ∈ hist) →
  pc_rank (y_clients y) (w_pc w) = (10 + 4 * Z.to_nat (budget ph) + n)%nat →
  (mail_rank a + 1 < n + 4 * Z.to_nat (timeouts [event_of (c_xid c) r]))%nat →
  step_ok hist W y i w false
    ('(fs, v) ← session_step frame_length (session_of w a) r; continue_session y i w (addr k) a fs v).
Proof.
  intros Hi Hw Hp Hc Ha Hf Hm Hs Hh Hb Hr Hin Hrank Hlt.
  destruct (session_step_shows frame_length 0) with (c := c) (n := 1024%nat) (p := ph)
    (s := session_of w a) (r := r) as (v & -> & Hv); [lia | done | apply Hf | lia | done | done|].
  rewrite bind_Ret.
  pose proof (phase_step_bounds 0 c ph (event_of (c_xid c) r) Hb) as Hbd.
  pose proof (phase_heard_step hist c ph r 0 Hin Hh) as Hh'.
  destruct (phase_step 0 c ph _) as [fs ph']. destruct Hbd as (Hb' & _ & Hon). cbn [fst snd] in *.
  eapply continue_step; try done; rewrite Hrank; [|lia].
  intros Ho. destruct (Hon Ho) as [_ Hbud].
  assert (0 ≤ timeouts [event_of (c_xid c) r]) by (destruct r; cbn; lia).
  assert (-1 < budget ph') by (destruct ph'; cbn in *; lia). lia.
Qed.

Lemma test_step hist W y i w p sent : sys_inv hist W y → y_workers y !! i = Some w → w_pc w = AtTest p →
  step_ok hist W y i w false (worker_test y i w p sent).
Proof.
  intros Hi Hw Hp.
  destruct (in_session hist W y i w p Hi Hw) as
    (k & c & a & ph & -> & Ho & Hc & Ha & Hf & Hm & Ht & Hs & Hh & Hrank & Hb); [by left|].
  unfold worker_test. rewrite (client_at_lookup _ _ _ Ha), bind_Ret.
  destruct Hm as [Hbuf Hlen Hfr]. destruct (Z.eqb_spec (a_buf_len a) 0) as [E|Hne].
  - eexists _, W, _. split; [done|]. split; [|split; [done|]].
    + apply (inv_update_worker hist W y i w k c a); try done.
      * by exists ph.
      * apply (table_same _ _ i w); [apply Hi | done | by rewrite Hp].
    + intros _. unfold rank. rewrite Hrank, Hp. cbn [set_pc w_pc pc_rank].
      cbn [set_worker_at y_clients]. rewrite (client_at_lookup _ _ _ Ha).
      destruct (shows_rank c 1024 ph _ a 0 Hs) as (-> & _); [done|]. lia.
  - rewrite load_n_le, bind_Ret by lia. rewrite drop_0.
    destruct (Hfr Hne) as [Hin _]. set (bytes := take _ _) in *.
    assert (Hbytes : frame_ok bytes) by (pose proof (si_hist _ _ _ Hi) as Hh'; rewrite Forall_forall in Hh'; by apply Hh').
    apply (event_step hist W y i w k c a (set_mailbox a (a_buf a) 0) ph (Got bytes sent) (mail_rank a + 1));
      try done.
    + by intros b s [= <- <-].
    + rewrite Hrank, Hp. lia.
    + unfold mail_rank. cbn [set_mailbox a_buf_len event_of timeouts]. rewrite (proj2 (Z.eqb_neq _ _) Hne). cbn. lia.
Qed.

Lemma timeout_step hist W y i w p : sys_inv hist W y → y_workers y !! i = Some w → w_pc w = AtWait p →
  step_ok hist W y i w false (worker_timeout y i w p).
Proof.
  intros Hi Hw Hp.
  destruct (in_session hist W y i w p Hi Hw) as
    (k & c & a & ph & -> & Ho & Hc & Ha & Hf & Hm & Ht & Hs & Hh & Hrank & Hb); [by right|].
  unfold worker_timeout. rewrite (client_at_lookup _ _ _ Ha), bind_Ret.
  apply (event_step hist W y i w k c a a ph TimedOut (mail_rank a)); try done.
  - rewrite Hrank, Hp. lia.
  - cbn. lia.
Qed.

Lemma wake_step hist W y i w p : sys_inv hist W y → y_workers y !! i = Some w → w_pc w = AtWait p →
  step_ok hist W y i w true (Ret (set_worker_at y i (set_pc w (AtTest p)))).
Proof.
  intros Hi Hw Hp.
  destruct (in_session hist W y i w p Hi Hw) as
    (k & c & a & ph & -> & Ho & Hc & Ha & Hf & Hm & Ht & Hs & Hh & Hrank & Hb); [by right|].
  eexists _, W, _. split; [done|]. split; [|by split].
  apply (inv_update_worker hist W y i w k c a); try done.
  - by exists ph.
  - apply (table_same _ _ i w); [apply Hi | done | by rewrite Hp].
Qed.

Lemma out_step hist W y i w p ms : sys_inv hist W y → y_workers y !! i = Some w → w_pc w = AtOut p →
  step_ok hist W y i w false (worker_out y i w p ms).
Proof.
  intros Hi Hw Hp.
  destruct (held _ _ _ i w p Hi Hw) as (k & c & a & -> & Ho & Hc & Ha & Hx & Hf & Hst & [Hb Hl Hm]);
    [by rewrite Hp|].
  unfold worker_out. rewrite (client_at_lookup _ _ _ Ha), bind_Ret.
  rewrite client_set_addr, bind_Ret by (by eapply lookup_lt_Some).
  unfold mem_xid. rewrite (xids_insert _ k a) by done. fold (mem_xid (y_clients y)).
  rewrite (mem_xid_eq _ _ _ Hi), Hx, <- (mem0_addr k c Hc).
  destruct (table_leave hist W y i w k (set_pc w AtPop)) as (h & -> & Htab); [done..|by rewrite Hp|done|].
  rewrite bind_Ret. unfold stage_ok in Hst. rewrite Hp in Hst.
  destruct (si_bufs _ _ _ Hi i w Hw) as [Hsb Hrb].
  eexists _, W, _. split; [done|]. split; [|split; [done|]].
  - apply (inv_update hist W y i w k c a); try done. right. by split.
  - unfold rank. cbn. rewrite Hp. cbn. lia.
Qed.

(** *** The manager *)

Lemma list_inserts_front {A} (s l : list A) : (length s ≤ length l)%nat →
  list_inserts 0 s l = s ++ drop (length s) l.
Proof.
  intros Hl. rewrite <- (take_drop (length s) l) at 1.
  apply (list_inserts_app [] (take (length s) l)). solve_length.
Qed.

Lemma receive_step hist W y rbuf bytes : sys_inv hist W y → y_manager y = AtRecv rbuf → frame_ok bytes →
  ∃ y', manager_receive y rbuf bytes = Ret y' ∧ sys_inv (hist ++ [bytes]) W y' ∧
    y_workers y' = y_workers y.
Proof.
  intros Hi Hm [Hb Hl]. pose proof (si_mgr _ _ _ Hi) as Hr. rewrite Hm in Hr. cbn in Hr.
  apply (inv_mono _ _ _ bytes) in Hi; [|done].
  unfold manager_receive. rewrite store_n_le, bind_Ret, list_inserts_front by (cbn; lia).
  set (rest := drop _ rbuf). assert (Hlen : length (bytes ++ rest) = 1024%nat) by (unfold rest; solve_length).
  destruct (parse_xid_in_buffer bytes rest Hb) as (x & -> & Hx); [lia|]. rewrite bind_Ret.
  assert (Hsame : ∀ m, manager_ok (hist ++ [bytes]) m → sys_inv (hist ++ [bytes]) W (set_manager y m)).
  { intros m Hok. by destruct Hi. }
  destruct x as [xid|]; [|by eexists; split; [done|]; split; [apply Hsame|]].
  destruct (Hx xid eq_refl) as [Hu Hrep].
  destruct (si_tab _ _ _ Hi) as (X & HX & Hin).
  rewrite (mem_xid_eq _ _ _ Hi), (xid_lookup_spec mem0 addrs dummy addrs_range dummy_64 dummy_fresh _ X xid HX).
  rewrite bind_Ret. destruct (X !! xid) as [p|] eqn:Ep; [|by eexists; split; [done|]; split; [apply Hsame|]].
  eexists. split; [done|]. split; [|done]. apply Hsame. split; [done|].
  apply Hin in Ep as (i & w & Hw & Hp & Hmem). apply pc_tab_ptr in Hp.
  destruct (held _ _ _ i w p Hi Hw Hp) as (k & c & a & -> & _ & Hc & _).
  exists k, c, bytes, rest. rewrite (mem0_addr k c Hc) in Hmem. subst xid.
  split; [done|]. split; [done|]. split; [|done].
  split; [apply elem_of_app; right; by left | done].
Qed.

Lemma deliver_step hist W y rbuf p rlen : sys_inv hist W y → y_manager y = AtDeliver rbuf p rlen →
  ∃ y', manager_deliver y rbuf p rlen = Ret y' ∧ sys_inv hist W y' ∧ y_workers y' = y_workers y.
Proof.
  intros Hi Hm. pose proof (si_mgr _ _ _ Hi) as Hr. rewrite Hm in Hr.
  destruct Hr as [Hlen (k & c & bytes & rest & -> & Hc & Hadd & -> & ->)].
  destruct (client_lookup _ _ _ k Hi) as (c1 & a & Hc1 & Ha & _); [by eapply lookup_lt_Some|]. simplify_eq.
  destruct (si_mail _ _ _ Hi k c a Hc Ha) as [Hbuf Hml Hfr].
  assert (Hl : (length bytes ≤ 1024)%nat) by (rewrite length_app in Hlen; lia).
  unfold manager_deliver. rewrite (client_at_lookup _ _ _ Ha), bind_Ret, Nat2Z.id.
  rewrite load_n_le, bind_Ret, drop_0, take_app_length by (rewrite length_app; lia).
  rewrite store_n_le, bind_Ret, list_inserts_front by (cbn; lia).
  rewrite client_set_addr, bind_Ret by (by eapply lookup_lt_Some).
  eexists. split; [done|]. split; [|done]. eapply inv_mailbox; [done..| |done].
  split; cbn [set_mailbox a_buf a_buf_len].
  - solve_length.
  - lia.
  - intros _. by rewrite Nat2Z.id, take_app_length.
Qed.

(** *** The system *)

Definition action_ok (act : action) : Prop := match act with Receive bytes => frame_ok bytes | _ => True end.

Lemma step_keeps hist W y i w idle r : y_workers y !! i = Some w → step_ok hist W y i w idle r →
  ∃ y' W', r = Ret y' ∧ sys_inv hist W' y' ∧ length (y_workers y') = length (y_workers y).
Proof. intros Hw (y' & W' & w' & -> & Hi & Hws & _). exists y', W'. by rewrite Hws, length_insert. Qed.

Lemma run_step hist W y i w sent ms : sys_inv hist W y → y_workers y !! i = Some w →
  (∀ p, w_pc w ≠ AtWait p) → w_pc w ≠ AtExit → step_ok hist W y i w false (worker_run y i w sent ms).
Proof.
  intros Hi Hw Hwait Hexit. unfold worker_run. destruct (w_pc w) as [|p|p|p|p|p|p|] eqn:E; try done.
  - by apply pop_step.
  - by apply prepare_step.
  - by apply insert_step.
  - by apply start_step.
  - by apply test_step.
  - by destruct (Hwait p).
  - by apply out_step.
Qed.

Lemma system_step_ok hist W y act : sys_inv hist W y → action_ok act →
  ∃ y' hist' W', system_step y act = Ret y' ∧ sys_inv hist' W' y' ∧
    length (y_workers y') = length (y_workers y) ∧
    (∀ b, b ∈ hist' → b ∈ hist ∨ act = Receive b).
Proof.
  intros Hi Hok.
  assert (Hstay : ∃ y' hist' W', Ret y = Ret y' ∧ sys_inv hist' W' y' ∧
    length (y_workers y') = length (y_workers y) ∧ ∀ b, b ∈ hist' → b ∈ hist ∨ act = Receive b).
  { exists y, hist, W. split; [done|]. split; [done|]. split; [done|]. by left. }
  assert (Hgo : ∀ i w idle r, y_workers y !! i = Some w → step_ok hist W y i w idle r →
    ∃ y' hist' W', r = Ret y' ∧ sys_inv hist' W' y' ∧ length (y_workers y') = length (y_workers y) ∧
    ∀ b, b ∈ hist' → b ∈ hist ∨ act = Receive b).
  { intros i w idle r Hw Hs. destruct (step_keeps hist W y i w idle r Hw Hs) as (y' & W' & -> & Hi' & Hl).
    exists y', hist, W'. split; [done|]. split; [done|]. split; [done|]. by left. }
  destruct act as [i sent ms|i|i|bytes|]; cbn [system_step].
  - unfold with_worker. destruct (y_workers y !! i) as [w|] eqn:Hw; [|done].
    destruct (w_pc w) eqn:E;
      try (eapply Hgo; [done|]; apply run_step; [done | done | congruence | congruence]).
    + unfold worker_run. by rewrite E.
    + unfold worker_run. by rewrite E.
  - unfold with_worker. destruct (y_workers y !! i) as [w|] eqn:Hw; [|done].
    destruct (w_pc w) eqn:E; try done. eapply Hgo; [done|]. by apply timeout_step.
  - unfold with_worker. destruct (y_workers y !! i) as [w|] eqn:Hw; [|done].
    destruct (w_pc w) eqn:E; try done. eapply Hgo; [done|]. by eapply wake_step.
  - destruct (y_manager y) as [rbuf|] eqn:E; [|done].
    destruct (receive_step hist W y rbuf bytes Hi E Hok) as (y' & -> & Hi' & Hws).
    exists y', (hist ++ [bytes]), W. split; [done|]. split; [done|]. split; [by rewrite Hws|].
    intros b [Hb|Hb]%elem_of_app; [by left|]. right. by apply list_elem_of_singleton in Hb as ->.
  - destruct (y_manager y) as [|rbuf p rlen] eqn:E; [done|].
    destruct (deliver_step hist W y rbuf p rlen Hi E) as (y' & -> & Hi' & Hws).
    exists y', hist, W. split; [done|]. split; [done|]. split; [by rewrite Hws|]. by left.
Qed.

Lemma system_run_ok acts : ∀ hist W y, sys_inv hist W y → Forall action_ok acts →
  ∃ y' hist' W', system_run y acts = Ret y' ∧ sys_inv hist' W' y' ∧
    length (y_workers y') = length (y_workers y) ∧ (∀ b, b ∈ hist' → b ∈ hist ∨ Receive b ∈ acts).
Proof.
  induction acts as [|act acts IH]; intros hist W y Hi Hacts; cbn [system_run].
  { exists y, hist, W. split; [done|]. split; [done|]. split; [done|]. by left. }
  apply Forall_cons in Hacts as [Hact Hacts].
  destruct (system_step_ok hist W y act Hi Hact) as (y1 & h1 & W1 & -> & Hi1 & Hl1 & Hb1). rewrite bind_Ret.
  destruct (IH h1 W1 y1 Hi1 Hacts) as (y2 & h2 & W2 & -> & Hi2 & Hl2 & Hb2).
  exists y2, h2, W2. split; [done|]. split; [done|]. split; [by rewrite Hl2|]. intros b Hb.
  destruct (Hb2 b Hb) as [Hb'|Hb']; [destruct (Hb1 b Hb') as [?| ->]; [by left | right; by left] | right; by right].
Qed.

(** *** The start *)

(** [main]'s storage before the threads run: the array of clients is zeroed but
    for what [main] writes, everything else is as it comes. *)
Record storage (q : cq_t) (h : hash_tab) (cs : list client_async) (ws : list worker)
    (rbuf : list Z) : Prop := {
  st_queue : Z.of_nat (length (c_buf q)) = CQ_N;
  st_buckets : length (buckets h) = HASH_N;
  st_occupied : length (occupied h) = HASH_N;
  st_clients : a_c <$> cs = c0;
  st_mailboxes : Forall (λ a, length (a_buf a) = 2048%nat ∧ a_buf_len a = 0) cs;
  st_buffers : Forall (λ w, length (w_sbuf w) = 1024%nat ∧ length (w_rbuf w) = 1024%nat) ws;
  st_rbuf : length rbuf = 1024%nat
}.

Lemma queue_bytes_app W W' : queue_bytes (W ++ W') = queue_bytes W ++ queue_bytes W'.
Proof. unfold queue_bytes. by rewrite fmap_app, concat_app. Qed.

Lemma push_clients_ok ks : ∀ q W, cq_inv CQ_N q → contents CQ_N q = queue_bytes W →
  (length W + length ks ≤ 2048)%nat →
  ∃ q', push_clients q ks = Ret q' ∧ cq_inv CQ_N q' ∧ contents CQ_N q' = queue_bytes (W ++ ks).
Proof.
  induction ks as [|k ks IH]; intros q W Hq Hc Hl; cbn [push_clients].
  { exists q. by rewrite app_nil_r. }
  unfold push_client, lib_cq_push64. cbn [length] in Hl.
  destruct (cq_push64_spec CQ_N 64) with (q := q) (x := addr k) as (rc & q1 & -> & Hq1 & _ & Hcase);
    [apply CQ_N_range | apply CQ_N_index | done |].
  rewrite <- (contents_length CQ_N), Hc, queue_bytes_length, decide_False in Hcase
    by (unfold CQ_N; lia).
  destruct Hcase as [_ Hc1]. rewrite !bind_Ret.
  destruct (IH q1 (W ++ [k])) as (q2 & -> & Hq2 & Hc2).
  - done.
  - rewrite Hc1, queue_bytes_app. by f_equal.
  - rewrite length_app. cbn [length]. lia.
  - exists q2. by rewrite <- app_assoc in Hc2.
Qed.

Lemma main_start_ok q h cs ws rbuf : storage q h cs ws rbuf →
  ∃ y, main_start q h cs ws rbuf = Ret y ∧ sys_inv [] (seq 0 (length c0)) y ∧
    length (y_workers y) = length ws.
Proof.
  intros [Hq Hb Ho Hcs Hmb Hbuf Hr]. unfold main_start, client_queue_init, lib_cq_init.
  destruct (cq_init_spec CQ_N 64) with (q := q) as (q0 & -> & Hi0 & Hc0 & _);
    [apply CQ_N_range | apply CQ_N_index | done |]. rewrite !bind_Ret.
  destruct (xid_init_spec mem0 addrs addrs_few h Hb Ho) as (h0 & -> & Hh). rewrite bind_Ret.
  assert (Hlen : length cs = length c0) by (by rewrite <- Hcs, length_fmap).
  assert (Hcl : ∀ k c a, c0 !! k = Some c → cs !! k = Some a → a_c a = c).
  { intros k c a Hc Ha. rewrite <- Hcs, list_lookup_fmap, Ha in Hc. by injection Hc. }
  destruct (push_clients_ok (seq 0 (length cs)) q0 [] Hi0 Hc0) as (q1 & -> & Hi1 & Hc1).
  { rewrite length_seq. unfold NUM_CLIENTS in few_clients. cbn [length]. lia. }
  rewrite bind_Ret. eexists. split; [done|]. split; [|by cbn; rewrite length_fmap].
  assert (Hpop : ∀ i w, ((λ w, set_pc w AtPop) <$> ws) !! i = Some w → w_pc w = AtPop).
  { intros i w Hw. rewrite list_lookup_fmap in Hw. apply fmap_Some in Hw as (w' & _ & ->). done. }
  rewrite Hlen in *. rewrite Forall_lookup in Hmb. rewrite Forall_lookup in Hbuf.
  split; cbn [y_clients y_queue y_workers y_tab y_manager]; try done.
  - unfold xids. by rewrite <- Hcs, <- list_fmap_compose.
  - split; [apply NoDup_seq|]. intros k Hk. apply elem_of_seq in Hk. lia.
  - intros k c a Hc Ha _. by eapply Hcl.
  - intros k c a Hc Ha Hk. destruct Hk. apply elem_of_seq. apply lookup_lt_Some in Hc. lia.
  - intros i w Hw. by rewrite (Hpop i w Hw).
  - intros i w p Hw. by rewrite (Hpop i w Hw).
  - intros i j w w' k Hw _ Hk. unfold owns in Hk. by rewrite (Hpop i w Hw) in Hk.
  - intros i w k c a Hw Hk. unfold owns in Hk. by rewrite (Hpop i w Hw) in Hk.
  - intros i w Hw. rewrite list_lookup_fmap in Hw. apply fmap_Some in Hw as (w' & Hw & ->).
    exact (Hbuf i w' Hw).
  - intros k c a _ Ha. destruct (Hmb k a Ha) as [Hl Hz]. split; [done | rewrite Hz; lia | by rewrite Hz].
  - exists ∅. split; [done|]. intros x p. split; [done|]. intros (i & w & Hw & Hp & _).
    by rewrite (Hpop i w Hw) in Hp.
Qed.

(** A run from the start. *)
Lemma main_run_ok q h cs ws rbuf acts : storage q h cs ws rbuf → Forall action_ok acts →
  ∃ y hist W, (y ← main_start q h cs ws rbuf; system_run y acts) = Ret y ∧ sys_inv hist W y ∧
    length (y_workers y) = length ws ∧ (∀ b, b ∈ hist → Receive b ∈ acts).
Proof.
  intros Hst Hacts. destruct (main_start_ok _ _ _ _ _ Hst) as (y0 & -> & Hi0 & Hl0). rewrite bind_Ret.
  destruct (system_run_ok acts [] _ y0 Hi0 Hacts) as (y & hist & W & -> & Hi & Hl & Hb).
  exists y, hist, W. split; [done|]. split; [done|]. split; [by rewrite Hl|]. intros b Hin.
  destruct (Hb b Hin) as [Hn|?]; [by apply elem_of_nil in Hn | done].
Qed.

(** *** The workers come to an end *)

(** What a worker does when no frame arrives. *)
Definition alone (i : nat) (w : worker) : action :=
  match w_pc w with AtWait _ => WaitTimeout i | _ => Run i true 0 end.

Definition no_frame (act : action) : Prop := match act with Receive _ => False | _ => True end.

Lemma alone_step hist W y i w : sys_inv hist W y → y_workers y !! i = Some w → w_pc w ≠ AtExit →
  step_ok hist W y i w false (system_step y (alone i w)).
Proof.
  intros Hi Hw Hex. unfold alone.
  destruct (w_pc w) eqn:E; cbn [system_step]; unfold with_worker; rewrite Hw;
    try (apply run_step; [done | done | congruence | congruence]).
  rewrite E. by apply timeout_step.
Qed.

(** One worker, by itself, comes to its end. *)
Lemma worker_finishes hist n : ∀ W y i w, sys_inv hist W y → y_workers y !! i = Some w →
  (rank W y w < n)%nat →
  ∃ acts y' W' w', Forall no_frame acts ∧ system_run y acts = Ret y' ∧ sys_inv hist W' y' ∧
    y_workers y' = <[i := w']> (y_workers y) ∧ w_pc w' = AtExit.
Proof.
  induction n as [|n IH]; intros W y i w Hi Hw Hn; [lia|].
  destruct (decide (w_pc w = AtExit)) as [E|E].
  { exists [], y, W, w. split; [constructor|]. split; [done|]. split; [done|]. by rewrite list_insert_id. }
  destruct (alone_step hist W y i w Hi Hw E) as (y1 & W1 & w1 & Hs & Hi1 & Hws & Hr). specialize (Hr eq_refl).
  destruct (IH W1 y1 i w1 Hi1) as (acts & y2 & W2 & w2 & Hacts & Hrun & Hi2 & Hws2 & Hex).
  { rewrite Hws. apply list_lookup_insert_eq. by eapply lookup_lt_Some. }
  { lia. }
  exists (alone i w :: acts), y2, W2, w2. split.
  { constructor; [|done]. unfold alone. by destruct (w_pc w). }
  split; [cbn [system_run]; by rewrite Hs, bind_Ret|]. split; [done|]. split; [|done].
  by rewrite Hws2, Hws, list_insert_insert_eq.
Qed.

Lemma system_run_app acts : ∀ y acts', system_run y (acts ++ acts') = (y ← system_run y acts; system_run y acts').
Proof.
  induction acts as [|act acts IH]; intros y acts'; [done|]. cbn [system_run app].
  destruct (system_step y act) as [y1| |]; rewrite ?bind_Ret; [apply IH | done | done].
Qed.

Lemma workers_finish hist m : ∀ W y, sys_inv hist W y → (m ≤ length (y_workers y))%nat →
  ∃ acts y' W', Forall no_frame acts ∧ system_run y acts = Ret y' ∧ sys_inv hist W' y' ∧
    length (y_workers y') = length (y_workers y) ∧
    ∀ i w, (i < m)%nat → y_workers y' !! i = Some w → w_pc w = AtExit.
Proof.
  induction m as [|m IH]; intros W y Hi Hm.
  { exists [], y, W. split; [constructor|]. split; [done|]. split; [done|]. split; [done | lia]. }
  destruct (IH W y Hi) as (acts & y1 & W1 & Ha & Hr & Hi1 & Hl & Hex); [lia|].
  destruct (lookup_lt_is_Some_2 (y_workers y1) m) as [w Hw]; [lia|].
  destruct (worker_finishes hist (S (rank W1 y1 w)) W1 y1 m w Hi1 Hw) as
    (acts' & y2 & W2 & w2 & Ha' & Hr' & Hi2 & Hws & Hex2); [lia|].
  exists (acts ++ acts'), y2, W2. split; [by apply Forall_app|].
  split; [by rewrite system_run_app, Hr, bind_Ret|]. split; [done|].
  split; [by rewrite Hws, length_insert|]. intros i v Hlt Hv.
  rewrite Hws in Hv. apply list_lookup_insert_Some in Hv as [(<- & <- & _)|[Hne Hv]]; [done|].
  apply (Hex i); [lia | done].
Qed.

(** *** The properties *)

(** The client's transaction id is in the table. *)
Definition listening (ws : list worker) (k : nat) : Prop :=
  ∃ i w, ws !! i = Some w ∧ pc_tab (w_pc w) = Some (addr k).

(** C14: The concurrent client is safe under every interleaving, for at most
    NUM_CLIENTS clients of which no two have the same transaction id (the code
    draws the ids with rand() and does not check).  However the
    worker threads, the receive manager, the timeouts and the network interleave,
    no thread leaves its buffers or follows a bad pointer; no two workers have the
    same client, and none of these still waits in the queue; a lookup in the table
    finds a client exactly when a worker has its session open; and what lies in a
    client's mailbox is a received frame that is a reply to that client's
    transaction. *)
Theorem workers_safe (q : cq_t) (h : hash_tab) (cs : list client_async) (ws : list worker)
    (rbuf : list Z) (acts : list action) :
  storage q h cs ws rbuf → Forall action_ok acts →
  ∃ y W, (y ← main_start q h cs ws rbuf; system_run y acts) = Ret y ∧
    contents CQ_N (y_queue y) = queue_bytes W ∧
    (∀ i j w w' k, y_workers y !! i = Some w → y_workers y !! j = Some w' →
      owns w k → owns w' k → i = j ∧ k ∉ W) ∧
    (∀ k c, c0 !! k = Some c →
      (listening (y_workers y) k →
        xid_tab_lookup (mem_xid (y_clients y)) dummy (y_tab y) (c_xid c) = Ret (Some (addr k))) ∧
      (¬ listening (y_workers y) k →
        xid_tab_lookup (mem_xid (y_clients y)) dummy (y_tab y) (c_xid c) = Ret None)) ∧
    (∀ k c a, c0 !! k = Some c → y_clients y !! k = Some a → a_buf_len a ≠ 0 →
      let bytes := take (Z.to_nat (a_buf_len a)) (a_buf a) in
      Receive bytes ∈ acts ∧ is_reply bytes (Z.of_nat (length bytes)) (c_xid c)).
Proof.
  intros Hst Hacts. destruct (main_run_ok _ _ _ _ _ _ Hst Hacts) as (y & hist & W & Hrun & Hi & _ & Hhist).
  exists y, W. split; [done|]. split; [by apply (si_queue _ _ _ Hi)|]. split; [|split].
  - intros i j w w' k Hw Hw' Hk Hk'. split; [by eapply (si_unique _ _ _ Hi)|].
    destruct (si_owner _ _ _ Hi i w _ Hw Hk) as (k1 & E & _ & HkW). by apply addr_inj in E as <-.
  - intros k c Hc. destruct (si_tab _ _ _ Hi) as (X & HX & Hin).
    rewrite (mem_xid_eq _ _ _ Hi), (xid_lookup_spec mem0 addrs dummy addrs_range dummy_64 dummy_fresh _ X _ HX).
    split.
    + intros (i & w & Hw & Hp). f_equal. apply Hin. exists i, w. split; [done|]. split; [done|].
      by apply mem0_addr.
    + intros Hno. f_equal. destruct (X !! c_xid c) as [p|] eqn:Ep; [|done].
      apply Hin in Ep as (i & w & Hw & Hp & Hm). destruct Hno.
      destruct (held _ _ _ i w p Hi Hw (pc_tab_ptr _ _ Hp)) as (k' & c' & a' & -> & _ & Hc' & _).
      rewrite <- (mem0_addr k c Hc) in Hm. apply mem0_inj in Hm as ->; [by exists i, w| |]; by eapply lookup_lt_Some.
  - intros k c a Hc Ha Hne bytes. destruct (mb_frame _ _ _ (si_mail _ _ _ Hi k c a Hc Ha) Hne) as [Hb Hr].
    split; [by apply Hhist | done].
Qed.

(** What a finished session leaves, in terms of received frames. *)
Definition outcome_ok (received : list Z → Prop) (c c' : client) : Prop :=
  c_state c' ≠ STATE_DONE ∨
  ∃ offer ack, received offer ∧ is_reply offer (Z.of_nat (length offer)) (c_xid c) ∧
    p_dhcp_type (understood (c_xid c) offer) = DHCP_OFFER ∧
    received ack ∧ is_reply ack (Z.of_nat (length ack)) (c_xid c) ∧
    p_dhcp_type (understood (c_xid c) ack) = DHCP_ACK ∧
    c_state c' = STATE_DONE ∧ c_assigned_ip c' = p_offered_ip (understood (c_xid c) ack).

Lemma heard_reply hist xid t pm : Forall frame_ok hist → is_u32 xid → t ≠ DHCP_UNKNOWN → heard hist xid t pm →
  ∃ b, b ∈ hist ∧ is_reply b (Z.of_nat (length b)) xid ∧ p_dhcp_type (understood xid b) = t ∧ pm = understood xid b.
Proof.
  intros Hh Hx Ht (b & Hb & -> & Hp). rewrite Forall_forall in Hh. destruct (Hh b Hb) as [Hbytes Hl].
  exists b. split; [done|]. split; [|done]. apply understood_reply; [done | done | lia | by rewrite Hp].
Qed.

Lemma session_over_outcome hist c c' (received : list Z → Prop) : Forall frame_ok hist → is_u32 (c_xid c) →
  (∀ b, b ∈ hist → received b) → session_over hist c c' → outcome_ok received c c'.
Proof.
  intros Hh Hx Hrec (e & rc & Hs & Hheard). inversion Hs as [| |a k|e' st k Hne Hst]; subst.
  - destruct Hheard as [Hack [o Ho]].
    apply heard_reply in Hack as (b & Hb & Hr & Ht & ->); [|done..].
    apply heard_reply in Ho as (b' & Hb' & Hr' & Ht' & _); [|done..].
    right. exists b', b. split; [by apply Hrec|]. split; [done|]. split; [done|]. split; [by apply Hrec|]. done.
  - left. by destruct st.
Qed.

(** C15: With transaction ids that differ (the code draws them with rand() and does
    not check: of two clients with the same id one is never told of its replies),
    the workers bring every client's session to an end.  From every reachable state
    the workers
    can come to their end, even if no frame arrives any more: there is a schedule
    of their steps and timeouts after which all of them have returned.  And
    whenever all have returned, by whatever schedule, the session of every client
    is over: it is marked DONE only if an OFFER and an ACK to its own transaction
    were received, and then it has the address of that ACK. *)
Theorem workers_complete (q : cq_t) (h : hash_tab) (cs : list client_async) (ws : list worker)
    (rbuf : list Z) (acts : list action) :
  storage q h cs ws rbuf → Forall action_ok acts → ws ≠ [] →
  (∃ rest y, (y ← main_start q h cs ws rbuf; system_run y (acts ++ rest)) = Ret y ∧
    (∀ bytes, Receive bytes ∉ rest) ∧ (∀ w, w ∈ y_workers y → w_pc w = AtExit)) ∧
  (∀ y, (y ← main_start q h cs ws rbuf; system_run y acts) = Ret y →
    (∀ w, w ∈ y_workers y → w_pc w = AtExit) →
    ∀ k c, c0 !! k = Some c →
      ∃ a, y_clients y !! k = Some a ∧ outcome_ok (λ b, Receive b ∈ acts) c (a_c a)).
Proof.
  intros Hst Hacts Hws. destruct (main_run_ok _ _ _ _ _ _ Hst Hacts) as (y & hist & W & Hrun & Hi & Hl & Hhist).
  split.
  - apply bind_Ret_inv in Hrun as (y0 & Hstart & Hrun).
    destruct (workers_finish hist (length (y_workers y)) W y Hi) as (rest & y' & W' & Hrest & Hrun' & _ & Hl' & Hex);
      [lia|].
    exists rest, y'. rewrite Hstart, bind_Ret, system_run_app, Hrun, bind_Ret. split; [done|].
    split; [intros b Hb; rewrite Forall_forall in Hrest; exact (Hrest _ Hb)|].
    intros w (i & Hw)%list_elem_of_lookup. apply (Hex i w); [|done].
    apply lookup_lt_Some in Hw. lia.
  - intros y1 Hrun1 Hex k c Hc. rewrite Hrun in Hrun1. injection Hrun1 as <-.
    destruct (client_lookup _ _ _ k Hi) as (c1 & a & Hc1 & Ha & _ & Hf); [by eapply lookup_lt_Some|].
    simplify_eq. exists a. split; [done|].
    assert (HW : W = []).
    { destruct (y_workers y) as [|w l] eqn:E; [by destruct ws|].
      apply (si_exit _ _ _ Hi 0%nat w); [by rewrite E | apply Hex; by left]. }
    apply (session_over_outcome hist); [by apply (si_hist _ _ _ Hi) | by apply Hf | done |].
    eapply (si_over _ _ _ Hi k); [done..| rewrite HW; by apply not_elem_of_nil|].
    intros i w Hw Ho. unfold owns in Ho. rewrite (Hex w) in Ho; [done|]. by eapply list_elem_of_lookup_2.
Qed.
End Workers.

(** ** Two clients and two workers on concrete frames *)

Definition sample_client2 : client :=
  mkClient [2; 0xde; 0xad; 0xbe; 0xef; 2] 0x4321 0 0 (replicate 4 0).
Definition sample_clients : list client := [sample_client; sample_client2].
Definition sample_async (c : client) : client_async := mkAsync c 0 (replicate 2048 0) 0 0.
Definition sample_worker : worker :=
  mkWorker AtPop (discover_meta sample_client) (no_meta 0) (replicate 1024 7) (replicate 1024 7).
Definition sample_queue : cq_t := mkCq (replicate (Z.to_nat CQ_N) 9) 5 6 7.

(** Worker 0 runs up to the wait for an offer, worker 1 a little behind it; the
    manager receives a frame nobody waits for, then the offer and the ACK. *)
Definition sample_actions : list action :=
  let r i := Run i true 5 in
  [r 0%nat; r 0%nat; r 1%nat; r 0%nat; r 0%nat; r 0%nat; Receive [1; 2; 3]; r 1%nat; Receive sample_offer;
   WaitTimeout 0; Deliver; r 0%nat; r 1%nat; Receive sample_ack; Deliver; r 0%nat; WakeUp 1; r 0%nat].

Lemma sample_clients_fresh : Forall fresh_client sample_clients.
Proof. repeat constructor; cbn; lia. Qed.

Lemma sample_xids_distinct : NoDup (c_xid <$> sample_clients).
Proof. apply (bool_decide_eq_true_1 _). vm_compute. reflexivity. Qed.

Lemma sample_dummy_fresh : 64 ∉ addrs 65536 2176 sample_clients.
Proof. apply (bool_decide_eq_true_1 _). vm_compute. reflexivity. Qed.

Lemma two_clients_storage :
  storage sample_clients sample_queue sample_tab (sample_async <$> sample_clients)
    [sample_worker; sample_worker] (replicate 1024 3).
Proof.
  split; cbn [sample_queue c_buf sample_tab buckets occupied].
  - rewrite length_replicate. unfold CQ_N. lia.
  - apply length_replicate.
  - apply length_replicate.
  - reflexivity.
  - repeat constructor.
  - repeat constructor.
  - reflexivity.
Qed.

Lemma frame_ok_dec bytes :
  bool_decide (Forall byte bytes) && (length bytes <=? 1024)%nat = true → frame_ok bytes.
Proof.
  intros [H1 H2]%andb_true_iff. split; [exact (bool_decide_eq_true_1 _ H1) | by apply Nat.leb_le].
Qed.

Lemma sample_actions_ok : Forall action_ok sample_actions.
Proof.
  unfold sample_actions.
  repeat (apply Forall_cons; split; [first [exact I | apply frame_ok_dec; vm_compute; reflexivity]|]).
  apply Forall_nil_2.
Qed.

Lemma workers_safe_witness :
  Forall action_ok sample_actions ∧
  ∃ y W, (y ← main_start 65536 2176 sample_queue sample_tab (sample_async <$> sample_clients)
            [sample_worker; sample_worker] (replicate 1024 3);
          system_run 65536 2176 64 y sample_actions) = Ret y ∧
    contents CQ_N (y_queue y) = queue_bytes 65536 2176 W.
Proof.
  split; [exact sample_actions_ok|].
  destruct (workers_safe 65536 2176 64 sample_clients) with (q := sample_queue) (h := sample_tab)
    (cs := sample_async <$> sample_clients) (ws := [sample_worker; sample_worker])
    (rbuf := replicate 1024 3) (acts := sample_actions) as (y & W & Hrun & Hq & _).
  - lia.
  - lia.
  - cbn. lia.
  - unfold NUM_CLIENTS. cbn. lia.
  - exact sample_clients_fresh.
  - exact sample_xids_distinct.
  - unfold uword. lia.
  - exact sample_dummy_fresh.
  - exact two_clients_storage.
  - exact sample_actions_ok.
  - exists y, W. split; [exact Hrun | exact Hq].
Defined.

Lemma workers_complete_witness :
  [sample_worker; sample_worker] ≠ [] ∧
  ∃ rest y, (y ← main_start 65536 2176 sample_queue sample_tab (sample_async <$> sample_clients)
               [sample_worker; sample_worker] (replicate 1024 3);
             system_run 65536 2176 64 y (sample_actions ++ rest)) = Ret y ∧
    (∀ bytes, Receive bytes ∉ rest) ∧ (∀ w, w ∈ y_workers y → w_pc w = AtExit).
Proof.
  split; [discriminate|].
  destruct (workers_complete 65536 2176 64 sample_clients) with (q := sample_queue) (h := sample_tab)
    (cs := sample_async <$> sample_clients) (ws := [sample_worker; sample_worker])
    (rbuf := replicate 1024 3) (acts := sample_actions) as [Hfin _].
  - lia.
  - lia.
  - cbn. lia.
  - unfold NUM_CLIENTS. cbn. lia.
  - exact sample_clients_fresh.
  - exact sample_xids_distinct.
  - unfold uword. lia.
  - exact sample_dummy_fresh.
  - exact two_clients_storage.
  - exact sample_actions_ok.
  - discriminate.
  - exact Hfin.
Defined.
