(* ===== verification/RawSocket.v ===== *)
(** * The packet capture of the load-test client

    [bench-live/raw_socket.c]: one capture handle in a static variable, opened with
    a filter for DHCP, and frames sent and received through it.  libpcap is a class:
    its calls, as functions of a world, and what its manual pages promise of
    handles and of captured packets.  The messages on [stderr] are left out.

    First the functions as they are written; then which handles are open after any
    run of calls, and what a received frame is. *)
From S2P Require Import Prelude.

Open Scope Z_scope.

(** ** libpcap

    A handle is a number.  [pcap_next_ex] gives its result and, where that is 1, the
    [caplen] of the header and the bytes captured. *)
Inductive pcap_option := Snaplen (n : Z) | Promisc (n : Z) | Immediate (n : Z) | Timeout (n : Z).

Class PcapCalls (W : Type) := {
  pcap_create : W → list Z → option Z * W;
  pcap_set : W → Z → pcap_option → W;
  pcap_activate : W → Z → Z * W;
  pcap_close : W → Z → W;
  pcap_breakloop : W → Z → W;
  pcap_compile : W → Z → Z * W;
  pcap_setfilter : W → Z → W;
  pcap_freecode : W → W;
  pcap_inject : W → Z → list Z → Z * W;
  pcap_next_ex : W → Z → Z * (Z * list Z) * W
}.

(** ** The socket *)
Section raw_socket.
Context {W : Type} `{PcapCalls W}.

(** The static [handle] and the world *)
Record socket := mkSocket { handle : option Z; world : W }.

Definition raw_socket_init (s : socket) (iface : list Z) : Z * socket :=
  let '(h, w) := pcap_create (world s) iface in
  match h with
  | None => (-1, mkSocket None w)
  | Some h =>
      let w := pcap_set w h (Snaplen 65535) in
      let w := pcap_set w h (Promisc 1) in
      let w := pcap_set w h (Immediate 1) in
      let w := pcap_set w h (Timeout 1) in
      let '(r, w) := pcap_activate w h in
      if negb (r =? 0) then (-1, mkSocket None (pcap_close w h)) else
      let '(r, w) := pcap_compile w h in
      if r =? 0 then (0, mkSocket (Some h) (pcap_freecode (pcap_setfilter w h)))
      else (0, mkSocket (Some h) w)
  end.

(** libpcap does not test for a null handle. *)
Definition raw_send (s : socket) (buf : list Z) (len : Z) : outcome (Z * socket) :=
  match handle s with
  | None => Ub
  | Some h =>
      if len <? 0 then Ub else
      bytes ← load_n buf 0 (Z.to_nat len);
      let '(r, w) := pcap_inject (world s) h bytes in Ret (r, mkSocket (Some h) w)
  end.

Definition int32 (x : Z) : Z := u32 (x + 2 ^ 31) - 2 ^ 31.

Definition raw_recv (s : socket) (buf : list Z) (maxlen : Z) : outcome (Z * list Z * socket) :=
  match handle s with
  | None => Ub
  | Some h =>
      let '(rc, (caplen, data), w) := pcap_next_ex (world s) h in
      if negb (rc =? 1) then Ret (-1, buf, mkSocket (Some h) w) else
      let copy_len := if int32 caplen <? maxlen then int32 caplen else maxlen in
      if copy_len <? 0 then Ub else
      bytes ← load_n data 0 (Z.to_nat copy_len);
      buf ← store_n buf 0 bytes;
      Ret (copy_len, buf, mkSocket (Some h) w)
  end.

Definition raw_socket_close (s : socket) : socket :=
  match handle s with
  | None => s
  | Some h => mkSocket None (pcap_close (pcap_breakloop (world s) h) h)
  end.
End raw_socket.
Arguments socket : clear implicits.

(** ** What libpcap promises

    [opened] are the handles created and not closed yet; only these two calls change
    it.  A captured packet holds [caplen] bytes, no more than the snapshot length
    of its handle. *)
Class Pcap (W : Type) `{PcapCalls W} := {
  opened : W → gset Z;
  snaplen : W → Z → Z;
  create_opens w i h w' : pcap_create w i = (Some h, w') → (h ∉ opened w) ∧ opened w' = {[h]} ∪ opened w;
  create_fails w i w' : pcap_create w i = (None, w') → opened w' = opened w;
  close_closes w h : opened (pcap_close w h) = opened w ∖ {[h]};
  set_opened w h o : opened (pcap_set w h o) = opened w;
  activate_opened w h r w' : pcap_activate w h = (r, w') → opened w' = opened w;
  breakloop_opened w h : opened (pcap_breakloop w h) = opened w;
  compile_opened w h r w' : pcap_compile w h = (r, w') → opened w' = opened w;
  setfilter_opened w h : opened (pcap_setfilter w h) = opened w;
  freecode_opened w : opened (pcap_freecode w) = opened w;
  inject_opened w h b r w' : pcap_inject w h b = (r, w') → opened w' = opened w;
  next_opened w h r p w' : pcap_next_ex w h = (r, p, w') → opened w' = opened w;
  next_packet w h caplen data w' : pcap_next_ex w h = (1, (caplen, data), w') →
    0 ≤ caplen ≤ snaplen w h ∧ length data = Z.to_nat caplen
}.

Section facts.
Context {W : Type} `{Pcap W}.
Implicit Types s : socket W.

(** Nothing is open but the handle the socket keeps. *)
Definition only_own s : Prop :=
  opened (world s) = match handle s with Some h => {[h]} | None => ∅ end.

(** ** A run of calls *)
Inductive call := Init (iface : list Z) | Send (buf : list Z) (len : Z) | Recv (buf : list Z) (maxlen : Z) | Close.

Inductive calls : socket W → list call → socket W → Prop :=
  | calls_nil s : calls s [] s
  | calls_init s i r s1 cs s' : raw_socket_init s i = (r, s1) → calls s1 cs s' → calls s (Init i :: cs) s'
  | calls_send s b n r s1 cs s' : raw_send s b n = Ret (r, s1) → calls s1 cs s' → calls s (Send b n :: cs) s'
  | calls_recv s b n r b' s1 cs s' : raw_recv s b n = Ret (r, b', s1) → calls s1 cs s' → calls s (Recv b n :: cs) s'
  | calls_close s cs s' : calls (raw_socket_close s) cs s' → calls s (Close :: cs) s'.

(** The calls of a caller that closes the socket before it opens it again, who
    may otherwise send, receive and close at any time *)
Fixpoint closes_first (may_open : bool) (cs : list call) : bool :=
  match cs with
  | [] => true
  | Init _ :: cs => may_open && closes_first false cs
  | Close :: cs => closes_first true cs
  | _ :: cs => closes_first may_open cs
  end.

(** Opening: the handle is open and kept, and nothing else; or nothing is open. *)
Lemma init_only_own s i r s' : raw_socket_init s i = (r, s') → opened (world s) = ∅ →
  only_own s' ∧ (r = 0 ↔ is_Some (handle s')) ∧ (r = 0 ∨ r = -1).
Proof.
  intros E Ho. unfold raw_socket_init in E. destruct (pcap_create (world s) i) as [[h|] w1] eqn:E1.
  2:{ injection E as <- <-. split; [|split; [split; [done|by intros []]|by right]].
      unfold only_own. cbn. by rewrite (create_fails _ _ _ E1). }
  apply create_opens in E1 as [_ E1]. rewrite Ho, union_empty_r_L in E1.
  destruct (pcap_activate _ h) as [a w2] eqn:E2. apply activate_opened in E2. rewrite !set_opened, E1 in E2.
  destruct (Z.eqb_spec a 0); cbn [negb] in E.
  - destruct (pcap_compile w2 h) as [c w3] eqn:E3. apply compile_opened in E3.
    destruct (c =? 0); injection E as <- <-; (split; [|split; [split; [by eexists|done]|by left]]); unfold only_own; cbn.
    + by rewrite freecode_opened, setfilter_opened, E3.
    + by rewrite E3.
  - injection E as <- <-. split; [|split; [split; [done|by intros []]|by right]].
    unfold only_own. cbn. rewrite close_closes, E2. set_solver.
Qed.

Lemma close_only_own s : only_own s → handle (raw_socket_close s) = None ∧ only_own (raw_socket_close s).
Proof.
  unfold only_own, raw_socket_close. destruct (handle s) as [h|] eqn:Eh; cbn; [|by rewrite Eh].
  intros Ho. split; [done|]. rewrite close_closes, breakloop_opened, Ho. set_solver.
Qed.

Lemma send_only_own s b n r s' : raw_send s b n = Ret (r, s') → only_own s → handle s' = handle s ∧ only_own s'.
Proof.
  unfold raw_send, only_own. destruct (handle s) as [h|] eqn:Eh; [|done]. destruct (n <? 0); [done|].
  intros E Ho. inv_ret. destruct (pcap_inject _ _ _) as [x w] eqn:Ei. inv_ret. cbn.
  by rewrite (inject_opened _ _ _ _ _ Ei).
Qed.

Lemma recv_only_own s b n r b' s' : raw_recv s b n = Ret (r, b', s') → only_own s → handle s' = handle s ∧ only_own s'.
Proof.
  unfold raw_recv, only_own. destruct (handle s) as [h|] eqn:Eh; [|done].
  destruct (pcap_next_ex (world s) h) as [[rc [caplen data]] w] eqn:En. intros E Ho.
  assert (s' = mkSocket (Some h) w) as ->.
  { destruct (negb (rc =? 1)); [by inv_ret|]. destruct (_ <? 0); [done|]. by inv_ret. }
  cbn. by rewrite (next_opened _ _ _ _ _ En).
Qed.

(** No handle is leaked.  Whatever fails, from a fresh start nothing is open after
    any run of calls but the handle the socket keeps; after [Close] nothing is.  The
    caller must not open the socket twice: see [init_twice_leaks]. *)
Theorem raw_socket_no_leak s cs s' : calls s cs s' → only_own s →
  closes_first (bool_decide (handle s = None)) cs = true → only_own s'.
Proof.
  induction 1 as [s|s i r s1 cs s' E _ IH|s b n r s1 cs s' E _ IH|s b n r b' s1 cs s' E _ IH|s cs s' _ IH];
    intros Ho Hc; cbn [closes_first] in Hc.
  - done.
  - apply andb_prop in Hc as [Hn Hc]. apply bool_decide_eq_true in Hn. unfold only_own in Ho. rewrite Hn in Ho.
    destruct (init_only_own _ _ _ _ E Ho) as (Ho1 & _). apply IH; [done|].
    destruct (handle s1); [by rewrite bool_decide_false|]. rewrite bool_decide_true by done. clear -Hc.
    induction cs as [|[] cs IH]; cbn in *; [done|discriminate|auto..].
  - destruct (send_only_own _ _ _ _ _ E Ho) as [Eh Ho1]. rewrite <- Eh in Hc. by apply IH.
  - destruct (recv_only_own _ _ _ _ _ _ E Ho) as [Eh Ho1]. rewrite <- Eh in Hc. by apply IH.
  - destruct (close_only_own s Ho) as [Eh Ho1]. apply IH; [done|]. by rewrite Eh, bool_decide_true.
Qed.

(** A second opening without a close in between leaves the first handle open, and
    nothing in the program can reach it any more. *)
Lemma init_twice_leaks s i h1 r h2 s' : handle s = Some h1 → only_own s → raw_socket_init s i = (r, s') →
  handle s' = Some h2 → h1 ∈ opened (world s') ∧ h1 ≠ h2.
Proof.
  intros Eh Ho E Eh'. unfold only_own in Ho. rewrite Eh in Ho. unfold raw_socket_init in E.
  destruct (pcap_create (world s) i) as [[h|] w1] eqn:E1; [|by injection E as <- <-].
  apply create_opens in E1 as [Hnew E1]. rewrite Ho in Hnew, E1.
  destruct (pcap_activate _ h) as [a w2] eqn:E2. apply activate_opened in E2. rewrite !set_opened, E1 in E2.
  destruct (negb (a =? 0)); [by injection E as <- <-|].
  destruct (pcap_compile w2 h) as [c w3] eqn:E3. apply compile_opened in E3. rewrite E2 in E3.
  destruct (c =? 0); injection E as <- <-; injection Eh' as <-; cbn; rewrite ?freecode_opened, ?setfilter_opened, E3;
    split; set_solver.
Qed.

(** ** Receiving *)

(** A frame as long as the buffer allows.  [raw_recv] stays inside the buffer;
    without a packet the buffer is as it was, and with one its first bytes are
    the packet's and the others as they were. *)
Theorem raw_recv_bounded s h buf maxlen : handle s = Some h → 0 ≤ maxlen ≤ Z.of_nat (length buf) →
  snaplen (world s) h ≤ 65535 →
  ∃ r buf' s', raw_recv s buf maxlen = Ret (r, buf', s') ∧ handle s' = Some h ∧
    (r = -1 ∧ buf' = buf ∨
     ∃ caplen data, pcap_next_ex (world s) h = (1, (caplen, data), world s') ∧ r = caplen `min` maxlen ∧
       buf' = take (Z.to_nat r) data ++ drop (Z.to_nat r) buf).
Proof.
  intros Eh Hm Hsnap. unfold raw_recv. rewrite Eh.
  destruct (pcap_next_ex (world s) h) as [[rc [caplen data]] w] eqn:En.
  destruct (Z.eqb_spec rc 1) as [->|_]; cbn [negb].
  2:{ exists (-1), buf, (mkSocket (Some h) w). split; [done|]. split; [done|by left]. }
  destruct (next_packet _ _ _ _ _ En) as [Hc Hlen].
  assert (int32 caplen = caplen) as ->.
  { unfold int32. rewrite (wrap_small 32) by (unfold uword; lia). lia. }
  replace (if caplen <? maxlen then caplen else maxlen) with (caplen `min` maxlen) by (zcases; lia).
  set (r := caplen `min` maxlen). rewrite (proj2 (Z.ltb_ge r 0)) by lia.
  rewrite load_n_le by lia. rewrite bind_Ret, drop_0.
  assert (Hl : length (take (Z.to_nat r) data) = Z.to_nat r) by (rewrite length_take; lia).
  rewrite store_n_le by lia. rewrite bind_Ret.
  eexists r, _, (mkSocket (Some h) w). split; [reflexivity|]. split; [done|]. right. exists caplen, data.
  split; [done|]. split; [done|].
  rewrite <- (take_drop (Z.to_nat r) buf) at 1.
  apply (list_inserts_app [] (take (Z.to_nat r) buf)). rewrite Hl, length_take. lia.
Qed.
End facts.

(** ** A capture with a frame *)
Record capture := mkCapture { cap_open : gset Z; cap_packets : list (list Z) }.

Definition cap_take (w : capture) : Z * (Z * list Z) * capture :=
  match cap_packets w with
  | p :: ps => (1, (Z.of_nat (length (take (Z.to_nat 65535) p)), take (Z.to_nat 65535) p), mkCapture (cap_open w) ps)
  | [] => (0, (0, []), w)
  end.

(** A number that is not in use; the device of the empty name cannot be opened. *)
#[local] Instance capture_calls : PcapCalls capture := {
  pcap_create w i :=
    let h := fresh (cap_open w) in
    if decide (i = []) then (None, w) else (Some h, mkCapture ({[h]} ∪ cap_open w) (cap_packets w));
  pcap_set w _ _ := w;
  pcap_activate w _ := (0, w);
  pcap_close w h := mkCapture (cap_open w ∖ {[h]}) (cap_packets w);
  pcap_breakloop w _ := w;
  pcap_compile w _ := (0, w);
  pcap_setfilter w _ := w;
  pcap_freecode w := w;
  pcap_inject w _ b := (Z.of_nat (length b), w);
  pcap_next_ex w _ := cap_take w
}.

#[local] Instance capture_pcap : Pcap capture.
Proof.
  refine {| opened := cap_open; snaplen _ _ := 65535 |}; cbn; intros.
  - destruct (decide (i = [])); simplify_eq. split; [apply is_fresh|done].
  - destruct (decide (i = [])); by simplify_eq.
  - done.
  - done.
  - by simplify_eq.
  - done.
  - by simplify_eq.
  - done.
  - done.
  - by simplify_eq.
  - unfold cap_take in *. destruct (cap_packets w); by simplify_eq.
  - unfold cap_take in *. destruct (cap_packets w) as [|q qs]; simplify_eq. split; [rewrite length_take; lia|by rewrite Nat2Z.id].
Defined.

Example received : raw_recv (mkSocket (Some 0) (mkCapture {[0]} [[1; 2; 3]])) [9; 9; 9; 9; 9] 2 =
  Ret (2, [1; 2; 9; 9; 9], mkSocket (Some 0) (mkCapture {[0]} [])).
Proof. reflexivity. Qed.

Lemma raw_socket_no_leak_witness : ∃ s', calls (mkSocket None (mkCapture ∅ [])) [Init [101]; Close; Init []] s' ∧
  opened (world s') = ∅.
Proof.
  set (s0 := mkSocket None (mkCapture ∅ [])).
  destruct (raw_socket_init s0 [101]) as [r1 s1] eqn:E1.
  destruct (raw_socket_init (raw_socket_close s1) []) as [r2 s2] eqn:E2.
  assert (Hc : calls s0 [Init [101]; Close; Init []] s2).
  { eapply calls_init; [exact E1|]. apply calls_close. eapply calls_init; [exact E2|]. apply calls_nil. }
  exists s2. split; [exact Hc|].
  pose proof (raw_socket_no_leak s0 _ s2 Hc eq_refl eq_refl) as H. unfold only_own in H. rewrite H.
  by replace (handle s2) with (@None Z) by (by injection E2 as _ <-).
Defined.

Lemma raw_recv_bounded_witness : ∃ r buf s',
  raw_recv (mkSocket (Some 0) (mkCapture {[0]} [[1; 2; 3]])) [9; 9; 9; 9; 9] 5 = Ret (r, buf, s') ∧ handle s' = Some 0.
Proof.
  destruct (raw_recv_bounded (mkSocket (Some 0) (mkCapture {[0]} [[1; 2; 3]])) 0 [9; 9; 9; 9; 9] 5) as (r & b & s' & E & Eh & _).
  - reflexivity.
  - cbn. lia.
  - cbn. lia.
  - exists r, b, s'. exact (conj E Eh).
Defined.
