(* ===== verification/Bootloader.v ===== *)
(** * The serial bootloader

    [circle/tools/bootloader/bootloader07.c]: the program in the boot image of a
    board that is developed on.  It receives an Intel HEX file over the serial
    line, writes the bytes to memory and jumps to them on a go command.  The
    bytes [uart_recv] returns are the input; what [uart_send] gets, the delay
    before the start and the jump are recorded in the state.  [PUT8] writes a byte
    of a memory that starts empty; the functions of [periph.c] below it
    are in [Periph]. *)
From Stdlib Require Import Ascii String.
From S2P Require Import Prelude.

Open Scope Z_scope.

(** The character codes of a string literal. *)
Fixpoint chars (s : string) : list Z :=
  match s with
  | EmptyString => []
  | String c s => Z.of_N (N_of_ascii c) :: chars s
  end.
Definition crlf : list Z := [0x0D; 0x0A].

Definition nibble_from_hex (ascii : Z) : Z :=
  if (48 <=? ascii) && (ascii <=? 57) then Z.land ascii 0x0F
  else if (65 <=? ascii) && (ascii <=? 70) then Z.land (ascii - 7) 0x0F
  else -1.

Inductive recv_state :=
  | recv_state_ready
  | recv_state_hex
  | recv_state_binary
  | recv_state_eof
  | recv_state_error.

Inductive ihex_state :=
  | ihex_state_none
  | ihex_state_start
  | ihex_state_addr_hi
  | ihex_state_addr_lo
  | ihex_state_rectype
  | ihex_state_seg_hi
  | ihex_state_seg_lo
  | ihex_state_write_bytes
  | ihex_state_end.

#[export] Instance recv_state_eq_dec : EqDecision recv_state.
Proof. solve_decision. Defined.

(** The locals of [notmain], the memory, and what has left the program: the bytes
    sent, the delay before the start, and the address it has jumped to. *)
Record bl := mkBl {
  recvstate : recv_state;
  datastate : ihex_state;
  byte_count : Z;
  address : Z;
  record_type : Z;
  segment : Z;
  sum : Z;
  start_delay : Z;
  memory : gmap Z Z;
  sent : list Z;
  delayed : Z;
  running : option Z
}.

Definition set_recv (b : bl) (s : recv_state) : bl :=
  mkBl s (datastate b) (byte_count b) (address b) (record_type b) (segment b) (sum b)
    (start_delay b) (memory b) (sent b) (delayed b) (running b).
Definition set_data (b : bl) (s : ihex_state) : bl :=
  mkBl (recvstate b) s (byte_count b) (address b) (record_type b) (segment b) (sum b)
    (start_delay b) (memory b) (sent b) (delayed b) (running b).
Definition set_count (b : bl) (n : Z) : bl :=
  mkBl (recvstate b) (datastate b) n (address b) (record_type b) (segment b) (sum b)
    (start_delay b) (memory b) (sent b) (delayed b) (running b).
Definition set_address (b : bl) (a : Z) : bl :=
  mkBl (recvstate b) (datastate b) (byte_count b) a (record_type b) (segment b) (sum b)
    (start_delay b) (memory b) (sent b) (delayed b) (running b).
Definition set_type (b : bl) (t : Z) : bl :=
  mkBl (recvstate b) (datastate b) (byte_count b) (address b) t (segment b) (sum b)
    (start_delay b) (memory b) (sent b) (delayed b) (running b).
Definition set_segment (b : bl) (s : Z) : bl :=
  mkBl (recvstate b) (datastate b) (byte_count b) (address b) (record_type b) s (sum b)
    (start_delay b) (memory b) (sent b) (delayed b) (running b).
Definition set_sum (b : bl) (n : Z) : bl :=
  mkBl (recvstate b) (datastate b) (byte_count b) (address b) (record_type b) (segment b) n
    (start_delay b) (memory b) (sent b) (delayed b) (running b).
Definition set_delay (b : bl) (d : Z) : bl :=
  mkBl (recvstate b) (datastate b) (byte_count b) (address b) (record_type b) (segment b) (sum b)
    d (memory b) (sent b) (delayed b) (running b).

Definition PUT8 (b : bl) (a v : Z) : bl :=
  mkBl (recvstate b) (datastate b) (byte_count b) (address b) (record_type b) (segment b) (sum b)
    (start_delay b) (<[a := v]> (memory b)) (sent b) (delayed b) (running b).
Definition uart_send (b : bl) (c : Z) : bl :=
  mkBl (recvstate b) (datastate b) (byte_count b) (address b) (record_type b) (segment b) (sum b)
    (start_delay b) (memory b) (sent b ++ [c]) (delayed b) (running b).

Definition uart_send_hex_nibble (b : bl) (rc : Z) : bl :=
  uart_send b (if 9 <? rc then rc + 0x37 else rc + 0x30).

Definition uart_send_hex_byte (b : bl) (val : Z) : bl :=
  uart_send_hex_nibble (uart_send_hex_nibble b (Z.land (val ≫ 4) 0x0f)) (Z.land val 0x0f).

(** The loop ends at the 0 that follows the characters. *)
Fixpoint uart_send_str (b : bl) (psz : list Z) : bl :=
  match psz with
  | [] => b
  | c :: psz => if c =? 0 then b else uart_send_str (uart_send b c) psz
  end.

(** [delay_micros]: the values of [timer_tick] it reads, and the ones it leaves. *)
Fixpoint delay_loop (start period : Z) (ticks : list Z) : option (list Z) :=
  match ticks with
  | [] => None
  | t :: ticks => if t ⊟ start <? period then delay_loop start period ticks else Some ticks
  end.

Definition delay_micros (period : Z) (ticks : list Z) : option (list Z) :=
  match ticks with [] => None | start :: ticks => delay_loop start period ticks end.

Section Bootloader.
(** The width the bootloader is built for, 32 or 64. *)
Context (AARCH : Z).

Definition load_address : Z := if AARCH =? 32 then 0x8000 else 0x80000.

(** [BRANCHTO]: the loaded program runs; the bootloader takes no step any more. *)
Definition BRANCHTO (b : bl) (a : Z) : bl :=
  mkBl (recvstate b) (datastate b) (byte_count b) (address b) (record_type b) (segment b) (sum b)
    (start_delay b) (memory b) (sent b) (start_delay b) (Some a).

Definition restart (b : bl) : bl :=
  uart_send_str
    (mkBl recv_state_ready ihex_state_none 0 0 0 0 0 (start_delay b) (memory b) (sent b) (delayed b) (running b))
    (chars "IHEX-F" ++ crlf).

(** [notmain] up to the first [uart_recv], on memory [mem] *)
Definition power_on (mem : gmap Z Z) : bl :=
  restart (mkBl recv_state_ready ihex_state_none 0 0 0 0 0 10000 mem [] 0 None).

Definition begin_record (b : bl) (s : recv_state) : bl :=
  set_sum (set_data (set_recv b s) ihex_state_start) 0.

Definition format_error (b : bl) (what : string) : bl :=
  set_recv (uart_send_str b (chars what ++ crlf)) recv_state_error.

(** The checksum and the second [switch]. *)
Definition process_byte (b : bl) (ra : Z) : bl :=
  let b := set_sum b (sum b ⊞ ra) in
  match datastate b with
  | ihex_state_none => format_error b "#ERR:internal"
  | ihex_state_start => set_data (set_count b ra) ihex_state_addr_hi
  | ihex_state_addr_hi => set_data (set_address b (u32 (ra ≪ 8))) ihex_state_addr_lo
  | ihex_state_addr_lo => set_data (set_address b (Z.lor (address b) ra)) ihex_state_rectype
  | ihex_state_rectype =>
      let b := set_type b ra in
      if ra =? 0x00 then set_data b ihex_state_write_bytes
      else if (ra =? 0x02) || (ra =? 0x04) then set_data b ihex_state_seg_hi
      else set_data b ihex_state_end
  | ihex_state_write_bytes =>
      let b := PUT8 b (Z.lor (segment b) (address b)) ra in
      let b := set_address b (address b ⊞ 1) in
      let b := set_count b (byte_count b ⊟ 1) in
      if byte_count b =? 0 then set_data b ihex_state_end else b
  | ihex_state_seg_hi =>
      set_data (set_count (set_segment b (u32 (ra ≪ 8))) (byte_count b ⊟ 1)) ihex_state_seg_lo
  | ihex_state_seg_lo =>
      let b := set_segment b (Z.lor (segment b) ra) in
      let b := set_count b (byte_count b ⊟ 1) in
      let b := if record_type b =? 0x04 then set_segment b (u32 (segment b ≪ 16))
               else set_segment b (u32 (segment b ≪ 4)) in
      set_data b ihex_state_end
  | ihex_state_end =>
      if byte_count b =? 0 then
        if negb (Z.land (sum b) 0xFF =? 0) then format_error b "#ERR:checksum"
        else if record_type b =? 0x01 then
          set_recv (uart_send_str b (chars "#EOF:ok" ++ crlf)) recv_state_eof
        else set_recv b recv_state_ready
      else set_count b (byte_count b ⊟ 1)
  end.

(** The digits of a start delay: the value, and the input after the character
    that ends them. *)
Fixpoint read_delay (d : Z) (input : list Z) : option (Z * list Z) :=
  match input with
  | [] => None
  | c :: input =>
      let nibble := nibble_from_hex c in
      if 0 <=? nibble then read_delay (Z.lor (u32 (d ≪ 4)) nibble) input else Some (d, input)
  end.

Definition go (b : bl) : bl :=
  BRANCHTO (uart_send_str b [0x0D; 45; 45; 0x0D; 0x0A; 0x0A]) load_address.

(** One round of the [while] loop; [None]: the program waits in [uart_recv] for
    more than there is, or has been left. *)
Definition notmain_step (b : bl) (input : list Z) : option (bl * list Z) :=
  match running b, input with
  | Some _, _ | _, [] => None
  | None, ra :: input =>
      if (ra =? 82) && negb (bool_decide (recvstate b = recv_state_binary)) then Some (restart b, input) else
      match recvstate b with
      | recv_state_ready =>
          if ra =? 58 then Some (begin_record b recv_state_hex, input)
          else if ra =? 61 then Some (begin_record b recv_state_binary, input)
          else if (ra =? 0x0D) || (ra =? 0x0A) then Some (b, input)
          else if ra =? 0x80 then Some (b, input)
          else Some (format_error b "#ERR:format", input)
      | recv_state_hex =>
          match input with
          | [] => None
          | rb :: input =>
              let hi := nibble_from_hex ra in
              let lo := nibble_from_hex rb in
              if (hi <? 0) || (lo <? 0) then Some (format_error b "#ERR:hex", input)
              else Some (process_byte b (Z.lor (hi ≪ 4) lo), input)
          end
      | recv_state_binary => Some (process_byte b ra, input)
      | recv_state_eof =>
          if ra =? 115 then
            match read_delay 0 input with
            | None => None
            | Some (d, input) => Some (set_delay b d, input)
            end
          else if (ra =? 103) || (ra =? 71) then Some (go b, input)
          else Some (b, input)
      | recv_state_error => Some (b, input)
      end
  end.

(** The rounds of the loop on some input, and the input that is left. *)
Fixpoint notmain_loop (fuel : nat) (b : bl) (input : list Z) : bl * list Z :=
  match fuel with
  | O => (b, input)
  | S fuel =>
      match notmain_step b input with
      | None => (b, input)
      | Some (b, input) => notmain_loop fuel b input
      end
  end.

Definition notmain (b : bl) (input : list Z) : bl * list Z := notmain_loop (length input) b input.

(** ** Reading the input in pieces *)

Lemma read_delay_app d input k x r : read_delay d input = Some (x, r) → read_delay d (input ++ k) = Some (x, r ++ k).
Proof.
  revert d. induction input as [|c input IH]; intros d H; [done|]. cbn [read_delay app] in *.
  destruct (0 <=? nibble_from_hex c); [by apply IH | by simplify_eq].
Qed.

Lemma read_delay_length d input x r : read_delay d input = Some (x, r) → (length r < length input)%nat.
Proof.
  revert d. induction input as [|c input IH]; intros d H; [done|]. cbn [read_delay length] in *.
  destruct (0 <=? nibble_from_hex c); [apply IH in H; lia | simplify_eq; lia].
Qed.

Lemma step_app b i k b' r : notmain_step b i = Some (b', r) → notmain_step b (i ++ k) = Some (b', r ++ k).
Proof.
  unfold notmain_step. destruct (running b); [done|]. destruct i as [|ra i]; [done|]. cbn [app].
  destruct (_ && _); [by intros [= <- <-]|]. destruct (recvstate b).
  - intros H. repeat case_match; by simplify_eq.
  - destruct i as [|rb i]; [done|]. cbn [app]. destruct (_ || _); by intros [= <- <-].
  - by intros [= <- <-].
  - destruct (ra =? 115).
    + destruct (read_delay 0 i) as [[d r']|] eqn:E; [|done]. intros [= <- <-].
      by rewrite (read_delay_app _ _ k _ _ E).
    + destruct (_ || _); by intros [= <- <-].
  - by intros [= <- <-].
Qed.

Lemma step_length b i b' r : notmain_step b i = Some (b', r) → (length r < length i)%nat.
Proof.
  unfold notmain_step. destruct (running b); [done|]. destruct i as [|ra i]; [done|].
  intros H. repeat case_match; simplify_eq; cbn; try lia.
  match goal with H1 : read_delay _ _ = _ |- _ => apply read_delay_length in H1; lia end.
Qed.

Lemma step_nil b : notmain_step b [] = None.
Proof. unfold notmain_step. by destruct (running b). Qed.

Lemma notmain_fuel n : ∀ b i, (length i ≤ n)%nat → notmain_loop n b i = notmain b i.
Proof.
  assert (H : ∀ n m b i, (length i ≤ n)%nat → (length i ≤ m)%nat → notmain_loop n b i = notmain_loop m b i).
  { clear n. induction n as [|n IH]; intros m b i Hn Hm.
    - destruct i; [|cbn in Hn; lia]. destruct m; [done|]. cbn [notmain_loop]. by rewrite step_nil.
    - destruct m as [|m]; [destruct i; [|cbn in Hm; lia]; cbn [notmain_loop]; by rewrite step_nil|].
      cbn [notmain_loop]. destruct (notmain_step b i) as [[b' r]|] eqn:E; [|done].
      apply step_length in E. apply IH; lia. }
  intros b i Hi. apply H; lia.
Qed.

Lemma notmain_step_eq b i b' r : notmain_step b i = Some (b', r) → notmain b i = notmain b' r.
Proof.
  intros E. pose proof (step_length _ _ _ _ E) as Hl. unfold notmain at 1.
  destruct i as [|x i]; [cbn in Hl; lia|]. cbn [length notmain_loop]. rewrite E.
  apply notmain_fuel. cbn in Hl. lia.
Qed.

Lemma notmain_stuck b i : notmain_step b i = None → notmain b i = (b, i).
Proof. intros E. unfold notmain. destruct i; [done|]. cbn [length notmain_loop]. by rewrite E. Qed.

(** What is done with some input, and then with more. *)
Lemma notmain_app i : ∀ b b' k, notmain b i = (b', []) → notmain b (i ++ k) = notmain b' k.
Proof.
  induction i as [i IH] using (induction_ltof1 _ length). unfold ltof in IH. intros b b' k H.
  destruct (notmain_step b i) as [[b1 r]|] eqn:E.
  - rewrite (notmain_step_eq _ _ _ _ E) in H. pose proof (step_length _ _ _ _ E).
    rewrite (notmain_step_eq _ _ _ _ (step_app _ _ k _ _ E)). by apply IH.
  - rewrite (notmain_stuck _ _ E) in H. by simplify_eq.
Qed.

Lemma notmain_cons b x i b' : notmain_step b [x] = Some (b', []) → notmain b (x :: i) = notmain b' i.
Proof. intros E. apply (notmain_step_eq _ (x :: i)). by apply (step_app _ [x] i _ []). Qed.

(** All input is read, or the program waits within a record or has been left. *)
Lemma notmain_stops b i b' r : notmain b i = (b', r) → notmain_step b' r = None.
Proof.
  revert b. induction i as [i IH] using (induction_ltof1 _ length). unfold ltof in IH. intros b H.
  destruct (notmain_step b i) as [[b1 r1]|] eqn:E.
  - rewrite (notmain_step_eq _ _ _ _ E) in H. eapply IH; [|exact H]. by eapply step_length.
  - rewrite (notmain_stuck _ _ E) in H. by simplify_eq.
Qed.

(** ** Hexadecimal digits *)

Definition hex_digit (n : Z) : Z := if 9 <? n then n + 0x37 else n + 0x30.
Definition hex_byte (x : Z) : list Z := [hex_digit (x / 16); hex_digit (x `mod` 16)].

Lemma nibble_hex_digit n : 0 ≤ n < 16 → nibble_from_hex (hex_digit n) = n.
Proof.
  intros Hn. assert (Hall : Forall (λ n, nibble_from_hex (hex_digit n) = n) (seqZ 0 16)).
  { apply (bool_decide_eq_true_1 _). vm_compute. reflexivity. }
  rewrite Forall_forall in Hall. apply Hall, elem_of_seqZ. lia.
Qed.

Lemma hex_digit_not_R n : 0 ≤ n < 16 → hex_digit n ≠ 82.
Proof. intros Hn. unfold hex_digit. zcases; lia. Qed.

Lemma lor_nibbles x : byte x → Z.lor ((x / 16) ≪ 4) (x `mod` 16) = x.
Proof.
  intros Hx. rewrite lor_shiftl_add by (pose proof (Z.mod_pos_bound x 16); lia).
  pose proof (Z.div_mod x 16). lia.
Qed.

(** The bytes of a record on the line: as they are, or as digits. *)
Definition on_line (m : recv_state) (bs : list Z) : list Z :=
  match m with recv_state_hex => concat (hex_byte <$> bs) | _ => bs end.

Definition record_mode (m : recv_state) : Prop := m = recv_state_hex ∨ m = recv_state_binary.

Lemma on_line_cons m x bs : record_mode m → on_line m (x :: bs) = on_line m [x] ++ on_line m bs.
Proof. by intros [-> | ->]. Qed.

Lemma byte_on_line m b x k : record_mode m → recvstate b = m → running b = None → byte x →
  notmain b (on_line m [x] ++ k) = notmain (process_byte b x) k.
Proof.
  intros [-> | ->] Hm Hr Hx; cbn [on_line].
  - apply notmain_app. apply (notmain_step_eq b _ (process_byte b x) []). unfold notmain_step. rewrite Hr, Hm.
    cbn [fmap list_fmap concat hex_byte app].
    assert (Hhi : 0 ≤ x / 16 < 16) by (unfold uword in Hx; split; [apply Z.div_pos | apply Z.div_lt_upper_bound]; lia).
    assert (Hlo : 0 ≤ x `mod` 16 < 16) by (apply Z.mod_pos_bound; lia).
    rewrite (proj2 (Z.eqb_neq _ _) (hex_digit_not_R _ Hhi)). cbn [andb].
    rewrite !nibble_hex_digit, (proj2 (Z.ltb_ge _ 0)), (proj2 (Z.ltb_ge _ 0)) by lia. cbn [orb].
    by rewrite lor_nibbles.
  - apply notmain_app. apply (notmain_step_eq b _ (process_byte b x) []). unfold notmain_step. rewrite Hr, Hm.
    cbn [app]. rewrite bool_decide_true, andb_false_r by done. done.
Qed.

(** ** Records of a hex file *)

Record record := mkRec { r_addr : Z; r_type : Z; r_data : list Z }.

Definition zsum (l : list Z) : Z := foldr Z.add 0 l.

Definition record_body (r : record) : list Z :=
  [Z.of_nat (length (r_data r)); r_addr r / 256; r_addr r `mod` 256; r_type r] ++ r_data r.
Definition checksum (r : record) : Z := (- zsum (record_body r)) `mod` 256.

(** A record the bootloader can frame: data records have data, records with a
    segment have one. *)
Record framed (r : record) : Prop := {
  fr_addr : is_u16 (r_addr r);
  fr_type : byte (r_type r);
  fr_data : Forall byte (r_data r);
  fr_length : (length (r_data r) ≤ 255)%nat;
  fr_write : r_type r = 0 → r_data r ≠ [] ∧ r_addr r + Z.of_nat (length (r_data r)) ≤ 65536;
  fr_segment : r_type r = 2 ∨ r_type r = 4 → (2 ≤ length (r_data r))%nat
}.

Fixpoint put_bytes (mem : gmap Z Z) (a : Z) (data : list Z) : gmap Z Z :=
  match data with [] => mem | x :: data => put_bytes (<[a := x]> mem) (a + 1) data end.

Definition be16 (l : list Z) : Z := match l with x :: y :: _ => x * 256 + y | _ => 0 end.

(** What a record means: it sets the base address, or puts its data at an offset. *)
Definition load_record (st : Z * gmap Z Z) (r : record) : Z * gmap Z Z :=
  let '(base, mem) := st in
  if r_type r =? 0 then (base, put_bytes mem (base + r_addr r) (r_data r))
  else if r_type r =? 2 then (be16 (r_data r) * 16, mem)
  else if r_type r =? 4 then (be16 (r_data r) * 65536, mem)
  else (base, mem).

Definition base_ok (base : Z) : Prop := 0 ≤ base < 2 ^ 32 ∧ (65536 | base).

(** ** A record on the line *)

Definition in_record (b : bl) (m : recv_state) (ds : ihex_state) (n a t seg s : Z) (mem : gmap Z Z) : bl :=
  mkBl m ds n a t seg s (start_delay b) mem (sent b) (delayed b) None.

Section record.
Variables (b : bl) (m : recv_state).
Hypothesis mode : record_mode m.

Lemma in_record_byte ds n a t seg s mem x k : byte x →
  notmain (in_record b m ds n a t seg s mem) (on_line m [x] ++ k)
  = notmain (process_byte (in_record b m ds n a t seg s mem) x) k.
Proof. intros Hx. by apply byte_on_line. Qed.

Definition after_type (t : Z) : ihex_state :=
  if t =? 0 then ihex_state_write_bytes
  else if (t =? 2) || (t =? 4) then ihex_state_seg_hi else ihex_state_end.

(** What one byte does in each state of a record. *)
Lemma process_start n a t seg s mem x : process_byte (in_record b m ihex_state_start n a t seg s mem) x
  = in_record b m ihex_state_addr_hi x a t seg (s ⊞ x) mem.
Proof. done. Qed.
Lemma process_addr_hi n a t seg s mem x : process_byte (in_record b m ihex_state_addr_hi n a t seg s mem) x
  = in_record b m ihex_state_addr_lo n (u32 (x ≪ 8)) t seg (s ⊞ x) mem.
Proof. done. Qed.
Lemma process_addr_lo n a t seg s mem x : process_byte (in_record b m ihex_state_addr_lo n a t seg s mem) x
  = in_record b m ihex_state_rectype n (Z.lor a x) t seg (s ⊞ x) mem.
Proof. done. Qed.
Lemma process_rectype n a t seg s mem x : process_byte (in_record b m ihex_state_rectype n a t seg s mem) x
  = in_record b m (after_type x) n a x seg (s ⊞ x) mem.
Proof. unfold after_type. cbn. by destruct (x =? 0), ((x =? 2) || (x =? 4)). Qed.
Lemma process_write n a t seg s mem x : process_byte (in_record b m ihex_state_write_bytes n a t seg s mem) x
  = in_record b m (if n ⊟ 1 =? 0 then ihex_state_end else ihex_state_write_bytes) (n ⊟ 1) (a ⊞ 1) t seg
      (s ⊞ x) (<[Z.lor seg a := x]> mem).
Proof. cbn. by destruct (n ⊟ 1 =? 0). Qed.
Lemma process_seg_hi n a t seg s mem x : process_byte (in_record b m ihex_state_seg_hi n a t seg s mem) x
  = in_record b m ihex_state_seg_lo (n ⊟ 1) a t (u32 (x ≪ 8)) (s ⊞ x) mem.
Proof. done. Qed.
Lemma process_seg_lo n a t seg s mem x : process_byte (in_record b m ihex_state_seg_lo n a t seg s mem) x
  = in_record b m ihex_state_end (n ⊟ 1) a t
      (u32 (Z.lor seg x ≪ (if t =? 4 then 16 else 4))) (s ⊞ x) mem.
Proof. cbn. by destruct (t =? 4). Qed.
Lemma process_skip n a t seg s mem x : n ≠ 0 →
  process_byte (in_record b m ihex_state_end n a t seg s mem) x
  = in_record b m ihex_state_end (n ⊟ 1) a t seg (s ⊞ x) mem.
Proof. intros Hn. cbn. by rewrite (proj2 (Z.eqb_neq n 0) Hn). Qed.

Lemma header_bytes n0 a0 t0 seg mem n a t k : byte n → is_u16 a → byte t →
  notmain (in_record b m ihex_state_start n0 a0 t0 seg 0 mem)
    (on_line m [n; a / 256; a `mod` 256; t] ++ k)
  = notmain (in_record b m (after_type t) n a t seg (n + a / 256 + a `mod` 256 + t) mem) k.
Proof.
  intros Hn Ha Ht. unfold uword in *.
  assert (Hhi : 0 ≤ a / 256 < 256) by (split; [apply Z.div_pos | apply Z.div_lt_upper_bound]; lia).
  assert (Hlo : 0 ≤ a `mod` 256 < 256) by (apply Z.mod_pos_bound; lia).
  rewrite (on_line_cons m n), (on_line_cons m (a / 256)), (on_line_cons m (a `mod` 256)), <- !app_assoc by done.
  rewrite in_record_byte, process_start by done.
  rewrite in_record_byte, process_addr_hi by done.
  rewrite in_record_byte, process_addr_lo by done.
  rewrite in_record_byte, process_rectype by done.
  assert (E : u32 ((a / 256) ≪ 8) = (a / 256) ≪ 8).
  { apply wrap_small. unfold uword. rewrite Z.shiftl_mul_pow2 by lia. lia. }
  rewrite E, lor_shiftl_add by lia.
  rewrite (wrap_small 32 (0 + n)), (wrap_small 32 (0 + n + a / 256)),
    (wrap_small 32 (0 + n + a / 256 + a `mod` 256)), (wrap_small 32 (0 + n + a / 256 + a `mod` 256 + t))
    by (unfold uword; lia).
  do 2 f_equal. pose proof (Z.div_mod a 256). lia.
Qed.

Lemma base_lor seg a : base_ok seg → is_u16 a → Z.lor seg a = seg + a.
Proof.
  intros [_ [q ->]] Ha. unfold uword in Ha.
  rewrite <- (Z.shiftl_mul_pow2 q 16) at 1 by lia. by rewrite lor_shiftl_add.
Qed.

Lemma write_data data : ∀ a t seg s mem k, Forall byte data → data ≠ [] → (length data ≤ 255)%nat →
  is_u16 a → a + Z.of_nat (length data) ≤ 65536 → base_ok seg →
  0 ≤ s → s + 256 * Z.of_nat (length data) ≤ 2 ^ 20 →
  ∃ a', notmain (in_record b m ihex_state_write_bytes (Z.of_nat (length data)) a t seg s mem)
    (on_line m data ++ k)
  = notmain (in_record b m ihex_state_end 0 a' t seg (s + zsum data) (put_bytes mem (seg + a) data)) k.
Proof.
  induction data as [|x data IH]; intros a t seg s mem k Hd Hne Hl Ha Hal Hseg Hs Hs'; [done|].
  apply Forall_cons in Hd as [Hx Hd]. cbn [length] in *.
  rewrite on_line_cons, <- app_assoc, in_record_byte, process_write, base_lor by done.
  unfold uword in Hx, Ha. rewrite (wrap_sub_small 32 (Z.of_nat _)) by lia.
  replace (Z.of_nat (S (length data)) - 1) with (Z.of_nat (length data)) by lia.
  cbn [zsum foldr put_bytes]. fold (zsum data).
  rewrite (wrap_small 32 (a + 1)), (wrap_small 32 (s + x)) by (unfold uword; lia).
  destruct data as [|y data].
  - exists (a + 1). cbn [length zsum foldr put_bytes]. rewrite Z.add_0_r.
    by destruct mode as [-> | ->].
  - rewrite (proj2 (Z.eqb_neq _ 0)) by (cbn [length]; lia).
    destruct (IH (a + 1) t seg (s + x) (<[seg + a := x]> mem) k) as (a' & E);
      [done | done | lia | unfold uword; cbn [length] in *; lia | lia | done | lia | lia |].
    exists a'. rewrite (Z.add_assoc s x). rewrite <- (Z.add_assoc seg a 1). exact E.
Qed.

Lemma skip_data data : ∀ a t seg s mem k, Forall byte data → (length data ≤ 255)%nat →
  0 ≤ s → s + 256 * Z.of_nat (length data) ≤ 2 ^ 20 →
  notmain (in_record b m ihex_state_end (Z.of_nat (length data)) a t seg s mem) (on_line m data ++ k)
  = notmain (in_record b m ihex_state_end 0 a t seg (s + zsum data) mem) k.
Proof.
  induction data as [|x data IH]; intros a t seg s mem k Hd Hl Hs Hs'.
  - cbn [length zsum foldr]. rewrite Z.add_0_r. by destruct mode as [-> | ->].
  - apply Forall_cons in Hd as [Hx Hd]. cbn [length] in *. unfold uword in Hx.
    rewrite on_line_cons, <- app_assoc, in_record_byte, process_skip by (done || lia).
    rewrite (wrap_sub_small 32 (Z.of_nat _)) by lia.
    replace (Z.of_nat (S (length data)) - 1) with (Z.of_nat (length data)) by lia.
    rewrite (wrap_small 32 (s + x)) by (unfold uword; lia).
    rewrite IH by (done || lia). cbn [zsum foldr]. fold (zsum data). by rewrite Z.add_assoc.
Qed.

Lemma segment_data x y data a t seg s mem k : byte x → byte y → Forall byte data →
  (length data ≤ 253)%nat → t = 2 ∨ t = 4 → 0 ≤ s → s + 256 * Z.of_nat (2 + length data) ≤ 2 ^ 20 →
  notmain (in_record b m ihex_state_seg_hi (Z.of_nat (2 + length data)) a t seg s mem)
    (on_line m (x :: y :: data) ++ k)
  = notmain (in_record b m ihex_state_end 0 a t ((x * 256 + y) * (if t =? 4 then 65536 else 16))
      (s + zsum (x :: y :: data)) mem) k.
Proof.
  intros Hx Hy Hd Hl Ht Hs Hs'. unfold uword in *.
  rewrite on_line_cons, <- app_assoc, in_record_byte, process_seg_hi by done.
  rewrite on_line_cons, <- app_assoc, in_record_byte, process_seg_lo by done.
  assert (E : u32 (x ≪ 8) = x ≪ 8).
  { apply wrap_small. unfold uword. rewrite Z.shiftl_mul_pow2 by lia. lia. }
  rewrite E, lor_shiftl_add by lia. clear E.
  rewrite (wrap_sub_small 32 (Z.of_nat _)), wrap_sub_small by lia.
  replace (Z.of_nat (2 + length data) - 1 - 1) with (Z.of_nat (length data)) by lia.
  rewrite (wrap_small 32 (s + x)), (wrap_small 32 (s + x + y)) by (unfold uword; lia).
  rewrite skip_data by (done || lia).
  assert (E : u32 ((x * 2 ^ 8 + y) ≪ (if t =? 4 then 16 else 4))
    = (x * 256 + y) * (if t =? 4 then 65536 else 16)).
  { rewrite wrap_small; destruct (t =? 4); rewrite Z.shiftl_mul_pow2 by lia; try lia; unfold uword; lia. }
  rewrite E. cbn [zsum foldr]. fold (zsum data). do 2 f_equal. lia.
Qed.
End record.

Definition set_sent (b : bl) (l : list Z) : bl :=
  mkBl (recvstate b) (datastate b) (byte_count b) (address b) (record_type b) (segment b) (sum b)
    (start_delay b) (memory b) l (delayed b) (running b).

Lemma send_str psz : ∀ b, Forall (λ c, c ≠ 0) psz → uart_send_str b psz = set_sent b (sent b ++ psz).
Proof.
  induction psz as [|c psz IH]; intros b Hp; cbn [uart_send_str].
  - rewrite app_nil_r. by destruct b.
  - apply Forall_cons in Hp as [Hc Hp]. rewrite (proj2 (Z.eqb_neq c 0) Hc), IH by done.
    unfold set_sent, uart_send. cbn. by rewrite <- app_assoc.
Qed.

Lemma no_zero psz : bool_decide (Forall (λ c, c ≠ 0) psz) = true → Forall (λ c, c ≠ 0) psz.
Proof. apply (bool_decide_eq_true_1 _). Qed.

(** *** A whole record *)

Definition mark (m : recv_state) : Z := match m with recv_state_hex => 58 | _ => 61 end.

Definition record_ok (r : record) (ck : Z) : bool := (zsum (record_body r) + ck) `mod` 256 =? 0.
Definition record_state (r : record) (ok : bool) : recv_state :=
  if ok then if r_type r =? 1 then recv_state_eof else recv_state_ready else recv_state_error.
Definition record_reply (r : record) (ok : bool) : list Z :=
  if ok then if r_type r =? 1 then chars "#EOF:ok" ++ crlf else []
  else chars "#ERR:checksum" ++ crlf.

(** The state after record [r]. *)
Record after_record (b : bl) (r : record) (ok : bool) (b' : bl) : Prop := {
  ar_state : recvstate b' = record_state r ok;
  ar_load : (segment b', memory b') = load_record (segment b, memory b) r;
  ar_sent : sent b' = sent b ++ record_reply r ok;
  ar_running : running b' = None;
  ar_delay : start_delay b' = start_delay b ∧ delayed b' = delayed b
}.

Lemma begin_record_eq b m : record_mode m → recvstate b = recv_state_ready → running b = None →
  ∀ k, notmain b (mark m :: k)
  = notmain (in_record b m ihex_state_start (byte_count b) (address b) (record_type b) (segment b) 0 (memory b)) k.
Proof.
  intros Hm Hr Hrun k. apply notmain_cons. unfold notmain_step. rewrite Hrun, Hr.
  rewrite bool_decide_false, andb_true_r by done.
  destruct Hm as [-> | ->]; cbn [mark Z.eqb Pos.eqb]; unfold begin_record, in_record; cbn; by rewrite <- Hrun.
Qed.

Lemma zsum_app l l' : zsum (l ++ l') = zsum l + zsum l'.
Proof. induction l as [|x l IH]; [done|]. cbn [app zsum foldr]. fold (zsum (l ++ l')) (zsum l). lia. Qed.

Lemma zsum_bound l : Forall byte l → 0 ≤ zsum l ≤ 256 * Z.of_nat (length l).
Proof.
  induction 1 as [|x l Hx Hl IH]; [done|]. unfold uword in Hx. cbn [zsum foldr length]. fold (zsum l). lia.
Qed.

Lemma on_line_app m bs bs' : record_mode m → on_line m (bs ++ bs') = on_line m bs ++ on_line m bs'.
Proof. intros [-> | ->]; cbn [on_line]; [by rewrite fmap_app, concat_app | done]. Qed.

(** The data of a record, whatever its type. *)
Lemma record_data b m r s k : record_mode m → base_ok (segment b) → framed r → 0 ≤ s ≤ 1024 →
  ∃ a', notmain (in_record b m (after_type (r_type r)) (Z.of_nat (length (r_data r))) (r_addr r) (r_type r)
      (segment b) s (memory b)) (on_line m (r_data r) ++ k)
  = notmain (in_record b m ihex_state_end 0 a' (r_type r)
      (fst (load_record (segment b, memory b) r)) (s + zsum (r_data r))
      (snd (load_record (segment b, memory b) r))) k.
Proof.
  intros Hm Hbase [Ha Ht Hd Hl Hw Hs0] Hs. unfold after_type, load_record.
  destruct (Z.eqb_spec (r_type r) 0) as [E0|E0].
  { destruct (Hw E0) as [Hne Hal]. apply write_data; [done.. | lia | lia]. }
  destruct ((r_type r =? 2) || (r_type r =? 4)) eqn:E.
  - assert (Ht' : r_type r = 2 ∨ r_type r = 4) by (apply orb_true_iff in E as [E|E]; apply Z.eqb_eq in E; auto).
    specialize (Hs0 Ht'). destruct (r_data r) as [|x [|y data]] eqn:Ed; cbn [length] in *; [lia..|].
    apply Forall_cons in Hd as [Hx Hd]. apply Forall_cons in Hd as [Hy Hd].
    exists (r_addr r). change (S (S (length data))) with (2 + length data)%nat.
    rewrite segment_data by (done || lia).
    by destruct Ht' as [-> | ->].
  - apply orb_false_iff in E as [E2 E4]. rewrite E2, E4. exists (r_addr r).
    apply skip_data; [done..| lia | lia].
Qed.

Lemma record_line b m r ck k : record_mode m → recvstate b = recv_state_ready → running b = None →
  base_ok (segment b) → framed r → byte ck →
  ∃ b', notmain b (mark m :: on_line m (record_body r ++ [ck]) ++ k) = notmain b' k ∧
    after_record b r (record_ok r ck) b'.
Proof.
  intros Hm Hr Hrun Hbase Hf Hck. pose proof Hf as [Ha Ht Hd Hl Hw Hs0].
  pose proof (zsum_bound _ Hd) as Hz. unfold uword in Ha, Ht, Hck.
  assert (Hhi : 0 ≤ r_addr r / 256 < 256) by (split; [apply Z.div_pos | apply Z.div_lt_upper_bound]; lia).
  assert (Hlo : 0 ≤ r_addr r `mod` 256 < 256) by (apply Z.mod_pos_bound; lia).
  rewrite begin_record_eq by done. unfold record_body.
  rewrite !on_line_app, <- !app_assoc by done.
  rewrite header_bytes by (done || unfold uword; lia).
  set (s := Z.of_nat (length (r_data r)) + r_addr r / 256 + r_addr r `mod` 256 + r_type r).
  destruct (record_data b m r s (on_line m [ck] ++ k)) as (a' & ->); [done..| unfold s; lia|].
  rewrite in_record_byte by done.
  eexists. split; [done|].
  assert (Esum : (s + zsum (r_data r)) ⊞ ck = zsum (record_body r) + ck).
  { rewrite wrap_small by (unfold uword, s; lia). unfold record_body. rewrite zsum_app. cbn [zsum foldr].
    unfold s. lia. }
  cbn [process_byte in_record set_sum sum datastate byte_count Z.eqb record_type]. rewrite Esum.
  change 0xFF with 255. rewrite land_255. unfold record_ok.
  destruct ((zsum (record_body r) + ck) `mod` 256 =? 0); cbn [negb].
  - destruct (r_type r =? 1) eqn:E1.
    + rewrite send_str by (apply no_zero; vm_compute; reflexivity).
      split; cbn; unfold record_state, record_reply; rewrite ?E1; try done. symmetry; apply surjective_pairing.
    + split; cbn; unfold record_state, record_reply; rewrite ?E1, ?app_nil_r; try done. symmetry; apply surjective_pairing.
  - unfold format_error. rewrite send_str by (apply no_zero; vm_compute; reflexivity).
    split; cbn; unfold record_state, record_reply; try done. symmetry; apply surjective_pairing.
Qed.

(** ** Hex files *)

Definition record_bytes (r : record) : list Z := record_body r ++ [checksum r].

Lemma checksum_byte r : byte (checksum r).
Proof. unfold checksum, uword. pose proof (Z.mod_pos_bound (- zsum (record_body r)) 256). lia. Qed.

Lemma checksum_ok r : record_ok r (checksum r) = true.
Proof.
  apply Z.eqb_eq. unfold checksum. rewrite Z.add_mod_idemp_r by lia. by rewrite Z.add_opp_diag_r.
Qed.

(** A record of the body of a file; a segment base that is no multiple of 64K
    would overlap with the offsets. *)
Record body_record (r : record) : Prop := {
  br_framed : framed r;
  br_type : r_type r ≠ 1;
  br_base : r_type r = 2 → (4096 | be16 (r_data r))
}.

Definition end_record : record := mkRec 0 1 [].

(** A record as a line: what follows it is ignored by the bootloader. *)
Definition line (m : recv_state) (sep : list Z) (r : record) : list Z :=
  mark m :: on_line m (record_bytes r) ++ sep.
Definition blank (c : Z) : Prop := c = 0x0D ∨ c = 0x0A ∨ c = 0x80.

(** The lines of a file with its end record. *)
Definition file_lines (m : recv_state) (sep : list Z) (rs : list record) : list Z :=
  concat (line m sep <$> rs) ++ line m sep end_record.

Definition settled (b : bl) : Prop :=
  running b = None ∧ (recvstate b = recv_state_ready ∨ recvstate b = recv_state_eof ∨ recvstate b = recv_state_error).

Lemma settled_blank b c k : settled b → blank c → notmain b (c :: k) = notmain b k.
Proof.
  intros [Hrun Hs] Hc. apply notmain_cons. unfold notmain_step. rewrite Hrun.
  destruct Hs as [-> | [-> | ->]]; by destruct Hc as [-> | [-> | ->]].
Qed.

Lemma settled_blanks b sep k : settled b → Forall blank sep → notmain b (sep ++ k) = notmain b k.
Proof.
  intros Hb. induction 1 as [|c sep Hc Hsep IH]; [done|]. cbn [app]. by rewrite settled_blank.
Qed.

Lemma load_base_ok st r : base_ok (fst st) → body_record r → base_ok (fst (load_record st r)).
Proof.
  destruct st as [base mem]. cbn [fst]. intros Hb [[_ _ Hd _ _ Hs] _ H2]. unfold load_record.
  destruct (r_type r =? 0); [done|].
  destruct (Z.eqb_spec (r_type r) 2) as [E|_]; [|destruct (Z.eqb_spec (r_type r) 4) as [E|_]; [|done]].
  all: assert (Hl : (2 ≤ length (r_data r))%nat) by auto.
  all: destruct (r_data r) as [|x [|y data]]; cbn [length] in Hl; [lia..|]; cbn [be16 fst] in *.
  all: apply Forall_cons in Hd as [Hx Hd]; apply Forall_cons in Hd as [Hy _]; unfold uword in *.
  - destruct (H2 E) as [q Hq]. split; [lia|]. exists q. lia.
  - split; [lia|]. by exists (x * 256 + y).
Qed.

Lemma body_lines m sep rs : record_mode m → Forall blank sep → Forall body_record rs → ∀ b k,
  recvstate b = recv_state_ready → running b = None → base_ok (segment b) →
  ∃ b', notmain b (concat (line m sep <$> rs) ++ k) = notmain b' k ∧ recvstate b' = recv_state_ready ∧
    (segment b', memory b') = fold_left load_record rs (segment b, memory b) ∧
    base_ok (segment b') ∧ sent b' = sent b ∧ running b' = None ∧
    start_delay b' = start_delay b ∧ delayed b' = delayed b.
Proof.
  intros Hm Hsep. induction 1 as [|r rs Hr Hrs IH]; intros b k Hready Hrun Hbase.
  { exists b. by rewrite app_nil_l. }
  cbn [fmap list_fmap concat]. unfold line at 1. unfold record_bytes. cbn [app]. rewrite <- !app_assoc.
  destruct (record_line b m r (checksum r) (sep ++ concat (line m sep <$> rs) ++ k) Hm Hready Hrun Hbase
    (br_framed r Hr) (checksum_byte r)) as (b1 & E & [Hs Hload Hsent Hrun1 [Hd1 Hd2]]).
  rewrite checksum_ok in *. unfold record_state, record_reply in *.
  rewrite (proj2 (Z.eqb_neq _ 1) (br_type r Hr)) in *. rewrite app_nil_r in Hsent.
  assert (Hset : settled b1) by (split; [done | by left]).
  rewrite E, settled_blanks by done.
  assert (Hb1 : base_ok (segment b1)).
  { pose proof (load_base_ok (segment b, memory b) r Hbase Hr) as H. by rewrite <- Hload in H. }
  destruct (IH b1 k Hs Hrun1 Hb1) as (b2 & -> & Hs2 & Hl2 & Hb2 & Hsent2 & Hrun2 & Hd3 & Hd4).
  exists b2. rewrite Hload in Hl2. cbn [fold_left]. by rewrite Hsent2, Hsent, Hd3, Hd4.
Qed.

Lemma end_record_framed : framed end_record.
Proof. split; cbn; unfold uword; [lia | lia | constructor | lia | lia | lia]. Qed.

Lemma file_loaded m sep rs b : record_mode m → Forall blank sep → Forall body_record rs →
  recvstate b = recv_state_ready → running b = None → base_ok (segment b) →
  ∃ b', (∀ k, notmain b (file_lines m sep rs ++ k) = notmain b' k) ∧ recvstate b' = recv_state_eof ∧
    memory b' = snd (fold_left load_record rs (segment b, memory b)) ∧
    sent b' = sent b ++ chars "#EOF:ok" ++ crlf ∧ running b' = None ∧
    start_delay b' = start_delay b ∧ delayed b' = delayed b.
Proof.
  intros Hm Hsep Hrs Hready Hrun Hbase.
  destruct (body_lines m sep rs Hm Hsep Hrs b [] Hready Hrun Hbase)
    as (b1 & E1 & Hs1 & Hl1 & Hb1 & Hsent1 & Hrun1 & Hd1 & Hd1').
  rewrite app_nil_r in E1. change (notmain b1 []) with (b1, @nil Z) in E1.
  destruct (record_line b1 m end_record (checksum end_record) [] Hm Hs1 Hrun1 Hb1
    end_record_framed (checksum_byte _)) as (b2 & E2 & [Hs2 Hl2 Hsent2 Hrun2 [Hd2 Hd2']]).
  rewrite checksum_ok in *. rewrite app_nil_r in E2. change (notmain b2 []) with (b2, @nil Z) in E2.
  assert (Hset : settled b2) by (split; [done | by right; left]).
  exists b2. split; [|split; [done|split; [|split; [|split; [done|]]]]].
  - intros k. unfold file_lines. rewrite <- app_assoc, (notmain_app _ _ _ _ E1).
    unfold line. cbn [app]. rewrite <- app_assoc.
    change (mark m :: on_line m (record_bytes end_record) ++ sep ++ k)
      with ((mark m :: on_line m (record_body end_record ++ [checksum end_record])) ++ sep ++ k).
    by rewrite (notmain_app _ _ _ _ E2), settled_blanks.
  - apply (f_equal snd) in Hl1, Hl2. cbn [snd] in *. rewrite Hl2, <- Hl1. done.
  - by rewrite Hsent2, Hsent1.
  - by rewrite Hd2, Hd1, Hd2', Hd1'.
Qed.

Lemma go_run b k : recvstate b = recv_state_eof → running b = None →
  notmain b (103 :: k) = (go b, k).
Proof.
  intros Hs Hrun.
  assert (E : notmain_step b (103 :: k) = Some (go b, k)) by (unfold notmain_step; by rewrite Hrun, Hs).
  rewrite (notmain_step_eq _ _ _ _ E). apply notmain_stuck. unfold notmain_step, go. done.
Qed.

(** ** The reset signal

    256 bytes 0x80 and an R, sent by the flash tool at any time. *)

Definition reset_signal : list Z := replicate 256 0x80 ++ [82].

(** How many bytes a binary record still takes if they are all 0x80 or R. *)
Definition busy (b : bl) : Z :=
  match datastate b with
  | ihex_state_none => 1
  | ihex_state_start => 4 + 0x80 + 1
  | ihex_state_addr_hi => 3 + byte_count b + 1
  | ihex_state_addr_lo => 2 + byte_count b + 1
  | ihex_state_rectype => 1 + byte_count b + 1
  | _ => byte_count b + 1
  end.

(** Within a record the bootloader can frame. *)
Definition in_frame (b : bl) : Prop :=
  0 ≤ byte_count b ≤ 255 ∧
  match datastate b with
  | ihex_state_write_bytes | ihex_state_seg_lo => 1 ≤ byte_count b
  | ihex_state_seg_hi => 2 ≤ byte_count b
  | _ => True
  end.

Lemma in_frame_busy b : in_frame b → 1 ≤ busy b ≤ 259.
Proof. unfold in_frame, busy. destruct (datastate b); lia. Qed.

Lemma send_str_keeps psz : ∀ b, running (uart_send_str b psz) = running b ∧
  start_delay (uart_send_str b psz) = start_delay b ∧ recvstate (uart_send_str b psz) = recvstate b.
Proof.
  induction psz as [|c psz IH]; intros b; cbn [uart_send_str]; [done|]. destruct (c =? 0); [done|].
  by destruct (IH (uart_send b c)) as (-> & -> & ->).
Qed.

Lemma format_error_keeps b what : running (format_error b what) = running b ∧
  start_delay (format_error b what) = start_delay b ∧ recvstate (format_error b what) = recv_state_error.
Proof. unfold format_error. destruct (send_str_keeps (chars what ++ crlf) b) as (H1 & H2 & _). done. Qed.

Lemma process_close b m a t seg s mem x :
  let b' := in_record b m ihex_state_end 0 a t seg (s ⊞ x) mem in
  process_byte (in_record b m ihex_state_end 0 a t seg s mem) x
  = if negb (Z.land (s ⊞ x) 0xFF =? 0) then format_error b' "#ERR:checksum"
    else if t =? 1 then set_recv (uart_send_str b' (chars "#EOF:ok" ++ crlf)) recv_state_eof
    else set_recv b' recv_state_ready.
Proof. reflexivity. Qed.

(** The next state of a record that takes flush bytes. *)
Definition flushed (old : Z) (d : Z) (b' : bl) : Prop :=
  running b' = None ∧ start_delay b' = d ∧
  (recvstate b' = recv_state_binary ∧ in_frame b' ∧ busy b' < old ∨
   recvstate b' = recv_state_ready ∨ recvstate b' = recv_state_eof ∨ recvstate b' = recv_state_error).

Lemma flushed_on b ds n a t seg s mem old :
  in_frame (in_record b recv_state_binary ds n a t seg s mem) →
  busy (in_record b recv_state_binary ds n a t seg s mem) < old →
  flushed old (start_delay b) (in_record b recv_state_binary ds n a t seg s mem).
Proof. intros Hf Hb. split; [done|]. split; [done|]. by left. Qed.

Lemma flushed_error b what old d : running b = None → start_delay b = d → flushed old d (format_error b what).
Proof.
  intros Hr Hd. destruct (format_error_keeps b what) as (H1 & H2 & H3).
  split; [by rewrite H1|]. split; [by rewrite H2|]. auto.
Qed.

Lemma flush_in_record b ds n a t seg s mem x : x = 0x80 ∨ x = 82 →
  in_frame (in_record b recv_state_binary ds n a t seg s mem) →
  flushed (busy (in_record b recv_state_binary ds n a t seg s mem)) (start_delay b)
    (process_byte (in_record b recv_state_binary ds n a t seg s mem) x).
Proof.
  intros Hx [Hc Hf]. cbn [in_record datastate byte_count] in Hc, Hf.
  assert (Hx' : byte x) by (unfold uword; lia).
  destruct ds.
  - by apply flushed_error.
  - rewrite process_start. apply flushed_on; unfold in_frame, busy; cbn [in_record datastate byte_count]; lia.
  - rewrite process_addr_hi. apply flushed_on; unfold in_frame, busy; cbn [in_record datastate byte_count]; lia.
  - rewrite process_addr_lo. apply flushed_on; unfold in_frame, busy; cbn [in_record datastate byte_count]; lia.
  - rewrite process_rectype. assert (E : after_type x = ihex_state_end) by (by destruct Hx as [-> | ->]).
    rewrite E. apply flushed_on; unfold in_frame, busy; cbn [in_record datastate byte_count]; lia.
  - rewrite process_seg_hi, wrap_sub_small by lia.
    apply flushed_on; unfold in_frame, busy; cbn [in_record datastate byte_count]; lia.
  - rewrite process_seg_lo, wrap_sub_small by lia.
    apply flushed_on; unfold in_frame, busy; cbn [in_record datastate byte_count]; lia.
  - rewrite process_write, wrap_sub_small by lia.
    destruct (Z.eqb_spec (n - 1) 0);
      apply flushed_on; unfold in_frame, busy; cbn [in_record datastate byte_count]; lia.
  - destruct (Z.eqb_spec n 0) as [->|Hn].
    + rewrite process_close. cbv zeta. destruct (negb _); [by apply flushed_error|]. destruct (t =? 1).
      * set (b1 := in_record _ _ _ _ _ _ _ _ _).
        destruct (send_str_keeps (chars "#EOF:ok" ++ crlf) b1) as (H1 & H2 & _).
        split; [exact H1|]. split; [exact H2|]. by right; right; left.
      * split; [done|]. split; [done|]. by right; left.
    + rewrite process_skip, wrap_sub_small by lia.
      apply flushed_on; unfold in_frame, busy; cbn [in_record datastate byte_count]; lia.
Qed.

(** A flush byte in a record: the record goes on and is nearer to its end, or it
    is over. *)
Lemma flush_byte b x : x = 0x80 ∨ x = 82 → running b = None → recvstate b = recv_state_binary → in_frame b →
  flushed (busy b) (start_delay b) (process_byte b x).
Proof.
  intros Hx Hrun Hm Hf.
  assert (Eb : b = in_record b recv_state_binary (datastate b) (byte_count b) (address b) (record_type b)
    (segment b) (sum b) (memory b)) by (destruct b; cbn in *; by subst).
  pose proof (flush_in_record b (datastate b) (byte_count b) (address b) (record_type b)
    (segment b) (sum b) (memory b) x Hx) as H.
  rewrite <- Eb in H. by apply H.
Qed.

(** Flush bytes, as many as a record still takes, settle the bootloader. *)
Lemma flush_settles n : ∀ b k, running b = None → settled b ∨ (recvstate b = recv_state_binary ∧ in_frame b) →
  ∃ b', notmain b (replicate n 0x80 ++ k) = notmain b' k ∧ running b' = None ∧ start_delay b' = start_delay b ∧
    (settled b' ∨ (recvstate b' = recv_state_binary ∧ in_frame b' ∧
      recvstate b = recv_state_binary ∧ busy b' + Z.of_nat n ≤ busy b)).
Proof.
  induction n as [|n IH]; intros b k Hrun Hb; cbn [replicate app].
  - exists b. split; [done|]. split; [done|]. split; [done|].
    destruct Hb as [Hb|[Hb Hf]]; [by left | right; split; [done|]; split; [done|]; split; [done | lia]].
  - destruct Hb as [Hb|[Hb Hf]].
    + rewrite settled_blank by (done || by right; right). destruct (IH b k Hrun (or_introl Hb))
        as (b' & -> & Hr' & Hd' & [Hs|(_ & _ & Hbin & _)]); exists b'; [by auto|].
      destruct Hb as [_ [Hc|[Hc|Hc]]]; by rewrite Hbin in Hc.
    + assert (E : notmain b (0x80 :: replicate n 0x80 ++ k)
        = notmain (process_byte b 0x80) (replicate n 0x80 ++ k)).
      { apply notmain_cons. unfold notmain_step. rewrite Hrun, Hb. done. }
      rewrite E. destruct (flush_byte b 0x80 (or_introl eq_refl) Hrun Hb Hf) as (Hr1 & Hd1 & Hcase).
      assert (Hcase' : settled (process_byte b 0x80) ∨
        (recvstate (process_byte b 0x80) = recv_state_binary ∧ in_frame (process_byte b 0x80))).
      { destruct Hcase as [(? & ? & _)|Hs]; [by right | left; by split]. }
      destruct (IH _ k Hr1 Hcase') as (b' & -> & Hr' & Hd' & Hend). exists b'.
      split; [done|]. split; [done|]. split; [by rewrite Hd', Hd1|].
      destruct Hend as [Hs|(Hbin & Hf' & Hbin1 & Hbusy)]; [by left|]. right. split; [done|]. split; [done|].
      split; [done|]. destruct Hcase as [(_ & _ & Hlt)|Hs]; [lia|].
      destruct Hs as [Hs|[Hs|Hs]]; by rewrite Hbin1 in Hs.
Qed.

Lemma restart_state b : running b = None → let b' := restart b in
  recvstate b' = recv_state_ready ∧ segment b' = 0 ∧ running b' = None ∧
  start_delay b' = start_delay b ∧ delayed b' = delayed b ∧ memory b' = memory b ∧
  sent b' = sent b ++ chars "IHEX-F" ++ crlf.
Proof.
  intros Hrun. unfold restart. rewrite send_str by (apply no_zero; vm_compute; reflexivity). done.
Qed.

Definition ready_to_load (b b' : bl) : Prop :=
  recvstate b' = recv_state_ready ∧ segment b' = 0 ∧ running b' = None ∧
  start_delay b' = start_delay b ∧ ∃ s, sent b' = s ++ chars "IHEX-F" ++ crlf.

Lemma settled_reset b k : settled b → ∃ b', notmain b (82 :: k) = notmain b' k ∧ ready_to_load b b'.
Proof.
  intros [Hrun Hs]. exists (restart b). split.
  - apply notmain_cons. unfold notmain_step. rewrite Hrun. destruct Hs as [-> | [-> | ->]]; done.
  - destruct (restart_state b Hrun) as (H1 & H2 & H3 & H4 & _ & _ & H5).
    split; [done|]. split; [done|]. split; [done|]. split; [done|]. by exists (sent b).
Qed.

(** The states in which the tool may find the bootloader. *)
Definition interrupted (b : bl) : Prop :=
  running b = None ∧ (recvstate b = recv_state_binary → in_frame b).

Lemma reset_once b k : interrupted b → (recvstate b = recv_state_binary → busy b ≤ 256) →
  ∃ b', notmain b (reset_signal ++ k) = notmain b' k ∧ ready_to_load b b'.
Proof.
  intros [Hrun Hf] Hbusy. unfold reset_signal. rewrite <- app_assoc. cbn [app].
  destruct (decide (recvstate b = recv_state_hex)) as [Hhex|Hhex].
  - (* two flush bytes are no digits *)
    set (b1 := format_error b "#ERR:hex").
    assert (E : notmain b (replicate 256 0x80 ++ 82 :: k) = notmain b1 (replicate 254 0x80 ++ 82 :: k)).
    { apply notmain_step_eq. unfold notmain_step. rewrite Hrun, Hhex. done. }
    assert (Hset : settled b1 ∧ start_delay b1 = start_delay b).
    { unfold b1, format_error. rewrite send_str by (apply no_zero; vm_compute; reflexivity).
      split; [|done]. split; [done|]. by right; right. }
    destruct Hset as [Hset Hd1].
    rewrite E, settled_blanks by (done || apply Forall_replicate; by right; right).
    destruct (settled_reset b1 k Hset) as (b2 & -> & H1 & H2 & H3 & H4 & H5).
    exists b2. split; [done|]. split; [done|]. split; [done|]. split; [done|]. split; [by rewrite H4 | done].
  - assert (Hb : settled b ∨ (recvstate b = recv_state_binary ∧ in_frame b)).
    { destruct (recvstate b) eqn:E; try done; [left; split; auto | right; auto | left; split; auto..]. }
    destruct (flush_settles 256 b (82 :: k) Hrun Hb) as (b1 & -> & Hr1 & Hd1 & [Hset|(Hbin & Hf1 & Hbin0 & Hle)]).
    + destruct (settled_reset b1 k Hset) as (b2 & -> & H1 & H2 & H3 & H4 & H5).
      exists b2. split; [done|]. split; [done|]. split; [done|]. split; [done|]. split; [by rewrite H4 | done].
    + specialize (Hbusy Hbin0). pose proof (in_frame_busy b1 Hf1). lia.
Qed.

Lemma reset_twice b k : interrupted b →
  ∃ b', (notmain b (reset_signal ++ k) = notmain b' k) ∧ start_delay b' = start_delay b ∧
    (ready_to_load b b' ∨ (interrupted b' ∧ (recvstate b' = recv_state_binary → busy b' ≤ 256))).
Proof.
  intros Hi. pose proof Hi as [Hrun Hf].
  destruct (decide (recvstate b = recv_state_binary ∧ 256 < busy b)) as [[Hbin Hbusy]|Hno].
  - specialize (Hf Hbin). pose proof (in_frame_busy b Hf) as Hbd.
    unfold reset_signal. rewrite <- app_assoc. cbn [app].
    destruct (flush_settles 256 b (82 :: k) Hrun (or_intror (conj Hbin Hf)))
      as (b1 & -> & Hr1 & Hd1 & [Hset|(Hbin1 & Hf1 & _ & Hle)]).
    + destruct (settled_reset b1 k Hset) as (b2 & -> & H1 & H2 & H3 & H4 & H5). exists b2.
      split; [done|]. split; [by rewrite H4|]. left. split; [done|]. split; [done|]. split; [done|].
      split; [by rewrite H4 | done].
    + assert (E : notmain b1 (82 :: k) = notmain (process_byte b1 82) k).
      { apply notmain_cons. unfold notmain_step. rewrite Hr1, Hbin1. done. }
      destruct (flush_byte b1 82 (or_intror eq_refl) Hr1 Hbin1 Hf1) as (Hr2 & Hd2 & Hcase).
      exists (process_byte b1 82). split; [done|]. split; [by rewrite Hd2|]. right.
      destruct Hcase as [(Hb2 & Hf2 & Hlt)|Hs].
      * split; [by split | lia].
      * split; [split; [done|]|]; intros Hb2; destruct Hs as [Hs|[Hs|Hs]]; by rewrite Hb2 in Hs.
  - destruct (reset_once b k Hi) as (b' & E & H).
    { intros Hbin. destruct (Z.le_gt_cases (busy b) 256); [done|]. destruct Hno. split; [done | lia]. }
    exists b'. split; [done|]. split; [by destruct H as (_ & _ & _ & ? & _)|]. by left.
Qed.

(** ** A data record without data *)

Lemma swallow b m bs : record_mode m → ∀ n a t seg s mem, Forall byte bs → Z.of_nat (length bs) < n < 2 ^ 32 →
  ∃ n' a' s' mem', notmain (in_record b m ihex_state_write_bytes n a t seg s mem) (on_line m bs)
    = (in_record b m ihex_state_write_bytes n' a' t seg s' mem', []).
Proof.
  intros Hm. induction bs as [|x bs IH]; intros n a t seg s mem Hbs Hn.
  - exists n, a, s, mem. by destruct Hm as [-> | ->].
  - apply Forall_cons in Hbs as [Hx Hbs]. cbn [length] in Hn.
    rewrite on_line_cons, in_record_byte, process_write, wrap_sub_small by (done || lia).
    rewrite (proj2 (Z.eqb_neq (n - 1) 0)) by lia.
    destruct (IH (n - 1) (a ⊞ 1) t seg (s ⊞ x) (<[Z.lor seg a := x]> mem) Hbs) as (n' & a' & s' & mem' & E); [lia|].
    by exists n', a', s', mem'.
Qed.

(** ** The types of the variables *)

Lemma uword_lor w a b : 0 ≤ w → uword w a → uword w b → uword w (Z.lor a b).
Proof.
  intros Hw [Ha Ha'] [Hb Hb']. split; [by apply Z.lor_nonneg|].
  destruct (Z.eq_dec (Z.lor a b) 0) as [->|Hne]; [apply Z.pow_pos_nonneg; lia|].
  pose proof (proj2 (Z.lor_nonneg a b) (conj Ha Hb)).
  apply Z.log2_lt_pow2; [lia|]. rewrite Z.log2_lor by done. apply Z.max_lub_lt.
  - destruct (Z.eq_dec a 0) as [->|]; [|apply Z.log2_lt_pow2; lia].
    destruct (Z.eq_dec w 0) as [->|]; [|cbn; lia]. rewrite Z.lor_0_l in Hne. cbn in Hb'. lia.
  - destruct (Z.eq_dec b 0) as [->|]; [|apply Z.log2_lt_pow2; lia].
    destruct (Z.eq_dec w 0) as [->|]; [|cbn; lia]. rewrite Z.lor_0_r in Hne. cbn in Ha'. lia.
Qed.

(** Every variable has a value of its C type, memory holds bytes at 32-bit
    addresses, and bytes were sent. *)
Record bl_typed (b : bl) : Prop := {
  ty_count : is_u32 (byte_count b);
  ty_address : is_u32 (address b);
  ty_type : is_u32 (record_type b);
  ty_segment : is_u32 (segment b);
  ty_sum : is_u32 (sum b);
  ty_delay : is_u32 (start_delay b);
  ty_memory : map_Forall (λ a x, is_u32 a ∧ byte x) (memory b);
  ty_sent : Forall byte (sent b)
}.

Lemma typed_send_str psz : ∀ b, Forall byte psz → bl_typed b → bl_typed (uart_send_str b psz).
Proof.
  induction psz as [|c psz IH]; intros b Hp Hb; cbn [uart_send_str]; [done|].
  apply Forall_cons in Hp as [Hc Hp]. destruct (c =? 0); [done|]. apply IH; [done|].
  destruct Hb. split; try done. cbn. apply Forall_app. by rewrite Forall_singleton.
Qed.

Lemma chars_bytes s : Forall byte (chars s).
Proof.
  induction s as [|c s IH]; cbn [chars]; constructor; [|done].
  pose proof (N_ascii_bounded c). unfold uword. lia.
Qed.

Lemma reply_bytes s : Forall byte (chars s ++ crlf).
Proof. apply Forall_app. split; [apply chars_bytes|]. repeat constructor; lia. Qed.

Lemma typed_set_recv b m : bl_typed b → bl_typed (set_recv b m).
Proof. intros []. by split. Qed.

Lemma typed_error b what : bl_typed b → bl_typed (format_error b what).
Proof. intros Hb. apply typed_set_recv, typed_send_str; [apply reply_bytes | done]. Qed.

Lemma typed_restart b : bl_typed b → bl_typed (restart b).
Proof.
  intros []. apply typed_send_str; [apply reply_bytes|]. split; try done; cbn; unfold uword; lia.
Qed.

Lemma byte_u32 x : byte x → is_u32 x.
Proof. unfold uword. lia. Qed.

Lemma typed_process b x : byte x → bl_typed b → bl_typed (process_byte b x).
Proof.
  intros Hx Hb. pose proof Hb as [Hc Ha Ht Hs Hsum Hd Hm Hsent].
  assert (Hx32 : is_u32 x) by (by apply byte_u32).
  assert (Hw : ∀ z, is_u32 (u32 z)) by (intros z; apply wrap_range; lia).
  assert (Hl : ∀ y z, is_u32 y → is_u32 z → is_u32 (Z.lor y z)) by (intros; by apply uword_lor).
  assert (Hb1 : bl_typed (set_sum b (sum b ⊞ x))) by (split; cbn; auto).
  unfold process_byte. destruct (datastate _).
  - by apply typed_error.
  - split; cbn; auto.
  - split; cbn; auto.
  - split; cbn; auto.
  - destruct (x =? 0); [split; cbn; auto|].
    destruct ((x =? 2) || (x =? 4)); split; cbn; auto.
  - split; cbn; auto.
  - destruct (_ =? 4); split; cbn; auto.
  - assert (Hm1 : map_Forall (λ a x, is_u32 a ∧ byte x) (<[Z.lor (segment b) (address b) := x]> (memory b))).
    { apply map_Forall_insert_2; auto. }
    destruct (_ =? 0); split; cbn; auto.
  - destruct (byte_count _ =? 0); [|split; cbn; auto].
    destruct (negb _); [by apply typed_error|].
    destruct (record_type _ =? 1); apply typed_set_recv; [|done].
    apply typed_send_str; [apply reply_bytes | done].
Qed.

Lemma read_delay_u32 input : ∀ d x r, is_u32 d → Forall byte input → read_delay d input = Some (x, r) →
  is_u32 x ∧ Forall byte r.
Proof.
  induction input as [|c input IH]; intros d x r Hd Hi H; [done|]. cbn [read_delay] in H.
  apply Forall_cons in Hi as [Hc Hi]. destruct (Z.leb_spec 0 (nibble_from_hex c)) as [Hn|Hn]; [|by simplify_eq].
  eapply IH; [|done..]. apply uword_lor; [lia | apply wrap_range; lia|].
  unfold nibble_from_hex in *.
  assert (∀ z, is_u32 (Z.land z 15)).
  { intros z. change 15 with (Z.ones 4). rewrite Z.land_ones by lia. unfold uword.
    pose proof (Z.mod_pos_bound z (2 ^ 4)). lia. }
  destruct (_ && _); [done|]. destruct (_ && _); [done|]. lia.
Qed.

Lemma typed_step b input b' r : bl_typed b → Forall byte input → notmain_step b input = Some (b', r) →
  bl_typed b' ∧ Forall byte r.
Proof.
  intros Hb Hi H. unfold notmain_step in H. destruct (running b); [done|]. destruct input as [|ra input]; [done|].
  apply Forall_cons in Hi as [Hra Hi].
  destruct (_ && _); [injection H as <- <-; split; [by apply typed_restart | done]|].
  destruct (recvstate b).
  - assert (Hbegin : ∀ m, bl_typed (begin_record b m)) by (intros m; destruct Hb; split; try done; cbn; unfold uword; lia).
    repeat case_match; injection H as <- <-; split; try done. by apply typed_error.
  - destruct input as [|rb input]; [done|]. apply Forall_cons in Hi as [Hrb Hi].
    destruct (Z.ltb_spec (nibble_from_hex ra) 0) as [|Hhi]; cbn [orb] in H;
      [injection H as <- <-; split; [by apply typed_error | done]|].
    destruct (Z.ltb_spec (nibble_from_hex rb) 0) as [|Hlo];
      [injection H as <- <-; split; [by apply typed_error | done]|].
    injection H as <- <-. split; [|done]. apply typed_process; [|done].
    assert (Hnib : ∀ c, nibble_from_hex c < 16).
    { intros c. unfold nibble_from_hex. change 0x0F with (Z.ones 4). rewrite !Z.land_ones by lia.
      pose proof (Z.mod_pos_bound c (2 ^ 4)). pose proof (Z.mod_pos_bound (c - 7) (2 ^ 4)).
      destruct (_ && _); [lia|]. destruct (_ && _); lia. }
    pose proof (Hnib ra). pose proof (Hnib rb). rewrite lor_shiftl_add by lia. unfold uword. lia.
  - injection H as <- <-. split; [by apply typed_process | done].
  - destruct (ra =? 115).
    + destruct (read_delay 0 input) as [[d r']|] eqn:E; [|done]. injection H as <- <-.
      apply read_delay_u32 in E as [Hd Hr]; [|unfold uword; lia | done]. split; [|done]. by destruct Hb.
    + destruct (_ || _); injection H as <- <-; [|done]. split; [|done].
      assert (Hgo : bl_typed (uart_send_str b [0x0D; 45; 45; 0x0D; 0x0A; 0x0A])).
      { apply typed_send_str; [repeat constructor; lia | done]. }
      unfold go. revert Hgo. generalize (uart_send_str b [0x0D; 45; 45; 0x0D; 0x0A; 0x0A]).
      intros b1 []. by split.
  - by injection H as <- <-.
Qed.

(** ** Properties *)

(** The bootloader's variables keep their types.  On any input, every count,
    address and sum stays a 32-bit word through the additions, shifts and
    decrements of the state machine, only bytes are written to memory, at 32-bit
    addresses, and only bytes are sent. *)
Theorem bootloader_typed (b : bl) (input : list Z) :
  bl_typed b → Forall byte input → bl_typed (fst (notmain b input)).
Proof.
  intros Hb Hi. unfold notmain. generalize (length input). intros fuel. revert b input Hb Hi.
  induction fuel as [|fuel IH]; intros b input Hb Hi; [done|]. cbn [notmain_loop].
  destruct (notmain_step b input) as [[b' r]|] eqn:E; [|done].
  destruct (typed_step _ _ _ _ Hb Hi E) as [Hb' Hr]. by apply IH.
Qed.

(** C26: The bootloader decodes the records of a hex file.  A record on the line, as
    hex digits or in binary, leaves it ready for the next one, with the data at
    its address above the base, the base of a segment record set, or the end
    record acknowledged, if the bytes sum up to 0 modulo 256; otherwise it reports
    the checksum and goes to the error state.  (The data are in memory by then.)
    The records are those it can frame: a data record has data, which end within
    64K of the base, a segment record has at least two bytes; and the base so far is
    a multiple of 64K (with another base, and with an empty data record, the
    bootloader does something else). *)
Theorem bootloader_record (b : bl) (m : recv_state) (r : record) (ck : Z) :
  record_mode m → recvstate b = recv_state_ready → running b = None → base_ok (segment b) →
  framed r → byte ck →
  ∃ b', notmain b (mark m :: on_line m (record_body r ++ [ck])) = (b', []) ∧
    after_record b r (record_ok r ck) b'.
Proof.
  intros Hm Hr Hrun Hb Hf Hck. destruct (record_line b m r ck [] Hm Hr Hrun Hb Hf Hck) as (b' & E & Ha).
  exists b'. rewrite app_nil_r in E. by rewrite E.
Qed.

(** *** In the middle of a round *)

Lemma read_delay_ends ds : ∀ d k, read_delay d ds = None → ∃ d', read_delay d (ds ++ 0x80 :: k) = Some (d', k).
Proof.
  induction ds as [|c ds IH]; intros d k E; cbn [read_delay app] in *; [by exists d|].
  destruct (0 <=? nibble_from_hex c); [by apply IH|done].
Qed.

(** Waiting for the second digit of a byte or for the end of a delay: one flush byte
    ends the round. *)
Lemma pending_ends b pending : running b = None → notmain_step b pending = None → pending ≠ [] →
  ∃ d, ∀ k, ∃ b1, notmain b (pending ++ 0x80 :: k) = notmain b1 k ∧ settled b1 ∧ start_delay b1 = d.
Proof.
  intros Hrun Hstep Hne. destruct pending as [|ra l]; [done|]. unfold notmain_step in Hstep. rewrite Hrun in Hstep.
  destruct (_ && _) eqn:Hreset; [done|].
  assert (Hround : ∀ b1 k, notmain_step b (ra :: l ++ 0x80 :: k) = Some (b1, k) →
    notmain b ((ra :: l) ++ 0x80 :: k) = notmain b1 k) by (intros b1 k; apply notmain_step_eq).
  unfold notmain_step in Hround. rewrite Hrun, Hreset in Hround. destruct (recvstate b) eqn:Hr.
  - repeat case_match; done.
  - destruct l as [|rb l]; [|by destruct (_ || _)]. exists (start_delay b). intros k.
    exists (format_error b "#ERR:hex"). split.
    + apply Hround. cbn [app]. replace (_ || _) with true; [done|]. symmetry. apply orb_true_iff. right. by vm_compute.
    + unfold format_error. rewrite send_str by (apply no_zero; vm_compute; reflexivity).
      split; [split; [done|by right; right]|done].
  - done.
  - destruct (ra =? 115); [|by destruct (_ || _)]. destruct (read_delay 0 l) as [[? ?]|] eqn:E; [done|].
    destruct (read_delay_ends l 0 [] E) as [d Hd]. exists d. intros k.
    destruct (read_delay_ends l 0 k E) as [d' Hd']. exists (set_delay b d'). split.
    + apply Hround. by rewrite Hd'.
    + split; [by split; [|right; left; cbn]|]. cbn. clear -Hd Hd' E. revert Hd Hd' E. generalize 0.
      induction l as [|c l IH]; intros z; cbn [read_delay app]; [intros [= <-] [= <-]; done|].
      destruct (0 <=? nibble_from_hex c); [apply IH|done].
  - done.
Qed.

Lemma ready_again b b0 : ready_to_load b b0 → ∃ b', notmain b0 reset_signal = (b', []) ∧ ready_to_load b b'.
Proof.
  intros (Hr & _ & Hrun & Hd & _).
  destruct (reset_once b0 []) as (b' & E & H1 & H2 & H3 & H4 & H5); [split; [done|by rewrite Hr]|by rewrite Hr|].
  rewrite app_nil_r in E. exists b'. rewrite E. split; [done|]. split; [done|]. split; [done|]. split; [done|].
  split; [by rewrite H4|done].
Qed.

Lemma pending_reset b pending k : running b = None → notmain_step b pending = None → pending ≠ [] →
  ∃ d b', notmain b (pending ++ reset_signal ++ k) = notmain b' k ∧ ready_to_load (set_delay b d) b'.
Proof.
  intros Hrun Hstep Hne. destruct (pending_ends b pending Hrun Hstep Hne) as [d Hd]. exists d.
  destruct (Hd (replicate 255 0x80 ++ 82 :: k)) as (b1 & E & Hs & Hd1).
  unfold reset_signal. rewrite <- app_assoc. cbn [app]. change (replicate 256 0x80) with (0x80 :: replicate 255 0x80).
  cbn [app]. rewrite E, settled_blanks by (done || apply Forall_replicate; by right; right).
  destruct (settled_reset b1 k Hs) as (b2 & -> & H1 & H2 & H3 & H4 & H5). exists b2. split; [done|].
  split; [done|]. split; [done|]. split; [done|]. split; [by rewrite H4|done].
Qed.

(** C27: The reset signal works in every state before the jump, but for one kind.
    Whatever the bootloader was doing when the last transfer was given up - between
    records, within one in hex digits or in binary, after an error or at the end
    of a file, also when it waits for the second digit of a byte or for the rest
    of a start delay - two reset signals bring it back to the start of a transfer,
    with base 0 and a new IHEX-F; its start delay stays, unless it was just being
    read.  One signal is enough unless more than 256 bytes of a binary record are
    outstanding, which its length byte allows.  Excepted are binary records the
    bootloader cannot count down: a data record without data, or a segment record
    with fewer than two bytes, takes a reset as its data (see
    [empty_record_swallows_file]). *)
Theorem bootloader_reset (b : bl) (pending : list Z) :
  interrupted b → notmain_step b pending = None →
  (∃ d b', notmain b (pending ++ reset_signal ++ reset_signal) = (b', []) ∧
    ready_to_load (set_delay b d) b' ∧ (pending = [] → d = start_delay b)) ∧
  ((recvstate b = recv_state_binary → busy b ≤ 256) →
    ∃ d b', notmain b (pending ++ reset_signal) = (b', []) ∧
      ready_to_load (set_delay b d) b' ∧ (pending = [] → d = start_delay b)).
Proof.
  intros Hi Hstep. destruct (decide (pending = [])) as [->|Hne].
  2:{ split; [|intros _].
      - destruct (pending_reset b pending reset_signal (proj1 Hi) Hstep Hne) as (d & b1 & -> & Hr).
        destruct (ready_again _ _ Hr) as (b2 & E & Hr2). by exists d, b2.
      - destruct (pending_reset b pending [] (proj1 Hi) Hstep Hne) as (d & b1 & E & Hr). rewrite app_nil_r in E.
        exists d, b1. by rewrite E. }
  cbn [app]. split.
  - destruct (reset_twice b reset_signal Hi) as (b1 & -> & Hd & [Hready|[Hi1 Hb1]]).
    + destruct (ready_again _ _ Hready) as (b2 & E & Hr2). by exists (start_delay b), b2.
    + destruct (reset_once b1 [] Hi1 Hb1) as (b2 & E & H5 & H6 & H7 & H8 & H9).
      rewrite app_nil_r in E. exists (start_delay b), b2. rewrite E. split; [done|]. split; [|done].
      split; [done|]. split; [done|]. split; [done|]. split; [by rewrite H8|done].
  - intros Hb. destruct (reset_once b [] Hi Hb) as (b' & E & H). rewrite app_nil_r in E.
    exists (start_delay b), b'. by rewrite E.
Qed.

(** A data record without data is fatal.  The length is counted down before it
    is compared with 0, so after such a record in binary form everything that
    follows - the checksum, further records, the end record, a reset - is written
    to memory as its data, for 2^32 bytes, without an answer. *)
Theorem empty_record_swallows_file (b : bl) (a : Z) (rest : list Z) :
  recvstate b = recv_state_ready → running b = None → is_u16 a →
  Forall byte rest → 0 < Z.of_nat (length rest) < 2 ^ 32 →
  ∃ b', notmain b (mark recv_state_binary :: record_body (mkRec a 0 []) ++ rest) = (b', []) ∧
    recvstate b' = recv_state_binary ∧ datastate b' = ihex_state_write_bytes ∧ sent b' = sent b.
Proof.
  intros Hr Hrun Ha Hbs Hl. assert (Hm : record_mode recv_state_binary) by by right.
  rewrite begin_record_eq by done.
  change (record_body (mkRec a 0 []) ++ rest)
    with (on_line recv_state_binary [0; a / 256; a `mod` 256; 0] ++ rest).
  rewrite header_bytes by (done || unfold uword; lia).
  destruct rest as [|x rest]; [cbn in Hl; lia|]. apply Forall_cons in Hbs as [Hx Hbs]. cbn [length] in Hl.
  change (x :: rest) with (on_line recv_state_binary [x] ++ rest).
  rewrite in_record_byte by done. change (after_type 0) with ihex_state_write_bytes.
  rewrite process_write. change (0 ⊟ 1) with (2 ^ 32 - 1). cbn [Z.eqb].
  edestruct (swallow b recv_state_binary rest Hm) as (n' & a' & s' & mem' & E); [done | |].
  2:{ change (on_line recv_state_binary rest) with rest in E. eexists. split; [exact E | done]. }
  lia.
Qed.
End Bootloader.

(** ** A small file *)

Definition sample_records : list record :=
  [mkRec 0 4 [0; 8]; mkRec 0x10 0 [0xde; 0xad; 0xbe; 0xef]; mkRec 0x14 0 [1]].
Definition sample_ready : bl := power_on ∅.

Lemma sample_framed : framed (mkRec 0x10 0 [0xde; 0xad; 0xbe; 0xef]).
Proof.
  split; cbn; unfold uword; [lia | lia | | lia | by split | lia].
  apply (bool_decide_eq_true_1 _). vm_compute. reflexivity.
Qed.

Lemma bootloader_record_witness :
  framed (mkRec 0x10 0 [0xde; 0xad; 0xbe; 0xef]) ∧
  ∃ b', notmain 64 sample_ready (chars ":04001000DEADBEEFB4") = (b', []) ∧
    recvstate b' = recv_state_ready ∧ memory b' = put_bytes ∅ 0x10 [0xde; 0xad; 0xbe; 0xef].
Proof.
  split; [exact sample_framed|].
  destruct (bootloader_record 64 sample_ready recv_state_hex (mkRec 0x10 0 [0xde; 0xad; 0xbe; 0xef]) 0xB4)
    as (b' & E & Ha).
  - by left.
  - reflexivity.
  - reflexivity.
  - split; [vm_compute; split; congruence | by exists 0].
  - exact sample_framed.
  - unfold uword. lia.
  - exists b'. split; [exact E|]. destruct Ha as [Hs Hl _ _ _]. split; [rewrite Hs; vm_compute; reflexivity|].
    apply (f_equal snd) in Hl. exact Hl.
Defined.

Lemma bootloader_typed_witness :
  bl_typed sample_ready ∧ bl_typed (fst (notmain 64 sample_ready (chars ":04001000DEADBEEFB4"))).
Proof.
  assert (H : bl_typed sample_ready).
  { apply typed_restart. split; cbn; unfold uword; try lia; [apply map_Forall_empty | constructor]. }
  split; [exact H|]. apply (bootloader_typed 64 sample_ready (chars ":04001000DEADBEEFB4") H).
  apply (bool_decide_eq_true_1 _). vm_compute. reflexivity.
Defined.

(** Interrupted after the length byte 255 of a binary record *)
Definition sample_interrupted : bl := fst (notmain 64 sample_ready [61; 255]).

Lemma sample_interrupted_ok : interrupted sample_interrupted.
Proof. split; [reflexivity|]. intros _. split; [vm_compute; split; congruence | exact I]. Qed.

Lemma bootloader_reset_witness :
  interrupted sample_interrupted ∧ busy sample_interrupted = 259 ∧
  recvstate (fst (notmain 64 sample_interrupted reset_signal)) = recv_state_binary ∧
  (∃ b', notmain 64 sample_interrupted (reset_signal ++ reset_signal) = (b', []) ∧
    ready_to_load sample_interrupted b') ∧
  let b := set_recv sample_ready recv_state_eof in
  ∃ d b', notmain 64 b (chars "s12" ++ reset_signal) = (b', []) ∧ ready_to_load (set_delay b d) b'.
Proof.
  split; [exact sample_interrupted_ok|]. split; [reflexivity|]. split; [vm_compute; reflexivity|]. split.
  - destruct (proj1 (bootloader_reset 64 sample_interrupted [] sample_interrupted_ok eq_refl)) as (d & b' & E & Hr & Hd).
    rewrite (Hd eq_refl) in Hr. exists b'. exact (conj E Hr).
  - assert (Hi : interrupted (set_recv sample_ready recv_state_eof)) by (split; [reflexivity|discriminate]).
    destruct (proj2 (bootloader_reset 64 _ (chars "s12") Hi eq_refl) ltac:(discriminate)) as (d & b' & E & Hr & _).
    exists d, b'. exact (conj E Hr).
Defined.

Lemma empty_record_swallows_file_witness :
  ∃ b', notmain 64 sample_ready
      (mark recv_state_binary :: record_body (mkRec 0x20 0 []) ++ [0xE0] ++ line recv_state_binary [] end_record)
    = (b', []) ∧
    recvstate b' = recv_state_binary ∧ datastate b' = ihex_state_write_bytes ∧ sent b' = sent sample_ready.
Proof.
  apply (empty_record_swallows_file 64 sample_ready 0x20 ([0xE0] ++ line recv_state_binary [] end_record)).
  - reflexivity.
  - reflexivity.
  - unfold uword. lia.
  - apply (bool_decide_eq_true_1 _). vm_compute. reflexivity.
  - vm_compute. split; reflexivity.
Defined.
