(* ===== verification/Flashy.v ===== *)
(** * The flash tool

    [circle/tools/cflashy.c] (the Linux build): it resets the board's bootloader,
    uploads a hex file in the binary form and starts it.  The operating system is
    an input of the program: the results of opening the serial port, of [read] and
    of [write], in order, and the hex file.  The bytes the port has accepted are
    recorded; messages, delays and the monitor output are left out.  [exit] and a
    [return] of [main] end the program with a code. *)
From Stdlib Require Import Ascii String.
From S2P Require Import Prelude Bootloader.

Open Scope Z_scope.

(** ** The program's effects *)

(** [reads]: a failing [read], or bytes that have arrived; when there is nothing,
    [read] returns 0.  [writes]: a failing [write], or how much of it is accepted;
    when there is nothing, all of it. *)
Record io := mkIo {
  opens : list bool;
  reads : list (option (list Z));
  writes : list (option nat);
  wire : list Z
}.

(** A part of the program gives a value or ends the program. *)
Definition M (A : Type) : Type := io → outcome ((A + Z) * io).

#[export] Instance M_ret : MRet M := λ A a s, Ret (inl a, s).
#[export] Instance M_bind : MBind M := λ A B f m s,
  '(r, s) ← m s; match r with inl a => f a s | inr code => Ret (inr code, s) end.

Definition exit {A} (code : Z) : M A := λ s, Ret (inr code, s).
Definition undefined {A} : M A := λ _, Ub.
Definition diverge {A} : M A := λ _, Diverge.
Definition lift {A} (o : outcome A) : M A := λ s, a ← o; Ret (inl a, s).

(** ** Serial interface *)

Definition BaudRates : list Z :=
  [9600; 19200; 38400; 57600; 115200; 230400; 460800; 500000; 576000; 921600; 1000000; 1152000;
   1500000; 2000000; 2500000; 3000000; 3500000; 4000000].

(** The place of the rate in the table, or [None] for [B0]. *)
Fixpoint baud_loop (i : nat) (rates : list Z) (nBaud : Z) : option nat :=
  match rates with
  | [] => None
  | r :: rates => if r =? nBaud then Some i else baud_loop (S i) rates nBaud
  end.
Definition Baud2Speed (nBaud : Z) : option nat := baud_loop 0 BaudRates nBaud.

(** Whether the port is open. *)
Definition SerialOpen (nBaud : Z) : M bool := λ s,
  match Baud2Speed nBaud with
  | None => Ret (inl false, s)
  | Some _ =>
      match opens s with
      | [] => Ret (inl true, s)
      | b :: os => Ret (inl b, mkIo os (reads s) (writes s) (wire s))
      end
  end.

Definition SerialWrite (bytes : list Z) : M Z := λ s,
  match writes s with
  | [] => Ret (inl (Z.of_nat (length bytes)), mkIo (opens s) (reads s) [] (wire s ++ bytes))
  | None :: ws => Ret (inl (-1), mkIo (opens s) (reads s) ws (wire s))
  | Some n :: ws =>
      let done := take n bytes in
      Ret (inl (Z.of_nat (length done)), mkIo (opens s) (reads s) ws (wire s ++ done))
  end.

(** The bytes read, [None] for an error; what exceeds the buffer is read later. *)
Definition SerialRead (ulMaxLength : nat) : M (option (list Z)) := λ s,
  match reads s with
  | [] => Ret (inl (Some []), s)
  | None :: rs => Ret (inl None, mkIo (opens s) rs (writes s) (wire s))
  | Some bytes :: rs =>
      let later := drop ulMaxLength bytes in
      let rs := if later is [] then rs else Some later :: rs in
      Ret (inl (Some (take ulMaxLength bytes)), mkIo (opens s) rs (writes s) (wire s))
  end.

(** A buffer up to its terminator, as a C string *)
Fixpoint c_string (l : list Z) : list Z :=
  match l with [] => [] | c :: l => if c =? 0 then [] else c :: c_string l end.

Fixpoint starts_with (p l : list Z) : bool :=
  match p, l with
  | [], _ => true
  | x :: p, y :: l => (x =? y) && starts_with p l
  | _ :: _, [] => false
  end.

(** [strstr]: from the first occurrence on *)
Fixpoint strstr (l p : list Z) : option (list Z) :=
  if starts_with p l then Some l else
  match l with [] => None | _ :: l => strstr l p end.

Definition SerialReadAndMatch (pPattern : list Z) : M (option (list Z)) :=
  r ← SerialRead 99;
  match r with
  | None => exit 1
  | Some [] => mret None
  | Some bytes => mret (strstr (c_string bytes) pPattern)
  end.

(** ** Hexfile scanner *)

Definition EOF : Z := -1.

Definition isspace (c : Z) : bool := (c =? 32) || ((9 <=? c) && (c <=? 13)).

(** The loop over blanks: the character, the rest of the file, the offset. *)
Fixpoint skip_space (file : list Z) (off : Z) : Z * list Z * Z :=
  match file with
  | [] => (EOF, [], off)
  | c :: file => if isspace c then skip_space file (off + 1) else (c, file, off + 1)
  end.

Definition hex_value (c : Z) : Z := if c <? 65 then c - 48 else c - 65 + 10.

(** Shifting a negative [int] is undefined. *)
Definition GetNextByte (file : list Z) (off : Z) : outcome (Z * list Z * Z) :=
  let '(nChar, file, off) := skip_space file off in
  if nChar =? EOF then Ret (EOF, file, off) else
  if nChar =? 58 then Ret (61, file, off) else
  let nByte := hex_value nChar in
  if nByte <? 0 then Ub else
  let nByte := nByte ≪ 4 in
  match file with
  | [] => Ret (EOF, [], off)
  | nChar :: file => Ret (Z.lor nByte (hex_value nChar), file, off + 1)
  end.

(** ** main *)

Record ToolParam := mkParam {
  pSerialPort : list Z;
  pHexFile : option (list Z);
  nFlashBaud : Z;
  nUserBaud : Z;
  pRebootMagic : option (list Z);
  nRebootDelay : Z;
  nGoDelay : Z;
  nPacketSize : Z;
  bMonitor : bool
}.

Definition default_params (port : list Z) : ToolParam :=
  mkParam port None 115200 115200 None 1000 0 0 false.

Definition set_hex (t : ToolParam) (f : list Z) : ToolParam :=
  mkParam (pSerialPort t) (Some f) (nFlashBaud t) (nUserBaud t) (pRebootMagic t) (nRebootDelay t)
    (nGoDelay t) (nPacketSize t) (bMonitor t).
Definition set_flash_baud (t : ToolParam) (v : Z) : ToolParam :=
  mkParam (pSerialPort t) (pHexFile t) v (nUserBaud t) (pRebootMagic t) (nRebootDelay t)
    (nGoDelay t) (nPacketSize t) (bMonitor t).
Definition set_user_baud (t : ToolParam) (v : Z) : ToolParam :=
  mkParam (pSerialPort t) (pHexFile t) (nFlashBaud t) v (pRebootMagic t) (nRebootDelay t)
    (nGoDelay t) (nPacketSize t) (bMonitor t).
Definition set_magic (t : ToolParam) (m : list Z) : ToolParam :=
  mkParam (pSerialPort t) (pHexFile t) (nFlashBaud t) (nUserBaud t) (Some m) (nRebootDelay t)
    (nGoDelay t) (nPacketSize t) (bMonitor t).
Definition set_reboot_delay (t : ToolParam) (v : Z) : ToolParam :=
  mkParam (pSerialPort t) (pHexFile t) (nFlashBaud t) (nUserBaud t) (pRebootMagic t) v
    (nGoDelay t) (nPacketSize t) (bMonitor t).
Definition set_go_delay (t : ToolParam) (v : Z) : ToolParam :=
  mkParam (pSerialPort t) (pHexFile t) (nFlashBaud t) (nUserBaud t) (pRebootMagic t) (nRebootDelay t)
    v (nPacketSize t) (bMonitor t).
Definition set_packet_size (t : ToolParam) (v : Z) : ToolParam :=
  mkParam (pSerialPort t) (pHexFile t) (nFlashBaud t) (nUserBaud t) (pRebootMagic t) (nRebootDelay t)
    (nGoDelay t) v (bMonitor t).
Definition set_monitor (t : ToolParam) : ToolParam :=
  mkParam (pSerialPort t) (pHexFile t) (nFlashBaud t) (nUserBaud t) (pRebootMagic t) (nRebootDelay t)
    (nGoDelay t) (nPacketSize t) true.

(** *** The command line *)

(** The option's name and what follows its first colon. *)
Fixpoint split_option (s : list Z) : list Z * option (list Z) :=
  match s with
  | [] => ([], None)
  | c :: s => if c =? 58 then ([], Some s) else let '(n, p) := split_option s in (c :: n, p)
  end.

Definition lower (c : Z) : Z := if (65 <=? c) && (c <=? 90) then c + 32 else c.
Definition strcaseeq (a b : list Z) : bool := bool_decide ((lower <$> a) = (lower <$> b)).

(** [strtoul (s, &end, 10)]: the value and the string from [end] on *)
Fixpoint digits (v : Z) (s : list Z) : Z * list Z :=
  match s with
  | c :: s' => if (48 <=? c) && (c <=? 57) then digits (v * 10 + (c - 48)) s' else (v, s)
  | [] => (v, [])
  end.

Fixpoint drop_space (s : list Z) : list Z :=
  match s with c :: s' => if isspace c then drop_space s' else s | [] => [] end.

Definition strtoul (s : list Z) : Z * list Z :=
  let t := drop_space s in
  let '(neg, t) := match t with
    | c :: t' => if c =? 45 then (true, t') else if c =? 43 then (false, t') else (false, t)
    | [] => (false, t)
    end in
  match t with
  | c :: _ =>
      if (48 <=? c) && (c <=? 57) then
        let '(v, e) := digits 0 t in
        (if 2 ^ 64 <=? v then 2 ^ 64 - 1 else if neg then u64 (- v) else v, e)
      else (0, s)
  | [] => (0, s)
  end.

(** The test of a numeric parameter: [None] is an error message.  Without a
    parameter the test reads through a null pointer. *)
Definition numeric_param (pParam : option (list Z)) (limit : Z) : outcome (option Z) :=
  match pParam with
  | None => Ub
  | Some s =>
      let '(ulValue, pEnd) := strtoul s in
      if negb (bool_decide (pEnd = [])) || bool_decide (s = []) || (limit <? ulValue)
      then Ret None else Ret (Some (u32 ulValue))
  end.

Definition set_numeric (set : Z → ToolParam) (pParam : option (list Z)) (limit : Z)
    : outcome (option ToolParam) :=
  numeric_param pParam limit ≫= λ v : option Z, Ret (set <$> v).

(** One argument after the port; [None]: [main] returns 1. *)
Definition parse_option (t : ToolParam) (pOption : list Z) : outcome (option ToolParam) :=
  if starts_with (chars "--") pOption then
    let '(name, pParam) := split_option (drop 2 pOption) in
    if strcaseeq name (chars "flashbaud") then
      set_numeric (set_flash_baud t) pParam 4000000
    else if strcaseeq name (chars "userbaud") then
      set_numeric (set_user_baud t) pParam 4000000
    else if strcaseeq name (chars "godelay") then
      set_numeric (set_go_delay t) pParam 10000
    else if strcaseeq name (chars "reboot") then
      match pParam with
      | None => Ret None
      | Some [] => Ret (Some t)
      | Some m => Ret (Some (set_magic t m))
      end
    else if strcaseeq name (chars "rebootdelay") then
      set_numeric (set_reboot_delay t) pParam 20000
    else if strcaseeq name (chars "packetsize") then
      set_numeric (set_packet_size t) pParam 1000000
    else if strcaseeq name (chars "monitor") then Ret (Some (set_monitor t))
    else Ret None
  else
    match pHexFile t with
    | Some _ => Ret None
    | None => if bool_decide (pOption = []) then Ret None else Ret (Some (set_hex t pOption))
    end.

Fixpoint parse_options (t : ToolParam) (args : list (list Z)) : outcome (option ToolParam) :=
  match args with
  | [] => Ret (Some t)
  | a :: args => r ← parse_option t a; match r with None => Ret None | Some t => parse_options t args end
  end.

(** *** Reboot and reset *)

Definition send_magic (t : ToolParam) : M unit :=
  match pRebootMagic t with
  | None => mret tt
  | Some m =>
      ok ← SerialOpen (nUserBaud t);
      if negb ok then exit 1 else
      n ← SerialWrite m;
      if n <? 0 then exit 1 else mret tt
  end.

(** The [do] loop, after [nTries] rounds. *)
Fixpoint reset_loop (fuel : nat) (t : ToolParam) (nTries : Z) : M unit :=
  match fuel with
  | O => diverge
  | S fuel =>
      n ← SerialWrite reset_signal;
      if n <? 0 then exit 1 else
      let nTries := nTries + 1 in
      if negb (nTries =? 10) && ((nTries =? 150) && negb (bMonitor t)) then exit 1 else
      p ← SerialReadAndMatch (chars "IHEX-F");
      match p with Some _ => mret tt | None => reset_loop fuel t nTries end
  end.

(** *** Upload *)

(** The loop that fills the buffer: the packet, whether to go on, and the file. *)
Fixpoint fill_packet (n : nat) (file : list Z) (off : Z) : outcome (list Z * bool * list Z * Z) :=
  match n with
  | O => Ret ([], true, file, off)
  | S n =>
      '(nByte, file, off) ← GetNextByte file off;
      if nByte =? EOF then Ret ([], false, file, off) else
      '(p, more, file, off) ← fill_packet n file off;
      Ret (u8 nByte :: p, more, file, off)
  end.

Definition packet_size (t : ToolParam) : Z :=
  if nPacketSize t =? 0 then Z.quot (u32 (nFlashBaud t * 2)) 10 else nPacketSize t.

(** [size]: the size of the file, for the progress display. *)
Fixpoint upload_loop (fuel : nat) (size : Z) (ulPacketSize : nat) (file : list Z) (off : Z) : M unit :=
  match fuel with
  | O => diverge
  | S fuel =>
      pErr ← SerialReadAndMatch (chars "#ERR:");
      match pErr with
      | Some _ => exit 1
      | None =>
          if size =? 0 then undefined else
          '(packet, more, file, off) ← lift (fill_packet ulPacketSize file off);
          if bool_decide (packet = []) then mret tt else
          n ← SerialWrite packet;
          if negb (n =? Z.of_nat (length packet)) then exit 1 else
          if (more : bool) then upload_loop fuel size ulPacketSize file off else mret tt
      end
  end.

(** The named file, if it can be opened, read and given a buffer. *)
Definition upload (t : ToolParam) (file : option (list Z)) : M unit :=
  match pHexFile t with
  | None => mret tt
  | Some _ =>
      match file with
      | None => exit 1
      | Some f =>
          _ ← upload_loop (S (length f)) (Z.of_nat (length f)) (Z.to_nat (packet_size t)) f 0;
          p ← SerialReadAndMatch (chars "#EOF:ok");
          match p with None => exit 1 | Some _ => mret tt end
      end
  end.

(** *** Go *)

(** [%X] *)
Fixpoint upper_hex (fuel : nat) (n : Z) (acc : list Z) : list Z :=
  match fuel with
  | O => acc
  | S fuel =>
      let acc := hex_digit (n `mod` 16) :: acc in
      if n / 16 =? 0 then acc else upper_hex fuel (n / 16) acc
  end.

Definition go_delay_command (t : ToolParam) : list Z :=
  115 :: upper_hex 8 (u32 (nGoDelay t * 1000)) [] ++ [10].

Definition set_go (t : ToolParam) : M unit :=
  if nGoDelay t =? 0 then mret tt else
  n ← SerialWrite (go_delay_command t);
  if n <? 0 then exit 1 else mret tt.

Definition send_go : M unit :=
  n ← SerialWrite [103];
  if n <? 0 then exit 1 else
  _ ← SerialReadAndMatch (chars "--");
  exit 0.

(** The program after the command line. *)
Definition flash (fuel : nat) (t : ToolParam) (file : option (list Z)) : M unit :=
  _ ← send_magic t;
  ok ← SerialOpen (nFlashBaud t);
  if negb ok then exit 1 else
  _ ← reset_loop fuel t 0;
  _ ← upload t file;
  _ ← set_go t;
  send_go.

(** [file]: what the hex file named on the command line contains. *)
Definition main (fuel : nat) (argv : list (list Z)) (file : option (list Z)) : M unit :=
  match argv with
  | [] => undefined
  | [_] => exit 1
  | _ :: port :: args =>
      if starts_with [45] port then exit 1 else
      r ← lift (parse_options (default_params port) args);
      match r with None => exit 1 | Some t => flash fuel t file end
  end.

(** ** Running the program *)

Lemma M_bind_inv {A B} (m : M A) (f : A → M B) s r s' :
  (m ≫= f) s = Ret (r, s') →
  (∃ a s1, m s = Ret (inl a, s1) ∧ f a s1 = Ret (r, s')) ∨ (∃ code, m s = Ret (inr code, s') ∧ r = inr code).
Proof.
  unfold mbind, M_bind. destruct (m s) as [[[a|code] s1]| |]; cbn; [|intros [= <- <-]|done..].
  - intros H. left. by exists a, s1.
  - right. by exists code.
Qed.

Lemma lift_inv {A} (o : outcome A) s r s' : lift o s = Ret (r, s') → ∃ a, o = Ret a ∧ r = inl a ∧ s' = s.
Proof. unfold lift. destruct o as [a| |]; cbn; [|done..]. intros [= <- <-]. by exists a. Qed.

(** A part of the program that sends [bytes] if it gives a value, over a port that
    accepts every write, and that does not end the program with success. *)
Definition sends {A} (m : M A) (s : io) (P : A → list Z → Prop) : Prop :=
  writes s = [] → ∀ r s', m s = Ret (r, s') →
  match r with
  | inl a => writes s' = [] ∧ ∃ bytes, wire s' = wire s ++ bytes ∧ P a bytes
  | inr code => code ≠ 0
  end.

Lemma sends_ret {A} (a : A) s (P : A → list Z → Prop) : P a [] → sends (mret a) s P.
Proof. intros HP Hw r s' [= <- <-]. split; [done|]. exists []. by rewrite app_nil_r. Qed.

Lemma sends_exit {A} s (P : A → list Z → Prop) : sends (exit 1) s P.
Proof. by intros Hw r s' [= <- <-]. Qed.

Lemma sends_bind {A B} (m : M A) (f : A → M B) s (P : A → list Z → Prop) (Q : B → list Z → Prop) :
  sends m s P → (∀ a s1 bytes, P a bytes → sends (f a) s1 (λ b rest, Q b (bytes ++ rest))) →
  sends (m ≫= f) s Q.
Proof.
  intros Hm Hf Hw r s' [(a & s1 & E & Er)|(code & E & ->)]%M_bind_inv.
  - destruct (Hm Hw _ _ E) as (Hw1 & bytes & Hwire & HP). specialize (Hf a s1 bytes HP Hw1 r s' Er).
    destruct r as [b|code]; [|done]. destruct Hf as (Hw2 & rest & Hwire2 & HQ). split; [done|].
    exists (bytes ++ rest). by rewrite Hwire2, Hwire, app_assoc.
  - exact (Hm Hw _ _ E).
Qed.

Lemma sends_weaken {A} (m : M A) s (P Q : A → list Z → Prop) :
  sends m s P → (∀ a bytes, P a bytes → Q a bytes) → sends m s Q.
Proof.
  intros Hm HPQ Hw r s' E. specialize (Hm Hw r s' E). destruct r; [|done].
  destruct Hm as (Hw' & bytes & Hwire & HP). split; [done|]. exists bytes. split; [done | by apply HPQ].
Qed.

Lemma sends_write bytes s : sends (SerialWrite bytes) s (λ n l, n = Z.of_nat (length bytes) ∧ l = bytes).
Proof.
  intros Hw r s'. unfold SerialWrite. rewrite Hw. intros [= <- <-]. split; [done|]. by exists bytes.
Qed.

Lemma sends_match p s : sends (SerialReadAndMatch p) s (λ _ l, l = []).
Proof.
  apply (sends_bind _ _ _ (λ _ l, l = [])).
  - intros Hw r s'. unfold SerialRead. destruct (reads s) as [|[bytes|] rs].
    + intros [= <- <-]. split; [done|]. exists []. by rewrite app_nil_r.
    + intros [= <- <-]. split; [done|]. exists []. by rewrite app_nil_r.
    + intros [= <- <-]. split; [done|]. exists []. by rewrite app_nil_r.
  - intros [[|x l]|] s1 bytes ->; [by apply sends_ret | by apply sends_ret | apply sends_exit].
Qed.

Lemma sends_open baud s :
  sends (SerialOpen baud) s (λ ok l, l = [] ∧ (ok = true → Baud2Speed baud ≠ None)).
Proof.
  intros Hw r s'. unfold SerialOpen. destruct (Baud2Speed baud); [destruct (opens s)|];
    intros [= <- <-]; (split; [done|]); exists []; by rewrite app_nil_r.
Qed.

Lemma sends_lift {A} (o : outcome A) s (P : A → list Z → Prop) :
  (∀ a, o = Ret a → P a []) → sends (lift o) s P.
Proof.
  intros HP Hw r s' (a & Ho & -> & ->)%lift_inv. split; [done|]. exists []. rewrite app_nil_r. auto.
Qed.

(** *** The reset *)

Lemma reset_loop_sends fuel t : ∀ n s, sends (reset_loop fuel t n) s
  (λ _ l, ∃ k, l = concat (replicate (S k) reset_signal)).
Proof.
  induction fuel as [|fuel IH]; intros n s; cbn [reset_loop]; [by intros Hw r s'|].
  eapply sends_bind; [apply sends_write|]. intros k s1 bytes [-> ->].
  rewrite (proj2 (Z.ltb_ge _ 0)) by lia. cbv zeta. destruct (_ && _); [apply sends_exit|].
  eapply sends_bind; [apply sends_match|]. intros [p|] s2 l ->.
  - apply sends_ret. exists 0%nat. reflexivity.
  - eapply sends_weaken; [apply IH|]. intros [] l (k & ->). by exists (S k).
Qed.

(** *** The scanner *)

(** The bytes [GetNextByte] finds in a file. *)
Inductive scans : list Z → list Z → Prop :=
  | scans_eof file :
      (∀ off, ∃ f' off', GetNextByte file off = Ret (EOF, f', off')) → scans file []
  | scans_byte file file' x bytes :
      (∀ off, ∃ off', GetNextByte file off = Ret (x, file', off')) → byte x → scans file' bytes →
      scans file (x :: bytes).

Lemma fill_packet_scans n : ∀ file bytes off, scans file bytes →
  ∃ file' off', fill_packet n file off = Ret (take n bytes, (n <=? length bytes)%nat, file', off') ∧
    ((n ≤ length bytes)%nat → scans file' (drop n bytes)).
Proof.
  induction n as [|n IH]; intros file bytes off Hs; cbn [fill_packet].
  { exists file, off. by rewrite drop_0. }
  destruct Hs as [file He|file file1 x bytes Hx Hb Hs].
  - destruct (He off) as (f' & off' & ->). rewrite bind_Ret. cbn.
    exists f', off'. split; [done | lia].
  - destruct (Hx off) as (off1 & ->). rewrite bind_Ret.
    rewrite (proj2 (Z.eqb_neq x EOF)) by (unfold EOF, uword in *; lia).
    destruct (IH file1 bytes off1 Hs) as (f' & off' & -> & Hs'). rewrite bind_Ret.
    exists f', off'. rewrite wrap_small by done. split; [done|]. cbn [length drop]. intros. apply Hs'. lia.
Qed.

Lemma upload_loop_sends fuel size p : ∀ file bytes off s, (0 < p)%nat → scans file bytes →
  sends (upload_loop fuel size p file off) s (λ _ l, l = bytes).
Proof.
  induction fuel as [|fuel IH]; intros file bytes off s Hp Hs; cbn [upload_loop]; [by intros Hw r s'|].
  eapply sends_bind; [apply sends_match|]. intros [e|] s1 l ->; [apply sends_exit|].
  destruct (size =? 0); [by intros Hw r s'|].
  destruct (fill_packet_scans p file bytes off Hs) as (file' & off' & E & Hs').
  eapply sends_bind; [apply (sends_lift _ _ (λ a l, l = [] ∧ a = (take p bytes, (p <=? length bytes)%nat, file', off')))|].
  { intros a Ha. rewrite E in Ha. by injection Ha as <-. }
  intros a s2 l [-> ->].
  destruct (decide (take p bytes = [])) as [E0|E0].
  - rewrite bool_decide_true by done. apply sends_ret. destruct bytes; [done|]. destruct p; [lia | done].
  - rewrite bool_decide_false by done.
    eapply sends_bind; [apply sends_write|]. intros n s3 l [-> ->]. rewrite Z.eqb_refl. cbn [negb].
    destruct (Nat.leb_spec p (length bytes)) as [Hle|Hgt].
    + eapply sends_weaken; [apply IH; [done | by apply Hs']|]. intros [] l ->. by rewrite take_drop.
    + apply sends_ret. by rewrite app_nil_r, take_ge by lia.
Qed.

Lemma scans_space c file bytes : isspace c = true → scans file bytes → scans (c :: file) bytes.
Proof.
  intros Hc. assert (E : ∀ f off, GetNextByte (c :: f) off = GetNextByte f (off + 1)).
  { intros f off. unfold GetNextByte. cbn [skip_space]. by rewrite Hc. }
  intros [f He|f f1 x l Hx Hb Hs].
  - apply scans_eof. intros off. destruct (He (off + 1)) as (f' & off' & Ef). exists f', off'. by rewrite E.
  - eapply scans_byte; [|done..]. intros off. destruct (Hx (off + 1)) as (off' & Ef). exists off'. by rewrite E.
Qed.

Lemma scans_spaces sep file bytes : Forall (λ c, isspace c = true) sep → scans file bytes → scans (sep ++ file) bytes.
Proof. induction 1; [done|]. intros Hs. apply scans_space; auto. Qed.

Lemma scans_colon file bytes : scans file bytes → scans (58 :: file) (61 :: bytes).
Proof. intros Hs. eapply scans_byte; [|unfold uword; lia|done]. intros off. by exists (off + 1). Qed.

Lemma hex_digit_scan n : 0 ≤ n < 16 →
  isspace (hex_digit n) = false ∧ hex_digit n ≠ EOF ∧ hex_digit n ≠ 58 ∧ hex_value (hex_digit n) = n.
Proof. intros Hn. unfold isspace, hex_digit, EOF, hex_value. zcases; cbn; split_and!; try done; lia. Qed.

Lemma scans_hex_byte x file bytes : byte x → scans file bytes → scans (hex_byte x ++ file) (x :: bytes).
Proof.
  intros Hx Hs.
  assert (Hhi : 0 ≤ x / 16 < 16) by (unfold uword in Hx; split; [apply Z.div_pos | apply Z.div_lt_upper_bound]; lia).
  assert (Hlo : 0 ≤ x `mod` 16 < 16) by (apply Z.mod_pos_bound; lia).
  destruct (hex_digit_scan _ Hhi) as (Hsp & He & Hc & Hv). destruct (hex_digit_scan _ Hlo) as (_ & _ & _ & Hv').
  eapply scans_byte; [|done..]. intros off. exists (off + 2). unfold GetNextByte, hex_byte.
  cbn [skip_space app]. rewrite Hsp. rewrite (proj2 (Z.eqb_neq _ _) He), (proj2 (Z.eqb_neq _ _) Hc), Hv, Hv'.
  rewrite (proj2 (Z.ltb_ge _ 0)) by lia. rewrite lor_nibbles by done. do 2 f_equal. lia.
Qed.

Lemma scans_hex_bytes l file bytes : Forall byte l → scans file bytes →
  scans (concat (hex_byte <$> l) ++ file) (l ++ bytes).
Proof.
  intros Hl Hs. induction Hl as [|x l Hx Hl IH]; [done|]. cbn [fmap list_fmap concat app].
  rewrite <- app_assoc. by apply scans_hex_byte.
Qed.

Lemma record_bytes_ok r : framed r → Forall byte (record_bytes r).
Proof.
  intros [Ha Ht Hd Hl _ _]. unfold record_bytes, record_body. unfold uword in *.
  rewrite !Forall_app. split; [split; [|done]|].
  - repeat constructor; try lia; try (apply Z.mod_pos_bound; lia).
    + apply Z.div_pos; lia.
    + apply Z.div_lt_upper_bound; lia.
  - apply Forall_singleton, checksum_byte.
Qed.

Lemma scans_line sep r file bytes : framed r → Forall (λ c, isspace c = true) sep → scans file bytes →
  scans (line recv_state_hex sep r ++ file) (line recv_state_binary [] r ++ bytes).
Proof.
  intros Hr Hsep Hs. unfold line. cbn [app]. rewrite <- !app_assoc. cbn [mark].
  apply scans_colon. cbn [on_line]. apply scans_hex_bytes; [by apply record_bytes_ok|]. cbn [app].
  by apply scans_spaces.
Qed.

(** The scanner turns a file into its binary form. *)
Lemma scans_file sep rs : Forall body_record rs → Forall (λ c, isspace c = true) sep →
  scans (file_lines recv_state_hex sep rs) (file_lines recv_state_binary [] rs).
Proof.
  intros Hrs Hsep. unfold file_lines. induction Hrs as [|r rs Hr Hrs IH].
  - cbn [fmap list_fmap concat app]. rewrite <- (app_nil_r (line recv_state_hex sep end_record)).
    rewrite <- (app_nil_r (line recv_state_binary [] end_record)).
    apply scans_line; [apply end_record_framed | done |]. apply scans_eof. intros off. by exists [], off.
  - cbn [fmap list_fmap concat]. rewrite <- !app_assoc. by apply scans_line; [apply Hr | |].
Qed.

(** *** The whole tool *)

Definition delay_bytes (t : ToolParam) : list Z := if nGoDelay t =? 0 then [] else go_delay_command t.

Lemma packet_size_pos t : Baud2Speed (nFlashBaud t) ≠ None → 0 ≤ nPacketSize t → 0 < packet_size t.
Proof.
  intros Hb Hp. unfold packet_size. destruct (Z.eqb_spec (nPacketSize t) 0); [|lia].
  assert (Hin : ∀ rates i, baud_loop i rates (nFlashBaud t) ≠ None → nFlashBaud t ∈ rates).
  { induction rates as [|r rates IH]; intros i Hne; cbn [baud_loop] in Hne; [done|].
    destruct (Z.eqb_spec r (nFlashBaud t)) as [<-|]; [by left | right; by eapply IH]. }
  apply Hin in Hb. clear Hin.
  assert (Hall : Forall (λ b, 0 < Z.quot (u32 (b * 2)) 10) BaudRates).
  { apply (bool_decide_eq_true_1 _). vm_compute. reflexivity. }
  rewrite Forall_forall in Hall. by apply Hall.
Qed.

Lemma upload_sends t name rs sep s : pHexFile t = Some name → 0 < packet_size t →
  Forall body_record rs → Forall (λ c, isspace c = true) sep →
  sends (upload t (Some (file_lines recv_state_hex sep rs))) s (λ _ l, l = file_lines recv_state_binary [] rs).
Proof.
  intros Hn Hp Hrs Hsep. unfold upload. rewrite Hn.
  eapply sends_bind; [apply upload_loop_sends; [lia | by apply scans_file]|]. intros [] s1 l ->.
  eapply sends_bind; [apply sends_match|]. intros [p|] s2 l ->; [|apply sends_exit].
  apply sends_ret. by rewrite !app_nil_r.
Qed.

Lemma set_go_sends t s : sends (set_go t) s (λ _ l, l = delay_bytes t).
Proof.
  unfold set_go, delay_bytes. destruct (nGoDelay t =? 0); [by apply sends_ret|].
  eapply sends_bind; [apply sends_write|]. intros n s1 l [-> ->]. rewrite (proj2 (Z.ltb_ge _ 0)) by lia.
  apply sends_ret. by rewrite app_nil_r.
Qed.

(** What precedes the go command. *)
Definition before_go (t : ToolParam) (fuel : nat) (file : option (list Z)) : M unit :=
  _ ← send_magic t;
  ok ← SerialOpen (nFlashBaud t);
  if negb ok then exit 1 else
  _ ← reset_loop fuel t 0;
  _ ← upload t file;
  set_go t.

Lemma M_bind_assoc {A B C} (m : M A) (f : A → M B) (g : B → M C) s :
  ((m ≫= f) ≫= g) s = (m ≫= λ a, f a ≫= g) s.
Proof. unfold mbind, M_bind. destruct (m s) as [[[a|code] s1]| |]; done. Qed.

Lemma M_bind_ext {A B} (m : M A) (f g : A → M B) s : (∀ a s, f a s = g a s) → (m ≫= f) s = (m ≫= g) s.
Proof. intros H. unfold mbind, M_bind. destruct (m s) as [[[a|code] s1]| |]; cbn; [apply H | done..]. Qed.

Lemma flash_split fuel t file s : flash fuel t file s = (before_go t fuel file ≫= λ _, send_go) s.
Proof.
  unfold flash, before_go. rewrite M_bind_assoc. apply M_bind_ext. intros [] s1.
  rewrite M_bind_assoc. apply M_bind_ext. intros ok s2. destruct (negb ok); [done|].
  rewrite M_bind_assoc. apply M_bind_ext. intros [] s3. by rewrite M_bind_assoc.
Qed.

Lemma before_go_sends fuel t name rs sep s :
  pHexFile t = Some name → pRebootMagic t = None → 0 ≤ nPacketSize t →
  Forall body_record rs → Forall (λ c, isspace c = true) sep →
  sends (before_go t fuel (Some (file_lines recv_state_hex sep rs))) s
    (λ _ l, ∃ k, l = concat (replicate (S k) reset_signal) ++ file_lines recv_state_binary [] rs ++ delay_bytes t).
Proof.
  intros Hn Hmagic Hp Hrs Hsep. unfold before_go.
  eapply sends_bind; [unfold send_magic; rewrite Hmagic; by apply (sends_ret tt _ (λ _ l, l = []))|].
  intros [] s1 l ->.
  eapply sends_bind; [apply sends_open|]. intros [] s2 l [-> Hb]; cbn [negb]; [|apply sends_exit].
  eapply sends_bind; [apply reset_loop_sends|]. intros [] s3 l (k & ->).
  eapply sends_bind; [apply (upload_sends t name rs sep); [exact Hn | apply packet_size_pos; [by apply Hb | done] | done..]|].
  intros [] s4 l ->.
  eapply sends_weaken; [apply set_go_sends|]. intros [] l ->. by exists k.
Qed.

(** ** The device at the other end of the line *)

Lemma resets_run AARCH k : ∀ b rest, interrupted b → (recvstate b = recv_state_binary → busy b ≤ 256) →
  ∃ b', notmain AARCH b (concat (replicate (S k) reset_signal) ++ rest) = notmain AARCH b' rest ∧ ready_to_load b b'.
Proof.
  induction k as [|k IH]; intros b rest Hi Hb.
  - cbn [replicate concat]. rewrite app_nil_r. by apply reset_once.
  - change (concat (replicate (S (S k)) reset_signal)) with (reset_signal ++ concat (replicate (S k) reset_signal)).
    rewrite <- app_assoc.
    destruct (reset_once AARCH b (concat (replicate (S k) reset_signal) ++ rest) Hi Hb)
      as (b1 & -> & H1 & H2 & H3 & H4 & _).
    destruct (IH b1 rest) as (b2 & -> & H5 & H6 & H7 & H8 & H9); [by split; rewrite ?H1 | by rewrite H1 |].
    exists b2. split; [done|]. split; [done|]. split; [done|]. split; [done|]. split; [by rewrite H8 | done].
Qed.

(** What a file puts into an empty memory. *)
Definition image (rs : list record) : gmap Z Z := snd (fold_left load_record rs (0, ∅)).

Lemma put_bytes_union data : ∀ m1 m2 a, put_bytes (m1 ∪ m2) a data = put_bytes m1 a data ∪ m2.
Proof.
  induction data as [|x data IH]; intros m1 m2 a; cbn [put_bytes]; [done|].
  by rewrite insert_union_l, IH.
Qed.

Lemma load_union rs : ∀ base m1 m2, fold_left load_record rs (base, m1 ∪ m2)
  = (fst (fold_left load_record rs (base, m1)), snd (fold_left load_record rs (base, m1)) ∪ m2).
Proof.
  induction rs as [|r rs IH]; intros base m1 m2; cbn [fold_left]; [done|]. unfold load_record at 2 4 6.
  destruct (r_type r =? 0); [by rewrite put_bytes_union, IH|].
  destruct (r_type r =? 2); [by rewrite IH|]. destruct (r_type r =? 4); by rewrite IH.
Qed.

Lemma image_loaded rs mem : image rs ⊆ snd (fold_left load_record rs (0, mem)).
Proof. rewrite <- (map_empty_union mem), load_union. cbn [snd]. apply map_union_subseteq_l. Qed.

Lemma read_upper_hex fuel : ∀ n acc k, (0 < fuel)%nat → 0 ≤ n < 16 ^ Z.of_nat fuel → n < 2 ^ 32 →
  read_delay 0 (upper_hex fuel n acc ++ k) = read_delay n (acc ++ k).
Proof.
  induction fuel as [|fuel IH]; intros n acc k Hf Hn H32; [lia|]. cbn [upper_hex]. cbv zeta.
  rewrite Nat2Z.inj_succ, Z.pow_succ_r in Hn by lia.
  assert (Hlo : 0 ≤ n `mod` 16 < 16) by (apply Z.mod_pos_bound; lia).
  pose proof (Z.div_mod n 16). assert (0 ≤ n / 16) by (apply Z.div_pos; lia).
  assert (Hdig : read_delay (n / 16) (hex_digit (n `mod` 16) :: acc ++ k) = read_delay n (acc ++ k)).
  { cbn [read_delay]. rewrite nibble_hex_digit by done. rewrite (proj2 (Z.leb_le 0 _)) by lia.
    assert (E : u32 ((n / 16) ≪ 4) = (n / 16) ≪ 4).
    { apply wrap_small. unfold uword. rewrite Z.shiftl_mul_pow2 by lia. lia. }
    rewrite E, lor_shiftl_add by lia. f_equal. lia. }
  destruct (Z.eqb_spec (n / 16) 0) as [E0|E0]; [by rewrite <- Hdig, E0|].
  destruct fuel as [|fuel]; [cbn in Hn; lia|].
  rewrite IH; [done | lia | | lia]. split; [lia|]. apply Z.div_lt_upper_bound; lia.
Qed.

Lemma delay_run AARCH t b k : recvstate b = recv_state_eof → running b = None → 0 ≤ nGoDelay t ≤ 10000 →
  ∃ b', notmain AARCH b (delay_bytes t ++ k) = notmain AARCH b' k ∧ recvstate b' = recv_state_eof ∧
    running b' = None ∧ memory b' = memory b ∧
    start_delay b' = (if nGoDelay t =? 0 then start_delay b else nGoDelay t * 1000).
Proof.
  intros Hs Hrun Ht. unfold delay_bytes. destruct (nGoDelay t =? 0); [by exists b|].
  unfold go_delay_command. rewrite wrap_small by (unfold uword; lia). rewrite <- app_comm_cons, <- app_assoc.
  exists (set_delay b (nGoDelay t * 1000)). split; [|done].
  apply notmain_step_eq. unfold notmain_step. rewrite Hrun, Hs.
  rewrite bool_decide_false, andb_true_r by done. cbn [Z.eqb Pos.eqb].
  by rewrite read_upper_hex by lia.
Qed.

(** The line of a tool that ends with success. *)
Lemma wire_after_go t fuel file s s' (P : unit → list Z → Prop) : writes s = [] →
  sends (before_go t fuel file) s P → flash fuel t file s = Ret (inr 0, s') →
  ∃ l, P tt l ∧ wire s' = wire s ++ l ++ [103].
Proof.
  intros Hw Hpre Hrun. rewrite flash_split in Hrun.
  apply M_bind_inv in Hrun as [([] & s1 & E1 & E2)|(code & E1 & E2)].
  2:{ injection E2 as <-. by apply (Hpre Hw) in E1. }
  apply (Hpre Hw) in E1 as (Hw1 & l & Hwire1 & HP). exists l. split; [done|].
  set (s2 := mkIo (opens s1) (reads s1) [] (wire s1 ++ [103])).
  assert (E3 : send_go s1 = (SerialReadAndMatch (chars "--") ≫= λ _, exit 0) s2).
  { unfold send_go, mbind, M_bind, SerialWrite. by rewrite Hw1. }
  rewrite E3 in E2. apply M_bind_inv in E2 as [(p & s3 & Em & Ex)|(code & Em & Ec)].
  - destruct (sends_match (chars "--") s2 eq_refl _ _ Em) as (_ & l' & Hl & ->).
    injection Ex as <-. rewrite app_nil_r in Hl. rewrite Hl. cbn [s2 wire]. by rewrite Hwire1, <- app_assoc.
  - injection Ec as <-. by apply (sends_match (chars "--") s2 eq_refl) in Em.
Qed.

(** C24: Flashing a board runs the image.  For a tool that is started without a reboot
    magic on a serial line that accepts every write in full, and for a hex file of
    plain record lines (no data record is empty or runs over the end of its 64K,
    segment bases are multiples of 64K, the checksums are right; white space may
    follow each record) up to its end record: whatever the board answers, if the tool
    ends with success, what it has written to the serial line takes the bootloader
    from any state between two rounds of its loop in which one reset signal suffices
    (see [bootloader_reset]) to a jump to the load
    address, with every byte the hex file's records place in memory at its
    address and the start delay that was asked for. *)
Theorem flash_runs_image (AARCH : Z) (fuel : nat) (t : ToolParam) (name sep : list Z) (rs : list record)
    (s s' : io) (b : bl) :
  pHexFile t = Some name → pRebootMagic t = None → 0 ≤ nPacketSize t → 0 ≤ nGoDelay t ≤ 10000 →
  Forall body_record rs → Forall (λ c, isspace c = true) sep →
  writes s = [] → wire s = [] →
  flash fuel t (Some (file_lines recv_state_hex sep rs)) s = Ret (inr 0, s') →
  interrupted b → (recvstate b = recv_state_binary → busy b ≤ 256) →
  ∃ b', notmain AARCH b (wire s') = (b', []) ∧ running b' = Some (load_address AARCH) ∧
    image rs ⊆ memory b' ∧ (nGoDelay t ≠ 0 → delayed b' = nGoDelay t * 1000).
Proof.
  intros Hn Hmagic Hp Hg Hrs Hsep Hw Hwire Hrun Hi Hb.
  destruct (wire_after_go t fuel _ s s' _ Hw (before_go_sends fuel t name rs sep s Hn Hmagic Hp Hrs Hsep) Hrun)
    as (l & (k & ->) & ->).
  rewrite Hwire. cbn [app]. rewrite <- !app_assoc.
  destruct (resets_run AARCH k b (file_lines recv_state_binary [] rs ++ delay_bytes t ++ [103]) Hi Hb)
    as (b1 & -> & Hs1 & Hseg1 & Hrun1 & _ & _).
  destruct (file_loaded AARCH recv_state_binary [] rs b1) as (b2 & -> & Hs2 & Hm2 & _ & Hrun2 & _ & _).
  { by right. } { constructor. } { done. } { done. } { done. } { rewrite Hseg1. split; [lia | by exists 0]. }
  destruct (delay_run AARCH t b2 [103] Hs2 Hrun2 Hg) as (b3 & -> & Hs3 & Hrun3 & Hm3 & Hd3).
  rewrite (go_run AARCH b3 [] Hs3 Hrun3). exists (go AARCH b3). split; [done|].
  unfold go. rewrite send_str by (apply no_zero; vm_compute; reflexivity). cbn [set_sent BRANCHTO running memory delayed start_delay].
  split; [done|]. split.
  - rewrite Hm3, Hm2, Hseg1. apply image_loaded.
  - intros Hne. by rewrite Hd3, (proj2 (Z.eqb_neq _ 0) Hne).
Qed.

(** ** The tool comes to an end *)

(** A part of the program that gives a value or an exit code of 0 or 1, or is
    undefined because of [bad]. *)
Definition ends {A} (bad : Prop) (m : M A) (s : io) : Prop :=
  match m s with
  | Ret (inl _, _) => True
  | Ret (inr code, _) => code = 0 ∨ code = 1
  | Ub => bad
  | Diverge => False
  end.

Lemma ends_bind {A B} bad (m : M A) (f : A → M B) s :
  ends bad m s → (∀ a s1, m s = Ret (inl a, s1) → ends bad (f a) s1) → ends bad (m ≫= f) s.
Proof. unfold ends, mbind, M_bind. intros Hm Hf. destruct (m s) as [[[a|code] s1]| |]; cbn; auto. by apply Hf. Qed.

Lemma ends_ret {A} bad (a : A) s : ends bad (mret a) s.
Proof. exact I. Qed.
Lemma ends_exit {A} bad s : ends (A := A) bad (exit 1) s.
Proof. by right. Qed.
Lemma ends_write bad bytes s : ends bad (SerialWrite bytes) s.
Proof. unfold ends, SerialWrite. by destruct (writes s) as [|[n|] ws]. Qed.
Lemma ends_open bad baud s : ends bad (SerialOpen baud) s.
Proof. unfold ends, SerialOpen. destruct (Baud2Speed baud); [by destruct (opens s) | done]. Qed.
Lemma ends_read bad n s : ends bad (SerialRead n) s.
Proof. unfold ends, SerialRead. by destruct (reads s) as [|[bytes|] rs]. Qed.

Lemma ends_match bad p s : ends bad (SerialReadAndMatch p) s.
Proof.
  apply ends_bind; [apply ends_read|]. intros [[|x l]|] s1 _; [done | done | apply ends_exit].
Qed.

#[export] Hint Resolve ends_ret ends_exit ends_write ends_open ends_match : dhcp.

(** A file the scanner gives up on: it is empty, or a character that is no digit
    stands where a digit belongs. *)
Definition bad_char (file : list Z) : Prop := ∃ c, c ∈ file ∧ isspace c = false ∧ c < 48.
Definition bad_file (file : list Z) : Prop := file = [] ∨ bad_char file.

Lemma skip_space_cases file : ∀ off, ∃ c f off', skip_space file off = (c, f, off') ∧
  ((c = EOF ∧ f = []) ∨ (isspace c = false ∧ c ∈ file ∧ (length f < length file)%nat ∧ ∀ x, x ∈ f → x ∈ file)).
Proof.
  induction file as [|c file IH]; intros off; cbn [skip_space].
  { exists EOF, [], off. split; [done|]. by left. }
  destruct (isspace c) eqn:Ec.
  - destruct (IH (off + 1)) as (c' & f & off' & -> & Hc). exists c', f, off'. split; [done|].
    destruct Hc as [Hc|(H1 & H2 & H3 & H4)]; [by left|]. right. split; [done|]. split; [by right|].
    split; [cbn; lia|]. intros x Hx. right. by apply H4.
  - exists c, file, (off + 1). split; [done|]. right. split; [done|]. split; [by left|].
    split; [cbn; lia|]. intros x Hx. by right.
Qed.

Lemma GetNextByte_cases file off :
  (GetNextByte file off = Ub ∧ bad_char file) ∨
  ∃ x f off', GetNextByte file off = Ret (x, f, off') ∧ (∀ y, y ∈ f → y ∈ file) ∧
    (x ≠ EOF → (length f < length file)%nat).
Proof.
  destruct (skip_space_cases file off) as (c & f & off' & E & Hc). unfold GetNextByte. rewrite E.
  destruct (Z.eqb_spec c EOF) as [->|Hne].
  { right. exists EOF, f, off'. split; [done|]. destruct Hc as [[_ ->]|(_ & _ & _ & Hsub)]; [|done].
    split; [|done]. intros y Hy. by apply elem_of_nil in Hy. }
  destruct Hc as [[? _]|(Hs & Hin & Hl & Hsub)]; [done|].
  destruct (c =? 58); [right; by exists 61, f, off'|].
  destruct (Z.ltb_spec (hex_value c) 0) as [Hneg|Hpos].
  - left. split; [done|]. exists c. split; [done|]. split; [done|].
    unfold hex_value in Hneg. destruct (Z.ltb_spec c 65); lia.
  - right. destruct f as [|c2 f]; [by exists EOF, [], off'|]. eexists _, f, (off' + 1). split; [done|].
    split; [intros y Hy; apply Hsub; by right|]. cbn [length] in Hl. lia.
Qed.

Lemma fill_packet_cases n : ∀ file off,
  (fill_packet n file off = Ub ∧ bad_char file) ∨
  ∃ p more f off', fill_packet n file off = Ret (p, more, f, off') ∧ (∀ y, y ∈ f → y ∈ file) ∧
    (more = true → (length f + n ≤ length file)%nat).
Proof.
  induction n as [|n IH]; intros file off; cbn [fill_packet].
  { right. exists [], true, file, off. split; [done|]. split; [done | lia]. }
  destruct (GetNextByte_cases file off) as [[-> Hbad]|(x & f & off' & -> & Hsub & Hl)]; cbn.
  - by left.
  - destruct (Z.eqb_spec x EOF) as [->|Hx]; [right; by eexists _, false, f, off'|].
    destruct (IH f off') as [[-> (c & Hc & H)]|(p & more & f' & off2 & -> & Hsub' & Hl')]; cbn.
    + left. split; [done|]. exists c. split; [by apply Hsub | done].
    + right. eexists _, more, f', off2. split; [done|]. split; [auto|]. intros Hm. specialize (Hl' Hm).
      specialize (Hl Hx). lia.
Qed.

Lemma reset_loop_ends fuel t bad : ∀ n s, bMonitor t = false → 0 ≤ n < 150 → 150 - n ≤ Z.of_nat fuel →
  ends bad (reset_loop fuel t n) s.
Proof.
  induction fuel as [|fuel IH]; intros n s Hmon Hn Hf; cbn [reset_loop]; [lia|].
  apply ends_bind; [apply ends_write|]. intros k s1 _. destruct (k <? 0); [apply ends_exit|]. cbv zeta.
  rewrite Hmon. cbn [negb]. rewrite andb_true_r.
  destruct (negb (n + 1 =? 10) && (n + 1 =? 150)) eqn:E; [apply ends_exit|].
  apply ends_bind; [apply ends_match|]. intros [p|] s2 _; [apply ends_ret|]. apply IH; [done | |lia].
  destruct (Z.eqb_spec (n + 1) 10); destruct (Z.eqb_spec (n + 1) 150); cbn in E; try done; lia.
Qed.

Lemma upload_loop_ends fuel file0 p : ∀ file off s, (∀ y, y ∈ file → y ∈ file0) →
  (length file < fuel)%nat →
  ends (bad_file file0) (upload_loop fuel (Z.of_nat (length file0)) p file off) s.
Proof.
  induction fuel as [|fuel IH]; intros file off s Hsub Hf; cbn [upload_loop]; [lia|].
  apply ends_bind; [apply ends_match|]. intros [e|] s1 _; [apply ends_exit|].
  destruct (Z.eqb_spec (Z.of_nat (length file0)) 0) as [E|_].
  { left. destruct file0; [done | cbn in E; lia]. }
  destruct (fill_packet_cases p file off) as [[E (c & Hc & H)]|(pk & more & f & off' & E & Hsub' & Hl)].
  { rewrite E. apply ends_bind; [|done]. right. exists c. split; [by apply Hsub | done]. }
  apply ends_bind; [by rewrite E|]. rewrite E. intros a s2 (a' & Ha & [= ->] & ->)%lift_inv.
  injection Ha as <-. destruct (decide (pk = [])) as [Hpk|Hpk].
  { rewrite bool_decide_true by done. apply ends_ret. }
  rewrite bool_decide_false by done.
  apply ends_bind; [apply ends_write|]. intros k s3 _. destruct (negb _); [apply ends_exit|].
  destruct more; [|apply ends_ret]. specialize (Hl eq_refl).
  destruct p as [|p]; [cbn in E; by simplify_eq|]. apply IH; [auto | lia].
Qed.

(** C29: The flash tool comes to an end.  Without --monitor it gives up after 150
    resets without an answer, and the upload reads the file once: whatever the
    port does, it ends with exit code 0 or 1, unless the hex file is empty or has
    a character below the digits where a digit belongs. *)
Theorem flash_terminates (t : ToolParam) (file : option (list Z)) (s : io) :
  bMonitor t = false →
  (∃ code s', flash 150 t file s = Ret (inr code, s') ∧ (code = 0 ∨ code = 1)) ∨
  (flash 150 t file s = Ub ∧ ∃ f, file = Some f ∧ bad_file f).
Proof.
  intros Hmon.
  set (m := before_go t 150 file ≫= λ _, send_go).
  assert (H : ends (∃ f, file = Some f ∧ bad_file f) m s ∧ ∀ s', m s ≠ Ret (inl tt, s')).
  2:{ destruct H as [H Hno]. unfold ends in H. rewrite flash_split. fold m. destruct (m s) as [[[[]|code] s']| |];
      [by destruct (Hno s') | left; by exists code, s' | by right | done]. }
  split.
  - apply ends_bind.
    + unfold before_go. apply ends_bind.
      { unfold send_magic. destruct (pRebootMagic t); [|apply ends_ret].
        apply ends_bind; [apply ends_open|]. intros ok s1 _. destruct (negb ok); [apply ends_exit|].
        apply ends_bind; [apply ends_write|]. intros n s2 _. destruct (n <? 0); [apply ends_exit | apply ends_ret]. }
      intros [] s1 _. apply ends_bind; [apply ends_open|]. intros ok s2 _. destruct (negb ok); [apply ends_exit|].
      apply ends_bind; [by apply reset_loop_ends|]. intros [] s3 _. apply ends_bind.
      { unfold upload. destruct (pHexFile t); [|apply ends_ret]. destruct file as [f|]; [|apply ends_exit].
        apply ends_bind.
        - pose proof (upload_loop_ends (S (length f)) f (Z.to_nat (packet_size t)) f 0 s3) as H.
          unfold ends in *. destruct (upload_loop _ _ _ _ _ s3) as [[[]]| |]; try (apply H; [done | lia]).
          exists f. split; [done|]. apply H; [done | lia].
        - intros [] s4 _. apply ends_bind; [apply ends_match|]. intros [p|] s5 _; [apply ends_ret | apply ends_exit]. }
      intros [] s4 _. unfold set_go. destruct (nGoDelay t =? 0); [apply ends_ret|].
      apply ends_bind; [apply ends_write|]. intros n s5 _. destruct (n <? 0); [apply ends_exit | apply ends_ret].
    + intros [] s1 _. unfold send_go. apply ends_bind; [apply ends_write|]. intros n s2 _.
      destruct (n <? 0); [apply ends_exit|]. apply ends_bind; [apply ends_match|]. intros p s3 _. by left.
  - intros s' [(a & s1 & _ & E)|(code & _ & E)]%M_bind_inv; [|done]. unfold send_go in E.
    apply M_bind_inv in E as [(n & s2 & _ & E)|(code & _ & E)]; [|done]. destruct (n <? 0); [done|].
    apply M_bind_inv in E as [(p & s3 & _ & E)|(code & _ & E)]; done.
Qed.

(** ** What goes wrong *)

Lemma error_ignores AARCH b l : recvstate b = recv_state_error → running b = None → 82 ∉ l →
  notmain AARCH b l = (b, []).
Proof.
  intros Hs Hrun. induction l as [|c l IH]; intros Hl; [done|].
  apply not_elem_of_cons in Hl as [Hc Hl]. rewrite (notmain_cons AARCH b c l b); [by apply IH|].
  unfold notmain_step. rewrite Hrun, Hs, (proj2 (Z.eqb_neq c 82)) by done. done.
Qed.

Lemma upper_hex_no_R fuel : ∀ n acc, 0 ≤ n → 82 ∉ acc → 82 ∉ upper_hex fuel n acc.
Proof.
  induction fuel as [|fuel IH]; intros n acc Hn Ha; cbn [upper_hex]; [done|]. cbv zeta.
  assert (Hd : 82 ∉ hex_digit (n `mod` 16) :: acc).
  { apply not_elem_of_cons. split; [|done]. intros E. symmetry in E. revert E.
    apply hex_digit_not_R, Z.mod_pos_bound. lia. }
  destruct (n / 16 =? 0); [done|]. apply IH; [apply Z.div_pos; lia | done].
Qed.

(** Without a hex file the board is not started.  The usage text makes the file
    optional, but the bootloader takes the go command only after an end record: the
    tool resets it, sends g and ends with exit code 0; the bootloader reports a format
    error and waits for the next reset. *)
Theorem flash_without_file_starts_nothing (AARCH : Z) (fuel : nat) (t : ToolParam) (file : option (list Z))
    (s s' : io) (b : bl) :
  pHexFile t = None → pRebootMagic t = None → 0 ≤ nGoDelay t → writes s = [] → wire s = [] →
  flash fuel t file s = Ret (inr 0, s') →
  interrupted b → (recvstate b = recv_state_binary → busy b ≤ 256) →
  ∃ b', notmain AARCH b (wire s') = (b', []) ∧ running b' = None ∧ recvstate b' = recv_state_error.
Proof.
  intros Hn Hmagic Hg Hw Hwire Hrun Hi Hb.
  assert (Hpre : sends (before_go t fuel file) s
    (λ _ l, ∃ k, l = concat (replicate (S k) reset_signal) ++ delay_bytes t)).
  { unfold before_go.
    eapply sends_bind; [unfold send_magic; rewrite Hmagic; by apply (sends_ret tt _ (λ _ l, l = []))|].
    intros [] s1 l ->.
    eapply sends_bind; [apply sends_open|]. intros [] s2 l [-> _]; cbn [negb]; [|apply sends_exit].
    eapply sends_bind; [apply reset_loop_sends|]. intros [] s3 l (k & ->).
    eapply sends_bind; [unfold upload; rewrite Hn; by apply (sends_ret tt _ (λ _ l, l = []))|].
    intros [] s4 l ->. eapply sends_weaken; [apply set_go_sends|]. intros [] l ->. by exists k. }
  destruct (wire_after_go t fuel file s s' _ Hw Hpre Hrun) as (l & (k & ->) & ->).
  rewrite Hwire. cbn [app]. rewrite <- app_assoc.
  destruct (resets_run AARCH k b (delay_bytes t ++ [103]) Hi Hb) as (b1 & -> & Hs1 & _ & Hrun1 & _ & _).
  (* the first character is no record mark *)
  assert (Hfirst : ∃ c rest, delay_bytes t ++ [103] = c :: rest ∧ (c = 103 ∨ c = 115) ∧ 82 ∉ rest).
  { unfold delay_bytes. destruct (nGoDelay t =? 0).
    - exists 103, []. split; [done|]. split; [by left | by apply not_elem_of_nil].
    - unfold go_delay_command. eexists 115, _. split; [done|]. split; [by right|].
      rewrite !not_elem_of_app. split; [split|].
      + apply upper_hex_no_R; [apply wrap_range; lia | by apply not_elem_of_nil].
      + by apply not_elem_of_cons; split; [|apply not_elem_of_nil].
      + by apply not_elem_of_cons; split; [|apply not_elem_of_nil]. }
  destruct Hfirst as (c & rest & -> & Hc & Hrest).
  assert (E : notmain AARCH b1 (c :: rest) = notmain AARCH (format_error b1 "#ERR:format") rest).
  { apply notmain_cons. unfold notmain_step. rewrite Hrun1, Hs1. destruct Hc as [-> | ->]; done. }
  destruct (format_error_keeps b1 "#ERR:format") as (H1 & _ & H3). rewrite Hrun1 in H1.
  exists (format_error b1 "#ERR:format"). by rewrite E, error_ignores.
Qed.

(** An option that takes a number, given without one, is read through a null
    pointer. *)
Theorem option_without_value (t : ToolParam) (name : string) :
  name ∈ ["flashbaud"; "userbaud"; "godelay"; "rebootdelay"; "packetsize"]%string →
  parse_option t (chars "--" ++ chars name) = Ub.
Proof.
  intros Hn. repeat (apply elem_of_cons in Hn as [->|Hn]; [reflexivity|]). by apply elem_of_nil in Hn.
Qed.

(** An empty hex file: the progress display divides by its size. *)
Theorem empty_file_divides_by_zero (t : ToolParam) (name : list Z) (s : io) :
  pHexFile t = Some name → reads s = [] → upload t (Some []) s = Ub.
Proof.
  intros Hn Hr. unfold upload. rewrite Hn. cbn [length Z.of_nat upload_loop].
  unfold mbind, M_bind, SerialReadAndMatch, SerialRead, mbind, M_bind. by rewrite Hr.
Qed.

(** ** Flashing a small file *)

Definition sample_params : ToolParam :=
  set_go_delay (set_hex (default_params (chars "/dev/ttyUSB0")) (chars "kernel.hex")) 5.
Definition sample_file : list Z := file_lines recv_state_hex crlf sample_records.
Definition sample_io : io :=
  mkIo [true] [Some []; Some (chars "IHEX-F" ++ crlf); Some []; Some (chars "#EOF:ok" ++ crlf); Some (chars "--")] [] [].
Definition sample_wire : list Z :=
  concat (replicate 2 reset_signal) ++ file_lines recv_state_binary [] sample_records ++ chars "s1388" ++ [10; 103].
Definition sample_io_end : io := mkIo [] [] [] sample_wire.

Lemma sample_flash : flash 150 sample_params (Some sample_file) sample_io = Ret (inr 0, sample_io_end).
Proof. vm_compute. reflexivity. Qed.

Lemma body_record_check a t data :
  bool_decide (is_u16 a ∧ byte t ∧ Forall byte data ∧ (length data ≤ 255)%nat ∧ t ≠ 1 ∧ t ≠ 2 ∧
    (t = 0 → data ≠ [] ∧ a + Z.of_nat (length data) ≤ 65536) ∧ (t = 4 → (2 ≤ length data)%nat)) = true →
  body_record (mkRec a t data).
Proof.
  intros (Ha & Ht & Hd & Hl & H1 & H2 & H0 & H4)%bool_decide_eq_true.
  split; cbn; [split; cbn; [done.. | by intros [?|?]; auto] | done | done].
Qed.

Lemma sample_body_records : Forall body_record sample_records.
Proof. repeat (apply Forall_cons; split; [apply body_record_check; vm_compute; reflexivity|]). apply Forall_nil_2. Qed.

Lemma sample_ready_interrupted : interrupted sample_ready ∧ (recvstate sample_ready = recv_state_binary → busy sample_ready ≤ 256).
Proof. split; [split; [reflexivity|]|]; intros H; discriminate H. Qed.

Lemma flash_runs_image_witness :
  flash 150 sample_params (Some sample_file) sample_io = Ret (inr 0, sample_io_end) ∧
  image sample_records !! 0x80011 = Some 0xad ∧
  ∃ b', notmain 64 sample_ready (wire sample_io_end) = (b', []) ∧ running b' = Some 0x80000 ∧
    image sample_records ⊆ memory b' ∧ delayed b' = 5000.
Proof.
  split; [exact sample_flash|]. split; [vm_compute; reflexivity|].
  destruct (flash_runs_image 64 150 sample_params (chars "kernel.hex") crlf sample_records sample_io sample_io_end
    sample_ready) as (b' & Hb & Hr & Hm & Hd).
  - reflexivity.
  - reflexivity.
  - cbn. lia.
  - cbn. lia.
  - exact sample_body_records.
  - repeat constructor.
  - reflexivity.
  - reflexivity.
  - exact sample_flash.
  - exact (proj1 sample_ready_interrupted).
  - exact (proj2 sample_ready_interrupted).
  - exists b'. split; [exact Hb|]. split; [exact Hr|]. split; [exact Hm|]. apply Hd. discriminate.
Defined.

Lemma flash_terminates_witness :
  bMonitor sample_params = false ∧
  ((∃ code s', flash 150 sample_params (Some sample_file) (mkIo [] [] [] []) = Ret (inr code, s') ∧ (code = 0 ∨ code = 1)) ∨
   (flash 150 sample_params (Some sample_file) (mkIo [] [] [] []) = Ub ∧ ∃ f, Some sample_file = Some f ∧ bad_file f)).
Proof.
  split; [reflexivity|]. exact (flash_terminates sample_params (Some sample_file) (mkIo [] [] [] []) eq_refl).
Defined.

Lemma flash_without_file_starts_nothing_witness :
  ∃ s', flash 150 (default_params (chars "COM3")) None (mkIo [] [Some (chars "IHEX-F" ++ crlf)] [] []) = Ret (inr 0, s') ∧
  ∃ b', notmain 32 sample_ready (wire s') = (b', []) ∧ running b' = None ∧ recvstate b' = recv_state_error.
Proof.
  exists (mkIo [] [] [] (reset_signal ++ [103])). split; [vm_compute; reflexivity|].
  apply (flash_without_file_starts_nothing 32 150 (default_params (chars "COM3")) None
    (mkIo [] [Some (chars "IHEX-F" ++ crlf)] [] [])).
  - reflexivity.
  - reflexivity.
  - cbn. lia.
  - reflexivity.
  - reflexivity.
  - vm_compute. reflexivity.
  - exact (proj1 sample_ready_interrupted).
  - exact (proj2 sample_ready_interrupted).
Defined.
