(* ===== verification/Periph.v ===== *)
(** * The serial bootloader's peripherals

    [circle/tools/bootloader/periph.c]: the UART, the timer and the mailbox behind
    the bootloader, and a division without hardware support.  A device is what
    [GET32] and [PUT32] of [vectors.s] reach: a load may change it.  What the PL011
    and the VideoCore's mailbox promise is stated as classes over devices; under
    them, [uart_recv] and [uart_send] are operations on two streams of bytes, and
    the bootloader of [Bootloader] runs on the device as it does on its input. *)
From Stdlib Require Import Ascii String.
From S2P Require Import Prelude Bootloader.

Open Scope Z_scope.

(** ** The device *)

(** Loads and stores of 32 bits; the words of an array in memory, which the
    VideoCore may change; the counter of the processor and its frequency; time
    that passes. *)
Class Device (D : Type) := {
  GET32 : D → Z → Z * D;
  PUT32 : D → Z → Z → D;
  words_at : D → Z → nat → list Z;
  place : D → Z → list Z → D;
  counter : D → Z * Z * D;
  elapse : D → Z → D
}.

(** What the [Makefile] builds for: none of the macros, or one of them *)
Inductive build := RPI_none | RPI2 | RPI4 | RPI5.

#[export] Instance build_eq_dec : EqDecision build.
Proof. solve_decision. Defined.

Definition MAILBOX_STATUS_EMPTY : Z := 0x40000000.
Definition MAILBOX_STATUS_FULL : Z := 0x80000000.
Definition BCM_MAILBOX_PROP_OUT : Z := 8.
Definition CODE_REQUEST : Z := 0x00000000.
Definition PROPTAG_GET_CLOCK_RATE : Z := 0x00030002.
Definition PROPTAG_GET_CLOCK_RATE_MEASURED : Z := 0x00030047.
Definition PROPTAG_END : Z := 0x00000000.
Definition CLOCK_ID_UART : Z := 2.

Section registers.
(** The macro of the build, the width it is for, and the baud rate *)
Context (board : build) (AARCH DEFAULTBAUD : Z).

Definition PBASE : Z :=
  match board with
  | RPI4 => 0xFE000000
  | RPI5 => 0x107C000000
  | RPI2 => 0x3F000000
  | RPI_none => if AARCH =? 64 then 0x3F000000 else 0x20000000
  end.
Definition LBASE : Z := 0xFF800000.

Definition ARM_SYSTIMER_CLO : Z := PBASE + 0x3004.
Definition GPFSEL1 : Z := PBASE + 0x00200004.
Definition GPPUD : Z := PBASE + 0x00200094.
Definition GPPUDCLK0 : Z := PBASE + 0x00200098.
Definition ARM_UART0_BASE : Z := if decide (board = RPI5) then PBASE + 0x1001000 else PBASE + 0x201000.
Definition ARM_UART0_DR : Z := ARM_UART0_BASE + 0x00.
Definition ARM_UART0_FR : Z := ARM_UART0_BASE + 0x18.
Definition ARM_UART0_IBRD : Z := ARM_UART0_BASE + 0x24.
Definition ARM_UART0_FBRD : Z := ARM_UART0_BASE + 0x28.
Definition ARM_UART0_LCRH : Z := ARM_UART0_BASE + 0x2C.
Definition ARM_UART0_CR : Z := ARM_UART0_BASE + 0x30.
Definition ARM_UART0_IMSC : Z := ARM_UART0_BASE + 0x38.
Definition ARM_UART0_ICR : Z := ARM_UART0_BASE + 0x44.
Definition ARM_GPIO_GPPUPPDN0 : Z := PBASE + 0x002000E4.
Definition ARM_LOCAL_PRESCALER : Z := LBASE + 0x008.
Definition MAILBOX_BASE : Z := if decide (board = RPI5) then PBASE + 0x13880 else PBASE + 0xB880.
Definition MAILBOX0_READ : Z := MAILBOX_BASE + 0x00.
Definition MAILBOX0_STATUS : Z := MAILBOX_BASE + 0x18.
Definition MAILBOX1_WRITE : Z := MAILBOX_BASE + 0x20.
Definition MAILBOX1_STATUS : Z := MAILBOX_BASE + 0x38.

(** ** The UART *)

Section uart.
Context {D : Type} `{Device D}.
Implicit Types d : D.

(** [while (GET32 (reg) & mask);]: the loops on status registers, with [fuel] loads *)
Fixpoint wait_clear (fuel : nat) d (reg mask : Z) : outcome D :=
  match fuel with
  | O => Diverge
  | S fuel =>
      let '(v, d) := GET32 d reg in
      if Z.land v mask =? 0 then Ret d else wait_clear fuel d reg mask
  end.

Definition uart_lcr d : Z * D := GET32 d ARM_UART0_LCRH.

Definition uart_recv (fuel : nat) d : outcome (Z * D) :=
  d ← wait_clear fuel d ARM_UART0_FR 0x10;
  let '(v, d) := GET32 d ARM_UART0_DR in Ret (Z.land v 0xFF, d).

Definition uart_check d : Z * D :=
  let '(v, d) := GET32 d ARM_UART0_FR in (if Z.land v 0x10 =? 0 then 1 else 0, d).

Definition uart_send (fuel : nat) d (c : Z) : outcome D :=
  d ← wait_clear fuel d ARM_UART0_FR 0x20;
  Ret (PUT32 d ARM_UART0_DR c).

Definition uart_flush (fuel : nat) d : outcome D := wait_clear fuel d ARM_UART0_FR 0x08.

(** The loop of [hexstrings]: [rb] counts down to 0 in steps of 4. *)
Fixpoint hexstrings_loop (n : nat) (fuel : nat) d (x rb : Z) : outcome D :=
  match n with
  | O => Diverge
  | S n =>
      let rb := rb ⊟ 4 in
      let rc := Z.land (x ≫ rb) 0xF in
      let rc := if 9 <? rc then rc ⊞ 0x37 else rc ⊞ 0x30 in
      d ← uart_send fuel d rc;
      if rb =? 0 then Ret d else hexstrings_loop n fuel d x rb
  end.

Definition hexstrings (fuel : nat) d (x : Z) : outcome D :=
  d ← hexstrings_loop 8 fuel d x 32;
  uart_send fuel d 0x20.

Definition hexstring (fuel : nat) d (x : Z) : outcome D :=
  d ← hexstrings fuel d x;
  d ← uart_send fuel d 0x0D;
  uart_send fuel d 0x0A.
End uart.

(** ** The mailbox *)

Section mailbox.
Context {D : Type} `{Device D}.
Implicit Types d : D.

(** [do ... while ((nResult & 0xF) != BCM_MAILBOX_PROP_OUT);] *)
Fixpoint mbox_read (n fuel : nat) d : outcome (Z * D) :=
  match n with
  | O => Diverge
  | S n =>
      d ← wait_clear fuel d MAILBOX0_STATUS MAILBOX_STATUS_EMPTY;
      let '(nResult, d) := GET32 d MAILBOX0_READ in
      if negb (Z.land nResult 0xF =? BCM_MAILBOX_PROP_OUT) then mbox_read n fuel d
      else Ret (Z.land nResult (u32 (Z.lnot 0xF)), d)
  end.

Definition bus_address (nData : Z) : Z :=
  if decide (board = RPI_none) then
    if AARCH =? 64 then Z.lor nData 0xC0000000 else Z.lor nData 0x40000000
  else Z.lor nData 0xC0000000.

Definition mbox_writeread (fuel : nat) d (nData : Z) : outcome (Z * D) :=
  let nData := bus_address nData in
  d ← wait_clear fuel d MAILBOX1_STATUS MAILBOX_STATUS_FULL;
  let d := PUT32 d MAILBOX1_WRITE (Z.lor BCM_MAILBOX_PROP_OUT nData) in
  mbox_read fuel fuel d.

Definition proptag_of (tag nClockID : Z) : list Z :=
  [8 * 4; CODE_REQUEST; tag; 4 * 4; 1 * 4; nClockID; 0; PROPTAG_END].

(** [at1] and [at2]: where the compiler puts [proptag] and [proptag_measured] *)
Definition get_clock (fuel : nat) (at1 at2 : Z) d (nClockID : Z) : outcome (Z * D) :=
  let d := elapse d 100000 in
  let d := place d at1 (proptag_of PROPTAG_GET_CLOCK_RATE nClockID) in
  '(_, d) ← mbox_writeread fuel d (u32 at1);
  proptag6 ← deref (words_at d at1 8) 6;
  if negb (proptag6 =? 0) then Ret (proptag6, d) else
  let d := place d at2 (proptag_of PROPTAG_GET_CLOCK_RATE_MEASURED nClockID) in
  '(_, d) ← mbox_writeread fuel d (u32 at2);
  proptag6 ← deref (words_at d at1 8) 6;
  if negb (proptag6 =? 0) then Ret (proptag6, d) else
  Ret (if nClockID =? CLOCK_ID_UART then 48000000 else 0, d).

(** ** Set-up *)

(** The function select of the GPIO pins 14 and 15: alternate function 0 *)
Definition alt0_pins (ra : Z) : Z :=
  let ra := Z.land ra (u32 (Z.lnot (7 ≪ 12))) in
  let ra := Z.lor ra (4 ≪ 12) in
  let ra := Z.land ra (u32 (Z.lnot (7 ≪ 15))) in
  Z.lor ra (4 ≪ 15).

(** The pull-up of pin 15, none on pin 14 *)
Definition pull_pins (ra : Z) : Z :=
  let ra := Z.land ra (u32 (Z.lnot (3 ≪ (14 * 2)))) in
  let ra := Z.land ra (u32 (Z.lnot (3 ≪ (15 * 2)))) in
  Z.lor ra (1 ≪ (15 * 2)).

Definition gpio_init d : D :=
  if decide (board = RPI5) then d else
  let '(ra, d) := GET32 d GPFSEL1 in
  let d := PUT32 d GPFSEL1 (alt0_pins ra) in
  if decide (board = RPI4) then
    let '(ra, d) := GET32 d ARM_GPIO_GPPUPPDN0 in PUT32 d ARM_GPIO_GPPUPPDN0 (pull_pins ra)
  else
    let d := elapse (PUT32 d GPPUD 0) 150 in
    let d := elapse (PUT32 d GPPUDCLK0 (1 ≪ 14)) 150 in
    let d := PUT32 d GPPUDCLK0 0 in
    let d := elapse (PUT32 d GPPUD 2) 150 in
    let d := elapse (PUT32 d GPPUDCLK0 (1 ≪ 15)) 150 in
    PUT32 d GPPUDCLK0 0.

(** The divisor of the baud rate: its integer part, and its fraction in 64ths *)
Definition baud_divisor (nClockRate nBaudrate : Z) : Z * Z :=
  let nBaud16 := u32 (nBaudrate * 16) in
  let nIntDiv := nClockRate / nBaud16 in
  let nFractDiv2 := u32 ((nClockRate `mod` nBaud16) * 8) / nBaudrate in
  (nIntDiv, nFractDiv2 / 2 ⊞ nFractDiv2 `mod` 2).

Definition uart_init (fuel : nat) (at1 at2 : Z) d : outcome D :=
  let d := gpio_init d in
  '(nClockRate, d) ← get_clock fuel at1 at2 d CLOCK_ID_UART;
  let '(nIntDiv, nFractDiv) := baud_divisor nClockRate DEFAULTBAUD in
  let d := PUT32 d ARM_UART0_IMSC 0 in
  let d := PUT32 d ARM_UART0_ICR 0x7FF in
  let d := PUT32 d ARM_UART0_IBRD nIntDiv in
  let d := PUT32 d ARM_UART0_FBRD nFractDiv in
  let d := PUT32 d ARM_UART0_LCRH (Z.lor (1 ≪ 4) (3 ≪ 5)) in
  Ret (PUT32 d ARM_UART0_CR (Z.lor (Z.lor (1 ≪ 0) (1 ≪ 8)) (1 ≪ 9))).

(** ** The timer *)

Definition timer_init d : D :=
  if bool_decide (board = RPI4) && (AARCH =? 32) then PUT32 d ARM_LOCAL_PRESCALER 39768216 else d.

Definition timer_tick d : Z * D :=
  if decide (board = RPI5) then
    let '(nCNTPCT, nCNTFRQ, d) := counter d in (u32 (u64 (nCNTPCT * 1000000) / nCNTFRQ), d)
  else GET32 d ARM_SYSTIMER_CLO.
End mailbox.
End registers.

(** ** Division *)

(** The first loop: [ullDivisor] is doubled until the dividend is not above it. *)
Fixpoint div_up (fuel : nat) (nDividend ullDivisor nCount : Z) : outcome (Z * Z) :=
  match fuel with
  | O => Diverge
  | S fuel =>
      if ullDivisor <? nDividend then div_up fuel nDividend (u64 (ullDivisor ≪ 1)) (nCount ⊞ 1)
      else Ret (ullDivisor, nCount)
  end.

(** The second loop, [while (nCount--)]: a bit of the quotient in each round *)
Fixpoint div_down (fuel : nat) (nCount nDividend ullDivisor nQuotient : Z) : outcome Z :=
  match fuel with
  | O => Diverge
  | S fuel =>
      if nCount =? 0 then Ret nQuotient else
      let nCount := nCount ⊟ 1 in
      let nQuotient := u32 (nQuotient ≪ 1) in
      if ullDivisor <=? nDividend then
        div_down fuel nCount (u32 (nDividend - ullDivisor)) (ullDivisor ≫ 1) (Z.lor nQuotient 1)
      else div_down fuel nCount nDividend (ullDivisor ≫ 1) nQuotient
  end.

Definition div (nDividend nDivisor : Z) : outcome Z :=
  if nDivisor =? 0 then Ret 0 else
  '(ullDivisor, nCount) ← div_up 33 nDividend nDivisor 1;
  div_down 34 nCount nDividend ullDivisor 0.

Lemma double_word w x : 0 ≤ w → 0 ≤ x → 2 * x < 2 ^ w → wrap w (x ≪ 1) = 2 * x.
Proof. intros. rewrite Z.shiftl_mul_pow2 by lia. rewrite wrap_small; [lia|]. unfold uword. lia. Qed.

(** The first loop ends with a multiple of the divisor by a power of two that is
    not below the dividend. *)
Lemma div_up_spec fuel : ∀ a v n, 0 ≤ a < 2 ^ 32 → 0 < v → a ≤ v * 2 ^ Z.of_nat fuel →
  0 ≤ n → n + Z.of_nat fuel < 2 ^ 32 →
  ∃ m, (m ≤ fuel)%nat ∧ div_up (S fuel) a v n = Ret (v * 2 ^ Z.of_nat m, n + Z.of_nat m) ∧ a ≤ v * 2 ^ Z.of_nat m.
Proof.
  induction fuel as [|fuel IH]; intros a v n Ha Hv Hle Hn Hf; cbn [div_up]; destruct (Z.ltb_spec v a) as [Hlt|Hge].
  - lia.
  - exists 0%nat. rewrite Z.mul_1_r, Z.add_0_r. repeat split; lia.
  - rewrite double_word by lia. rewrite (wrap_small 32 (n + 1)) by (unfold uword; lia).
    rewrite Nat2Z.inj_succ, Z.pow_succ_r in Hle by lia.
    destruct (IH a (2 * v) (n + 1)) as (m & Hm & E & Hv'); [lia..|]. cbn [div_up] in E.
    exists (S m). rewrite Nat2Z.inj_succ, Z.pow_succ_r by lia. split; [lia|]. rewrite E. split; [|lia]. do 2 f_equal; lia.
  - exists 0%nat. rewrite Z.mul_1_r, Z.add_0_r. repeat split; lia.
Qed.

(** With [k] rounds to go, the quotient is [q * 2 ^ k + r / b]. *)
Lemma div_down_spec b k : ∀ fuel r v q, (k < fuel)%nat → 0 < b → 0 ≤ r < b * 2 ^ Z.of_nat k → r < 2 ^ 32 →
  (k ≠ 0%nat → v = b * 2 ^ (Z.of_nat k - 1)) → 0 ≤ q → q * 2 ^ Z.of_nat k + r / b < 2 ^ 32 →
  Z.of_nat k < 2 ^ 32 → div_down fuel (Z.of_nat k) r v q = Ret (q * 2 ^ Z.of_nat k + r / b).
Proof.
  induction k as [|k IH]; intros fuel r v q Hf Hb Hr Hr32 Hv Hq Hres Hk; (destruct fuel as [|fuel]; [lia|]).
  - cbn. cbn in Hr. rewrite (Z.div_small r b) by lia. f_equal. lia.
  - assert (Hpow : 2 ^ Z.of_nat (S k) = 2 * 2 ^ Z.of_nat k) by (rewrite Nat2Z.inj_succ, Z.pow_succ_r; lia).
    cbn [div_down]. rewrite (proj2 (Z.eqb_neq _ _)) by lia. rewrite (Hv ltac:(lia)), Hpow in *.
    rewrite !(wrap_small 32 (Z.of_nat (S k) - 1)) by (unfold uword; lia).
    replace (Z.of_nat (S k) - 1) with (Z.of_nat k) by lia.
    assert (Hpos : 1 ≤ 2 ^ Z.of_nat k) by (pose proof (Z.pow_pos_nonneg 2 (Z.of_nat k)); lia).
    assert (Hrb : 0 ≤ r / b) by (apply Z.div_pos; lia).
    rewrite double_word by nia.
    assert (Hv' : k ≠ 0%nat → (b * 2 ^ Z.of_nat k) ≫ 1 = b * 2 ^ (Z.of_nat k - 1)).
    { intros Hk0. rewrite Z.shiftr_div_pow2 by lia.
      replace (Z.of_nat k) with (Z.succ (Z.of_nat k - 1)) at 1 by lia. rewrite Z.pow_succ_r by lia.
      change (2 ^ 1) with 2. rewrite Z.mul_assoc, (Z.mul_comm b 2), <- Z.mul_assoc, Z.mul_comm.
      apply Z.div_mul. lia. }
    destruct (Z.leb_spec (b * 2 ^ Z.of_nat k) r) as [Hle|Hgt].
    + assert (Hdiv : (r - b * 2 ^ Z.of_nat k) / b = r / b - 2 ^ Z.of_nat k).
      { replace (r - b * 2 ^ Z.of_nat k) with (r + (- 2 ^ Z.of_nat k) * b) by lia. rewrite Z.div_add by lia. lia. }
      rewrite wrap_small by (unfold uword; nia).
      assert (Hor : Z.lor (2 * q) 1 = 2 * q + 1).
      { replace (2 * q) with (q ≪ 1) by (rewrite Z.shiftl_mul_pow2; lia).
        rewrite lor_shiftl_add by lia. by rewrite Z.shiftl_mul_pow2 by lia. }
      rewrite Hor, IH; [rewrite Hdiv; f_equal; lia|lia..|exact Hv'|lia|rewrite Hdiv; lia|lia].
    + rewrite IH; [f_equal; lia|lia..|exact Hv'|lia|lia|lia].
Qed.

(** C34: [div] is the division of 32-bit words: it ends, with the quotient rounded
    down, and with 0 for the divisor 0; the doubled divisor stays within its 64
    bits. *)
Theorem div_correct (a b : Z) : is_u32 a → is_u32 b → div a b = Ret (if b =? 0 then 0 else a / b).
Proof.
  intros Ha Hb. unfold div, uword in *. destruct (Z.eqb_spec b 0) as [|Hne]; [done|].
  destruct (div_up_spec 32 a b 1) as (m & Hm & E & Hle); [lia..|change (2 ^ Z.of_nat 32) with (2 ^ 32); nia|lia|lia|].
  rewrite E, bind_Ret. replace (1 + Z.of_nat m) with (Z.of_nat (S m)) by lia.
  assert (Hdiv : 0 ≤ a / b ≤ a).
  { split; [apply Z.div_pos; lia|]. apply Z.div_le_upper_bound; [lia|]. nia. }
  assert (Hpow : 0 < 2 ^ Z.of_nat m) by (apply Z.pow_pos_nonneg; lia).
  rewrite (div_down_spec b (S m)); [f_equal; lia|lia|lia| |lia| |lia|lia|lia].
  - rewrite Nat2Z.inj_succ, Z.pow_succ_r by lia. nia.
  - intros _. do 2 f_equal. lia.
Qed.

Lemma div_correct_witness : is_u32 0xFFFFFFFF ∧ is_u32 7 ∧ div 0xFFFFFFFF 7 = Ret 613566756.
Proof.
  assert (Ha : is_u32 0xFFFFFFFF) by (unfold uword; lia). assert (Hb : is_u32 7) by (unfold uword; lia).
  exact (conj Ha (conj Hb (div_correct _ _ Ha Hb))).
Defined.

(** ** The divisor of the baud rate *)

(** Halving with the remainder added rounds a half up. *)
Lemma half_up x : x / 2 + x `mod` 2 = (x + 1) / 2.
Proof. pose proof (Z.div_mod x 2). pose proof (Z.div_mod (x + 1) 2).
  pose proof (Z.mod_pos_bound x 2). pose proof (Z.mod_pos_bound (x + 1) 2). lia. Qed.

(** The baud rate.  For every clock and every baud rate up to 16.7 million, no
    intermediate value overflows, and the divisor in 64ths, [64 * I + F], is
    four times the clock over the baud rate, rounded to the nearest with halves
    up: the best the UART can be set to.  The fraction [F] is at most 64; it is
    64, which its register of 6 bits cannot hold, exactly when the remainder of
    the clock is within a half 64th of the next integer. *)
Theorem baud_divisor_rounds (clock baud : Z) : is_u32 clock → 0 < baud < 2 ^ 24 →
  let '(int, fract) := baud_divisor clock baud in
  64 * int + fract = (8 * clock + baud) / (2 * baud) ∧ 0 ≤ fract ≤ 64 ∧
  (fract = 64 ↔ 127 * baud ≤ 8 * (clock `mod` (16 * baud))).
Proof.
  intros Hc Hb. unfold baud_divisor, uword in *. rewrite (wrap_small 32 (baud * 16)) by (unfold uword; lia).
  rewrite (Z.mul_comm baud 16). set (r := clock `mod` (16 * baud)).
  assert (Hr : 0 ≤ r < 16 * baud) by (apply Z.mod_pos_bound; lia).
  rewrite (wrap_small 32 (r * 8)) by (unfold uword; lia). set (f := r * 8 / baud).
  assert (Hf : 0 ≤ f < 128) by (split; [apply Z.div_pos; lia|apply Z.div_lt_upper_bound; lia]).
  assert (Hw : f / 2 + f `mod` 2 = (f + 1) / 2) by apply half_up.
  assert (H64 : 0 ≤ (f + 1) / 2 ≤ 64) by (split; [apply Z.div_pos; lia|apply Z.div_le_upper_bound; lia]).
  rewrite wrap_small by (rewrite Hw; unfold uword; lia). rewrite Hw.
  assert (Hval : (f + 1) / 2 = (8 * r + baud) / (2 * baud)).
  { unfold f. replace (r * 8 / baud + 1) with ((r * 8 + 1 * baud) / baud) by (apply Z.div_add; lia).
    rewrite Z.div_div by lia. f_equal; lia. }
  assert (Hclock : clock = 16 * baud * (clock / (16 * baud)) + r) by (apply Z.div_mod; lia).
  split; [|split; [exact H64|]].
  - set (q := clock / (16 * baud)) in *.
    assert (E : 8 * clock + baud = 8 * r + baud + (64 * q) * (2 * baud)) by lia.
    rewrite E, Z.div_add by lia. lia.
  - split; intros HF.
    + assert (Hf127 : 127 ≤ f) by (pose proof (Z.mul_div_le (f + 1) 2); lia).
      unfold f in Hf127. pose proof (Z.mul_div_le (r * 8) baud). nia.
    + assert (Hf127 : 127 ≤ f) by (apply Z.div_le_lower_bound; lia). assert (f = 127) as -> by lia. done.
Qed.

(** The clock of 48 MHz that is assumed when the mailbox gives none, at the
    default baud rate; and one at which the fraction does not fit. *)
Lemma baud_divisor_rounds_witness : is_u32 49766000 ∧
  let '(int, fract) := baud_divisor 49766000 115200 in 64 * int + fract = 1728 ∧ (fract = 64 ↔ 14630400 ≤ 8 * 1842800).
Proof.
  assert (Hc : is_u32 49766000) by (unfold uword; lia).
  destruct (baud_divisor_rounds 49766000 115200 Hc ltac:(lia)) as (H1 & _ & H3). exact (conj Hc (conj H1 H3)).
Defined.

Example default_divisor : baud_divisor 48000000 115200 = (26, 3).
Proof. reflexivity. Qed.

Example fraction_overflows : baud_divisor 49766000 115200 = (26, 64).
Proof. reflexivity. Qed.

(** *** The pins *)

Lemma below_32 (Q : Z → Prop) : Forall Q (seqZ 0 32) → ∀ i, 0 ≤ i < 32 → Q i.
Proof. intros HQ i Hi. rewrite Forall_forall in HQ. apply HQ, elem_of_seqZ. lia. Qed.

Lemma high_bit w x i : 0 ≤ w ≤ i → uword w x → Z.testbit x i = false.
Proof.
  intros Hw [Hx Hx2]. destruct (decide (x = 0)) as [->|]; [apply Z.bits_0|]. apply Z.bits_above_log2; [lia|].
  enough (Z.log2 x < w) by lia. apply Z.log2_lt_pow2; lia.
Qed.

(** Pins 14 and 15 get the function 4 = 0b100, alternate function 0; the functions
    of the other pins stay. *)
Lemma alt0_pins_bits ra i : is_u32 ra → 0 ≤ i →
  Z.testbit (alt0_pins ra) i =
    if (12 <=? i) && (i <? 18) then (i =? 14) || (i =? 17) else Z.testbit ra i.
Proof.
  intros Hra Hi. unfold alt0_pins. rewrite Z.lor_spec, Z.land_spec, Z.lor_spec, Z.land_spec.
  destruct (Z.ltb_spec i 32) as [Hlt|Hge].
  - revert i Hi Hlt. assert (Hall : ∀ i, 0 ≤ i < 32 →
      (Z.testbit ra i && Z.testbit (u32 (Z.lnot (7 ≪ 12))) i || Z.testbit (4 ≪ 12) i)
        && Z.testbit (u32 (Z.lnot (7 ≪ 15))) i || Z.testbit (4 ≪ 15) i
      = if (12 <=? i) && (i <? 18) then (i =? 14) || (i =? 17) else Z.testbit ra i).
    { apply below_32. repeat (constructor; [cbn -[Z.testbit]; by destruct (Z.testbit ra _)|]). constructor. }
    intros. apply Hall. lia.
  - assert (Hhigh : ∀ x, is_u32 x → Z.testbit x i = false) by (intros x Hx; by apply (high_bit 32); [lia|]).
    rewrite (proj2 (Z.ltb_ge i 18)), andb_false_r, (Hhigh ra) by (done || lia).
    rewrite !(Hhigh (u32 _)), (Hhigh (4 ≪ 15)), (Hhigh (4 ≪ 12)); [done|..];
      apply (bool_decide_eq_true_1 _); vm_compute; reflexivity.
Qed.

(** ** Loops that wait for the hardware end *)

(** With enough fuel, [f] returns [a]. *)
Definition ends {A} (f : nat → outcome A) (a : A) : Prop := ∃ n, ∀ fuel, (n ≤ fuel)%nat → f fuel = Ret a.

Lemma enough_bind {A B} (f : nat → outcome A) (g : nat → A → outcome B) a b :
  ends f a → ends (λ fuel, g fuel a) b → ends (λ fuel, f fuel ≫= g fuel) b.
Proof. intros [n Hn] [m Hm]. exists (n `max` m)%nat. intros fuel Hf. rewrite Hn, bind_Ret by lia. apply Hm. lia. Qed.

Lemma enough_ret {A} (a : A) : ends (λ _, Ret a) a.
Proof. by exists 0%nat. Qed.

Section waiting.
Context {D : Type} `{Device D}.

(** The status register [reg] shows the bits [mask] cleared after [wait d] loads at
    most, which keep [Q]. *)
Lemma wait_clear_ends (Q : D → Prop) (wait : D → nat) reg mask :
  (∀ d v d', Q d → GET32 d reg = (v, d') → Q d' ∧ (Z.land v mask ≠ 0 → (wait d' < wait d)%nat)) →
  ∀ d, Q d → ∃ d' d0 v, ends (λ fuel, wait_clear fuel d reg mask) d' ∧ Q d' ∧
    GET32 d0 reg = (v, d') ∧ Q d0 ∧ Z.land v mask = 0.
Proof.
  intros Hstep d. remember (wait d) as m eqn:Hm. revert d Hm.
  induction (Nat.lt_wf_0 m) as [m _ IH]. intros d -> HQ. destruct (GET32 d reg) as [v d1] eqn:E.
  destruct (Hstep d v d1 HQ E) as [HQ1 Hlt]. destruct (Z.eqb_spec (Z.land v mask) 0) as [Hz|Hz].
  - exists d1, d, v. split; [|done]. exists 1%nat. intros [|fuel] Hf; [lia|]. cbn. by rewrite E, (proj2 (Z.eqb_eq _ _) Hz).
  - destruct (IH (wait d1) (Hlt Hz) d1 eq_refl HQ1) as (d' & d0 & v' & [n Hn] & Hrest).
    exists d', d0, v'. split; [|exact Hrest]. exists (S n). intros [|fuel] Hf; [lia|].
    cbn. rewrite E, (proj2 (Z.eqb_neq _ _) Hz). apply Hn. lia.
Qed.
End waiting.

(** ** The contract of the UART *)

(** [u_in]: the bytes the line has brought and will bring, in their order;
    [u_out]: those that have been given to the transmitter.  The flags say when
    the data register can be loaded or stored, and come at last: after [rx_wait]
    loads when there is something to receive, after [tx_wait] loads always. *)
Class Uart (D : Type) `{Device D} (board : build) (AARCH : Z) := {
  u_in : D → list Z;
  u_out : D → list Z;
  rx_ready : D → Prop;
  tx_ready : D → Prop;
  rx_wait : D → nat;
  tx_wait : D → nat;
  busy_wait : D → nat;
  flag_load d v d' : GET32 d (ARM_UART0_FR board AARCH) = (v, d') →
    u_in d' = u_in d ∧ u_out d' = u_out d ∧
    (Z.land v 0x10 = 0 → rx_ready d') ∧ (Z.land v 0x10 ≠ 0 → u_in d ≠ [] → (rx_wait d' < rx_wait d)%nat) ∧
    (Z.land v 0x20 = 0 → tx_ready d') ∧ (Z.land v 0x20 ≠ 0 → (tx_wait d' < tx_wait d)%nat) ∧
    (Z.land v 0x08 ≠ 0 → (busy_wait d' < busy_wait d)%nat);
  data_load d : rx_ready d → ∃ b rest v d', u_in d = b :: rest ∧ GET32 d (ARM_UART0_DR board AARCH) = (v, d') ∧
    Z.land v 0xFF = b ∧ u_in d' = rest ∧ u_out d' = u_out d;
  data_store d c : tx_ready d → byte c → u_in (PUT32 d (ARM_UART0_DR board AARCH) c) = u_in d ∧
    u_out (PUT32 d (ARM_UART0_DR board AARCH) c) = u_out d ++ [c]
}.

Section streams.
Context {D : Type} `{Device D} (board : build) (AARCH : Z) `{!Uart D board AARCH}.
Implicit Types d : D.

Lemma recv_ends d b rest : u_in d = b :: rest →
  ∃ d', ends (λ fuel, uart_recv board AARCH fuel d) (b, d') ∧ u_in d' = rest ∧ u_out d' = u_out d.
Proof.
  intros Hin. destruct (wait_clear_ends (λ x, u_in x = u_in d ∧ u_out x = u_out d) rx_wait (ARM_UART0_FR board AARCH) 0x10)
    with (d := d) as (d1 & d0 & v & Hends & [Hi Ho] & E & _ & Hz); [|done|].
  { intros x v x' [Hxi Hxo] E. destruct (flag_load x v x' E) as (-> & -> & _ & Hw & _). split; [done|].
    intros Hv. apply Hw; [exact Hv|]. by rewrite Hxi, Hin. }
  destruct (flag_load d0 v d1 E) as (_ & _ & Hready & _). destruct (data_load d1 (Hready Hz)) as (b' & rest' & w & d' & Hd & El & Hb & Hi' & Ho').
  rewrite Hi, Hin in Hd. injection Hd as <- <-. exists d'. split; [|split; [done|congruence]].
  unfold uart_recv. apply (enough_bind _ _ _ _ Hends). rewrite El, Hb. apply enough_ret.
Qed.

Lemma send_ends d c : byte c →
  ∃ d', ends (λ fuel, uart_send board AARCH fuel d c) d' ∧ u_in d' = u_in d ∧ u_out d' = u_out d ++ [c].
Proof.
  intros Hc. destruct (wait_clear_ends (λ x, u_in x = u_in d ∧ u_out x = u_out d) tx_wait (ARM_UART0_FR board AARCH) 0x20)
    with (d := d) as (d1 & d0 & v & Hends & [Hi Ho] & E & _ & Hz); [|done|].
  { intros x v x' [Hxi Hxo] E. destruct (flag_load x v x' E) as (-> & -> & _ & _ & _ & Hw & _). by split. }
  destruct (flag_load d0 v d1 E) as (_ & _ & _ & _ & Hready & _).
  destruct (data_store d1 c (Hready Hz) Hc) as [Hi' Ho'].
  exists (PUT32 d1 (ARM_UART0_DR board AARCH) c). split; [|split; congruence].
  unfold uart_send. apply (enough_bind _ _ _ _ Hends), enough_ret.
Qed.

Lemma flush_ends d : ∃ d', ends (λ fuel, uart_flush board AARCH fuel d) d' ∧ u_in d' = u_in d ∧ u_out d' = u_out d.
Proof.
  destruct (wait_clear_ends (λ x, u_in x = u_in d ∧ u_out x = u_out d) busy_wait (ARM_UART0_FR board AARCH) 0x08)
    with (d := d) as (d1 & d0 & v & Hends & Hio & _); [|done|by exists d1].
  intros x v x' [Hxi Hxo] E. destruct (flag_load x v x' E) as (-> & -> & _ & _ & _ & _ & Hw). by split.
Qed.

(** The bytes [cs], one after the other *)
Fixpoint send_all (fuel : nat) d (cs : list Z) : outcome D :=
  match cs with
  | [] => Ret d
  | c :: cs => d ← uart_send board AARCH fuel d c; send_all fuel d cs
  end.

Lemma send_all_ends cs : ∀ d, Forall byte cs →
  ∃ d', ends (λ fuel, send_all fuel d cs) d' ∧ u_in d' = u_in d ∧ u_out d' = u_out d ++ cs.
Proof.
  induction cs as [|c cs IH]; intros d Hcs.
  - exists d. rewrite app_nil_r. split; [apply enough_ret|done].
  - apply Forall_cons in Hcs as [Hc Hcs]. destruct (send_ends d c Hc) as (d1 & H1 & Hi1 & Ho1).
    destruct (IH d1 Hcs) as (d' & H2 & Hi2 & Ho2). exists d'. split; [by apply (enough_bind _ _ _ _ H1)|].
    split; [congruence|]. by rewrite Ho2, Ho1, <- app_assoc.
Qed.
End streams.

(** ** Printing a word *)

(** The hexadecimal digits of a word, the highest first *)
Definition nibbles (x : Z) : list Z := (λ rb, Z.land (x ≫ rb) 0xF) <$> [28; 24; 20; 16; 12; 8; 4; 0].
Definition hex_line (x : Z) : list Z := (hex_digit <$> nibbles x) ++ [0x20; 0x0D; 0x0A].

Lemma nibble_range x rb : 0 ≤ Z.land (x ≫ rb) 0xF < 16.
Proof. change 0xF with (Z.ones 4). rewrite Z.land_ones by lia. apply Z.mod_pos_bound. lia. Qed.

Lemma hexstrings_round {D} `{Device D} board AARCH n fuel d x rb : 4 ≤ rb ≤ 32 →
  hexstrings_loop board AARCH (S n) fuel d x rb =
    (d ← uart_send board AARCH fuel d (hex_digit (Z.land (x ≫ (rb - 4)) 0xF));
     if rb - 4 =? 0 then Ret d else hexstrings_loop board AARCH n fuel d x (rb - 4)).
Proof.
  intros Hrb. cbn [hexstrings_loop]. rewrite (wrap_small 32 (rb - 4)) by (unfold uword; lia). cbv zeta.
  pose proof (nibble_range x (rb - 4)). unfold hex_digit.
  destruct (9 <? _); rewrite wrap_small by (unfold uword; lia); done.
Qed.

Ltac closed_sub :=
  repeat match goal with
  | |- context [Z.pos ?a - 4] => let v := eval cbv in (Z.pos a - 4) in change (Z.pos a - 4) with v
  end.

Lemma hexstring_sends {D} `{Device D} board AARCH fuel d x :
  hexstring board AARCH fuel d x = send_all board AARCH fuel d (hex_line x).
Proof.
  unfold hexstring, hexstrings, hex_line, nibbles. cbn [fmap list_fmap app send_all].
  do 8 (rewrite hexstrings_round by lia; closed_sub; cbn [Z.eqb];
    match goal with |- context [uart_send board AARCH fuel ?e (hex_digit ?c)] =>
      destruct (uart_send board AARCH fuel e (hex_digit c)); [rewrite !bind_Ret|reflexivity..] end).
  cbn.
  repeat match goal with |- context [uart_send board AARCH fuel ?e ?c ≫= _] =>
    destruct (uart_send board AARCH fuel e c); [rewrite ?bind_Ret|reflexivity..] end.
  reflexivity.
Qed.

Lemma hex_digit_byte n : 0 ≤ n < 16 → byte (hex_digit n).
Proof. intros. unfold hex_digit, uword. zcases; lia. Qed.

Lemma hex_line_bytes x : Forall byte (hex_line x).
Proof.
  unfold hex_line. apply Forall_app. split; [|repeat constructor; unfold uword; lia].
  apply Forall_fmap, Forall_fmap, Forall_true. intros rb. apply hex_digit_byte, nibble_range.
Qed.

(** The number a line of digits shows *)
Definition read_hex (cs : list Z) : Z := foldl (λ acc c, 16 * acc + nibble_from_hex c) 0 cs.

Lemma nibble_split x k : 0 ≤ k → 16 * (x ≫ (k + 4)) + Z.land (x ≫ k) 0xF = x ≫ k.
Proof.
  intros Hk. change 0xF with (Z.ones 4). rewrite Z.land_ones by lia.
  rewrite <- Z.shiftr_shiftr by lia. rewrite (Z.shiftr_div_pow2 (x ≫ k)) by lia.
  change (2 ^ 4) with 16. pose proof (Z.div_mod (x ≫ k) 16). lia.
Qed.

Lemma read_hex_line x : is_u32 x → read_hex (hex_digit <$> nibbles x) = x.
Proof.
  intros Hx. unfold read_hex, nibbles. cbn [fmap list_fmap foldl].
  rewrite !nibble_hex_digit by apply nibble_range.
  assert (H28 : Z.land (x ≫ 28) 0xF = x ≫ 28).
  { pose proof (nibble_split x 28 ltac:(lia)). rewrite (Z.shiftr_div_pow2 x (28 + 4)), Z.div_small in *; unfold uword in Hx; lia. }
  rewrite Z.mul_0_r, Z.add_0_l, H28.
  pose proof (nibble_split x 24 ltac:(lia)). pose proof (nibble_split x 20 ltac:(lia)).
  pose proof (nibble_split x 16 ltac:(lia)). pose proof (nibble_split x 12 ltac:(lia)).
  pose proof (nibble_split x 8 ltac:(lia)). pose proof (nibble_split x 4 ltac:(lia)).
  pose proof (nibble_split x 0 ltac:(lia)). pose proof (Z.shiftr_0_r x).
  change (24 + 4) with 28 in *. change (20 + 4) with 24 in *. change (16 + 4) with 20 in *.
  change (12 + 4) with 16 in *. change (8 + 4) with 12 in *. change (4 + 4) with 8 in *.
  change (0 + 4) with 4 in *. lia.
Qed.

(** ** The bootloader on the device *)

(** A step of the bootloader asks for no byte it does not need: what it reads is
    the shortest input with which it can be taken. *)
Lemma read_delay_prefix d i x r : read_delay d i = Some (x, r) →
  ∃ pre, i = pre ++ r ∧ pre ≠ [] ∧ read_delay d pre = Some (x, []).
Proof.
  revert d. induction i as [|c i IH]; intros d E; cbn [read_delay] in E; [done|].
  destruct (0 <=? nibble_from_hex c) eqn:Hc.
  - destruct (IH _ E) as (pre & -> & _ & E'). exists (c :: pre). cbn [read_delay]. by rewrite Hc.
  - injection E as <- <-. exists [c]. cbn [read_delay]. by rewrite Hc.
Qed.

Lemma step_prefix AARCH b i b' r : notmain_step AARCH b i = Some (b', r) →
  ∃ pre, i = pre ++ r ∧ notmain_step AARCH b pre = Some (b', []).
Proof.
  unfold notmain_step. destruct (running b) eqn:Hr; [done|]. destruct i as [|ra i]; [done|]. intros E.
  destruct (_ && _) eqn:HR; [injection E as <- <-; exists [ra]; by rewrite HR|].
  destruct (recvstate b) eqn:Hs.
  - exists [ra]. rewrite HR. repeat case_match; by simplify_eq.
  - destruct i as [|rb i]; [done|]. exists [ra; rb]. rewrite HR. destruct (_ || _); by simplify_eq.
  - exists [ra]. rewrite HR. by simplify_eq.
  - destruct (ra =? 115) eqn:H115.
    + destruct (read_delay 0 i) as [[x r']|] eqn:Ed; [|done]. injection E as <- <-.
      destruct (read_delay_prefix _ _ _ _ Ed) as (pre & -> & _ & Ep). exists (ra :: pre). by rewrite HR, H115, Ep.
    + exists [ra]. rewrite HR, H115. destruct (_ || _); by simplify_eq.
  - exists [ra]. rewrite HR. by simplify_eq.
Qed.

(** What a step sends *)
Lemma send_str_sent b cs : Forall byte cs → ∃ s, sent (Bootloader.uart_send_str b cs) = sent b ++ s ∧ Forall byte s.
Proof.
  intros Hcs. revert b. induction Hcs as [|c cs Hc Hcs IH]; intros b; cbn [Bootloader.uart_send_str].
  - exists []. by rewrite app_nil_r.
  - destruct (c =? 0); [exists []; by rewrite app_nil_r|]. destruct (IH (Bootloader.uart_send b c)) as (s & E & Hs).
    exists (c :: s). split; [rewrite E; cbn [Bootloader.uart_send sent]; by rewrite <- app_assoc|by constructor].
Qed.

Lemma message_sent b s : ∃ l, sent (Bootloader.uart_send_str b (chars s ++ crlf)) = sent b ++ l ∧ Forall byte l.
Proof.
  apply send_str_sent, Forall_app. split; [apply chars_bytes|]. repeat constructor; unfold uword; lia.
Qed.

(** [b'] has sent what [b] has sent, and some bytes more. *)
Definition sends (b b' : bl) : Prop := ∃ l, sent b' = sent b ++ l ∧ Forall byte l.

Lemma sends_same b b' : sent b' = sent b → sends b b'.
Proof. intros E. exists []. by rewrite app_nil_r. Qed.

Lemma sends_trans b1 b2 b3 : sent b2 = sent b1 → sends b2 b3 → sends b1 b3.
Proof. intros E (l & E' & Hl). exists l. by rewrite <- E. Qed.

Lemma sent_set_recv b st : sent (set_recv b st) = sent b.
Proof. reflexivity. Qed.

Lemma said_sends b s st : sends b (set_recv (Bootloader.uart_send_str b (chars s ++ crlf)) st).
Proof. unfold sends. rewrite sent_set_recv. apply message_sent. Qed.

Lemma error_sends b s : sends b (format_error b s).
Proof. apply said_sends. Qed.

Lemma restart_sends b : sends b (restart b).
Proof. unfold restart. eapply sends_trans; [|apply message_sent]. reflexivity. Qed.

Lemma sent_branch b a : sent (BRANCHTO b a) = sent b.
Proof. reflexivity. Qed.

Lemma go_sends AARCH b : sends b (go AARCH b).
Proof.
  unfold sends, go. rewrite sent_branch. apply send_str_sent. repeat constructor; unfold uword; lia.
Qed.

Lemma process_sends b ra : sends b (process_byte b ra).
Proof.
  unfold process_byte. set (b1 := set_sum b _). assert (E : sent b1 = sent b) by reflexivity.
  apply (sends_trans b b1); [exact E|]. clearbody b1. clear b E.
  destruct (datastate b1); [apply error_sends|(by apply sends_same)..|cbv zeta|cbv zeta|cbv zeta|cbv zeta|cbv zeta].
  - by repeat case_match; apply sends_same.
  - by apply sends_same.
  - by repeat case_match; apply sends_same.
  - by repeat case_match; apply sends_same.
  - destruct (_ =? 0); [|by apply sends_same]. destruct (negb _); [apply error_sends|].
    destruct (_ =? 1); [apply said_sends|by apply sends_same].
Qed.

Lemma step_sends AARCH b i b' r : notmain_step AARCH b i = Some (b', r) → sends b b'.
Proof.
  unfold notmain_step. destruct (running b); [done|]. destruct i as [|ra i]; [done|].
  destruct (_ && _).
  { intros [= <- <-]. apply restart_sends. }
  destruct (recvstate b).
  - destruct (ra =? 58); [intros [= <- <-]; by apply sends_same|].
    destruct (ra =? 61); [intros [= <- <-]; by apply sends_same|].
    destruct (_ || _); [intros [= <- <-]; by apply sends_same|].
    destruct (ra =? 128); [intros [= <- <-]; by apply sends_same|]. intros [= <- <-]. apply error_sends.
  - destruct i as [|rb i]; [done|]. cbv zeta. destruct (_ || _); intros [= <- <-]; [apply error_sends|apply process_sends].
  - intros [= <- <-]. apply process_sends.
  - destruct (ra =? 115).
    + destruct (read_delay 0 i) as [[x r']|]; [|done]. intros [= <- <-]. by apply sends_same.
    + destruct (_ || _); intros [= <- <-]; [apply go_sends|by apply sends_same].
  - intros [= <- <-]. by apply sends_same.
Qed.

Section on_device.
Context {D : Type} `{Device D} (board : build) (AARCH : Z).

(** A round of the loop of [notmain] on the device: the bytes it asks for come from
    [uart_recv], at most [n]; the bytes it sends go to [uart_send]. *)
Fixpoint device_round (n fuel : nat) (d : D) (b : bl) (got : list Z) : outcome (bl * D) :=
  match n with
  | O => Diverge
  | S n =>
      '(ra, d) ← uart_recv board AARCH fuel d;
      match notmain_step AARCH b (got ++ [ra]) with
      | None => device_round n fuel d b (got ++ [ra])
      | Some (b', _) =>
          d ← send_all board AARCH fuel d (drop (length (sent b)) (sent b'));
          Ret (b', d)
      end
  end.

Fixpoint device_loop (rounds fuel : nat) (d : D) (b : bl) : outcome (bl * D) :=
  match rounds with
  | O => Ret (b, d)
  | S rounds => '(b, d) ← device_round fuel fuel d b []; device_loop rounds fuel d b
  end.

Context `{!Uart D board AARCH}.

Lemma round_ends b b' post : ∀ pre got d, u_in d = pre ++ post → pre ≠ [] →
  notmain_step AARCH b (got ++ pre) = Some (b', []) →
  (∀ k p, pre = p ++ k → k ≠ [] → notmain_step AARCH b (got ++ p) = None) →
  ∃ d' s, ends (λ fuel, device_round (length pre) fuel d b got) (b', d') ∧ u_in d' = post ∧
    sent b' = sent b ++ s ∧ u_out d' = u_out d ++ s.
Proof.
  induction pre as [|c pre IH]; intros got d Hin Hne Hstep Hmin; [done|].
  destruct (recv_ends board AARCH d c (pre ++ post) Hin) as (d1 & H1 & Hi1 & Ho1).
  destruct pre as [|c2 pre].
  - destruct (step_sends AARCH b _ b' [] Hstep) as (s & Hs & Hbytes).
    destruct (send_all_ends board AARCH s d1 Hbytes) as (d' & H2 & Hi2 & Ho2).
    exists d', s. split; [|split; [by rewrite Hi2, Hi1|split; [done|by rewrite Ho2, Ho1]]].
    cbn [length device_round]. apply (enough_bind _ _ _ _ H1). rewrite Hstep, Hs, drop_app_length.
    apply (enough_bind _ _ _ _ H2), enough_ret.
  - assert (Hnone : notmain_step AARCH b (got ++ [c]) = None) by (apply (Hmin (c2 :: pre) [c]); done).
    destruct (IH (got ++ [c]) d1 Hi1) as (d' & s & H2 & Hrest); [done|by rewrite <- app_assoc| |].
    { intros k p Hp Hk. rewrite <- app_assoc. apply (Hmin k (c :: p)); [cbn; by rewrite Hp|done]. }
    exists d', s. rewrite <- Ho1. split; [|exact Hrest]. cbn [length device_round] in *.
    apply (enough_bind _ _ _ _ H1). rewrite Hnone. exact H2.
Qed.

Lemma device_round_mono n : ∀ m fuel d b got r, (n ≤ m)%nat → device_round n fuel d b got = Ret r →
  device_round m fuel d b got = Ret r.
Proof.
  induction n as [|n IH]; intros [|m] fuel d b got r Hle E; cbn [device_round] in *; try done; [lia|].
  apply bind_Ret_inv in E as ([ra d1] & E1 & E). rewrite E1, bind_Ret.
  destruct (notmain_step AARCH b (got ++ [ra])) as [[b1 ?]|]; [done|]. apply IH; [lia|done].
Qed.

Lemma one_round d b b' r : notmain_step AARCH b (u_in d) = Some (b', r) →
  ∃ d' s, ends (λ fuel, device_round fuel fuel d b []) (b', d') ∧ u_in d' = r ∧
    sent b' = sent b ++ s ∧ u_out d' = u_out d ++ s.
Proof.
  intros E. destruct (step_prefix AARCH b _ b' r E) as (pre & Hi & Hpre).
  assert (Hne : pre ≠ []) by (intros ->; by rewrite step_nil in Hpre).
  destruct (round_ends b b' r pre [] d Hi Hne Hpre) as (d' & s & [n Hn] & Hrest).
  - cbn. intros k p Hp Hk. destruct (notmain_step AARCH b p) as [[b2 r2]|] eqn:E2; [|done].
    apply (step_app AARCH b p k) in E2. rewrite <- Hp, Hpre in E2. injection E2 as _ E2.
    symmetry in E2. apply app_eq_nil in E2 as [_ ->]. done.
  - exists d', s. split; [|exact Hrest]. exists (n `max` length pre)%nat. intros fuel Hf.
    apply (device_round_mono (length pre)); [lia|]. apply Hn. lia.
Qed.

(** C25: The UART carries the bootloader.  On any device that keeps the contract of
    the UART, [uart_recv] takes the bytes of the line in their order and none
    twice, [uart_send] adds its byte behind those sent, and both end.  So the
    program on the device does what [notmain] says of its input: after some
    rounds it is where [notmain] stops on the bytes the line brings, the bytes it
    has not used are still to come, and it has put on the line what it says it
    has sent. *)
Theorem uart_carries_bootloader (d : D) (b b' : bl) (r : list Z) : notmain AARCH b (u_in d) = (b', r) →
  ∃ rounds d' s, ends (λ fuel, device_loop rounds fuel d b) (b', d') ∧ u_in d' = r ∧
    sent b' = sent b ++ s ∧ u_out d' = u_out d ++ s.
Proof.
  remember (length (u_in d)) as m eqn:Hm. revert d b Hm.
  induction (Nat.lt_wf_0 m) as [m _ IH]. intros d b -> E.
  destruct (notmain_step AARCH b (u_in d)) as [[b1 r1]|] eqn:Es.
  - rewrite (notmain_step_eq AARCH _ _ _ _ Es) in E.
    destruct (one_round d b b1 r1 Es) as (d1 & s1 & H1 & Hi1 & Hs1 & Ho1). rewrite <- Hi1 in E.
    destruct (IH (length (u_in d1))) with (d := d1) (b := b1) as (k & d' & s & H2 & Hi & Hs & Ho);
      [rewrite Hi1; by eapply step_length|done|exact E|].
    exists (S k), d', (s1 ++ s). split; [|split; [done|split; [by rewrite Hs, Hs1, app_assoc|by rewrite Ho, Ho1, app_assoc]]].
    cbn [device_loop]. by apply (enough_bind _ _ _ _ H1).
  - rewrite (notmain_stuck AARCH _ _ Es) in E. injection E as <- <-.
    exists 0%nat, d, []. split; [apply enough_ret|]. by rewrite !app_nil_r.
Qed.

(** A word printed can be read.  [hexstring] ends, puts eight digits, a blank,
    CR and LF on the line, and the digits, read with the bootloader's own
    [nibble_from_hex], give the word. *)
Theorem hexstring_readable (d : D) (x : Z) : is_u32 x →
  ∃ d' cs, ends (λ fuel, hexstring board AARCH fuel d x) d' ∧ u_in d' = u_in d ∧
    u_out d' = u_out d ++ cs ++ [0x20; 0x0D; 0x0A] ∧ length cs = 8%nat ∧ read_hex cs = x.
Proof.
  intros Hx. destruct (send_all_ends board AARCH (hex_line x) d (hex_line_bytes x)) as (d' & [n Hn] & Hi & Ho).
  exists d', (hex_digit <$> nibbles x). split; [exists n; intros fuel Hf; rewrite hexstring_sends; by apply Hn|].
  split; [done|]. split; [done|]. split; [done|by apply read_hex_line].
Qed.
End on_device.

(** ** The contract of the mailbox *)

Definition same_words {D} `{Device D} (d d' : D) : Prop := ∀ a n, words_at d' a n = words_at d a n.
Definition apart32 (a a' : Z) : Prop := a + 32 ≤ a' ∨ a' + 32 ≤ a.

(** A buffer below 1 GB on a boundary of 16 bytes, as the compiler places it *)
Definition placed (a : Z) : Prop := 0 ≤ a < 0x40000000 ∧ a `mod` 16 = 0.

(** [mb_owed]: the word that has been written and not been answered.  [firmware]:
    what the VideoCore makes of the eight words of a property buffer; it has done so
    when the word comes back.  Words of other channels may come first. *)
Class Mailbox (D : Type) `{Device D} (board : build) (AARCH : Z) := {
  mb_owed : D → option Z;
  mb_ready : D → Prop;
  full_wait : D → nat;
  answer_wait : D → nat;
  firmware : list Z → list Z;
  firmware_length l : length (firmware l) = length l;
  full_load d v d' : GET32 d (MAILBOX1_STATUS board AARCH) = (v, d') →
    mb_owed d' = mb_owed d ∧ same_words d d' ∧ (Z.land v MAILBOX_STATUS_FULL ≠ 0 → (full_wait d' < full_wait d)%nat);
  mailbox_store d v : mb_owed d = None →
    mb_owed (PUT32 d (MAILBOX1_WRITE board AARCH) v) = Some v ∧ same_words d (PUT32 d (MAILBOX1_WRITE board AARCH) v);
  empty_load d v d' : GET32 d (MAILBOX0_STATUS board AARCH) = (v, d') → mb_owed d ≠ None →
    mb_owed d' = mb_owed d ∧ same_words d d' ∧ (Z.land v MAILBOX_STATUS_EMPTY = 0 → mb_ready d') ∧
    (answer_wait d' ≤ answer_wait d)%nat ∧ (Z.land v MAILBOX_STATUS_EMPTY ≠ 0 → (answer_wait d' < answer_wait d)%nat);
  answer_load d m : mb_owed d = Some m → mb_ready d →
    ∃ v d', GET32 d (MAILBOX0_READ board AARCH) = (v, d') ∧
      ((Z.land v 0xF ≠ BCM_MAILBOX_PROP_OUT ∧ mb_owed d' = Some m ∧ same_words d d' ∧
        (answer_wait d' < answer_wait d)%nat) ∨
       (v = m ∧ mb_owed d' = None ∧ ∀ a, placed a → m = Z.lor BCM_MAILBOX_PROP_OUT (bus_address board AARCH a) →
        words_at d' a 8 = firmware (words_at d a 8) ∧
        ∀ a', placed a' → apart32 a a' → words_at d' a' 8 = words_at d a' 8));
  place_words d a l : length l = 8%nat → mb_owed (place d a l) = mb_owed d ∧ words_at (place d a l) a 8 = l ∧
    ∀ a', apart32 a a' → words_at (place d a l) a' 8 = words_at d a' 8;
  elapse_words d n : mb_owed (elapse d n) = mb_owed d
}.

Section clock.
Context {D : Type} `{Device D} (board : build) (AARCH : Z) `{!Mailbox D board AARCH}.
Implicit Types d : D.

Lemma same_words_trans d1 d2 d3 : same_words d1 d2 → same_words d2 d3 → same_words d1 d3.
Proof. intros H1 H2 a n. by rewrite H2. Qed.

(** The answer comes: words for other channels are skipped. *)
Lemma answer_ends m : Z.land m 0xF = BCM_MAILBOX_PROP_OUT → ∀ d, mb_owed d = Some m →
  ∃ N d', (∀ n fuel, (N ≤ n)%nat → (N ≤ fuel)%nat → mbox_read board AARCH n fuel d = Ret (Z.land m (u32 (Z.lnot 0xF)), d')) ∧
    mb_owed d' = None ∧ ∀ a, placed a → m = Z.lor BCM_MAILBOX_PROP_OUT (bus_address board AARCH a) →
      words_at d' a 8 = firmware (words_at d a 8) ∧ ∀ a', placed a' → apart32 a a' → words_at d' a' 8 = words_at d a' 8.
Proof.
  intros Hm d. remember (answer_wait d) as w eqn:Hw. revert d Hw.
  induction (Nat.lt_wf_0 w) as [w _ IH]. intros d -> Ho.
  destruct (wait_clear_ends (λ x, mb_owed x = Some m ∧ same_words d x ∧ (answer_wait x ≤ answer_wait d)%nat) answer_wait
    (MAILBOX0_STATUS board AARCH) MAILBOX_STATUS_EMPTY) with (d := d)
    as (d1 & d0 & v & [k Hk] & (Ho1 & Hs1 & Hle) & E & (Ho0 & _) & Hz); [|done|].
  { intros x v x' (Hxo & Hxs & Hxl) E. destruct (empty_load x v x' E ltac:(by rewrite ?Hxo, ?Ho0)) as (-> & Hs & _ & Hl & Hlt).
    split; [|exact Hlt]. split; [done|]. split; [by eapply same_words_trans|lia]. }
  destruct (empty_load d0 v d1 E ltac:(by rewrite ?Hxo, ?Ho0)) as (_ & _ & Hready & _).
  destruct (answer_load d1 m Ho1 (Hready Hz)) as (r & d2 & El & [(Hr & Ho2 & Hs2 & Hlt)|(-> & Ho2 & Hans)]).
  - destruct (IH (answer_wait d2) ltac:(lia) d2 eq_refl Ho2) as (N & d' & Hgo & Hnone & Hans).
    exists (S (N `max` k))%nat, d'. split; [|split; [done|]].
    + intros [|n] fuel Hn Hf; [lia|]. cbn [mbox_read]. rewrite Hk, bind_Ret, El by lia.
      rewrite (proj2 (Z.eqb_neq _ _) Hr). cbn [negb]. apply Hgo; lia.
    + intros a Hpa Ha. destruct (Hans a Hpa Ha) as [Hf Hrest]. split.
      * rewrite Hf. f_equal. by rewrite Hs2, Hs1.
      * intros a' Hp' Ha'. rewrite (Hrest a' Hp' Ha'). by rewrite Hs2, Hs1.
  - exists (S k), d2. split; [|split; [done|]].
    + intros [|n] fuel Hn Hf; [lia|]. cbn [mbox_read]. rewrite Hk, bind_Ret, El by lia. by rewrite Hm.
    + intros a Hpa Ha. destruct (Hans a Hpa Ha) as [Hf Hrest]. split; [by rewrite Hf, Hs1|].
      intros a' Hp' Ha'. by rewrite (Hrest a' Hp' Ha'), Hs1.
Qed.

Lemma placed_word a : placed a →
  Z.land (Z.lor BCM_MAILBOX_PROP_OUT (bus_address board AARCH a)) 0xF = BCM_MAILBOX_PROP_OUT.
Proof.
  intros [Ha Hm]. unfold bus_address.
  assert (Hlow : Z.land a 0xF = 0) by (change 0xF with (Z.ones 4); by rewrite Z.land_ones).
  destruct (decide _); [destruct (_ =? 64)|]; rewrite !Z.land_lor_distr_l, Hlow; reflexivity.
Qed.

(** The buffer at [a] goes to the VideoCore and comes back as its answer. *)
Lemma mbox_ends d a : mb_owed d = None → placed a →
  ∃ r d', ends (λ fuel, mbox_writeread board AARCH fuel d a) (r, d') ∧ mb_owed d' = None ∧
    words_at d' a 8 = firmware (words_at d a 8) ∧
    ∀ a', placed a' → apart32 a a' → words_at d' a' 8 = words_at d a' 8.
Proof.
  intros Ho Hpa. pose proof (placed_word a Hpa) as Ha. set (m := Z.lor BCM_MAILBOX_PROP_OUT (bus_address board AARCH a)) in *.
  destruct (wait_clear_ends (λ x, mb_owed x = None ∧ same_words d x) full_wait
    (MAILBOX1_STATUS board AARCH) MAILBOX_STATUS_FULL) with (d := d) as (d1 & d0 & v & [k Hk] & (Ho1 & Hs1) & _); [|done|].
  { intros x v x' (Hxo & Hxs) E. destruct (full_load x v x' E) as (-> & Hs & Hlt).
    split; [|exact Hlt]. split; [done|by eapply same_words_trans]. }
  destruct (mailbox_store d1 m Ho1) as [Ho2 Hs2].
  destruct (answer_ends m Ha _ Ho2) as (N & d' & Hgo & Hnone & Hans). destruct (Hans a Hpa eq_refl) as [Hf Hrest].
  eexists _, d'. split; [|split; [done|split; [by rewrite Hf, Hs2, Hs1|intros a' Hp' Ha'; by rewrite (Hrest a' Hp' Ha'), Hs2, Hs1]]].
  exists (N `max` k)%nat. intros fuel Hfuel. unfold mbox_writeread. cbv zeta. fold m.
  rewrite Hk, bind_Ret by lia. apply Hgo; lia.
Qed.

Definition rate_of (tag nClockID : Z) : Z := default 0 (firmware (proptag_of tag nClockID) !! 6%nat).

(** C35: The clock of the UART.  Under the mailbox's contract, with no answer
    outstanding and the two buffers apart at addresses the mailbox can take,
    [get_clock] ends, and
    returns the rate the VideoCore gives for the clock; when that is 0, the default
    of 48 MHz for the UART, 0 for another clock.  The rate it measures is asked for
    and never returned: the second test is of the first buffer. *)
Theorem get_clock_rate d at1 at2 nClockID : mb_owed d = None → placed at1 → placed at2 → apart32 at1 at2 →
  ∃ d', ends (λ fuel, get_clock board AARCH fuel at1 at2 d nClockID)
    (if rate_of PROPTAG_GET_CLOCK_RATE nClockID =? 0 then (if nClockID =? CLOCK_ID_UART then 48000000 else 0)
     else rate_of PROPTAG_GET_CLOCK_RATE nClockID, d').
Proof.
  intros Ho Hp1 Hp2 Hapart. assert (Hu : ∀ a, placed a → u32 a = a).
  { intros a [Ha _]. apply wrap_small. unfold uword. lia. }
  unfold get_clock. cbv zeta. rewrite (Hu at1 Hp1), (Hu at2 Hp2).
  set (tag1 := proptag_of PROPTAG_GET_CLOCK_RATE nClockID). set (tag2 := proptag_of PROPTAG_GET_CLOCK_RATE_MEASURED nClockID).
  destruct (place_words (elapse d 100000) at1 tag1 eq_refl) as (Ho1 & Hw1 & _). rewrite elapse_words, Ho in Ho1.
  destruct (mbox_ends _ at1 Ho1 Hp1) as (r1 & d2 & H1 & Ho2 & Hw2 & _). rewrite Hw1 in Hw2.
  assert (Hlen : length (firmware tag1) = 8%nat) by apply firmware_length.
  destruct (lookup_lt_is_Some_2 (firmware tag1) 6 ltac:(lia)) as [x Hx].
  unfold rate_of. fold tag1. rewrite Hx. cbn [default from_option id].
  destruct (Z.eqb_spec x 0) as [Hz|Hz].
  - destruct (place_words d2 at2 tag2 eq_refl) as (Ho3 & Hw3 & Hr3). rewrite Ho2 in Ho3.
    destruct (mbox_ends _ at2 Ho3 Hp2) as (r2 & d4 & H2 & Ho4 & Hw4 & Hr4).
    assert (Hback : words_at d4 at1 8 = firmware tag1).
    { rewrite (Hr4 at1 Hp1), (Hr3 at1) by (unfold apart32 in *; lia). done. }
    exists d4. apply (enough_bind _ _ _ _ H1). rewrite Hw2, (deref_lookup _ _ _ Hx), Hz. apply (enough_bind (λ _, Ret 0) _ _ _ (enough_ret 0)).
    apply (enough_bind _ _ _ _ H2). rewrite Hback, (deref_lookup _ _ _ Hx), Hz. apply enough_ret.
  - exists d2. apply (enough_bind _ _ _ _ H1). rewrite Hw2, (deref_lookup _ _ _ Hx).
    apply (enough_bind (λ _, Ret x) _ _ _ (enough_ret x)). rewrite (proj2 (Z.eqb_neq _ _) Hz). apply enough_ret.
Qed.
End clock.

(** ** A device that keeps both contracts

    A UART that shows itself busy for some loads of its flags, and a mailbox that
    brings a word of another channel first and whose VideoCore answers every request
    with a rate of its own. *)
Record sample := mkSample {
  s_rx : list Z;
  s_tx : list Z;
  s_lag : nat;
  s_mem : Z → list Z;
  s_owed : option Z;
  s_noise : bool;
  s_writes : list (Z * Z)
}.

Definition lagged (d : sample) (n : nat) : sample :=
  mkSample (s_rx d) (s_tx d) n (s_mem d) (s_owed d) (s_noise d) (s_writes d).

Definition sample_answer (rate : Z) (l : list Z) : list Z := <[6%nat := rate]> l.

Section sample.
Variables (board : build) (AARCH rate : Z).

Definition message_of (a : Z) : Z := Z.lor BCM_MAILBOX_PROP_OUT (bus_address board AARCH a).

(** A status register shows [busy] while the device lags, and then [idle]. *)
Definition sample_status (d : sample) (busy idle : Z) : Z * sample :=
  match s_lag d with O => (idle, d) | S n => (busy, lagged d n) end.

Definition sample_load (d : sample) (reg : Z) : Z * sample :=
  if reg =? ARM_UART0_FR board AARCH then sample_status d 0x38 (if decide (s_rx d = []) then 0x10 else 0)
  else if reg =? ARM_UART0_DR board AARCH then
    match s_rx d with
    | b :: rest => (b, mkSample rest (s_tx d) 2 (s_mem d) (s_owed d) (s_noise d) (s_writes d))
    | [] => (0, d)
    end
  else if reg =? MAILBOX1_STATUS board AARCH then sample_status d MAILBOX_STATUS_FULL 0
  else if reg =? MAILBOX0_STATUS board AARCH then
    if decide (s_owed d = None) then (MAILBOX_STATUS_EMPTY, d) else sample_status d MAILBOX_STATUS_EMPTY 0
  else if reg =? MAILBOX0_READ board AARCH then
    if s_noise d then (0x20, mkSample (s_rx d) (s_tx d) (s_lag d) (s_mem d) (s_owed d) false (s_writes d))
    else match s_owed d with
    | Some m => (m, mkSample (s_rx d) (s_tx d) (s_lag d)
        (λ a, if decide (placed a ∧ message_of a = m) then sample_answer rate (s_mem d a) else s_mem d a)
        None true (s_writes d))
    | None => (0, d)
    end
  else (0, d).

Definition sample_store (d : sample) (reg v : Z) : sample :=
  if reg =? ARM_UART0_DR board AARCH then
    mkSample (s_rx d) (s_tx d ++ [v]) 2 (s_mem d) (s_owed d) (s_noise d) (s_writes d)
  else if reg =? MAILBOX1_WRITE board AARCH then
    mkSample (s_rx d) (s_tx d) 3 (s_mem d) (Some v) true (s_writes d)
  else mkSample (s_rx d) (s_tx d) (s_lag d) (s_mem d) (s_owed d) (s_noise d) (s_writes d ++ [(reg, v)]).
End sample.

Definition sample_board : build := RPI4.

#[export] Instance placed_dec a : Decision (placed a).
Proof. unfold placed. apply _. Defined.

#[local] Instance sample_device (rate : Z) : Device sample := {
  GET32 := sample_load sample_board 64 rate;
  PUT32 := sample_store sample_board 64;
  words_at d a n := take n (s_mem d a);
  place d a l := mkSample (s_rx d) (s_tx d) (s_lag d) (λ x, if x =? a then l else s_mem d x) (s_owed d) (s_noise d) (s_writes d);
  counter d := (0, 1, d);
  elapse d _ := d
}.

Section sample_laws.
Variable rate : Z.
#[local] Existing Instance sample_device.
#[local] Instance this_device : Device sample := sample_device rate.

Lemma sample_flag_load d : GET32 d (ARM_UART0_FR sample_board 64) =
  sample_status d 0x38 (if decide (s_rx d = []) then 0x10 else 0).
Proof. reflexivity. Qed.

#[local] Instance sample_uart : Uart sample sample_board 64.
Proof.
  refine {| u_in d := (λ b, Z.land b 0xFF) <$> s_rx d; u_out := s_tx;
    rx_ready d := s_rx d ≠ []; tx_ready _ := True; rx_wait := s_lag; tx_wait := s_lag; busy_wait := s_lag |}.
  - intros d v d' E. rewrite sample_flag_load in E. unfold sample_status in E.
    destruct (s_lag d) as [|n] eqn:Hl; injection E as <- <-.
    + destruct (decide (s_rx d = [])) as [Hn|Hn].
      * rewrite Hn. by repeat split.
      * repeat split; done.
    + cbn. repeat split; try done; lia.
  - intros d Hne. destruct (s_rx d) as [|b rest] eqn:Hrx; [done|].
    exists (Z.land b 0xFF), ((λ b, Z.land b 0xFF) <$> rest), b. eexists. split; [done|].
    split; [cbn -[ARM_UART0_DR ARM_UART0_FR]; unfold sample_load; cbn; by rewrite Hrx|]. by cbn.
  - intros d c _ _. done.
Defined.

Lemma message_value a : placed a → message_of sample_board 64 a = a + 0xC0000008.
Proof.
  intros [Ha Hm]. unfold message_of, bus_address. rewrite decide_False by done.
  rewrite (Z.lor_comm a), (Z.lor_comm BCM_MAILBOX_PROP_OUT). change 0xC0000000 with (3 ≪ 30).
  rewrite lor_shiftl_add by lia. set (x := 3 * 2 ^ 30 + a).
  assert (Hx : x `mod` 16 = 0) by (unfold x; rewrite <- Z.add_mod_idemp_r, Hm by lia; done).
  assert (E : x = (x / 16) ≪ 4) by (rewrite Z.shiftl_mul_pow2 by lia; pose proof (Z.div_mod x 16); lia).
  rewrite E, lor_shiftl_add by (unfold BCM_MAILBOX_PROP_OUT; lia). unfold BCM_MAILBOX_PROP_OUT.
  rewrite <- Z.shiftl_mul_pow2, <- E by lia. unfold x. lia.
Qed.

Lemma take_sample_answer n l : (6 < n)%nat → take n (sample_answer rate l) = sample_answer rate (take n l).
Proof. intros. unfold sample_answer. by rewrite take_insert_lt. Qed.

Lemma sample_empty_load d : GET32 d (MAILBOX0_STATUS sample_board 64) =
  if decide (s_owed d = None) then (MAILBOX_STATUS_EMPTY, d) else sample_status d MAILBOX_STATUS_EMPTY 0.
Proof. reflexivity. Qed.

Lemma sample_answer_load d : GET32 d (MAILBOX0_READ sample_board 64) =
  if s_noise d then (0x20, mkSample (s_rx d) (s_tx d) (s_lag d) (s_mem d) (s_owed d) false (s_writes d))
  else match s_owed d with
  | Some m => (m, mkSample (s_rx d) (s_tx d) (s_lag d)
      (λ a, if decide (placed a ∧ message_of sample_board 64 a = m) then sample_answer rate (s_mem d a) else s_mem d a)
      None true (s_writes d))
  | None => (0, d)
  end.
Proof. reflexivity. Qed.

#[local] Instance sample_mailbox : Mailbox sample sample_board 64.
Proof.
  refine {| mb_owed := s_owed; mb_ready d := s_owed d ≠ None; full_wait := s_lag;
    answer_wait d := (s_lag d + (if s_noise d then 1 else 0))%nat; firmware := sample_answer rate |}.
  - intros l. apply length_insert.
  - intros d v d' E. change (sample_status d MAILBOX_STATUS_FULL 0 = (v, d')) in E. unfold sample_status in E.
    destruct (s_lag d) as [|n] eqn:Hl; injection E as <- <-; (split; [done|split; [done|]]); cbn; [done|lia].
  - intros d v Ho. split; [done|]. by intros a n.
  - intros d v d' E Ho.
    assert (E2 : sample_status d MAILBOX_STATUS_EMPTY 0 = (v, d')).
    { rewrite <- E. by rewrite sample_empty_load, decide_False. }
    unfold sample_status in E2. destruct (s_lag d) as [|n] eqn:Hl; injection E2 as <- <-; cbn; rewrite ?Hl;
      (split; [done|split; [done|]]); repeat split; try done; lia.
  - intros d m Ho _. destruct (s_noise d) eqn:Hn.
    + rewrite sample_answer_load, Hn. eexists _, _. split; [reflexivity|].
      left. cbn. repeat split; try done. lia.
    + rewrite sample_answer_load, Hn, Ho. eexists _, _. split; [reflexivity|].
      right. split; [done|]. split; [done|]. intros a Ha ->. cbn [words_at this_device sample_device s_mem]. split.
      * rewrite decide_True by done. apply take_sample_answer. lia.
      * intros a' Ha' Hap. rewrite decide_False; [done|]. intros [_ Hm].
        fold (message_of sample_board 64 a) in Hm. rewrite !message_value in Hm by done. unfold apart32 in Hap. lia.
  - intros d a l Hl. split; [done|]. cbn. rewrite Z.eqb_refl. split; [rewrite <- Hl; apply firstn_all|].
    intros a' Ha'. rewrite (proj2 (Z.eqb_neq _ _)); [done|]. unfold apart32 in Ha'. lia.
  - done.
Defined.
End sample_laws.

(** *** The end-of-file record arrives over the UART *)

Definition quiet (rx : list Z) : sample := mkSample rx [] 2 (λ _, []) None true [].
Definition eof_line : list Z := chars ":00000001FF" ++ crlf.
Definition after_eof : bl := fst (notmain 64 (power_on ∅) eof_line).

Lemma uart_carries_bootloader_witness :
  notmain 64 (power_on ∅) eof_line = (after_eof, []) ∧ recvstate after_eof = recv_state_eof ∧
  ∃ rounds d', ends (λ fuel, device_loop (H := sample_device 0) sample_board 64 rounds fuel (quiet eof_line) (power_on ∅)) (after_eof, d') ∧
    s_tx d' = chars "#EOF:ok" ++ crlf.
Proof.
  assert (E : notmain 64 (power_on ∅) eof_line = (after_eof, [])) by (vm_compute; reflexivity).
  split; [exact E|]. split; [vm_compute; reflexivity|].
  destruct (uart_carries_bootloader (H := sample_device 0) (Uart0 := sample_uart 0) sample_board 64 (quiet eof_line) (power_on ∅) after_eof [] E)
    as (k & d' & s & Hends & _ & Hs & Ho).
  exists k, d'. split; [exact Hends|]. change (s_tx d' = [] ++ s) in Ho. rewrite Ho. cbn [app].
  apply (app_inv_head (sent (power_on ∅))). rewrite <- Hs. vm_compute. reflexivity.
Defined.

Lemma hexstring_readable_witness : is_u32 0xC0FFEE ∧
  ∃ d' cs, ends (λ fuel, hexstring (H := sample_device 0) sample_board 64 fuel (quiet []) 0xC0FFEE) d' ∧
    s_tx d' = cs ++ [0x20; 0x0D; 0x0A] ∧ read_hex cs = 0xC0FFEE.
Proof.
  assert (Hx : is_u32 0xC0FFEE) by (unfold uword; lia). split; [exact Hx|].
  destruct (hexstring_readable (H := sample_device 0) (Uart0 := sample_uart 0) sample_board 64 (quiet []) 0xC0FFEE Hx)
    as (d' & cs & Hends & _ & Ho & _ & Hr).
  exists d', cs. exact (conj Hends (conj Ho Hr)).
Defined.

(** A VideoCore that knows no rate, however often it is asked *)
Lemma get_clock_rate_witness : placed 0x100000 ∧ placed 0x100020 ∧ apart32 0x100000 0x100020 ∧
  ∃ d', ends (λ fuel, get_clock (H := sample_device 0) sample_board 64 fuel 0x100000 0x100020 (quiet []) CLOCK_ID_UART) (48000000, d').
Proof.
  assert (H1 : placed 0x100000) by (by split; [lia|]). assert (H2 : placed 0x100020) by (by split; [lia|]).
  assert (H3 : apart32 0x100000 0x100020) by (unfold apart32; lia).
  destruct (get_clock_rate (H := sample_device 0) (Mailbox0 := sample_mailbox 0) sample_board 64 (quiet []) 0x100000 0x100020
    CLOCK_ID_UART eq_refl H1 H2 H3) as [d' Hends].
  exact (conj H1 (conj H2 (conj H3 (ex_intro _ d' Hends)))).
Defined.

(** The set-up on a Raspberry Pi 4 whose UART is clocked with 48 MHz *)
Example init_writes :
  s_writes <$> (uart_init (H := sample_device 48000000) sample_board 64 115200 10 0x100000 0x100020 (quiet []))
  = Ret [(0xFE200004, 0x24000); (0xFE2000E4, 0x40000000); (0xFE201038, 0); (0xFE201044, 0x7FF);
         (0xFE201024, 26); (0xFE201028, 3); (0xFE20102C, 0x70); (0xFE201030, 0x301)].
Proof. vm_compute. reflexivity. Qed.
