(* ===== verification/Heap.v ===== *)
(** * Circle's heap

    [circle/lib/heapallocator.cpp] and [heapallocator.h], the allocator behind
    [new] and [delete]: a region of memory handed out from below, and one list of
    freed blocks per block size ("bucket").  Addresses are integers; the header of
    a block is a record stored at the block's address, the bytes of a block are a
    memory of their own (a lemma below says that headers and data do not overlap).
    [W] is the width of a pointer and of [size_t]; the alignment is the one of the
    Raspberry Pi 4.  Spin locks, the statistics of [HEAP_DEBUG] builds and the
    hooks of KASAN builds are left out.  A failed assertion is undefined
    behaviour. *)
From S2P Require Import Prelude.

Open Scope Z_scope.

Definition HEAP_BLOCK_ALIGN : Z := 64.
Definition HEAP_ALIGN_MASK : Z := HEAP_BLOCK_ALIGN - 1.
Definition HEAP_BLOCK_MAX_BUCKETS : nat := 20.
Definition HEAP_BLOCK_ALLOC_MAGIC : Z := 0x424C4D41.
Definition HEAP_BLOCK_FREE_MAGIC : Z := 0x424C4D46.
Definition HEAP_BLOCK_BUCKET_SIZES : list Z := [0x40; 0x400; 0x1000; 0x4000; 0x10000; 0x40000; 0x80000].

(** [Data] follows the fields and the padding at offset [sizeof]. *)
Record THeapBlockHeader := mkHeader {
  nMagic : Z;
  nSize : Z;
  pNext : Z
}.
Definition HEADER_SIZE : Z := HEAP_BLOCK_ALIGN.

Record THeapBlockBucket := mkBucket {
  bk_nSize : Z;
  pFreeList : Z
}.

(** [memory]: the block headers in the region. *)
Record CHeapAllocator := mkHeap {
  m_pNext : Z;
  m_pLimit : Z;
  m_nReserve : Z;
  m_Bucket : list THeapBlockBucket;
  memory : gmap Z THeapBlockHeader
}.

Definition set_bucket (h : CHeapAllocator) (i : nat) (p : Z) : CHeapAllocator :=
  mkHeap (m_pNext h) (m_pLimit h) (m_nReserve h)
    (alter (λ b, mkBucket (bk_nSize b) p) i (m_Bucket h)) (memory h).
Definition set_header (h : CHeapAllocator) (b : Z) (hd : THeapBlockHeader) : CHeapAllocator :=
  mkHeap (m_pNext h) (m_pLimit h) (m_nReserve h) (m_Bucket h) (<[b := hd]> (memory h)).
Definition set_next (h : CHeapAllocator) (p : Z) : CHeapAllocator :=
  mkHeap p (m_pLimit h) (m_nReserve h) (m_Bucket h) (memory h).
Definition set_reserve (h : CHeapAllocator) (r : Z) : CHeapAllocator :=
  mkHeap (m_pNext h) (m_pLimit h) r (m_Bucket h) (memory h).

(** The constructor *)
Definition heap_new (sizes : list Z) : CHeapAllocator :=
  let nBuckets := Nat.min (length sizes) HEAP_BLOCK_MAX_BUCKETS in
  mkHeap 0 0 0
    (((λ s, mkBucket s 0) <$> take nBuckets sizes) ++
     replicate (HEAP_BLOCK_MAX_BUCKETS + 1 - nBuckets) (mkBucket 0 0)) ∅.

(** The header at an address *)
Definition header_at (h : CHeapAllocator) (b : Z) : outcome THeapBlockHeader :=
  match memory h !! b with Some hd => Ret hd | None => Ub end.

(** [for (pBucket = m_Bucket; pBucket->nSize > 0; pBucket++)] up to the first
    bucket [test] accepts; [None]: the bucket of size 0 is reached. *)
Fixpoint find_bucket (test : Z → bool) (bs : list THeapBlockBucket) (i : nat)
    : outcome (option (nat * THeapBlockBucket)) :=
  match bs with
  | [] => Ub
  | b :: bs =>
      if negb (0 <? bk_nSize b) then Ret None
      else if test (bk_nSize b) then Ret (Some (i, b)) else find_bucket test bs (S i)
  end.

(** The result of an allocation.  [Panic]: the message "Out of memory" has been
    written, and the system stops. *)
Inductive alloc_result :=
  | Block (p : Z)
  | Null
  | Panic.

(** *** The data in the blocks *)
Definition data := Z → Z.

Definition memcpy (m : data) (dst src n : Z) : data :=
  λ a, if (dst <=? a) && (a <? dst + n) then m (src + (a - dst)) else m a.

Section heap.
Context (W : Z).

Definition Setup (h : CHeapAllocator) (nBase size nReserve : Z) : CHeapAllocator :=
  mkHeap nBase (wrap W (nBase + size)) nReserve (m_Bucket h) (memory h).

Definition GetFreeSpace (h : CHeapAllocator) : Z := wrap W (m_pLimit h - m_pNext h).

(** The end of [DoAllocate]: the header is marked and [Data] returned. *)
Definition hand_out (h : CHeapAllocator) (b : Z) : outcome (alloc_result * CHeapAllocator) :=
  hd ← header_at h b;
  let h := set_header h b (mkHeader HEAP_BLOCK_ALLOC_MAGIC (nSize hd) 0) in
  let pResult := wrap W (b + HEADER_SIZE) in
  if negb (Z.land pResult HEAP_ALIGN_MASK =? 0) then Ub else Ret (Block pResult, h).

(** A block from the unused part of the region.  The fields [nMagic] and [pNext]
    of its header are written by [hand_out]. *)
Definition carve (h : CHeapAllocator) (size : Z) : outcome (alloc_result * CHeapAllocator) :=
  let pBlockHeader := m_pNext h in
  let pNextBlock := wrap W (m_pNext h +
    Z.land (wrap W (HEADER_SIZE + size + HEAP_BLOCK_ALIGN - 1)) (wrap W (Z.lnot HEAP_ALIGN_MASK))) in
  if (pNextBlock <=? m_pNext h) || (wrap W (m_pLimit h - m_nReserve h) <? pNextBlock) then
    if m_nReserve h =? 0 then Ret (Null, h) else Ret (Panic, set_reserve h 0)
  else hand_out (set_header (set_next h pNextBlock) pBlockHeader (mkHeader 0 (u32 size) 0)) pBlockHeader.

Definition DoAllocate (h : CHeapAllocator) (size : Z) : outcome (alloc_result * CHeapAllocator) :=
  if m_pNext h =? 0 then Ret (Null, h) else
  pBucket ← find_bucket (λ s, size <=? s) (m_Bucket h) 0;
  match pBucket with
  | Some (i, b) =>
      if negb (pFreeList b =? 0) then
        hd ← header_at h (pFreeList b);
        if negb (nMagic hd =? HEAP_BLOCK_FREE_MAGIC) then Ub else
        hand_out (set_bucket h i (pNext hd)) (pFreeList b)
      else carve h (bk_nSize b)
  | None => carve h size
  end.

Definition DoFree (h : CHeapAllocator) (pBlock : Z) : outcome CHeapAllocator :=
  if pBlock =? 0 then Ret h else
  let pBlockHeader := wrap W (pBlock - HEADER_SIZE) in
  hd ← header_at h pBlockHeader;
  if negb (nMagic hd =? HEAP_BLOCK_ALLOC_MAGIC) then Ub else
  let h := set_header h pBlockHeader (mkHeader HEAP_BLOCK_FREE_MAGIC (nSize hd) (pNext hd)) in
  pBucket ← find_bucket (λ s, nSize hd =? s) (m_Bucket h) 0;
  match pBucket with
  | Some (i, b) =>
      Ret (set_bucket (set_header h pBlockHeader (mkHeader HEAP_BLOCK_FREE_MAGIC (nSize hd) (pFreeList b)))
             i pBlockHeader)
  | None => Ret h
  end.

(** [memcpy] must not be called on overlapping ranges. *)
Definition DoReAllocate (h : CHeapAllocator) (m : data) (pBlock size : Z)
    : outcome (alloc_result * CHeapAllocator * data) :=
  if pBlock =? 0 then '(r, h) ← DoAllocate h size; Ret (r, h, m) else
  if size =? 0 then h ← DoFree h pBlock; Ret (Null, h, m) else
  hd ← header_at h (wrap W (pBlock - HEADER_SIZE));
  if negb (nMagic hd =? HEAP_BLOCK_ALLOC_MAGIC) then Ub else
  if size <=? nSize hd then Ret (Block pBlock, h, m) else
  '(r, h) ← DoAllocate h size;
  match r with
  | Block pNewBlock =>
      if bool_decide (pNewBlock < pBlock + nSize hd ∧ pBlock < pNewBlock + nSize hd) then Ub else
      let m := memcpy m pNewBlock pBlock (nSize hd) in
      h ← DoFree h pBlock;
      Ret (Block pNewBlock, h, m)
  | r => Ret (r, h, m)
  end.
End heap.

(** ** The abstract view: the blocks in use, from address to size *)

Definition data_of (b : Z) : Z := b + HEADER_SIZE.

#[export] Instance data_of_inj : Inj (=) (=) data_of.
Proof. intros x y. unfold data_of. lia. Qed.

Definition in_use (hd : THeapBlockHeader) : option Z :=
  if decide (nMagic hd = HEAP_BLOCK_ALLOC_MAGIC) then Some (nSize hd) else None.

Definition live (h : CHeapAllocator) : gmap Z Z := kmap data_of (omap in_use (memory h)).

(** The bytes a block of [n] bytes takes up, its header included. *)
Definition extent (n : Z) : Z := (HEADER_SIZE + n + HEAP_BLOCK_ALIGN - 1) / HEAP_BLOCK_ALIGN * HEAP_BLOCK_ALIGN.

(** The size a request for [n] bytes is rounded up to. *)
Definition bucket_for (sizes : list Z) (n : Z) : Z :=
  match list_find (λ s, (n <=? s) = true) sizes with Some (_, s) => s | None => n end.

(** [n] bytes at [p] are free, outside every block in use. *)
Definition fits (M : gmap Z Z) (p n : Z) : Prop :=
  0 < p ∧ (64 | p) ∧ M !! p = None ∧ ∀ q k, M !! q = Some k → p + n ≤ q ∨ q + k ≤ p.

(** [l] lists the freed blocks of size [s] from [p] on. *)
Fixpoint free_list (mem : gmap Z THeapBlockHeader) (s p : Z) (l : list Z) : Prop :=
  match l with
  | [] => p = 0
  | b :: l => p = b ∧ b ≠ 0 ∧ ∃ q, mem !! b = Some (mkHeader HEAP_BLOCK_FREE_MAGIC s q) ∧ free_list mem s q l
  end.

Record sizes_ok (sizes : list Z) : Prop := {
  sz_distinct : NoDup sizes;
  sz_range : Forall (λ s, 0 < s < 2 ^ 32 - 128) sizes;
  sz_count : (length sizes ≤ HEAP_BLOCK_MAX_BUCKETS)%nat
}.

Record heap_inv (W : Z) (sizes : list Z) (base : Z) (h : CHeapAllocator) : Prop := {
  hv_buckets : bk_nSize <$> m_Bucket h
    = sizes ++ replicate (HEAP_BLOCK_MAX_BUCKETS + 1 - length sizes) 0;
  hv_base : 0 < base ∧ (64 | base) ∧ (64 | m_pNext h);
  hv_region : base ≤ m_pNext h ≤ m_pLimit h - m_nReserve h ∧ 0 ≤ m_nReserve h ∧ m_pLimit h < 2 ^ W;
  hv_blocks : ∀ b hd, memory h !! b = Some hd →
    base ≤ b ∧ (64 | b) ∧ 0 ≤ nSize hd < 2 ^ 32 ∧ b + extent (nSize hd) ≤ m_pNext h ∧
    (nMagic hd = HEAP_BLOCK_ALLOC_MAGIC ∨ nMagic hd = HEAP_BLOCK_FREE_MAGIC);
  hv_disjoint : ∀ b hd b' hd', memory h !! b = Some hd → memory h !! b' = Some hd' →
    b < b' → b + extent (nSize hd) ≤ b';
  hv_lists : ∀ i bk, m_Bucket h !! i = Some bk → 0 < bk_nSize bk →
    ∃ l, NoDup l ∧ free_list (memory h) (bk_nSize bk) (pFreeList bk) l
}.

Lemma extent_bounds n : 0 ≤ n → 64 + n ≤ extent n < 128 + n ∧ (64 | extent n).
Proof.
  intros Hn. unfold extent, HEADER_SIZE, HEAP_BLOCK_ALIGN.
  pose proof (Z.div_mod (64 + n + 64 - 1) 64). pose proof (Z.mod_pos_bound (64 + n + 64 - 1) 64).
  split; [lia|]. apply Z.divide_factor_r.
Qed.

Lemma lookup_live h b : live h !! data_of b = memory h !! b ≫= in_use.
Proof. unfold live. rewrite lookup_kmap by apply _. apply lookup_omap. Qed.

Lemma lookup_live_Some h p n : live h !! p = Some n ↔
  ∃ b hd, p = data_of b ∧ memory h !! b = Some hd ∧ nMagic hd = HEAP_BLOCK_ALLOC_MAGIC ∧ n = nSize hd.
Proof.
  unfold live. rewrite lookup_kmap_Some by apply _. setoid_rewrite lookup_omap_Some. unfold in_use. split.
  - intros (b & -> & hd & E & Hb). case_decide; [|done]. injection E as <-. by exists b, hd.
  - intros (b & hd & -> & Hb & Hm & ->). exists b. split; [done|]. exists hd. by rewrite decide_True.
Qed.

Lemma live_set_alloc h b s q : live (set_header h b (mkHeader HEAP_BLOCK_ALLOC_MAGIC s q)) = <[data_of b := s]> (live h).
Proof.
  unfold live. cbn [memory set_header]. rewrite (omap_insert_Some _ _ _ _ s) by done.
  by rewrite kmap_insert by apply _.
Qed.

Lemma live_set_free h b s q : live (set_header h b (mkHeader HEAP_BLOCK_FREE_MAGIC s q)) = delete (data_of b) (live h).
Proof.
  unfold live. cbn [memory set_header]. rewrite omap_insert_None by done.
  by rewrite kmap_delete by apply _.
Qed.

(** *** Free lists *)

Lemma free_list_ext mem mem' s l : ∀ p, free_list mem s p l → (∀ b, b ∈ l → mem' !! b = mem !! b) →
  free_list mem' s p l.
Proof.
  induction l as [|b l IH]; intros p Hl He; [done|]. cbn in *.
  destruct Hl as (-> & Hb & q & Hm & Hl). split; [done|]. split; [done|]. exists q.
  split; [rewrite He; [done | by left]|]. apply IH; [done|]. intros. apply He. by right.
Qed.

Lemma free_list_elem mem s l : ∀ p b, free_list mem s p l → b ∈ l →
  ∃ q, mem !! b = Some (mkHeader HEAP_BLOCK_FREE_MAGIC s q).
Proof.
  induction l as [|b' l IH]; intros p b Hl Hb; [by apply not_elem_of_nil in Hb|].
  destruct Hl as (-> & _ & q & Hm & Hl). apply elem_of_cons in Hb as [->|Hb]; [by exists q | by eapply IH].
Qed.

(** Changing the header of a block that is not on the list *)
Lemma free_list_insert mem s l p b hd hd' : free_list mem s p l → mem !! b = Some hd →
  nMagic hd ≠ HEAP_BLOCK_FREE_MAGIC ∨ nSize hd ≠ s → free_list (<[b := hd']> mem) s p l.
Proof.
  intros Hl Hm Hne. eapply free_list_ext; [exact Hl|]. intros x Hx. apply lookup_insert_ne. intros ->.
  destruct (free_list_elem _ _ _ _ _ Hl Hx) as [q Hq]. rewrite Hm in Hq. injection Hq as ->.
  by destruct Hne.
Qed.

(** *** The search for a bucket *)

Lemma find_bucket_spec test sizes zs : ∀ bs i,
  bk_nSize <$> bs = sizes ++ 0 :: zs → Forall (λ s, 0 < s) sizes →
  ∃ r, find_bucket test bs i = Ret r ∧
    match r with
    | Some (k, b) => ∃ j, k = (i + j)%nat ∧ bs !! j = Some b ∧ test (bk_nSize b) = true ∧ 0 < bk_nSize b ∧
        list_find (λ s, test s = true) sizes = Some (j, bk_nSize b)
    | None => list_find (λ s, test s = true) sizes = None
    end.
Proof.
  induction sizes as [|s sizes IH]; intros bs i E Hpos.
  - destruct bs as [|b bs]; [done|]. cbn in E. injection E as E _. exists None. cbn. by rewrite E.
  - destruct bs as [|b bs]; [done|]. cbn in E. injection E as E Es. apply Forall_cons in Hpos as [Hs Hpos].
    cbn [find_bucket]. rewrite E, (proj2 (Z.ltb_lt 0 s) Hs). cbn [negb list_find].
    destruct (test s) eqn:Et.
    + exists (Some (i, b)). split; [done|]. exists 0%nat. rewrite decide_True by done. rewrite E.
      split; [lia | done].
    + rewrite decide_False by congruence. destruct (IH bs (S i) Es Hpos) as (r & -> & Hr). exists r.
      split; [done|]. destruct r as [[k b']|].
      * destruct Hr as (j & -> & Hj & Ht & Hp & Hf). exists (S j). split; [lia|]. rewrite Hf. done.
      * by rewrite Hr.
Qed.

(** ** The operations keep the invariant *)

Section laws.
Context (W : Z) (sizes : list Z) (base : Z).
Hypothesis W_wide : 32 ≤ W.
Hypothesis sizes_good : sizes_ok sizes.

Abbreviation inv := (heap_inv W sizes base).

Lemma sizes_pos : Forall (λ s, 0 < s) sizes.
Proof. eapply Forall_impl; [apply sizes_good|]. cbn. lia. Qed.

Lemma search_bucket h test : inv h → ∃ r, find_bucket test (m_Bucket h) 0 = Ret r ∧
  match r with
  | Some (i, b) => m_Bucket h !! i = Some b ∧ test (bk_nSize b) = true ∧ 0 < bk_nSize b ∧
      list_find (λ s, test s = true) sizes = Some (i, bk_nSize b)
  | None => list_find (λ s, test s = true) sizes = None
  end.
Proof.
  intros Hi. pose proof (hv_buckets _ _ _ _ Hi) as E. pose proof (sz_count _ sizes_good) as Hc.
  destruct (HEAP_BLOCK_MAX_BUCKETS + 1 - length sizes)%nat as [|k] eqn:Ek; [lia|].
  destruct (find_bucket_spec test sizes (replicate k 0) (m_Bucket h) 0 E sizes_pos) as (r & -> & Hr).
  exists r. split; [done|]. destruct r as [[i b]|]; [|done]. by destruct Hr as (j & -> & Hr).
Qed.

Lemma bucket_size h i b : inv h → m_Bucket h !! i = Some b → 0 < bk_nSize b → sizes !! i = Some (bk_nSize b).
Proof.
  intros Hi Hb Hp. pose proof (hv_buckets _ _ _ _ Hi) as E.
  assert (Hl : (bk_nSize <$> m_Bucket h) !! i = Some (bk_nSize b)) by (by rewrite list_lookup_fmap, Hb).
  rewrite E in Hl. apply lookup_app_Some in Hl as [Hl|[_ Hl]]; [done|].
  apply lookup_replicate in Hl as [E0 _]. lia.
Qed.

Lemma bucket_inj h i j b b' : inv h → m_Bucket h !! i = Some b → m_Bucket h !! j = Some b' →
  0 < bk_nSize b → i ≠ j → bk_nSize b' ≠ bk_nSize b.
Proof.
  intros Hi Hb Hb' Hp Hne E. apply Hne. apply (NoDup_lookup sizes i j (bk_nSize b)); [apply sizes_good|..].
  - by apply (bucket_size h).
  - rewrite <- E. apply (bucket_size h); [done..|lia].
Qed.

Lemma block_word h b hd : inv h → memory h !! b = Some hd → 0 < b ∧ b + 64 < 2 ^ W ∧ (64 | b).
Proof.
  intros Hi Hb. destruct (hv_blocks _ _ _ _ Hi b hd Hb) as (? & ? & ? & He & _).
  pose proof (hv_base _ _ _ _ Hi). pose proof (hv_region _ _ _ _ Hi).
  destruct (extent_bounds (nSize hd)) as [? _]; [lia|]. split; [lia|]. split; [lia | done].
Qed.

(** Marking block [b], with any bucket lists that fit *)
Lemma mark_inv h b hd m q bs : inv h → memory h !! b = Some hd →
  m = HEAP_BLOCK_ALLOC_MAGIC ∨ m = HEAP_BLOCK_FREE_MAGIC →
  bk_nSize <$> bs = bk_nSize <$> m_Bucket h →
  (∀ i bk, bs !! i = Some bk → 0 < bk_nSize bk →
     ∃ l, NoDup l ∧ free_list (<[b := mkHeader m (nSize hd) q]> (memory h)) (bk_nSize bk) (pFreeList bk) l) →
  inv (mkHeap (m_pNext h) (m_pLimit h) (m_nReserve h) bs (<[b := mkHeader m (nSize hd) q]> (memory h))).
Proof.
  intros [Hbk Hba Hre Hbl Hdi Hli] Hb Hm Hbs Hls.
  assert (Hget : ∀ x hx, <[b := mkHeader m (nSize hd) q]> (memory h) !! x = Some hx →
    ∃ hx', memory h !! x = Some hx' ∧ nSize hx = nSize hx' ∧ (hx = hx' ∨ nMagic hx = m)).
  { intros x hx [[<- <-]|[? Hx]]%lookup_insert_Some; [exists hd; by auto | exists hx; by auto]. }
  split; cbn [m_pNext m_pLimit m_nReserve m_Bucket memory]; [by rewrite Hbs | done | done | | | exact Hls].
  - intros x hx (hx' & Hx & -> & Hor)%Hget. destruct (Hbl x hx' Hx) as (? & ? & ? & ? & Hmg).
    repeat (split; [done|]). by destruct Hor as [-> | ->].
  - intros x hx y hy (hx' & Hx & -> & _)%Hget (hy' & Hy & _)%Hget. by apply (Hdi x hx' y hy').
Qed.

Lemma hand_out_eq h b hd : memory h !! b = Some hd → 0 < b → b + 64 < 2 ^ W → (64 | b) →
  hand_out W h b = Ret (Block (data_of b), set_header h b (mkHeader HEAP_BLOCK_ALLOC_MAGIC (nSize hd) 0)).
Proof.
  intros Hb H0 HW Hd. unfold hand_out, header_at. rewrite Hb, bind_Ret. cbv zeta.
  rewrite wrap_small by (unfold uword, HEADER_SIZE, HEAP_BLOCK_ALIGN; lia).
  change HEAP_ALIGN_MASK with (Z.ones 6). rewrite Z.land_ones by lia.
  assert (E : (b + HEADER_SIZE) `mod` 2 ^ 6 = 0).
  { destruct Hd as [z ->]. change (HEADER_SIZE) with 64. change (2 ^ 6) with 64.
    replace (z * 64 + 64) with ((z + 1) * 64) by lia. apply Z.mod_mul. lia. }
  by rewrite E.
Qed.

(** *** A block from a free list *)
Lemma pop_inv h i bk hd : inv h → m_Bucket h !! i = Some bk → 0 < bk_nSize bk → pFreeList bk ≠ 0 →
  header_at h (pFreeList bk) = Ret hd →
  let h' := set_header (set_bucket h i (pNext hd)) (pFreeList bk) (mkHeader HEAP_BLOCK_ALLOC_MAGIC (nSize hd) 0) in
  nMagic hd = HEAP_BLOCK_FREE_MAGIC ∧ nSize hd = bk_nSize bk ∧ inv h'.
Proof.
  intros Hi Hbk Hp Hne Hhd h'. set (b := pFreeList bk) in *.
  destruct (hv_lists _ _ _ _ Hi i bk Hbk Hp) as (l & Hnd & Hl). fold b in Hl.
  destruct l as [|b' l]; [by destruct Hne|]. destruct Hl as (Eb & _ & q & Hm & Hl). subst b'.
  unfold header_at in Hhd. rewrite Hm in Hhd. injection Hhd as <-. cbn [nMagic nSize pNext] in *.
  split; [done|]. split; [done|]. apply NoDup_cons in Hnd as [Hnin Hnd].
  refine (mark_inv h b _ HEAP_BLOCK_ALLOC_MAGIC 0 _ Hi Hm _ _ _); [by left | |].
  - cbn [m_Bucket set_bucket]. apply list_eq. intros j. rewrite !list_lookup_fmap.
    destruct (decide (i = j)) as [<-|]; [|by rewrite list_lookup_alter_ne].
    by rewrite list_lookup_alter_eq, Hbk.
  - cbn [m_Bucket set_bucket]. intros j bj Hj Hpj. destruct (decide (i = j)) as [<-|Hij].
    + rewrite list_lookup_alter_eq, Hbk in Hj. injection Hj as <-. exists l. split; [done|]. cbn.
      eapply free_list_ext; [exact Hl|]. intros x Hx. apply lookup_insert_ne. by intros ->.
    + rewrite list_lookup_alter_ne in Hj by done. destruct (hv_lists _ _ _ _ Hi j bj Hj Hpj) as (lj & ? & Hlj).
      exists lj. split; [done|]. eapply free_list_insert; [exact Hlj | exact Hm | right]. cbn.
      intros E. by apply (bucket_inj h i j bk bj).
Qed.

(** *** A block from the unused part of the region *)
Lemma carve_inv h n : inv h → 0 ≤ n < 2 ^ 32 →
  m_pNext h + extent n ≤ m_pLimit h - m_nReserve h →
  memory h !! m_pNext h = None ∧
  inv (set_header (set_next h (m_pNext h + extent n)) (m_pNext h) (mkHeader HEAP_BLOCK_ALLOC_MAGIC n 0)).
Proof.
  intros [Hbk Hba Hre Hbl Hdi Hli] Hn Hfit. destruct (extent_bounds n) as [He Hd]; [lia|].
  assert (Hbelow : ∀ x hx, memory h !! x = Some hx → x + extent (nSize hx) ≤ m_pNext h ∧ x < m_pNext h).
  { intros x hx Hx. destruct (Hbl x hx Hx) as (_ & _ & Hs & Hb & _).
    destruct (extent_bounds (nSize hx)) as [? _]; [lia|]. lia. }
  assert (Hfresh : memory h !! m_pNext h = None).
  { destruct (memory h !! m_pNext h) as [hx|] eqn:Ex; [|done]. destruct (Hbelow _ _ Ex). lia. }
  split; [done|]. split; cbn [m_pNext m_pLimit m_nReserve m_Bucket memory set_header set_next]; [done | | lia | | |].
  - destruct Hba as (? & ? & ?). split; [done|]. split; [done|]. by apply Z.divide_add_r.
  - intros x hx [[<- <-]|[? Hx]]%lookup_insert_Some.
    + cbn. destruct Hba as (? & ? & ?). repeat (split; [done || lia|]). by left.
    + destruct (Hbl x hx Hx) as (? & ? & ? & ? & ?). repeat (split; [done || lia|]). done.
  - intros x hx y hy [[<- <-]|[? Hx]]%lookup_insert_Some [[<- <-]|[? Hy]]%lookup_insert_Some Hlt.
    + lia.
    + destruct (Hbelow _ _ Hy). lia.
    + by destruct (Hbelow _ _ Hx).
    + by apply (Hdi x hx y hy).
  - intros i bk Hi Hp. destruct (Hli i bk Hi Hp) as (l & ? & Hl). exists l. split; [done|].
    eapply free_list_ext; [exact Hl|]. intros x Hx. apply lookup_insert_ne. intros <-.
    destruct (free_list_elem _ _ _ _ _ Hl Hx) as [q Hq]. by rewrite Hfresh in Hq.
Qed.

Lemma land_align x : 0 ≤ x < 2 ^ W → Z.land x (wrap W (Z.lnot HEAP_ALIGN_MASK)) = x / 64 * 64.
Proof.
  intros Hx. unfold wrap. rewrite <- Z.land_ones by lia.
  rewrite (Z.land_comm (Z.lnot _)), Z.land_assoc, Z.land_ones, Z.mod_small by lia.
  change (Z.land x (Z.lnot HEAP_ALIGN_MASK)) with (Z.land x (Z.lnot (Z.ones 6))).
  rewrite <- Z.ldiff_land, Z.ldiff_ones_r, Z.shiftr_div_pow2, Z.shiftl_mul_pow2 by lia. done.
Qed.

Definition full (h : CHeapAllocator) : alloc_result * CHeapAllocator :=
  if m_nReserve h =? 0 then (Null, h) else (Panic, set_reserve h 0).

Lemma carve_eq h n : inv h → 0 ≤ n < 2 ^ 32 - 128 →
  carve W h n =
    if decide (m_pNext h + extent n ≤ m_pLimit h - m_nReserve h) then
      Ret (Block (data_of (m_pNext h)),
           set_header (set_next h (m_pNext h + extent n)) (m_pNext h) (mkHeader HEAP_BLOCK_ALLOC_MAGIC n 0))
    else Ret (full h).
Proof.
  intros Hi Hn. pose proof (hv_base _ _ _ _ Hi) as (Hb & _ & Hal). pose proof (hv_region _ _ _ _ Hi) as (Hr & H0 & HW).
  assert (H32 : 2 ^ 32 ≤ 2 ^ W) by (apply Z.pow_le_mono_r; lia).
  destruct (extent_bounds n) as [He _]; [lia|]. unfold carve. cbv zeta.
  assert (E : Z.land (wrap W (HEADER_SIZE + n + HEAP_BLOCK_ALIGN - 1)) (wrap W (Z.lnot HEAP_ALIGN_MASK)) = extent n).
  { rewrite (wrap_small W (_ + _ - 1)) by (unfold uword, HEADER_SIZE, HEAP_BLOCK_ALIGN; lia).
    rewrite land_align by (unfold HEADER_SIZE, HEAP_BLOCK_ALIGN; lia). done. }
  rewrite E, (wrap_small W (m_pLimit h - m_nReserve h)) by (unfold uword; lia).
  destruct (decide _) as [Hfit|Hno].
  - rewrite (wrap_small W (m_pNext h + extent n)) by (unfold uword; lia).
    rewrite (proj2 (Z.leb_gt _ _)), (proj2 (Z.ltb_ge _ _)) by lia. cbn [orb].
    rewrite (hand_out_eq _ _ (mkHeader 0 (u32 n) 0)); [|by cbn; rewrite lookup_insert_eq | lia | | done].
    + cbn [nSize]. rewrite wrap_small by (unfold uword; lia).
      unfold set_header. cbn. by rewrite insert_insert_eq.
    + lia.
  - unfold full. replace (_ || _) with true; [by destruct (m_nReserve h =? 0)|]. symmetry.
    apply orb_true_iff. destruct (decide (m_pNext h + extent n < 2 ^ W)).
    + right. rewrite wrap_small by (unfold uword; lia). apply Z.ltb_lt. lia.
    + left. apply Z.leb_le. unfold wrap.
      rewrite <- (Z.mod_unique (m_pNext h + extent n) (2 ^ W) 1 (m_pNext h + extent n - 2 ^ W)); lia.
Qed.

Lemma full_inv h : inv h → inv (snd (full h)) ∧ live (snd (full h)) = live h ∧ memory (snd (full h)) = memory h.
Proof.
  intros Hi. unfold full. destruct (m_nReserve h =? 0); [done|]. split; [|done].
  destruct Hi as [? ? Hr ? ? ?]. split; try done. cbn. lia.
Qed.

(** The part of the region not handed out yet *)
Definition space (h : CHeapAllocator) : Z := m_pLimit h - m_nReserve h - m_pNext h.

Lemma bucket_for_range n : 0 ≤ n < 2 ^ 32 - 128 → n ≤ bucket_for sizes n < 2 ^ 32 - 128.
Proof.
  intros Hn. unfold bucket_for. destruct (list_find _ sizes) as [[i s]|] eqn:E; [|lia].
  apply list_find_Some in E as (Hs & Ht & _). apply Z.leb_le in Ht. split; [done|].
  pose proof (sz_range _ sizes_good) as Hf. rewrite Forall_forall in Hf.
  apply list_elem_of_lookup_2, Hf in Hs. lia.
Qed.

(** A request for [n] bytes cannot be met: no block of its bucket waits for reuse, and
    what is left of the region, less the reserve, is too small for a new one with
    its header.  The first such request stops the system if there is a reserve. *)
Definition refuses (h : CHeapAllocator) (n : Z) (r : alloc_result) : Prop :=
  (∀ i bk, m_Bucket h !! i = Some bk → 0 < bk_nSize bk → bk_nSize bk = bucket_for sizes n → pFreeList bk = 0) ∧
  space h < extent (bucket_for sizes n) ∧ r = if m_nReserve h =? 0 then Null else Panic.

(** An allocation pops the free list of its bucket or carves a block off. *)
Lemma allocate_cases h n : inv h → 0 ≤ n < 2 ^ 32 - 128 → let k := bucket_for sizes n in
  (∃ i bk b q l, m_Bucket h !! i = Some bk ∧ bk_nSize bk = k ∧ pFreeList bk = b ∧
     memory h !! b = Some (mkHeader HEAP_BLOCK_FREE_MAGIC k q) ∧
     NoDup (b :: l) ∧ free_list (memory h) k q l ∧
     let h' := set_header (set_bucket h i q) b (mkHeader HEAP_BLOCK_ALLOC_MAGIC k 0) in
     DoAllocate W h n = Ret (Block (data_of b), h') ∧ inv h') ∨
  ((∀ i bk, m_Bucket h !! i = Some bk → 0 < bk_nSize bk → bk_nSize bk = k → pFreeList bk = 0) ∧
   DoAllocate W h n = carve W h k).
Proof.
  intros Hi Hn k. pose proof (hv_base _ _ _ _ Hi) as (Hb & _). pose proof (hv_region _ _ _ _ Hi) as (Hr & _).
  unfold DoAllocate. rewrite (proj2 (Z.eqb_neq _ 0)) by lia.
  destruct (search_bucket h (λ s, n <=? s) Hi) as (r & -> & Hs). rewrite bind_Ret.
  destruct r as [[i bk]|].
  2:{ right. replace k with n by (unfold k, bucket_for; by rewrite Hs). split; [|done].
      intros i bk Hbk Hp E. exfalso. apply (bucket_size h i bk Hi Hbk) in Hp.
      apply list_find_None in Hs. rewrite Forall_forall in Hs.
      apply (Hs (bk_nSize bk)); [by eapply list_elem_of_lookup_2 | apply Z.leb_le; lia]. }
  destruct Hs as (Hbk & _ & Hp & Hf).
  assert (Ek : k = bk_nSize bk) by (unfold k, bucket_for; by rewrite Hf). rewrite Ek in *.
  destruct (Z.eqb_spec (pFreeList bk) 0) as [E0|Hne]; cbn [negb].
  { right. split; [|done]. intros j bj Hj Hpj E. destruct (decide (i = j)) as [<-|Hij].
    - rewrite Hbk in Hj. by injection Hj as <-.
    - by destruct (bucket_inj h i j bk bj Hi Hbk Hj Hp Hij). }
  left. destruct (hv_lists _ _ _ _ Hi i bk Hbk Hp) as (l & Hnd & Hl). destruct l as [|b l]; [done|].
  destruct Hl as (Eb & _ & q & Hm & Hl). exists i, bk, b, q, l.
  assert (Hhd : header_at h (pFreeList bk) = Ret (mkHeader HEAP_BLOCK_FREE_MAGIC (bk_nSize bk) q))
    by (unfold header_at; by rewrite Eb, Hm).
  destruct (pop_inv h i bk _ Hi Hbk Hp Hne Hhd) as (_ & _ & Hi'). rewrite Hhd, bind_Ret.
  cbn [nMagic nSize pNext] in *. rewrite Eb in *. rewrite Z.eqb_refl. cbn [negb].
  destruct (block_word h b _ Hi Hm) as (? & ? & Hdv).
  rewrite (hand_out_eq _ _ (mkHeader HEAP_BLOCK_FREE_MAGIC (bk_nSize bk) q)) by done.
  repeat (split; [done|]). done.
Qed.

Lemma allocate_spec h n : inv h → 0 ≤ n < 2 ^ 32 - 128 →
  ∃ r h', DoAllocate W h n = Ret (r, h') ∧ inv h' ∧
    let k := bucket_for sizes n in
    match r with
    | Block p => live h !! p = None ∧ live h' = <[p := k]> (live h) ∧
        base + 64 ≤ p ∧ p + k ≤ m_pLimit h ∧ (64 | p)
    | _ => live h' = live h ∧ refuses h n r
    end.
Proof.
  intros Hi Hn. pose proof (bucket_for_range n Hn) as Hk.
  pose proof (hv_base _ _ _ _ Hi) as (Hb & _ & Hal). pose proof (hv_region _ _ _ _ Hi) as (Hr & H0 & _).
  destruct (allocate_cases h n Hi Hn) as [(i & bk & b & q & l & Hbk & Ek & _ & Hm & _ & _ & -> & Hi')|[Hfree ->]];
    set (k := bucket_for sizes n) in *.
  - eexists _, _. split; [done|]. split; [exact Hi'|]. cbv zeta.
    destruct (hv_blocks _ _ _ _ Hi b _ Hm) as (? & Hdv & _ & He & _). cbn [nSize] in *.
    destruct (extent_bounds k) as [? _]; [lia|].
    rewrite lookup_live, Hm. split; [done|]. rewrite live_set_alloc. split; [done|].
    unfold data_of, HEADER_SIZE, HEAP_BLOCK_ALIGN.
    split; [lia|]. split; [lia|]. apply Z.divide_add_r; [done | by exists 1].
  - rewrite carve_eq by (done || lia). destruct (decide _) as [Hfit|Hno].
    + destruct (carve_inv h k Hi) as [Hf Hi']; [lia|done|]. eexists _, _. split; [done|]. split; [done|].
      destruct (extent_bounds k) as [He _]; [lia|]. cbv zeta.
      rewrite lookup_live, Hf. split; [done|]. rewrite live_set_alloc. split; [done|].
      unfold data_of, HEADER_SIZE, HEAP_BLOCK_ALIGN. split; [lia|]. split; [lia|].
      apply Z.divide_add_r; [done | by exists 1].
    + destruct (full_inv h Hi) as (Hi' & Hl & _). exists (fst (full h)), (snd (full h)).
      split; [by destruct (full h)|]. split; [done|].
      assert (Hr' : refuses h n (if m_nReserve h =? 0 then Null else Panic))
        by (split; [exact Hfree|split; [fold k; unfold space; lia|done]]).
      unfold full in *. by destruct (m_nReserve h =? 0).
Qed.

(** The data of a block do not overlap another block nor its header. *)
Lemma live_disjoint h p n q m : inv h → live h !! p = Some n → live h !! q = Some m → p < q →
  p + n ≤ q - HEADER_SIZE.
Proof.
  intros Hi (b & hd & -> & Hb & _ & ->)%lookup_live_Some (b' & hd' & -> & Hb' & _ & ->)%lookup_live_Some Hlt.
  unfold data_of in *. pose proof (hv_disjoint _ _ _ _ Hi b hd b' hd' Hb Hb') as Hd.
  destruct (hv_blocks _ _ _ _ Hi b hd Hb) as (_ & _ & ? & _). destruct (extent_bounds (nSize hd)) as [? _]; [lia|].
  unfold HEADER_SIZE, HEAP_BLOCK_ALIGN in *. lia.
Qed.

Lemma live_range h p n : inv h → live h !! p = Some n →
  base + HEADER_SIZE ≤ p ∧ p + n ≤ m_pLimit h ∧ 0 ≤ n < 2 ^ 32 ∧ (64 | p).
Proof.
  intros Hi (b & hd & -> & Hb & _ & ->)%lookup_live_Some.
  destruct (hv_blocks _ _ _ _ Hi b hd Hb) as (? & Hd & ? & He & _).
  destruct (extent_bounds (nSize hd)) as [? _]; [lia|]. pose proof (hv_region _ _ _ _ Hi) as (? & ? & _).
  unfold data_of, HEADER_SIZE, HEAP_BLOCK_ALIGN in *. split; [lia|]. split; [lia|]. split; [lia|].
  apply Z.divide_add_r; [done | by exists 1].
Qed.

Lemma live_fits h p k M : inv h → live h = <[p := k]> M → M !! p = None → fits M p k.
Proof.
  intros Hi Hl Hn. assert (Hp : live h !! p = Some k) by (rewrite Hl; apply lookup_insert_eq).
  pose proof (live_range h p k Hi Hp) as (H1 & _ & _ & H2).
  pose proof (hv_base _ _ _ _ Hi) as (? & _). unfold HEADER_SIZE, HEAP_BLOCK_ALIGN in *.
  split; [lia|]. split; [done|]. split; [done|]. intros q n Hq.
  assert (Hne : q ≠ p) by (intros ->; by rewrite Hq in Hn).
  assert (Hq' : live h !! q = Some n) by (by rewrite Hl, lookup_insert_ne).
  destruct (Z.lt_total q p) as [Hlt|[?|Hlt]]; [|done|].
  - pose proof (live_disjoint h _ _ _ _ Hi Hq' Hp Hlt). unfold HEADER_SIZE, HEAP_BLOCK_ALIGN in *. lia.
  - pose proof (live_disjoint h _ _ _ _ Hi Hp Hq' Hlt). unfold HEADER_SIZE, HEAP_BLOCK_ALIGN in *. lia.
Qed.

(** The header of a block in use *)
Lemma live_header h p n : inv h → live h !! p = Some n → ∃ q,
  p ≠ 0 ∧ data_of (p - HEADER_SIZE) = p ∧ wrap W (p - HEADER_SIZE) = p - HEADER_SIZE ∧
  memory h !! (p - HEADER_SIZE) = Some (mkHeader HEAP_BLOCK_ALLOC_MAGIC n q).
Proof.
  intros Hi (b & [mg sz q] & -> & Hb & Hm & ->)%lookup_live_Some. cbn in Hm. subst mg.
  destruct (block_word h b _ Hi Hb) as (? & ? & _).
  exists q. unfold data_of. replace (b + HEADER_SIZE - HEADER_SIZE) with b by lia.
  unfold HEADER_SIZE, HEAP_BLOCK_ALIGN. split; [lia|]. split; [lia|].
  split; [apply wrap_small; unfold uword; lia | done].
Qed.

(** Freeing a block puts it on the list of its size, if there is one. *)
Lemma free_spec h p n : inv h → live h !! p = Some n →
  ∃ h', DoFree W h p = Ret h' ∧ inv h' ∧ live h' = delete p (live h) ∧
    (n ∈ sizes → ∃ i bk, list_find (λ s, (n =? s) = true) sizes = Some (i, n) ∧ m_Bucket h' !! i = Some bk ∧
       bk_nSize bk = n ∧ pFreeList bk = p - HEADER_SIZE).
Proof.
  intros Hi Hlive. destruct (live_header h p n Hi Hlive) as (q & Hne & Hp & Hw & Hm).
  set (b := p - HEADER_SIZE) in *. unfold DoFree. rewrite (proj2 (Z.eqb_neq _ _) Hne). cbv zeta.
  fold b. rewrite Hw. unfold header_at. rewrite Hm, bind_Ret. cbn [nMagic nSize pNext]. rewrite Z.eqb_refl. cbn [negb].
  set (h1 := set_header h b (mkHeader HEAP_BLOCK_FREE_MAGIC n q)).
  destruct (search_bucket h (λ s, n =? s) Hi) as (r & Hr & Hs).
  change (m_Bucket h1) with (m_Bucket h). rewrite Hr, bind_Ret.
  assert (Hother : ∀ j bk x, m_Bucket h !! j = Some bk → 0 < bk_nSize bk →
    ∃ l, NoDup l ∧ free_list (<[b := mkHeader HEAP_BLOCK_FREE_MAGIC n x]> (memory h)) (bk_nSize bk) (pFreeList bk) l ∧ b ∉ l).
  { intros j bk x Hj Hpj. destruct (hv_lists _ _ _ _ Hi j bk Hj Hpj) as (l & ? & Hl).
    exists l. split; [done|]. split; [eapply free_list_insert; [exact Hl | exact Hm | by left]|].
    intros Hin. destruct (free_list_elem _ _ _ _ _ Hl Hin) as [y Hy]. rewrite Hm in Hy. discriminate. }
  destruct r as [[i bk]|].
  - destruct Hs as (Hbk & Ht & Hpos & Hf). apply Z.eqb_eq in Ht.
    exists (set_bucket (set_header h1 b (mkHeader HEAP_BLOCK_FREE_MAGIC n (pFreeList bk))) i b).
    split; [done|].
    unfold set_bucket, set_header, h1. cbn [m_pNext m_pLimit m_nReserve m_Bucket memory set_header].
    rewrite insert_insert_eq.
    split; [|split].
    + refine (mark_inv h b _ HEAP_BLOCK_FREE_MAGIC (pFreeList bk) _ Hi Hm _ _ _); [by right | |].
      * apply list_eq. intros j. rewrite !list_lookup_fmap.
        destruct (decide (i = j)) as [<-|]; [|by rewrite list_lookup_alter_ne].
        by rewrite list_lookup_alter_eq, Hbk.
      * intros j bj Hj Hpj. destruct (decide (i = j)) as [<-|Hij].
        -- rewrite list_lookup_alter_eq, Hbk in Hj. injection Hj as <-. cbn [bk_nSize pFreeList nSize] in *.
           destruct (Hother i bk (pFreeList bk) Hbk Hpos) as (l & ? & Hl & Hnin). exists (b :: l).
           split; [by apply NoDup_cons|]. split; [done|]. rewrite <- Ht.
           destruct (block_word h b _ Hi Hm) as (? & _). split; [lia|].
           exists (pFreeList bk). split; [by rewrite lookup_insert_eq|]. by rewrite <- Ht in Hl.
        -- rewrite list_lookup_alter_ne in Hj by done.
           destruct (Hother j bj (pFreeList bk) Hj Hpj) as (l & ? & Hl & _). by exists l.
    + rewrite <- Hp. apply (live_set_free h b n (pFreeList bk)).
    + intros _. exists i, (mkBucket n b). rewrite Hf, list_lookup_alter_eq, Hbk. cbn. by rewrite Ht.
  - exists h1. split; [done|]. split; [|split].
    + refine (mark_inv h b _ HEAP_BLOCK_FREE_MAGIC q _ Hi Hm _ _ _); [by right | done|].
      intros j bj Hj Hpj. destruct (Hother j bj q Hj Hpj) as (l & ? & Hl & _). by exists l.
    + rewrite <- Hp. apply live_set_free.
    + intros Hin. exfalso. apply list_elem_of_lookup in Hin as [i Hin].
      apply list_find_None in Hs. rewrite Forall_forall in Hs.
      apply (Hs n); [by eapply list_elem_of_lookup_2 | apply Z.eqb_refl].
Qed.

(** The block freed last is the next one of its size. *)
Lemma reuse_spec h p n m : inv h → live h !! p = Some n → n ∈ sizes → 0 ≤ m < 2 ^ 32 - 128 →
  bucket_for sizes m = n →
  ∃ h' h'', DoFree W h p = Ret h' ∧ DoAllocate W h' m = Ret (Block p, h'') ∧ inv h'' ∧ live h'' = live h.
Proof.
  intros Hi Hlive Hn Hm Eb. destruct (free_spec h p n Hi Hlive) as (h' & Hf & Hi' & Hl' & Hlist).
  destruct (Hlist Hn) as (i & bk & Hfind & Hbk & Hsz & Hpf).
  assert (Halloc : ∃ h'', DoAllocate W h' m = Ret (Block p, h'')).
  { unfold DoAllocate. pose proof (hv_base _ _ _ _ Hi') as (? & _). pose proof (hv_region _ _ _ _ Hi') as (? & _).
    rewrite (proj2 (Z.eqb_neq _ 0)) by lia.
    destruct (search_bucket h' (λ s, m <=? s) Hi') as (r & -> & Hs). rewrite bind_Ret.
    apply list_find_Some in Hfind as (Hi0 & _ & Hfirst).
    destruct r as [[j bj]|].
    2:{ exfalso. apply list_find_None in Hs. rewrite Forall_forall in Hs. unfold bucket_for in Eb.
        apply (Hs n Hn). rewrite (proj2 (list_find_None (λ s, (m <=? s) = true) sizes)) in Eb
          by (apply Forall_forall; exact Hs). apply Z.leb_le. lia. }
    destruct Hs as (Hbj & _ & Hpos & Hfj). unfold bucket_for in Eb. rewrite Hfj in Eb.
    assert (j = i) as ->.
    { apply list_find_Some in Hfj as (Hj & _ & _). rewrite Eb in Hj.
      eapply (NoDup_lookup sizes); [apply sizes_good | exact Hj | exact Hi0]. }
    rewrite Hbk in Hbj. injection Hbj as <-.
    destruct (live_header h p n Hi Hlive) as (q & Hne & Hp & _ & _).
    pose proof (live_range h p n Hi Hlive) as (Hlow & _). pose proof (hv_base _ _ _ _ Hi) as (? & _).
    assert (Hpf0 : pFreeList bk ≠ 0) by (unfold HEADER_SIZE, HEAP_BLOCK_ALIGN in *; lia).
    destruct (hv_lists _ _ _ _ Hi' i bk Hbk Hpos) as (l & _ & Hl). destruct l as [|b l]; [done|].
    destruct Hl as (Hb & _ & x & Hx & _). rewrite <- Hb in Hx.
    destruct (block_word h' _ _ Hi' Hx) as (? & ? & ?).
    rewrite (proj2 (Z.eqb_neq _ _) Hpf0). cbn [negb]. unfold header_at. rewrite Hx, bind_Ret.
    cbn [nMagic pNext]. rewrite Z.eqb_refl. cbn [negb].
    erewrite hand_out_eq by done. rewrite Hpf, Hp. by eexists. }
  destruct Halloc as (h'' & Ha). exists h', h''. split; [done|]. split; [done|].
  destruct (allocate_spec h' m Hi' Hm) as (r & h3 & Ha' & Hi3 & Hr). rewrite Ha in Ha'. injection Ha' as <- <-.
  split; [done|]. destruct Hr as (_ & -> & _). rewrite Hl', Eb. by apply insert_delete_id.
Qed.

Lemma memcpy_inside m dst src n i : 0 ≤ i < n → memcpy m dst src n (dst + i) = m (src + i).
Proof.
  intros Hi. unfold memcpy. rewrite (proj2 (Z.leb_le _ _)), (proj2 (Z.ltb_lt _ _)) by lia. cbn. f_equal. lia.
Qed.

Lemma memcpy_outside m dst src n a : a < dst ∨ dst + n ≤ a → memcpy m dst src n a = m a.
Proof.
  intros Ha. unfold memcpy. destruct (Z.leb_spec dst a), (Z.ltb_spec a (dst + n)); cbn; try done. lia.
Qed.

(** *** Resizing a block in use *)
Lemma realloc_spec h m p n size : inv h → live h !! p = Some n → 0 < size < 2 ^ 32 - 128 →
  ∃ r h' m', DoReAllocate W h m p size = Ret (r, h', m') ∧ inv h' ∧
    match r with
    | Block q => ∃ k, size ≤ k ∧ live h' = <[q := k]> (delete p (live h)) ∧
        (if decide (size ≤ n) then q = p ∧ k = n else fits (live h) q k) ∧
        (∀ i, 0 ≤ i < Z.min n size → m' (q + i) = m (p + i)) ∧
        (∀ p' n' i, live h !! p' = Some n' → p' ≠ p → 0 ≤ i < n' → m' (p' + i) = m (p' + i))
    | _ => live h' = live h ∧ m' = m ∧ n < size ∧ refuses h size r
    end.
Proof.
  intros Hi Hlive Hsize. destruct (live_header h p n Hi Hlive) as (q & Hne & Hp & Hw & Hm).
  unfold DoReAllocate. rewrite (proj2 (Z.eqb_neq _ _) Hne), (proj2 (Z.eqb_neq size 0)) by lia.
  rewrite Hw. unfold header_at. rewrite Hm, bind_Ret. cbn [nMagic nSize]. rewrite Z.eqb_refl. cbn [negb].
  destruct (Z.leb_spec size n) as [Hle|Hgt].
  { exists (Block p), h, m. split; [done|]. split; [done|]. exists n. split; [done|].
    rewrite insert_delete_id by done. split; [done|]. split; [by rewrite decide_True|]. by split. }
  destruct (allocate_spec h size Hi) as (r & h1 & -> & Hi1 & Hr); [lia|]. rewrite bind_Ret. cbv zeta in Hr.
  destruct r as [pn| |]; [|by exists Null, h1, m; destruct Hr|by exists Panic, h1, m; destruct Hr].
  destruct Hr as (Hfresh & Hl1 & _).
  pose proof (bucket_for_range size ltac:(lia)) as Hk. set (k := bucket_for sizes size) in *.
  assert (Hnew : live h1 !! pn = Some k) by (rewrite Hl1; apply lookup_insert_eq).
  assert (Hpn : pn ≠ p) by (intros ->; by rewrite Hlive in Hfresh).
  assert (Hold : ∀ p' n', live h !! p' = Some n' → live h1 !! p' = Some n').
  { intros p' n' H'. rewrite Hl1, lookup_insert_ne; [done|]. intros <-. by rewrite H' in Hfresh. }
  assert (Hapart : ∀ p' n', live h !! p' = Some n' → p' + n' ≤ pn ∨ pn + k ≤ p').
  { intros p' n' H'. pose proof (Hold _ _ H') as H1. assert (p' ≠ pn) by (intros ->; by rewrite H' in Hfresh).
    destruct (Z.lt_total p' pn) as [Hlt|[?|Hlt]]; [|done|].
    - pose proof (live_disjoint h1 _ _ _ _ Hi1 H1 Hnew Hlt). unfold HEADER_SIZE, HEAP_BLOCK_ALIGN in *. lia.
    - pose proof (live_disjoint h1 _ _ _ _ Hi1 Hnew H1 Hlt). unfold HEADER_SIZE, HEAP_BLOCK_ALIGN in *. lia. }
  pose proof (Hapart p n Hlive) as Hap. pose proof (live_range h p n Hi Hlive) as (_ & _ & Hn & _).
  rewrite bool_decide_eq_false_2 by lia.
  destruct (free_spec h1 p n Hi1 (Hold _ _ Hlive)) as (h2 & -> & Hi2 & Hl2 & _). rewrite bind_Ret.
  eexists _, _, _. split; [done|]. split; [done|]. exists k. split; [lia|].
  split; [by rewrite Hl2, Hl1, delete_insert_ne|]. split; [rewrite decide_False by lia; by apply (live_fits h1)|]. split.
  - intros i Hi0. apply memcpy_inside. lia.
  - intros p' n' i H' _ Hi0. apply memcpy_outside. pose proof (Hapart p' n' H'). lia.
Qed.
(** *** Room for more blocks of one size

    The freed blocks of the size and those that still fit into the region. *)
Definition room (sz : Z) (h : CHeapAllocator) (k : nat) : Prop :=
  ∃ i bk l, m_Bucket h !! i = Some bk ∧ bk_nSize bk = sz ∧ NoDup l ∧
    free_list (memory h) sz (pFreeList bk) l ∧ Z.of_nat k ≤ Z.of_nat (length l) + space h / extent sz.

Lemma free_list_det mem sz l : ∀ p l', free_list mem sz p l → free_list mem sz p l' → l = l'.
Proof.
  induction l as [|b l IH]; intros p [|b' l'] Hl Hl'; cbn in *; [done | by destruct Hl' as (<- & ? & _) | by destruct Hl as (<- & ? & _) |].
  destruct Hl as (-> & _ & q & Hm & Hl), Hl' as (<- & _ & q' & Hm' & Hl').
  rewrite Hm in Hm'. injection Hm' as <-. f_equal. by eapply IH.
Qed.

Lemma room_alloc sz h k n : inv h → 0 < sz → room sz h (S k) → 0 ≤ n < 2 ^ 32 - 128 → bucket_for sizes n = sz →
  ∃ p h', DoAllocate W h n = Ret (Block p, h') ∧ room sz h' k.
Proof.
  intros Hi Hsz (i & bk & l & Hbk & Es & Hnd & Hl & Hk) Hn E.
  pose proof (bucket_for_range n Hn) as Hrg. rewrite E in Hrg. destruct (extent_bounds sz) as [He _]; [lia|].
  destruct (allocate_cases h n Hi Hn) as [(j & bj & b & q & l' & Hbj & Ej & Eb & Hm & Hnd' & Hl' & Ha & _)|[Hempty Ha]];
    rewrite E in *; rewrite Ha.
  - assert (i = j) as <-.
    { destruct (decide (i = j)); [done|]. exfalso.
      apply (bucket_inj h i j bk bj Hi Hbk Hbj); [lia | done | congruence]. }
    rewrite Hbk in Hbj. injection Hbj as <-. eexists _, _. split; [done|].
    exists i, (mkBucket (bk_nSize bk) q), l'.
    unfold set_header, set_bucket, space; cbn [m_Bucket memory m_pLimit m_nReserve m_pNext pFreeList bk_nSize].
    rewrite list_lookup_alter_eq, Hbk. split; [done|]. split; [done|].
    apply NoDup_cons in Hnd' as [Hnin Hnd']. split; [done|]. split.
    { eapply free_list_ext; [exact Hl'|]. intros x Hx. apply lookup_insert_ne. by intros ->. }
    replace l with (b :: l') in Hk; [cbn [length] in Hk; unfold space in *; lia|].
    eapply (free_list_det _ _ _ (pFreeList bk)); [|exact Hl]. rewrite Eb. split; [done|].
    destruct (block_word h b _ Hi Hm) as (? & _). split; [lia|]. by exists q.
  - assert (l = []) as ->.
    { rewrite (Hempty i bk) in Hl; [|done|lia|done]. destruct l as [|b l]; [done|]. by destruct Hl as (<- & ? & _). }
    cbn [length] in Hk.
    assert (Hfit : extent sz ≤ space h).
    { pose proof (Z.mul_div_le (space h) (extent sz)). nia. }
    unfold space in Hfit. rewrite carve_eq, decide_True by (done || lia). eexists _, _. split; [done|].
    exists i, bk, []. unfold set_header, set_next, space in *; cbn [m_Bucket memory m_pLimit m_nReserve m_pNext] in *.
    split; [done|]. split; [done|]. split; [constructor|]. split; [by eapply Hempty; [|lia|]|].
    replace (m_pLimit h - m_nReserve h - (m_pNext h + extent sz))
      with (m_pLimit h - m_nReserve h - m_pNext h + (-1) * extent sz) by lia.
    rewrite Z.div_add by lia. cbn [length]. lia.
Qed.

Lemma room_free sz h k p : inv h → sz ∈ sizes → live h !! p = Some sz → room sz h k →
  ∃ h', DoFree W h p = Ret h' ∧ room sz h' (S k).
Proof.
  intros Hi Hin Hlive (i & bk & l & Hbk & Es & Hnd & Hl & Hk).
  destruct (free_spec h p sz Hi Hlive) as (h' & Hf & Hi' & _ & Hlist). exists h'. split; [done|].
  destruct (Hlist Hin) as (j & bj & Hfind & Hbj & Ej & Epf).
  destruct (live_header h p sz Hi Hlive) as (q & Hne & Hp & Hw & Hm). set (b := p - HEADER_SIZE) in *.
  assert (Hpos : 0 < sz).
  { pose proof sizes_pos as Hs. rewrite Forall_forall in Hs. by apply Hs. }
  unfold DoFree in Hf. rewrite (proj2 (Z.eqb_neq _ _) Hne) in Hf. cbv zeta in Hf. fold b in Hf.
  rewrite Hw in Hf. unfold header_at in Hf. rewrite Hm, bind_Ret in Hf. cbn [nMagic nSize pNext] in Hf.
  rewrite Z.eqb_refl in Hf. cbn [negb] in Hf.
  destruct (search_bucket h (λ s, sz =? s) Hi) as (r & Hr & Hs).
  change (find_bucket (λ s, sz =? s) (m_Bucket h) 0 = Ret r) in Hr. cbn [m_Bucket set_header] in Hf.
  rewrite Hr, bind_Ret in Hf. destruct r as [[x bx]|].
  2:{ rewrite Hs in Hfind. discriminate. }
  destruct Hs as (Hbx & Ht & Hpx & _). apply Z.eqb_eq in Ht.
  assert (x = i) as ->.
  { destruct (decide (x = i)); [done|]. exfalso.
    apply (bucket_inj h x i bx bk Hi Hbx Hbk Hpx); [done | congruence]. }
  rewrite Hbk in Hbx. injection Hbx as <-. injection Hf as <-.
  exists i, (mkBucket (bk_nSize bk) b), (b :: l).
  unfold set_header, set_bucket, space in *; cbn [m_Bucket memory m_pLimit m_nReserve m_pNext pFreeList bk_nSize] in *.
  rewrite list_lookup_alter_eq, Hbk. split; [done|]. split; [done|]. rewrite insert_insert_eq.
  assert (Hnin : b ∉ l).
  { intros Hb. destruct (free_list_elem _ _ _ _ _ Hl Hb) as [y Hy]. rewrite Hm in Hy. discriminate. }
  split; [by apply NoDup_cons|]. split; [|cbn [length]; lia].
  split; [done|]. destruct (block_word h b _ Hi Hm) as (? & _). split; [lia|]. exists (pFreeList bk).
  split; [by rewrite lookup_insert_eq|]. eapply free_list_insert; [exact Hl | exact Hm | by left].
Qed.
End laws.

(** ** What the heap promises

    A client sees a map from addresses to sizes: an allocation adds a block that
    overlaps no other, a release removes one, resizing keeps the bytes, and only
    what cannot be met is refused. *)
Inductive heap_op :=
  | Alloc (n : Z)
  | Free (p : Z)
  | Realloc (p n : Z).

(** Requests of less than [2^32 - 128] bytes, the sizes the 32-bit field of a header
    and the arithmetic of the addresses can hold; only blocks in use, or null, are
    released. *)
Definition op_ok (M : gmap Z Z) (o : heap_op) : Prop :=
  match o with
  | Alloc n => 0 ≤ n < 2 ^ 32 - 128
  | Free p => p = 0 ∨ is_Some (M !! p)
  | Realloc p n => (p = 0 ∨ is_Some (M !! p)) ∧ 0 ≤ n < 2 ^ 32 - 128
  end.

Definition do_op (W : Z) (h : CHeapAllocator) (m : data) (o : heap_op)
    : outcome (alloc_result * CHeapAllocator * data) :=
  match o with
  | Alloc n => '(r, h) ← DoAllocate W h n; Ret (r, h, m)
  | Free p => h ← DoFree W h p; Ret (Null, h, m)
  | Realloc p n => DoReAllocate W h m p n
  end.

(** [full n r]: a request for [n] bytes cannot be met, and the answer is [r]. *)
Inductive heap_step (full : Z → alloc_result → Prop) (M : gmap Z Z) (m : data)
    : heap_op → alloc_result → gmap Z Z → data → Prop :=
  | step_alloc n k p : n ≤ k → fits M p k → heap_step full M m (Alloc n) (Block p) (<[p := k]> M) m
  | step_alloc_full n r : full n r → (∀ p, r ≠ Block p) → heap_step full M m (Alloc n) r M m
  | step_free p : p ≠ 0 → heap_step full M m (Free p) Null (delete p M) m
  | step_free_null : heap_step full M m (Free 0) Null M m
  | step_realloc_null n r M' m' : heap_step full M m (Alloc n) r M' m' → heap_step full M m (Realloc 0 n) r M' m'
  | step_realloc_zero p M' m' : p ≠ 0 → heap_step full M m (Free p) Null M' m' →
      heap_step full M m (Realloc p 0) Null M' m'
  | step_realloc p n k size q m' :
      p ≠ 0 → size ≠ 0 → M !! p = Some n → size ≤ k → (if decide (size ≤ n) then q = p ∧ k = n else fits M q k) →
      (∀ i, 0 ≤ i < Z.min n size → m' (q + i) = m (p + i)) →
      (∀ p' n' i, M !! p' = Some n' → p' ≠ p → 0 ≤ i < n' → m' (p' + i) = m (p' + i)) →
      heap_step full M m (Realloc p size) (Block q) (<[q := k]> (delete p M)) m'
  | step_realloc_full p n size r : p ≠ 0 → size ≠ 0 → M !! p = Some n → n < size →
      full size r → (∀ q, r ≠ Block q) → heap_step full M m (Realloc p size) r M m.

Section contract.
Context (W : Z) (sizes : list Z) (base : Z).
Hypothesis W_wide : 32 ≤ W.
Hypothesis sizes_good : sizes_ok sizes.

(** A fresh heap *)
Lemma setup_inv size nReserve : 0 < base → (64 | base) → 0 ≤ nReserve ≤ size → base + size < 2 ^ W →
  heap_inv W sizes base (Setup W (heap_new sizes) base size nReserve) ∧
  live (Setup W (heap_new sizes) base size nReserve) = ∅.
Proof.
  intros Hb Hd Hr HW. split; [|done]. pose proof (sz_count _ sizes_good) as Hc.
  split; cbn [Setup heap_new m_pNext m_pLimit m_nReserve m_Bucket memory].
  - rewrite fmap_app, fmap_replicate, Nat.min_l by done. f_equal.
    rewrite take_ge, <- list_fmap_compose by done. apply list_fmap_id.
  - done.
  - rewrite wrap_small by (unfold uword; lia). lia.
  - intros b hd Hb'. by rewrite lookup_empty in Hb'.
  - intros b hd b' hd' Hb'. by rewrite lookup_empty in Hb'.
  - intros i bk Hi _. exists []. split; [constructor|]. cbn.
    apply lookup_app_Some in Hi as [Hi|[_ Hi]].
    + apply list_lookup_fmap_Some_1 in Hi as (s & -> & _). done.
    + by apply lookup_replicate in Hi as [-> _].
Qed.

Lemma alloc_refines h m n : heap_inv W sizes base h → 0 ≤ n < 2 ^ 32 - 128 →
  ∃ r h', DoAllocate W h n = Ret (r, h') ∧ heap_inv W sizes base h' ∧
    heap_step (refuses sizes h) (live h) m (Alloc n) r (live h') m.
Proof.
  intros Hi Hn. destruct (allocate_spec W sizes base W_wide sizes_good h n Hi Hn) as (r & h' & Ha & Hi' & Hr).
  exists r, h'. split; [done|]. split; [done|]. pose proof (bucket_for_range sizes sizes_good n Hn).
  cbv zeta in Hr. destruct r as [p| |]; [|destruct Hr as [-> Hr]; by apply step_alloc_full..].
  destruct Hr as (Hf & Hl & _). pose proof (live_fits W sizes base h' p _ _ Hi' Hl Hf) as Hfit.
  rewrite Hl. apply step_alloc; [lia | done].
Qed.

Lemma free_refines h m p : heap_inv W sizes base h → p = 0 ∨ is_Some (live h !! p) →
  ∃ h', DoFree W h p = Ret h' ∧ heap_inv W sizes base h' ∧ heap_step (refuses sizes h) (live h) m (Free p) Null (live h') m.
Proof.
  intros Hi [->|[n Hn]]; [exists h; split; [done|]; split; [done|]; apply step_free_null|].
  destruct (free_spec W sizes base W_wide sizes_good h p n Hi Hn) as (h' & Hf & Hi' & Hl & _).
  exists h'. split; [done|]. split; [done|]. rewrite Hl. apply step_free.
  by destruct (live_header W sizes base W_wide h p n Hi Hn) as (q & ? & _).
Qed.

(** C13: The heap implements its contract.  For a client that asks for less than
    [2^32 - 128] bytes at a time (beyond that sizes are cut off or wrap around) and
    releases or resizes only blocks in use, or null: every allocation, release and
    resizing returns without touching foreign memory or failing an assertion, keeps
    the structure of the heap, and changes the blocks in use as the contract says.  A
    new block is at least as large as asked for, 64-byte aligned and overlaps no
    block in use; a block that is large enough keeps its address when it is
    resized, another one moves, and the bytes of the block and of all others are
    kept.  A request is refused, with nothing changed for the client, only when no
    freed block of its bucket is left and what remains of the region, less the
    reserve, has no room for a new one with its header: then the result is null, or
    the system stops if there is a reserve. *)
Theorem heap_refines_contract (h : CHeapAllocator) (m : data) (o : heap_op) :
  heap_inv W sizes base h → op_ok (live h) o →
  ∃ r h' m', do_op W h m o = Ret (r, h', m') ∧ heap_inv W sizes base h' ∧
    heap_step (refuses sizes h) (live h) m o r (live h') m'.
Proof.
  intros Hi Hok. destruct o as [n|p|p n]; cbn [op_ok do_op] in *.
  - destruct (alloc_refines h m n Hi Hok) as (r & h' & -> & ? & ?). rewrite bind_Ret. by exists r, h', m.
  - destruct (free_refines h m p Hi Hok) as (h' & -> & ? & ?). rewrite bind_Ret. by exists Null, h', m.
  - destruct Hok as [Hp Hn]. destruct (decide (p = 0)) as [->|Hne].
    { unfold DoReAllocate. rewrite Z.eqb_refl. destruct (alloc_refines h m n Hi Hn) as (r & h' & -> & ? & ?).
      rewrite bind_Ret. exists r, h', m. split; [done|]. split; [done|]. by apply step_realloc_null. }
    destruct (decide (n = 0)) as [->|Hn0].
    { unfold DoReAllocate. rewrite (proj2 (Z.eqb_neq _ _) Hne), Z.eqb_refl.
      destruct (free_refines h m p Hi Hp) as (h' & -> & ? & ?). rewrite bind_Ret.
      exists Null, h', m. split; [done|]. split; [done|]. by apply step_realloc_zero. }
    destruct Hp as [?|[np Hnp]]; [done|].
    destruct (realloc_spec W sizes base W_wide sizes_good h m p np n Hi Hnp) as (r & h' & m' & Hr & Hi' & Hpost); [lia|].
    exists r, h', m'. split; [done|]. split; [done|].
    destruct r as [q| |]; [|destruct Hpost as (-> & -> & Hlt & Hfull); by apply (step_realloc_full _ _ _ p np)..].
    destruct Hpost as (k & Hk & Hl & Hq & Hkeep & Hother). rewrite Hl.
    eapply step_realloc; [done|done|exact Hnp|done|exact Hq|exact Hkeep|exact Hother].
Qed.

(** Freed memory is used again: a block that is freed serves the next request of
    its size, at its old address, and the heap is as before. *)
Theorem heap_reuses_freed (h : CHeapAllocator) (p n m : Z) :
  heap_inv W sizes base h → live h !! p = Some n → n ∈ sizes → 0 ≤ m < 2 ^ 32 - 128 →
  bucket_for sizes m = n →
  ∃ h' h'', DoFree W h p = Ret h' ∧ DoAllocate W h' m = Ret (Block p, h'') ∧
    heap_inv W sizes base h'' ∧ live h'' = live h.
Proof. by apply reuse_spec. Qed.

(** Sizes near the end of the address space wrap around: instead of failing, the
    request is given a block without a single byte of data. *)
Theorem heap_huge_request (h : CHeapAllocator) (n : Z) :
  heap_inv W sizes base h → 2 ^ W - 63 ≤ n < 2 ^ W → 64 ≤ space h →
  ∃ h', DoAllocate W h n = Ret (Block (m_pNext h + 64), h') ∧ m_pNext h' = m_pNext h + 64.
Proof.
  intros Hi Hn Hsp. unfold space in Hsp. pose proof (hv_base _ _ _ _ Hi) as (Hb & _ & Hal).
  pose proof (hv_region _ _ _ _ Hi) as (Hr & Hr0 & HW).
  assert (H32 : 2 ^ 32 ≤ 2 ^ W) by (apply Z.pow_le_mono_r; lia).
  unfold DoAllocate. rewrite (proj2 (Z.eqb_neq _ 0)) by lia.
  destruct (search_bucket W sizes base sizes_good h (λ s, n <=? s) Hi) as (r & -> & Hs). rewrite bind_Ret.
  destruct r as [[i bk]|].
  { destruct Hs as (_ & Ht & _ & Hf). apply list_find_Some in Hf as (Hf & _ & _).
    pose proof (sz_range _ sizes_good) as Hrg. rewrite Forall_forall in Hrg.
    apply list_elem_of_lookup_2, Hrg in Hf. apply Z.leb_le in Ht. lia. }
  unfold carve. cbv zeta.
  assert (E : wrap W (HEADER_SIZE + n + HEAP_BLOCK_ALIGN - 1) = 127 + n - 2 ^ W).
  { unfold wrap, HEADER_SIZE, HEAP_BLOCK_ALIGN. symmetry. apply (Z.mod_unique _ _ 1); lia. }
  rewrite E, land_align by lia.
  replace ((127 + n - 2 ^ W) / 64 * 64) with 64.
  2:{ assert (1 = (127 + n - 2 ^ W) / 64) as <-; [|lia].
      apply (Z.div_unique _ 64 1 (63 + n - 2 ^ W)); lia. }
  rewrite (wrap_small W (m_pNext h + 64)), (wrap_small W (m_pLimit h - _)) by (unfold uword; lia).
  rewrite (proj2 (Z.leb_gt _ _)), (proj2 (Z.ltb_ge _ _)) by lia. cbn [orb].
  erewrite hand_out_eq; [|cbn; by rewrite lookup_insert_eq|lia|lia|done]. by eexists.
Qed.
End contract.

(** ** The interface to the clients of the heap *)

Class Heap (H : Type) := {
  heap_alloc : H → Z → outcome (alloc_result * H);
  heap_free : H → Z → outcome H;
  heap_live : H → gmap Z Z;
  heap_ok : H → Prop;
  heap_room : H → nat → Prop
}.

(** The size of the blocks that hold frames; [heap_room h k]: there is room for
    [k] more of them. *)
Definition FRAME_BLOCK : Z := 0x1000.

(** All addresses lie below 4 GB ([HEAP_LOW]: below 1 GB). *)
Class HeapLaws (H : Type) `{Heap H} := {
  heap_alloc_law h n : heap_ok h → 0 ≤ n < 2 ^ 32 - 128 →
    ∃ r h', heap_alloc h n = Ret (r, h') ∧ heap_ok h' ∧
      match r with
      | Block p => ∃ k, n ≤ k ∧ fits (heap_live h) p k ∧ heap_live h' = <[p := k]> (heap_live h)
      | _ => heap_live h' = heap_live h
      end;
  heap_free_law h p : heap_ok h → is_Some (heap_live h !! p) →
    ∃ h', heap_free h p = Ret h' ∧ heap_ok h' ∧ heap_live h' = delete p (heap_live h);
  heap_free_null h : heap_free h 0 = Ret h;
  heap_room_alloc h k n : heap_ok h → heap_room h (S k) → 1024 < n ≤ FRAME_BLOCK →
    ∃ p h', heap_alloc h n = Ret (Block p, h') ∧ heap_ok h' ∧ heap_room h' k ∧
      fits (heap_live h) p FRAME_BLOCK ∧ heap_live h' = <[p := FRAME_BLOCK]> (heap_live h);
  heap_room_free h k p : heap_ok h → heap_room h k → heap_live h !! p = Some FRAME_BLOCK →
    ∃ h', heap_free h p = Ret h' ∧ heap_ok h' ∧ heap_room h' (S k) ∧
      heap_live h' = delete p (heap_live h);
  heap_below h p n : heap_ok h → heap_live h !! p = Some n → 0 < p ∧ p + n < 2 ^ 32
}.

Definition circle_heap (W : Z) (base : Z) : Heap CHeapAllocator := {|
  heap_alloc := DoAllocate W;
  heap_free := DoFree W;
  heap_live := live;
  heap_ok h := heap_inv W HEAP_BLOCK_BUCKET_SIZES base h ∧ m_pLimit h < 2 ^ 32;
  heap_room := room FRAME_BLOCK
|}.

Lemma hand_out_limit W h b r h' : hand_out W h b = Ret (r, h') → m_pLimit h' = m_pLimit h.
Proof. unfold hand_out. intros H. inv_ret. by case_match; inv_ret. Qed.

Lemma carve_limit W h n r h' : carve W h n = Ret (r, h') → m_pLimit h' = m_pLimit h.
Proof.
  unfold carve. cbv zeta. destruct (_ || _); [destruct (_ =? 0); intros H; by inv_ret|].
  intros H. by apply hand_out_limit in H.
Qed.

Lemma allocate_limit W h n r h' : DoAllocate W h n = Ret (r, h') → m_pLimit h' = m_pLimit h.
Proof.
  unfold DoAllocate. destruct (_ =? 0); [intros H; by inv_ret|]. intros H. inv_ret.
  destruct v as [[i b]|]; [|by apply carve_limit in H].
  destruct (negb (pFreeList b =? 0)); [|by apply carve_limit in H].
  inv_ret. destruct (negb (nMagic v =? _)); [done|]. by apply hand_out_limit in H.
Qed.

Lemma free_limit W h p h' : DoFree W h p = Ret h' → m_pLimit h' = m_pLimit h.
Proof.
  unfold DoFree. destruct (_ =? 0); [intros H; by inv_ret|]. cbv zeta. intros H. inv_ret.
  destruct (negb _); [done|]. inv_ret. by destruct v0 as [[i b]|]; inv_ret.
Qed.

Lemma bucket_sizes_ok : sizes_ok HEAP_BLOCK_BUCKET_SIZES.
Proof.
  split; [apply (bool_decide_eq_true_1 _); vm_compute; reflexivity | | unfold HEAP_BLOCK_MAX_BUCKETS; cbn; lia].
  repeat constructor; lia.
Qed.

Lemma bucket_for_frame n : 1024 < n ≤ FRAME_BLOCK → bucket_for HEAP_BLOCK_BUCKET_SIZES n = FRAME_BLOCK.
Proof.
  intros Hn. unfold FRAME_BLOCK in Hn. unfold bucket_for, HEAP_BLOCK_BUCKET_SIZES. cbn [list_find].
  rewrite !decide_False by (rewrite Z.leb_le; lia). by rewrite decide_True by (apply Z.leb_le; lia).
Qed.

Lemma circle_heap_laws W base : 32 ≤ W → HeapLaws CHeapAllocator (H0 := circle_heap W base).
Proof.
  intros HW. pose proof bucket_sizes_ok as Hs.
  assert (Halloc : ∀ h n p h', heap_inv W HEAP_BLOCK_BUCKET_SIZES base h → 0 ≤ n < 2 ^ 32 - 128 →
    DoAllocate W h n = Ret (Block p, h') → heap_inv W HEAP_BLOCK_BUCKET_SIZES base h' ∧
    let k := bucket_for HEAP_BLOCK_BUCKET_SIZES n in fits (live h) p k ∧ live h' = <[p := k]> (live h)).
  { intros h n p h' Hi Hn Ha.
    destruct (allocate_spec W HEAP_BLOCK_BUCKET_SIZES base HW Hs h n Hi Hn) as (r & h2 & Ha' & Hi' & Hr).
    rewrite Ha in Ha'. injection Ha' as <- <-. destruct Hr as (Hf & Hl & _). split; [done|]. split; [|done].
    by apply (live_fits W HEAP_BLOCK_BUCKET_SIZES base h'). }
  split; cbn [heap_ok heap_live heap_alloc heap_free heap_room circle_heap].
  - intros h n [Hi Hl] Hn.
    destruct (allocate_spec W HEAP_BLOCK_BUCKET_SIZES base HW Hs h n Hi Hn) as (r & h' & Ha & Hi' & Hr).
    exists r, h'. split; [done|]. rewrite (allocate_limit _ _ _ _ _ Ha). split; [done|].
    destruct r as [p| |]; [|apply Hr..]. destruct (Halloc h n p h' Hi Hn Ha) as (_ & ? & ?).
    exists (bucket_for HEAP_BLOCK_BUCKET_SIZES n). split; [by apply (bucket_for_range _ Hs) | done].
  - intros h p [Hi Hl] [n Hn].
    destruct (free_spec W HEAP_BLOCK_BUCKET_SIZES base HW Hs h p n Hi Hn) as (h' & Hf & Hi' & Hd & _).
    exists h'. split; [done|]. by rewrite (free_limit _ _ _ _ Hf).
  - done.
  - intros h k n [Hi Hl] Hr Hn. pose proof (bucket_for_frame n Hn) as Eb.
    assert (Hn' : 0 ≤ n < 2 ^ 32 - 128) by (unfold FRAME_BLOCK in Hn; lia).
    destruct (room_alloc W HEAP_BLOCK_BUCKET_SIZES base HW Hs FRAME_BLOCK h k n Hi) as (p & h' & Ha & Hr'); [done..|].
    destruct (Halloc h n p h' Hi Hn' Ha) as (Hi' & Hf & Hl'). rewrite Eb in *.
    exists p, h'. split; [done|]. rewrite (allocate_limit _ _ _ _ _ Ha). done.
  - intros h k p [Hi Hl] Hr Hp.
    destruct (room_free W HEAP_BLOCK_BUCKET_SIZES base HW Hs FRAME_BLOCK h k p Hi) as (h' & Hf & Hr'); [|done..|].
    { apply (bool_decide_eq_true_1 _). vm_compute. reflexivity. }
    destruct (free_spec W HEAP_BLOCK_BUCKET_SIZES base HW Hs h p _ Hi Hp) as (h2 & Hf2 & Hi' & Hd & _).
    rewrite Hf in Hf2. injection Hf2 as <-. exists h'. split; [done|]. by rewrite (free_limit _ _ _ _ Hf).
  - intros h p n [Hi Hl] Hn. pose proof (live_range W HEAP_BLOCK_BUCKET_SIZES base h p n Hi Hn) as (H1 & H2 & _).
    pose proof (hv_base _ _ _ _ Hi) as (? & _). unfold HEADER_SIZE, HEAP_BLOCK_ALIGN in *. lia.
Qed.

(** A fresh region has room for as many frames as fit into it with their headers. *)
Lemma setup_room W base size nReserve k :
  base + size < 2 ^ W → 0 < base → 0 ≤ nReserve ≤ size → Z.of_nat k ≤ (size - nReserve) / extent FRAME_BLOCK →
  room FRAME_BLOCK (Setup W (heap_new HEAP_BLOCK_BUCKET_SIZES) base size nReserve) k.
Proof.
  intros HW Hb Hr Hk. exists 2%nat, (mkBucket FRAME_BLOCK 0), []. split; [done|]. split; [done|].
  split; [constructor|]. split; [done|]. cbn [length Setup space m_pLimit m_pNext m_nReserve].
  unfold space. cbn [Setup m_pLimit m_pNext m_nReserve]. rewrite wrap_small by (unfold uword; lia).
  replace (base + size - nReserve - base) with (size - nReserve) by lia. lia.
Qed.

(** ** A heap of 64 KB on a 64-bit machine *)
Definition sample_base : Z := 0x100000.
Definition sample_heap : CHeapAllocator := Setup 64 (heap_new HEAP_BLOCK_BUCKET_SIZES) sample_base 0x10000 0.
Definition sample_data : data := λ a, a `mod` 256.

(** With one block of 1024 bytes in use *)
Definition sample_heap1 : CHeapAllocator :=
  match DoAllocate 64 sample_heap 100 with Ret (_, h) => h | _ => sample_heap end.

Lemma sample_heap_inv : heap_inv 64 HEAP_BLOCK_BUCKET_SIZES sample_base sample_heap.
Proof.
  apply setup_inv; [lia | exact bucket_sizes_ok | unfold sample_base; lia | by exists 16384 | lia | unfold sample_base; lia].
Qed.

Lemma sample_heap1_inv : heap_inv 64 HEAP_BLOCK_BUCKET_SIZES sample_base sample_heap1.
Proof.
  destruct (alloc_refines 64 HEAP_BLOCK_BUCKET_SIZES sample_base ltac:(lia) bucket_sizes_ok sample_heap
    sample_data 100 sample_heap_inv) as (r & h' & E & Hi & _); [lia|].
  unfold sample_heap1. by rewrite E.
Qed.

Lemma sample_block : live sample_heap1 !! 0x100040 = Some 0x400.
Proof. vm_compute. reflexivity. Qed.

Lemma heap_refines_contract_witness :
  live sample_heap1 !! 0x100040 = Some 0x400 ∧
  ∃ r h' m', do_op 64 sample_heap1 sample_data (Realloc 0x100040 5000) = Ret (r, h', m') ∧
    heap_inv 64 HEAP_BLOCK_BUCKET_SIZES sample_base h' ∧
    heap_step (refuses HEAP_BLOCK_BUCKET_SIZES sample_heap1) (live sample_heap1) sample_data
      (Realloc 0x100040 5000) r (live h') m'.
Proof.
  split; [exact sample_block|].
  apply (heap_refines_contract 64 HEAP_BLOCK_BUCKET_SIZES sample_base ltac:(lia) bucket_sizes_ok
    sample_heap1 sample_data (Realloc 0x100040 5000) sample_heap1_inv).
  split; [right; by eexists; exact sample_block | lia].
Defined.

Lemma heap_reuses_freed_witness :
  live sample_heap1 !! 0x100040 = Some 0x400 ∧
  ∃ h' h'', DoFree 64 sample_heap1 0x100040 = Ret h' ∧ DoAllocate 64 h' 700 = Ret (Block 0x100040, h'') ∧
    live h'' = live sample_heap1.
Proof.
  split; [exact sample_block|].
  destruct (heap_reuses_freed 64 HEAP_BLOCK_BUCKET_SIZES sample_base ltac:(lia) bucket_sizes_ok
    sample_heap1 0x100040 0x400 700 sample_heap1_inv sample_block) as (h' & h'' & H1 & H2 & _ & H3).
  - apply (bool_decide_eq_true_1 _). vm_compute. reflexivity.
  - lia.
  - reflexivity.
  - exists h', h''. exact (conj H1 (conj H2 H3)).
Defined.

Lemma heap_huge_request_witness :
  64 ≤ space sample_heap1 ∧
  ∃ h', DoAllocate 64 sample_heap1 (2 ^ 64 - 1) = Ret (Block (m_pNext sample_heap1 + 64), h') ∧
    m_pNext h' = m_pNext sample_heap1 + 64.
Proof.
  assert (H : 64 ≤ space sample_heap1) by (vm_compute; discriminate).
  split; [exact H|].
  apply (heap_huge_request 64 HEAP_BLOCK_BUCKET_SIZES sample_base ltac:(lia) bucket_sizes_ok
    sample_heap1 (2 ^ 64 - 1) sample_heap1_inv); [lia | exact H].
Defined.

(** The size of a block is kept in 32 bits: a block of 4 GB and 64 bytes is
    recorded as one of 64 bytes. *)
Lemma heap_size_truncated :
  ∃ h', DoAllocate 64 (Setup 64 (heap_new HEAP_BLOCK_BUCKET_SIZES) 0x40000000 0x1C0000000 0) (2 ^ 32 + 64)
        = Ret (Block 0x40000040, h') ∧ live h' !! 0x40000040 = Some 64 ∧ m_pNext h' = 0x140000080.
Proof. eexists. split; [vm_compute; reflexivity|]. split; vm_compute; reflexivity. Qed.

(** The region must be aligned like the blocks: at a base that is aligned to 16
    bytes only, the first allocation fails its assertion. *)
Lemma heap_base_alignment :
  DoAllocate 64 (Setup 64 (heap_new HEAP_BLOCK_BUCKET_SIZES) 0x100010 0x10000 0) 1 = Ub.
Proof. vm_compute. reflexivity. Qed.
