(* ===== verification/Genet.v ===== *)
(** * The Ethernet driver

    [circle/lib/bcm54213.cpp] and [bcm54213.h], the driver of the Raspberry Pi 4's
    Ethernet controller (GENET) that the DHCP server receives and sends its frames
    with: the receive ring, the transmit rings, and the buffers on the heap they
    exchange with the controller.  The controller is the environment: [g_in] gives
    what the registers read, [g_out] logs what the driver writes, and the
    controller may change [g_in] and the contents of the receive buffers between
    two calls.  The start-up of the MAC and the PHY is in [Phy]; cache maintenance,
    locks and log messages are left out, and so is the destructor.

    First the driver as it is written; then the abstract view of the rings and the
    invariant, what each operation does to it, and what the controller may do. *)
From S2P Require Import Prelude Heap.

Open Scope Z_scope.

(** ** Constants *)
Definition TX_QUEUES : nat := 4.
Definition TX_BDS_PER_Q : Z := 32.
Definition GENET_DESC_INDEX : Z := 16.
Definition RX_BUF_LENGTH : Z := 2048.
Definition TOTAL_DESC : Z := 256.
Definition ETH_FCS_LEN : Z := 4.
Definition ETH_ZLEN : Z := 60.
Definition ENET_MAX_MTU_SIZE : Z := 1536.
Definition FRAME_BUFFER_SIZE : Z := 1600.
Definition TX_RING_INDEX : Z := 1.
Definition QTAG_MASK : Z := 0x3F.
Definition LEADING_PAD : Z := 2.

Definition ARM_BCM54213_BASE : Z := 0xFD580000.
Definition RDMA_OFFSET : Z := 0x2000.
Definition TDMA_OFFSET : Z := 0x4000.
Definition WORDS_PER_BD : Z := 3.
Definition DMA_DESC_SIZE : Z := 12.
Definition DMA_DESC_LENGTH_STATUS : Z := 0.
Definition DMA_DESC_ADDRESS_LO : Z := 4.
Definition DMA_DESC_ADDRESS_HI : Z := 8.
Definition GENET_TDMA_REG_OFF : Z := TDMA_OFFSET + TOTAL_DESC * DMA_DESC_SIZE.
Definition GENET_RDMA_REG_OFF : Z := RDMA_OFFSET + TOTAL_DESC * DMA_DESC_SIZE.
Definition DMA_RING_SIZE : Z := 0x40.

(** [genet_dma_ring_regs] at the indices of [dma_ring_reg] *)
Definition TDMA_READ_PTR : Z := 0x00.
Definition TDMA_CONS_INDEX : Z := 0x08.
Definition TDMA_PROD_INDEX : Z := 0x0C.
Definition RDMA_PROD_INDEX : Z := 0x08.
Definition RDMA_CONS_INDEX : Z := 0x0C.
Definition DMA_RING_BUF_SIZE : Z := 0x10.
Definition DMA_START_ADDR : Z := 0x14.
Definition DMA_END_ADDR : Z := 0x1C.
Definition DMA_MBUF_DONE_THRESH : Z := 0x24.
Definition TDMA_FLOW_PERIOD : Z := 0x28.
Definition TDMA_WRITE_PTR : Z := 0x2C.
Definition RDMA_WRITE_PTR : Z := TDMA_READ_PTR.
Definition RDMA_READ_PTR : Z := TDMA_WRITE_PTR.
Definition RDMA_XON_XOFF_THRESH : Z := TDMA_FLOW_PERIOD.

(** [dma_regs] at the indices of [dma_reg] *)
Definition DMA_RING_CFG : Z := 0x00.
Definition DMA_CTRL : Z := 0x04.
Definition DMA_SCB_BURST_SIZE : Z := 0x0C.
Definition DMA_ARB_CTRL : Z := 0x2C.
Definition DMA_PRIORITY_0 : Z := 0x30.
Definition DMA_PRIORITY_1 : Z := 0x34.
Definition DMA_PRIORITY_2 : Z := 0x38.

Definition rdma_ring (ring r : Z) : Z := ARM_BCM54213_BASE + GENET_RDMA_REG_OFF + DMA_RING_SIZE * ring + r.
Definition tdma_ring (ring r : Z) : Z := ARM_BCM54213_BASE + GENET_TDMA_REG_OFF + DMA_RING_SIZE * ring + r.

Definition DMA_RINGS_SIZE : Z := DMA_RING_SIZE * (GENET_DESC_INDEX + 1).
Definition rdma (r : Z) : Z := ARM_BCM54213_BASE + GENET_RDMA_REG_OFF + DMA_RINGS_SIZE + r.
Definition tdma (r : Z) : Z := ARM_BCM54213_BASE + GENET_TDMA_REG_OFF + DMA_RINGS_SIZE + r.

Definition GENET_INTRL2_0_OFF : Z := 0x0200.
Definition GENET_INTRL2_1_OFF : Z := 0x0240.
Definition INTRL2_CPU_STAT : Z := 0x00.
Definition INTRL2_CPU_CLEAR : Z := 0x08.
Definition INTRL2_CPU_MASK_STATUS : Z := 0x0C.
Definition intrl2_0 (r : Z) : Z := ARM_BCM54213_BASE + GENET_INTRL2_0_OFF + r.
Definition intrl2_1 (r : Z) : Z := ARM_BCM54213_BASE + GENET_INTRL2_1_OFF + r.
Definition UMAC_IRQ_TXDMA_DONE : Z := 0x10000.

Definition DMA_INDEX_MASK : Z := 0xFFFF.
Definition DMA_BUFLENGTH_SHIFT : Z := 16.
Definition DMA_EOP : Z := 0x4000.
Definition DMA_SOP : Z := 0x2000.
Definition DMA_TX_APPEND_CRC : Z := 0x0040.
Definition DMA_TX_QTAG_SHIFT : Z := 7.
Definition DMA_RING_SIZE_SHIFT : Z := 16.
Definition DMA_XOFF_THRESHOLD_SHIFT : Z := 16.
Definition DMA_FC_THRESH_HI : Z := TOTAL_DESC ≫ 4.
Definition DMA_FC_THRESH_LO : Z := 5.
Definition DMA_MAX_BURST_LENGTH : Z := 8.
Definition DMA_EN : Z := 1 ≪ 0.
Definition DMA_RING_BUF_EN_SHIFT : Z := 1.
Definition DMA_ARBITER_SP : Z := 0x02.
Definition DMA_RING_BUF_PRIORITY_SHIFT : Z := 5.
Definition GENET_Q0_PRIORITY : Z := 0.
Definition GENET_Q16_RX_BD_CNT : Z := TOTAL_DESC.
Definition GENET_Q16_TX_BD_CNT : Z := TOTAL_DESC - Z.of_nat TX_QUEUES * TX_BDS_PER_Q.
Definition DMA_RX_ERRORS : Z := Z.lor (Z.lor (Z.lor (Z.lor 0x0002 0x0001) 0x0008) 0x0010) 0x0004.

(** ** State *)
Record TGEnetCB := mkCB {
  bd_addr : Z;
  buffer : Z
}.

(** [cbs] as the index of its first control block in [m_rx_cbs], [m_tx_cbs] *)
Record TGEnetRxRing := mkRxRing {
  rx_index : Z;
  rx_cbs : Z;
  rx_size : Z;
  rx_c_index : Z;
  read_ptr : Z;
  rx_cb_ptr : Z;
  rx_end_ptr : Z;
  old_discards : Z
}.

Record TGEnetTxRing := mkTxRing {
  tx_index : Z;
  queue : Z;
  tx_cbs : Z;
  tx_size : Z;
  clean_ptr : Z;
  tx_c_index : Z;
  free_bds : Z;
  write_ptr : Z;
  prod_index : Z;
  tx_cb_ptr : Z;
  tx_end_ptr : Z
}.

(** [g_bufs]: the contents of the buffers allocated with [new u8[]].  The only
    receive ring is number 16. *)
Record genet (H : Type) := mkGenet {
  g_heap : H;
  g_bufs : gmap Z (list Z);
  g_in : Z → Z;
  g_out : list (Z * Z);
  m_rx_cbs : list TGEnetCB;
  m_rx_ring : TGEnetRxRing;
  m_tx_cbs : list TGEnetCB;
  m_tx_rings : list TGEnetTxRing;
  m_crc_fwd_en : bool
}.
Arguments mkGenet {_} _ _ _ _ _ _ _ _ _.
Arguments g_heap {_} _.
Arguments g_bufs {_} _.
Arguments g_in {_} _.
Arguments g_out {_} _.
Arguments m_rx_cbs {_} _.
Arguments m_rx_ring {_} _.
Arguments m_tx_cbs {_} _.
Arguments m_tx_rings {_} _.
Arguments m_crc_fwd_en {_} _.

Section driver.
Context {H : Type} `{Heap H}.
(** What a fresh buffer of [n] bytes at [p] holds. *)
Variable garbage : Z → Z → list Z.

Implicit Types s : genet H.

Definition set_heap s h b : genet H :=
  mkGenet h b (g_in s) (g_out s) (m_rx_cbs s) (m_rx_ring s) (m_tx_cbs s) (m_tx_rings s) (m_crc_fwd_en s).
Definition set_bufs s b : genet H := set_heap s (g_heap s) b.
Definition set_rx_cbs s c : genet H :=
  mkGenet (g_heap s) (g_bufs s) (g_in s) (g_out s) c (m_rx_ring s) (m_tx_cbs s) (m_tx_rings s) (m_crc_fwd_en s).
Definition set_rx_ring s r : genet H :=
  mkGenet (g_heap s) (g_bufs s) (g_in s) (g_out s) (m_rx_cbs s) r (m_tx_cbs s) (m_tx_rings s) (m_crc_fwd_en s).
Definition set_tx_cbs s c : genet H :=
  mkGenet (g_heap s) (g_bufs s) (g_in s) (g_out s) (m_rx_cbs s) (m_rx_ring s) c (m_tx_rings s) (m_crc_fwd_en s).
Definition set_tx_rings s r : genet H :=
  mkGenet (g_heap s) (g_bufs s) (g_in s) (g_out s) (m_rx_cbs s) (m_rx_ring s) (m_tx_cbs s) r (m_crc_fwd_en s).

Definition read32 s (a : Z) : Z := g_in s a.
Definition write32 s (a v : Z) : genet H :=
  mkGenet (g_heap s) (g_bufs s) (g_in s) (g_out s ++ [(a, u32 v)]) (m_rx_cbs s) (m_rx_ring s)
    (m_tx_cbs s) (m_tx_rings s) (m_crc_fwd_en s).

(** [new u8[n]].  When the heap is exhausted the system stops: the call never
    returns. *)
Definition new_u8 s (n : Z) : outcome (Z * genet H) :=
  '(r, h) ← heap_alloc (g_heap s) n;
  match r with
  | Block p => Ret (p, set_heap s h (<[p := garbage p n]> (g_bufs s)))
  | Null => Ret (0, set_heap s h (g_bufs s))
  | Panic => Diverge
  end.

(** [delete [] p] *)
Definition delete_u8 s (p : Z) : outcome (genet H) :=
  h ← heap_free (g_heap s) p; Ret (set_heap s h (delete p (g_bufs s))).

Definition contents s (p : Z) : outcome (list Z) :=
  match g_bufs s !! p with Some c => Ret c | None => Ub end.

Definition set_contents s (p : Z) (c : list Z) : genet H := set_bufs s (<[p := c]> (g_bufs s)).

(** ** Receiving *)

Definition dmadesc_set_addr s (d addr : Z) : genet H :=
  write32 (write32 s (d + DMA_DESC_ADDRESS_LO) (u32 addr)) (d + DMA_DESC_ADDRESS_HI) 0.
Definition dmadesc_set_length_status s (d value : Z) : genet H := write32 s (d + DMA_DESC_LENGTH_STATUS) value.
Definition dmadesc_set s (d addr value : Z) : genet H :=
  dmadesc_set_length_status (dmadesc_set_addr s d addr) d value.
Definition dmadesc_get_length_status s (d : Z) : Z := read32 s (d + DMA_DESC_LENGTH_STATUS).

Definition free_rx_cb s (cb : nat) : outcome (Z * genet H) :=
  c ← deref (m_rx_cbs s) cb;
  Ret (buffer c, set_rx_cbs s (<[cb := mkCB (bd_addr c) 0]> (m_rx_cbs s))).

Definition rx_refill s (cb : nat) : outcome (Z * genet H) :=
  '(buf, s) ← new_u8 s RX_BUF_LENGTH;
  if buf =? 0 then Ret (0, s) else
  '(rx_buffer, s) ← free_rx_cb s cb;
  c ← deref (m_rx_cbs s) cb;
  let s := set_rx_cbs s (<[cb := mkCB (bd_addr c) buf]> (m_rx_cbs s)) in
  Ret (rx_buffer, dmadesc_set_addr s (bd_addr c) buf).

Definition set_discards (r : TGEnetRxRing) (d : Z) : TGEnetRxRing :=
  mkRxRing (rx_index r) (rx_cbs r) (rx_size r) (rx_c_index r) (read_ptr r) (rx_cb_ptr r) (rx_end_ptr r) d.

(** The count of discarded frames in the upper half of the producer index *)
Definition count_discards s (p_index : Z) : genet H :=
  let ring := m_rx_ring s in
  let discards := Z.land (p_index ≫ 16) 0xFFFF in
  if old_discards ring <? discards then
    let discards := u32 (discards - old_discards ring) in
    let old := u32 (old_discards ring + discards) in
    if 0xC000 <=? old
    then write32 (set_rx_ring s (set_discards ring 0)) (rdma_ring (rx_index ring) RDMA_PROD_INDEX) 0
    else set_rx_ring s (set_discards ring old)
  else s.

(** The packet in [pRxBuffer], described by the descriptor of [cb], is copied to
    [pBuffer], unless it is faulty.  The result is the buffer and [*pResultLength]. *)
Definition take_packet s (bd pRxBuffer : Z) (pBuffer : list Z) : outcome (option (list Z * Z) * genet H) :=
  let dma_length_status := dmadesc_get_length_status s bd in
  let dma_flag := Z.land dma_length_status 0xFFFF in
  let nLength := dma_length_status ≫ DMA_BUFLENGTH_SHIFT in
  if (Z.land dma_flag DMA_EOP =? 0) || (Z.land dma_flag DMA_SOP =? 0) then
    s ← delete_u8 s pRxBuffer; Ret (None, s)
  else if negb (Z.land dma_flag DMA_RX_ERRORS =? 0) then
    s ← delete_u8 s pRxBuffer; Ret (None, s)
  else
    let nLength := nLength - LEADING_PAD in
    let nLength := if m_crc_fwd_en s then nLength - ETH_FCS_LEN else nLength in
    if negb ((0 <? nLength) && (nLength <=? FRAME_BUFFER_SIZE)) then Ub else
    c ← contents s pRxBuffer;
    d ← load_n c (Z.to_nat LEADING_PAD) (Z.to_nat nLength);
    pBuffer ← store_n pBuffer 0 d;
    s ← delete_u8 s pRxBuffer;
    Ret (Some (pBuffer, nLength), s).

(** The label [out] *)
Definition advance s : genet H :=
  let r := m_rx_ring s in
  let ptr := if read_ptr r <? rx_end_ptr r then read_ptr r + 1 else rx_cb_ptr r in
  let c_index := Z.land (rx_c_index r + 1) DMA_INDEX_MASK in
  write32 (set_rx_ring s (mkRxRing (rx_index r) (rx_cbs r) (rx_size r) c_index ptr (rx_cb_ptr r)
             (rx_end_ptr r) (old_discards r)))
    (rdma_ring (rx_index r) RDMA_CONS_INDEX) c_index.

(** [None]: FALSE is returned. *)
Definition ReceiveFrame s (pBuffer : list Z) : outcome (option (list Z * Z) * genet H) :=
  let p_index := read32 s (rdma_ring (rx_index (m_rx_ring s)) RDMA_PROD_INDEX) in
  let s := count_discards s p_index in
  let p_index := Z.land p_index DMA_INDEX_MASK in
  let rxpkttoprocess := Z.land (u32 (p_index - rx_c_index (m_rx_ring s))) DMA_INDEX_MASK in
  if negb (0 <? rxpkttoprocess) then Ret (None, s) else
  let cb := Z.to_nat (read_ptr (m_rx_ring s)) in
  '(pRxBuffer, s) ← rx_refill s cb;
  '(r, s) ← (if pRxBuffer =? 0 then Ret (None, s)
             else c ← deref (m_rx_cbs s) cb; take_packet s (bd_addr c) pRxBuffer pBuffer);
  Ret (r, advance s).

(** ** Sending *)

Definition set_tx_index (r : TGEnetTxRing) (wp fb pi : Z) : TGEnetTxRing :=
  mkTxRing (tx_index r) (queue r) (tx_cbs r) (tx_size r) (clean_ptr r) (tx_c_index r) fb wp pi
    (tx_cb_ptr r) (tx_end_ptr r).
Definition set_tx_clean (r : TGEnetTxRing) (cp ci fb : Z) : TGEnetTxRing :=
  mkTxRing (tx_index r) (queue r) (tx_cbs r) (tx_size r) cp ci fb (write_ptr r) (prod_index r)
    (tx_cb_ptr r) (tx_end_ptr r).

(** The index of a control block in [m_tx_cbs], and the ring's new write pointer *)
Definition get_txcb (ring : TGEnetTxRing) : Z * Z :=
  (tx_cbs ring + (write_ptr ring - tx_cb_ptr ring),
   if write_ptr ring =? tx_end_ptr ring then tx_cb_ptr ring else write_ptr ring + 1).

(** The ring frames are sent through: ring 0 *)
Definition send_ring : nat :=
  Z.to_nat (if TX_RING_INDEX =? 0 then GENET_DESC_INDEX else TX_RING_INDEX - 1).

Definition IsSendFrameAdvisable s : outcome bool :=
  ring ← deref (m_tx_rings s) send_ring; Ret (2 <=? free_bds ring).

(** [memcpy] to a buffer of [ENET_MAX_MTU_SIZE] bytes, then the padding *)
Definition fill_tx_buffer (c : list Z) (pBuffer : list Z) (nLength : Z) : outcome (list Z * Z) :=
  d ← load_n pBuffer 0 (Z.to_nat nLength);
  c ← store_n c 0 d;
  if nLength <? ETH_ZLEN then
    c ← store_n c (Z.to_nat nLength) (replicate (Z.to_nat (ETH_ZLEN - nLength)) 0);
    Ret (c, ETH_ZLEN)
  else Ret (c, nLength).

Definition SendFrame s (pBuffer : list Z) (nLength : Z) : outcome (bool * genet H) :=
  if negb (0 <? nLength) then Ub else
  ring ← deref (m_tx_rings s) send_ring;
  if free_bds ring <? 2 then Ret (false, s) else
  '(pTxBuffer, s) ← new_u8 s ENET_MAX_MTU_SIZE;
  c ← contents s pTxBuffer;
  '(c, nLength) ← fill_tx_buffer c pBuffer nLength;
  let s := set_contents s pTxBuffer c in
  let '(cb, wp) := get_txcb ring in
  t ← deref (m_tx_cbs s) (Z.to_nat cb);
  let s := set_tx_cbs s (<[Z.to_nat cb := mkCB (bd_addr t) pTxBuffer]> (m_tx_cbs s)) in
  let s := dmadesc_set s (bd_addr t) pTxBuffer
    (Z.lor (Z.lor (Z.lor (nLength ≪ DMA_BUFLENGTH_SHIFT) (QTAG_MASK ≪ DMA_TX_QTAG_SHIFT)) DMA_TX_APPEND_CRC)
       (Z.lor DMA_SOP DMA_EOP)) in
  let pi := Z.land (u32 (prod_index ring + 1)) DMA_INDEX_MASK in
  let s := set_tx_rings s (<[send_ring := set_tx_index ring wp (free_bds ring - 1) pi]> (m_tx_rings s)) in
  Ret (true, write32 s (tdma_ring (tx_index ring) TDMA_PROD_INDEX) pi).

Definition free_tx_cb s (cb : nat) : outcome (genet H) :=
  t ← deref (m_tx_cbs s) cb;
  if buffer t =? 0 then Ret s else
  delete_u8 (set_tx_cbs s (<[cb := mkCB (bd_addr t) 0]> (m_tx_cbs s))) (buffer t).

(** The loop of [tx_reclaim], [n] rounds *)
Fixpoint reclaim_loop (n : nat) s (ring : TGEnetTxRing) (clean : Z) : outcome (Z * genet H) :=
  match n with
  | O => Ret (clean, s)
  | S n =>
      s ← free_tx_cb s (Z.to_nat clean);
      reclaim_loop n s ring (if clean <? tx_end_ptr ring then clean + 1 else tx_cb_ptr ring)
  end.

Definition tx_reclaim s (i : nat) : outcome (Z * genet H) :=
  ring ← deref (m_tx_rings s) i;
  let s := if tx_index ring =? GENET_DESC_INDEX
           then write32 s (intrl2_0 INTRL2_CPU_CLEAR) UMAC_IRQ_TXDMA_DONE
           else write32 s (intrl2_1 INTRL2_CPU_CLEAR) (1 ≪ tx_index ring) in
  let c_index := Z.land (read32 s (tdma_ring (tx_index ring) TDMA_CONS_INDEX)) DMA_INDEX_MASK in
  let txbds_ready := Z.land (u32 (c_index - tx_c_index ring)) DMA_INDEX_MASK in
  '(clean, s) ← reclaim_loop (Z.to_nat txbds_ready) s ring (clean_ptr ring);
  Ret (txbds_ready,
       set_tx_rings s (<[i := set_tx_clean ring clean c_index (u32 (free_bds ring + txbds_ready))]> (m_tx_rings s))).

(** The interrupt handlers.  Ring 16 is the last of the array: its entries 4 to 15
    are never initialised nor used. *)
Definition InterruptHandler0 s : outcome (genet H) :=
  let status := Z.land (read32 s (intrl2_0 INTRL2_CPU_STAT))
                       (u32 (Z.lnot (read32 s (intrl2_0 INTRL2_CPU_MASK_STATUS)))) in
  let s := write32 s (intrl2_0 INTRL2_CPU_CLEAR) status in
  if negb (Z.land status UMAC_IRQ_TXDMA_DONE =? 0)
  then '(_, s) ← tx_reclaim s (Z.to_nat GENET_DESC_INDEX); Ret s
  else Ret s.

Fixpoint reclaim_queues (n : nat) (status : Z) s (index : nat) : outcome (genet H) :=
  match n with
  | O => Ret s
  | S n =>
      s ← (if Z.land status (1 ≪ Z.of_nat index) =? 0 then Ret s
           else '(_, s) ← tx_reclaim s index; Ret s);
      reclaim_queues n status s (S index)
  end.

Definition InterruptHandler1 s : outcome (genet H) :=
  let status := Z.land (read32 s (intrl2_1 INTRL2_CPU_STAT))
                       (u32 (Z.lnot (read32 s (intrl2_1 INTRL2_CPU_MASK_STATUS)))) in
  let s := write32 s (intrl2_1 INTRL2_CPU_CLEAR) status in
  reclaim_queues TX_QUEUES status s 0.

(** ** Setting up the rings *)

Definition init_tx_ring s (index size start_ptr end_ptr : Z) : genet H :=
  let ring := mkTxRing index (if index =? GENET_DESC_INDEX then 0 else index + 1) start_ptr size
                start_ptr 0 size start_ptr 0 start_ptr (end_ptr - 1) in
  let s := set_tx_rings s (<[Z.to_nat index := ring]> (m_tx_rings s)) in
  let flow_period_val := if index =? GENET_DESC_INDEX then 0 else ENET_MAX_MTU_SIZE ≪ 16 in
  let s := write32 s (tdma_ring index TDMA_PROD_INDEX) 0 in
  let s := write32 s (tdma_ring index TDMA_CONS_INDEX) 0 in
  let s := write32 s (tdma_ring index DMA_MBUF_DONE_THRESH) 10 in
  let s := write32 s (tdma_ring index TDMA_FLOW_PERIOD) flow_period_val in
  let s := write32 s (tdma_ring index DMA_RING_BUF_SIZE) (Z.lor (size ≪ DMA_RING_SIZE_SHIFT) RX_BUF_LENGTH) in
  let s := write32 s (tdma_ring index DMA_START_ADDR) (start_ptr * WORDS_PER_BD) in
  let s := write32 s (tdma_ring index TDMA_READ_PTR) (start_ptr * WORDS_PER_BD) in
  let s := write32 s (tdma_ring index TDMA_WRITE_PTR) (start_ptr * WORDS_PER_BD) in
  write32 s (tdma_ring index DMA_END_ADDR) (end_ptr * WORDS_PER_BD - 1).

Definition DMA_PRIO_REG_INDEX (q : Z) : nat := Z.to_nat (q / 6).
Definition DMA_PRIO_REG_SHIFT (q : Z) : Z := q `mod` 6 * DMA_RING_BUF_PRIORITY_SHIFT.

(** [ring_cfg], [dma_ctrl] and [dma_priority] in the set-up of the transmit queues *)
Record tx_config := mkTxConfig {
  ring_cfg : Z;
  dma_ctrl : Z;
  dma_priority : list Z
}.

(** With queue [i], of priority [GENET_Q0_PRIORITY + p] *)
Definition add_queue (c : tx_config) (i p : Z) : tx_config :=
  mkTxConfig (Z.lor (ring_cfg c) (1 ≪ i)) (Z.lor (dma_ctrl c) (1 ≪ (i + DMA_RING_BUF_EN_SHIFT)))
    (<[DMA_PRIO_REG_INDEX i := Z.lor (dma_priority c !!! DMA_PRIO_REG_INDEX i)
         ((GENET_Q0_PRIORITY + p) ≪ DMA_PRIO_REG_SHIFT i)]> (dma_priority c)).

Fixpoint init_tx_priority (n : nat) s (c : tx_config) (i : Z) : genet H * tx_config :=
  match n with
  | O => (s, c)
  | S n =>
      init_tx_priority n (init_tx_ring s i TX_BDS_PER_Q (i * TX_BDS_PER_Q) ((i + 1) * TX_BDS_PER_Q))
        (add_queue c i i) (i + 1)
  end.

Definition init_tx_queues s (enable : bool) : genet H :=
  let ctrl := read32 s (tdma DMA_CTRL) in
  let dma_enable := Z.land ctrl DMA_EN in
  let s := write32 s (tdma DMA_CTRL) (Z.land ctrl (u32 (Z.lnot DMA_EN))) in
  let s := if enable then write32 s (tdma DMA_ARB_CTRL) DMA_ARBITER_SP else s in
  let '(s, c) := init_tx_priority TX_QUEUES s (mkTxConfig 0 0 [0; 0; 0]) 0 in
  let s := init_tx_ring s GENET_DESC_INDEX GENET_Q16_TX_BD_CNT (Z.of_nat TX_QUEUES * TX_BDS_PER_Q) TOTAL_DESC in
  let c := add_queue c GENET_DESC_INDEX (Z.of_nat TX_QUEUES) in
  if enable then
    let s := write32 s (tdma DMA_PRIORITY_0) (dma_priority c !!! 0%nat) in
    let s := write32 s (tdma DMA_PRIORITY_1) (dma_priority c !!! 1%nat) in
    let s := write32 s (tdma DMA_PRIORITY_2) (dma_priority c !!! 2%nat) in
    let s := write32 s (tdma DMA_RING_CFG) (ring_cfg c) in
    write32 s (tdma DMA_CTRL) (if dma_enable =? 0 then dma_ctrl c else Z.lor (dma_ctrl c) DMA_EN)
  else write32 (write32 s (tdma DMA_RING_CFG) 0) (tdma DMA_CTRL) 0.

(** [false]: -1 is returned. *)
Fixpoint alloc_rx_buffers (n : nat) s (i : nat) : outcome (bool * genet H) :=
  match n with
  | O => Ret (true, s)
  | S n =>
      '(_, s) ← rx_refill s i;
      c ← deref (m_rx_cbs s) i;
      if buffer c =? 0 then Ret (false, s) else alloc_rx_buffers n s (S i)
  end.

Definition init_rx_ring s (index size start_ptr end_ptr : Z) : outcome (bool * genet H) :=
  let s := set_rx_ring s (mkRxRing index start_ptr size 0 start_ptr start_ptr (end_ptr - 1) 0) in
  '(ok, s) ← alloc_rx_buffers (Z.to_nat size) s (Z.to_nat start_ptr);
  if negb ok then Ret (false, s) else
  let s := write32 s (rdma_ring index RDMA_PROD_INDEX) 0 in
  let s := write32 s (rdma_ring index RDMA_CONS_INDEX) 0 in
  let s := write32 s (rdma_ring index DMA_RING_BUF_SIZE) (Z.lor (size ≪ DMA_RING_SIZE_SHIFT) RX_BUF_LENGTH) in
  let s := write32 s (rdma_ring index RDMA_XON_XOFF_THRESH)
             (Z.lor (DMA_FC_THRESH_LO ≪ DMA_XOFF_THRESHOLD_SHIFT) DMA_FC_THRESH_HI) in
  let s := write32 s (rdma_ring index DMA_START_ADDR) (start_ptr * WORDS_PER_BD) in
  let s := write32 s (rdma_ring index RDMA_READ_PTR) (start_ptr * WORDS_PER_BD) in
  let s := write32 s (rdma_ring index RDMA_WRITE_PTR) (start_ptr * WORDS_PER_BD) in
  Ret (true, write32 s (rdma_ring index DMA_END_ADDR) (end_ptr * WORDS_PER_BD - 1)).

Definition init_rx_queues s : outcome (bool * genet H) :=
  let ctrl := read32 s (rdma DMA_CTRL) in
  let dma_enable := Z.land ctrl DMA_EN in
  let s := write32 s (rdma DMA_CTRL) (Z.land ctrl (u32 (Z.lnot DMA_EN))) in
  '(ok, s) ← init_rx_ring s GENET_DESC_INDEX GENET_Q16_RX_BD_CNT 0 TOTAL_DESC;
  if negb ok then Ret (false, s) else
  let s := write32 s (rdma DMA_RING_CFG) (1 ≪ GENET_DESC_INDEX) in
  let ctrl := 1 ≪ (GENET_DESC_INDEX + DMA_RING_BUF_EN_SHIFT) in
  Ret (true, write32 s (rdma DMA_CTRL) (if dma_enable =? 0 then ctrl else Z.lor ctrl DMA_EN)).

(** [n] rounds, from slot [i] on *)
Fixpoint free_rx_buffers (n : nat) s (i : nat) : outcome (genet H) :=
  match n with
  | O => Ret s
  | S n =>
      '(buf, s) ← free_rx_cb s i;
      s ← delete_u8 s buf;
      free_rx_buffers n s (S i)
  end.

(** The control blocks once their descriptors are assigned *)
Definition fresh_cbs (offset : Z) : list TGEnetCB :=
  (λ i, mkCB (ARM_BCM54213_BASE + offset + Z.of_nat i * DMA_DESC_SIZE) 0) <$> seq 0 (Z.to_nat TOTAL_DESC).

(** [new TGEnetCB[TOTAL_DESC]], two words each on AArch64 *)
Definition TGEnetCB_SIZE : Z := 16.
Definition new_cbs s : outcome (Z * genet H) :=
  '(r, h) ← heap_alloc (g_heap s) (TOTAL_DESC * TGEnetCB_SIZE);
  match r with
  | Block p => Ret (p, set_heap s h (g_bufs s))
  | Null => Ret (0, set_heap s h (g_bufs s))
  | Panic => Diverge
  end.
Definition delete_cbs s (p : Z) : outcome (genet H) :=
  h ← heap_free (g_heap s) p; Ret (set_heap s h (g_bufs s)).

(** [false]: an error code is returned. *)
Definition init_dma s : outcome (bool * genet H) :=
  '(rx, s) ← new_cbs s;
  if rx =? 0 then Ret (false, s) else
  let s := set_rx_cbs s (fresh_cbs RDMA_OFFSET) in
  '(tx, s) ← new_cbs s;
  if tx =? 0 then s ← delete_cbs s rx; Ret (false, set_rx_cbs s []) else
  let s := set_tx_cbs s (fresh_cbs TDMA_OFFSET) in
  let s := write32 s (rdma DMA_SCB_BURST_SIZE) DMA_MAX_BURST_LENGTH in
  '(ok, s) ← init_rx_queues s;
  if negb ok then
    s ← free_rx_buffers (Z.to_nat TOTAL_DESC) s 0;
    s ← delete_cbs s rx; s ← delete_cbs s tx; Ret (false, s)
  else
    let s := write32 s (tdma DMA_SCB_BURST_SIZE) DMA_MAX_BURST_LENGTH in
    Ret (true, init_tx_queues s true).
End driver.

(** ** The abstract view

    The driver's buffers are blocks of the heap, all different.  In the receive
    ring, slot [i] of the 256 holds a buffer the controller knows of; slot
    [ci mod 256] is read next, [ci] being the 16-bit consumer index.  In transmit
    ring 0, the [n] slots from [c mod 32] on hold frames not yet reclaimed. *)

(** The last value written to a register *)
Fixpoint last_write (out : list (Z * Z)) (a : Z) : option Z :=
  match out with
  | [] => None
  | (b, v) :: out => match last_write out a with Some w => Some w | None => if b =? a then Some v else None end
  end.

Lemma last_write_app out out' a :
  last_write (out ++ out') a = match last_write out' a with Some v => Some v | None => last_write out a end.
Proof.
  induction out as [|[b v] out IH]; cbn; [by destruct (last_write out' a)|].
  rewrite IH. by destruct (last_write out' a).
Qed.

Lemma last_write_none out a : Forall (λ w, fst w ≠ a) out → last_write out a = None.
Proof.
  induction 1 as [|[b v] out Hb Hout IH]; [done|]. cbn in *. rewrite IH. by rewrite (proj2 (Z.eqb_neq _ _) Hb).
Qed.

(** Writes to other registers *)
Lemma last_write_other out out' a : Forall (λ w, fst w ≠ a) out' → last_write (out ++ out') a = last_write out a.
Proof. intros Hw. by rewrite last_write_app, last_write_none. Qed.

Definition rx_bd (i : nat) : Z := ARM_BCM54213_BASE + RDMA_OFFSET + Z.of_nat i * DMA_DESC_SIZE.
Definition tx_bd (i : nat) : Z := ARM_BCM54213_BASE + TDMA_OFFSET + Z.of_nat i * DMA_DESC_SIZE.

Definition rx_ring_at (ci d : Z) : TGEnetRxRing :=
  mkRxRing GENET_DESC_INDEX 0 TOTAL_DESC ci (ci `mod` 256) 0 255 d.
Definition tx_ring_at (c n : Z) : TGEnetTxRing :=
  mkTxRing 0 1 0 32 (c `mod` 32) c (32 - n) ((c + n) `mod` 32) ((c + n) `mod` 65536) 0 31.
(** A ring no frame was ever sent through *)
Definition idle_ring (index start size : Z) : TGEnetTxRing :=
  mkTxRing index (if index =? GENET_DESC_INDEX then 0 else index + 1) start size start 0 size start 0 start
    (start + size - 1).

(** Slot [j] of the transmit ring is one of the [n] from [c] on. *)
Definition in_flight (c n : Z) (j : nat) : Prop := Z.of_nat j < 32 ∧ (Z.of_nat j - c) `mod` 32 < n.

#[export] Instance in_flight_dec c n j : Decision (in_flight c n j).
Proof. unfold in_flight. apply _. Defined.

(** No buffer occurs twice. *)
Definition distinct (l : list Z) : Prop :=
  ∀ i j p, l !! i = Some p → l !! j = Some p → p ≠ 0 → i = j.

Lemma distinct_insert l i p : distinct l → p = 0 ∨ p ∉ l → distinct (<[i := p]> l).
Proof.
  intros Hd Hp x y q Hx Hy Hq.
  apply list_lookup_insert_Some in Hx as [(E1 & E2 & _)|[Hxi Hx]],
    Hy as [(E3 & E4 & _)|[Hyi Hy]]; [congruence | | | by eapply Hd]; exfalso; subst;
    (destruct Hp as [->|Hp]; [done|]); apply Hp; by eapply list_elem_of_lookup_2.
Qed.

Section view.
Context {H : Type} `{Heap H}.
Implicit Types s : genet H.

(** A buffer of [n] bytes *)
Definition buf_ok s (n p : Z) : Prop :=
  heap_live (g_heap s) !! p = Some FRAME_BLOCK ∧ ∃ c, g_bufs s !! p = Some c ∧ length c = Z.to_nat n.

Definition held s : list Z := buffer <$> (m_rx_cbs s ++ m_tx_cbs s).

Record genet_inv s (ci c n : Z) : Prop := {
  gi_heap : heap_ok (g_heap s);
  gi_room : heap_room (g_heap s) (Z.to_nat (33 - n));
  gi_held : distinct (held s);
  gi_rx_len : length (m_rx_cbs s) = 256%nat;
  gi_tx_len : length (m_tx_cbs s) = 256%nat;
  gi_rx : ∀ i cb, m_rx_cbs s !! i = Some cb → bd_addr cb = rx_bd i ∧ buf_ok s RX_BUF_LENGTH (buffer cb) ∧
    buffer cb ≠ 0 ∧ last_write (g_out s) (bd_addr cb + DMA_DESC_ADDRESS_LO) = Some (buffer cb);
  gi_tx : ∀ j cb, m_tx_cbs s !! j = Some cb → bd_addr cb = tx_bd j ∧
    (in_flight c n j → buffer cb ≠ 0 ∧ buf_ok s ENET_MAX_MTU_SIZE (buffer cb)) ∧
    (¬ in_flight c n j → buffer cb = 0);
  gi_cons : last_write (g_out s) (rdma_ring GENET_DESC_INDEX RDMA_CONS_INDEX) = Some ci;
  gi_prod : last_write (g_out s) (tdma_ring 0 TDMA_PROD_INDEX) = Some ((c + n) `mod` 65536);
  gi_rx_ring : ∃ d, 0 ≤ d < 65536 ∧ m_rx_ring s = rx_ring_at ci d;
  gi_tx_rings : length (m_tx_rings s) = 17%nat ∧ m_tx_rings s !! 0%nat = Some (tx_ring_at c n) ∧
    (∀ i, (0 < i < 4)%nat → m_tx_rings s !! i = Some (idle_ring (Z.of_nat i) (Z.of_nat i * 32) 32)) ∧
    m_tx_rings s !! 16%nat = Some (idle_ring 16 128 128);
  gi_indices : 0 ≤ ci < 65536 ∧ 0 ≤ c < 65536 ∧ 0 ≤ n ≤ 32
}.

(** What the controller has put into the receive ring: [pend] lists the flags and
    the bytes of the packets the driver has not taken yet. *)
Definition ring_holds s (ci : Z) (pend : list (Z * list Z)) : Prop :=
  read32 s (rdma_ring GENET_DESC_INDEX RDMA_PROD_INDEX) `mod` 65536 = (ci + Z.of_nat (length pend)) `mod` 65536 ∧
  (length pend ≤ 256)%nat ∧
  ∀ k flags bytes, pend !! k = Some (flags, bytes) →
    let i := Z.to_nat ((ci + Z.of_nat k) `mod` 256) in
    0 ≤ flags < 65536 ∧ (length bytes ≤ 2048)%nat ∧
    read32 s (rx_bd i + DMA_DESC_LENGTH_STATUS) = Z.lor (Z.of_nat (length bytes) ≪ 16) flags ∧
    ∃ cb content, m_rx_cbs s !! i = Some cb ∧ g_bufs s !! buffer cb = Some content ∧
      take (length bytes) content = bytes.

(** The frame in slot [j] of the transmit ring, as its descriptor tells the
    controller *)
Definition posted s (j : nat) (f : list Z) : Prop :=
  ∃ cb content v, m_tx_cbs s !! j = Some cb ∧ g_bufs s !! buffer cb = Some content ∧
    last_write (g_out s) (tx_bd j + DMA_DESC_ADDRESS_LO) = Some (buffer cb) ∧
    last_write (g_out s) (tx_bd j + DMA_DESC_LENGTH_STATUS) = Some v ∧
    f = take (Z.to_nat (v ≫ 16)) content.

(** The frames in the transmit ring, oldest first *)
Definition tx_queue s (c : Z) (fs : list (list Z)) : Prop :=
  ∀ k f, fs !! k = Some f → posted s (Z.to_nat ((c + Z.of_nat k) `mod` 32)) f.
End view.

(** What [ReceiveFrame] makes of a packet *)
Definition faulty (flags : Z) : bool :=
  (Z.land flags DMA_EOP =? 0) || (Z.land flags DMA_SOP =? 0) || negb (Z.land flags DMA_RX_ERRORS =? 0).
Definition payload (crc : bool) (bytes : list Z) : list Z :=
  take (length bytes - 2 - (if crc then 4 else 0)) (drop 2 bytes).
Definition rx_result (crc : bool) (flags : Z) (bytes pBuffer : list Z) : option (list Z * Z) :=
  if faulty flags then None else
  let f := payload crc bytes in Some (f ++ drop (length f) pBuffer, Z.of_nat (length f)).

(** A frame as [SendFrame] sends it: padded to 60 bytes *)
Definition padded (f : list Z) : list Z := f ++ replicate (60 - length f) 0.

(** ** The operations on the abstract view *)

(** Registers of the controller are different. *)
Ltac regs :=
  cbv [rdma_ring tdma_ring rx_bd tx_bd GENET_RDMA_REG_OFF GENET_TDMA_REG_OFF RDMA_OFFSET TDMA_OFFSET
       TOTAL_DESC DMA_DESC_SIZE DMA_RING_SIZE GENET_DESC_INDEX ARM_BCM54213_BASE RDMA_PROD_INDEX RDMA_CONS_INDEX
       TDMA_PROD_INDEX TDMA_CONS_INDEX DMA_DESC_ADDRESS_LO DMA_DESC_ADDRESS_HI DMA_DESC_LENGTH_STATUS]; lia.

Section laws.
Context {H : Type} `{HeapLaws H}.
Variable garbage : Z → Z → list Z.
Hypothesis garbage_length : ∀ p n, length (garbage p n) = Z.to_nat n.
Implicit Types s : genet H.

Lemma new_frame s n k : heap_ok (g_heap s) → heap_room (g_heap s) (S k) → 1024 < n ≤ FRAME_BLOCK →
  ∃ p h, new_u8 garbage s n = Ret (p, set_heap s h (<[p := garbage p n]> (g_bufs s))) ∧
    heap_ok h ∧ heap_room h k ∧ 0 < p < 2 ^ 32 ∧ heap_live (g_heap s) !! p = None ∧
    heap_live h = <[p := FRAME_BLOCK]> (heap_live (g_heap s)).
Proof.
  intros Hok Hr Hn. destruct (heap_room_alloc _ k n Hok Hr Hn) as (p & h & Ha & Hok' & Hr' & Hf & Hl).
  exists p, h. unfold new_u8. rewrite Ha, bind_Ret. destruct Hf as (Hp & _ & Hfree & _).
  repeat (split; [done|]). split; [|done]. split; [done|].
  destruct (heap_below h p FRAME_BLOCK Hok') as [_ ?]; [by rewrite Hl, lookup_insert_eq|].
  unfold FRAME_BLOCK in *. lia.
Qed.

Lemma delete_frame s k p : heap_ok (g_heap s) → heap_room (g_heap s) k →
  heap_live (g_heap s) !! p = Some FRAME_BLOCK →
  ∃ h, delete_u8 s p = Ret (set_heap s h (delete p (g_bufs s))) ∧ heap_ok h ∧ heap_room h (S k) ∧
    heap_live h = delete p (heap_live (g_heap s)).
Proof.
  intros Hok Hr Hl. destruct (heap_room_free _ k p Hok Hr Hl) as (h & Hf & ? & ? & ?).
  exists h. unfold delete_u8. by rewrite Hf, bind_Ret.
Qed.

Lemma held_live s ci c n p : genet_inv s ci c n → p ∈ held s → p ≠ 0 →
  heap_live (g_heap s) !! p = Some FRAME_BLOCK.
Proof.
  intros Hi Hp Hne. unfold held in Hp. apply list_elem_of_fmap in Hp as (cb & -> & Hcb).
  apply elem_of_app in Hcb as [Hcb|Hcb]; apply list_elem_of_lookup in Hcb as [i Hcb].
  - by destruct (gi_rx _ _ _ _ Hi i cb Hcb) as (_ & (? & _) & _).
  - destruct (gi_tx _ _ _ _ Hi i cb Hcb) as (_ & Hin & Hout).
    destruct (decide (in_flight c n i)) as [Hf|Hf]; [by destruct (Hin Hf) as (_ & ? & _)|].
    by rewrite (Hout Hf) in Hne.
Qed.

Lemma fresh_not_held s ci c n p : genet_inv s ci c n → p ≠ 0 → heap_live (g_heap s) !! p = None → p ∉ held s.
Proof. intros Hi Hne Hl Hp. by rewrite (held_live s ci c n p Hi Hp Hne) in Hl. Qed.

(** The held buffers by position *)
Lemma held_rx s ci c n i cb : genet_inv s ci c n → m_rx_cbs s !! i = Some cb → held s !! i = Some (buffer cb).
Proof. intros Hi Hcb. unfold held. by rewrite list_lookup_fmap, lookup_app_l, Hcb by (by eapply lookup_lt_Some). Qed.

Lemma held_tx s ci c n j cb : genet_inv s ci c n → m_tx_cbs s !! j = Some cb →
  held s !! (256 + j)%nat = Some (buffer cb).
Proof.
  intros Hi Hcb. unfold held. rewrite list_lookup_fmap, <- (gi_rx_len _ _ _ _ Hi).
  by rewrite lookup_app_r, Nat.add_comm, Nat.add_sub, Hcb by lia.
Qed.

Lemma land_ffff x : Z.land x 0xFFFF = x `mod` 65536.
Proof. change 0xFFFF with (Z.ones 16). by rewrite Z.land_ones. Qed.

Lemma diff_index a b : Z.land (u32 (a - b)) DMA_INDEX_MASK = (a - b) `mod` 65536.
Proof.
  change DMA_INDEX_MASK with 0xFFFF. rewrite land_ffff. unfold wrap.
  rewrite <- (Z.mod_mod_divide (a - b) (2 ^ 32) 65536); [done|]. by exists 65536.
Qed.

(** *** Receiving *)

(** Changes to the receiving side *)
Definition upd s (h : H) (b : gmap Z (list Z)) (out : list (Z * Z)) (cbs : list TGEnetCB) (r : TGEnetRxRing) : genet H :=
  mkGenet h b (g_in s) out cbs r (m_tx_cbs s) (m_tx_rings s) (m_crc_fwd_en s).

Lemma upd_id s : upd s (g_heap s) (g_bufs s) (g_out s) (m_rx_cbs s) (m_rx_ring s) = s.
Proof. by destruct s. Qed.

Lemma count_discards_spec s ci d x : m_rx_ring s = rx_ring_at ci d → 0 ≤ d < 65536 →
  ∃ d' w, 0 ≤ d' < 65536 ∧ Forall (λ y, fst y = rdma_ring GENET_DESC_INDEX RDMA_PROD_INDEX) w ∧
    count_discards s x = upd s (g_heap s) (g_bufs s) (g_out s ++ w) (m_rx_cbs s) (rx_ring_at ci d').
Proof.
  intros Hr Hd. unfold count_discards. cbv zeta. rewrite Hr. cbn [old_discards rx_ring_at].
  assert (Hx : 0 ≤ Z.land (x ≫ 16) 0xFFFF < 65536) by (rewrite land_ffff; apply Z.mod_pos_bound; lia).
  destruct (Z.ltb_spec d (Z.land (x ≫ 16) 0xFFFF)) as [Hlt|Hge].
  - rewrite (wrap_small 32 (Z.land _ _ - d)) by (unfold uword; lia).
    rewrite wrap_small by (unfold uword; lia). destruct (0xC000 <=? _).
    + exists 0, [(rdma_ring GENET_DESC_INDEX RDMA_PROD_INDEX, 0)].
      split; [lia|]. split; [by constructor|]. done.
    + exists (d + (Z.land (x ≫ 16) 65535 - d)), []. split; [lia|]. split; [constructor|].
      by rewrite app_nil_r.
  - exists d, []. split; [done|]. split; [constructor|]. by rewrite app_nil_r, <- Hr, upd_id.
Qed.

Lemma rx_refill_spec s i cb p h : m_rx_cbs s !! i = Some cb → p ≠ 0 →
  new_u8 garbage s RX_BUF_LENGTH = Ret (p, set_heap s h (<[p := garbage p RX_BUF_LENGTH]> (g_bufs s))) →
  is_u32 p →
  rx_refill garbage s i = Ret (buffer cb,
    upd s h (<[p := garbage p RX_BUF_LENGTH]> (g_bufs s))
      (g_out s ++ [(bd_addr cb + DMA_DESC_ADDRESS_LO, p); (bd_addr cb + DMA_DESC_ADDRESS_HI, 0)])
      (<[i := mkCB (bd_addr cb) p]> (m_rx_cbs s)) (m_rx_ring s)).
Proof.
  intros Hcb Hp Hnew Hu. unfold rx_refill. rewrite Hnew, bind_Ret, (proj2 (Z.eqb_neq _ _) Hp).
  unfold free_rx_cb. cbn [m_rx_cbs set_heap]. rewrite (deref_lookup _ _ _ Hcb), !bind_Ret.
  cbn [m_rx_cbs set_rx_cbs]. pose proof (lookup_lt_Some _ _ _ Hcb) as Hl.
  rewrite (deref_lookup _ _ (mkCB (bd_addr cb) 0)) by (by rewrite list_lookup_insert_eq).
  rewrite bind_Ret. cbn [bd_addr]. rewrite list_insert_insert_eq.
  unfold dmadesc_set_addr, write32, upd, set_rx_cbs, set_heap. cbn.
  rewrite <- app_assoc. cbn. by rewrite !(wrap_small 32 p).
Qed.

Lemma status_fields l flags : 0 ≤ l → 0 ≤ flags < 65536 →
  Z.land (Z.lor (l ≪ 16) flags) 0xFFFF = flags ∧ (Z.lor (l ≪ 16) flags) ≫ DMA_BUFLENGTH_SHIFT = l.
Proof.
  intros Hl Hf. rewrite lor_shiftl_add by lia. rewrite land_ffff. unfold DMA_BUFLENGTH_SHIFT.
  rewrite Z.shiftr_div_pow2 by lia. change (2 ^ 16) with 65536.
  rewrite Z.add_comm, Z.mod_add, Z.mod_small, Z.div_add, Z.div_small by lia. lia.
Qed.

Lemma take_packet_spec s bd p pBuffer flags bytes content k :
  0 ≤ flags < 65536 → (length bytes ≤ 2048)%nat →
  read32 s (bd + DMA_DESC_LENGTH_STATUS) = Z.lor (Z.of_nat (length bytes) ≪ 16) flags →
  g_bufs s !! p = Some content → take (length bytes) content = bytes →
  (faulty flags = false → (0 < length (payload (m_crc_fwd_en s) bytes) ≤ 1600)%nat) →
  length pBuffer = 1600%nat →
  heap_ok (g_heap s) → heap_room (g_heap s) k → heap_live (g_heap s) !! p = Some FRAME_BLOCK →
  ∃ h, take_packet s bd p pBuffer
       = Ret (rx_result (m_crc_fwd_en s) flags bytes pBuffer, set_heap s h (delete p (g_bufs s))) ∧
    heap_ok h ∧ heap_room h (S k) ∧ heap_live h = delete p (heap_live (g_heap s)).
Proof.
  intros Hf Hb Hst Hc Ht Hlen Hp Hok Hr Hl. destruct (delete_frame s k p Hok Hr Hl) as (h & Hd & Hok' & Hr' & Hl').
  exists h. split; [|done]. unfold take_packet, dmadesc_get_length_status. cbv zeta. rewrite Hst.
  destruct (status_fields (Z.of_nat (length bytes)) flags) as [-> ->]; [lia|done|].
  unfold rx_result. destruct (faulty flags) eqn:Ef; unfold faulty in Ef.
  { apply orb_true_iff in Ef as [Ef|Ef]; rewrite Ef; [by rewrite Hd|]. destruct (_ || _); by rewrite Hd. }
  apply orb_false_iff in Ef as [-> ->]. specialize (Hlen eq_refl).
  set (f := payload (m_crc_fwd_en s) bytes) in *.
  assert (Hfl : length f = (length bytes - 2 - (if m_crc_fwd_en s then 4 else 0))%nat).
  { unfold f, payload. rewrite length_take, length_drop. destruct (m_crc_fwd_en s); lia. }
  assert (En : (if m_crc_fwd_en s then Z.of_nat (length bytes) - LEADING_PAD - ETH_FCS_LEN
                else Z.of_nat (length bytes) - LEADING_PAD) = Z.of_nat (length f)).
  { unfold LEADING_PAD, ETH_FCS_LEN. destruct (m_crc_fwd_en s); lia. }
  rewrite En. unfold FRAME_BUFFER_SIZE.
  rewrite (proj2 (Z.ltb_lt 0 (Z.of_nat (length f)))), (proj2 (Z.leb_le (Z.of_nat (length f)) 1600)) by lia.
  cbn [negb andb]. unfold contents. rewrite Hc, bind_Ret, Nat2Z.id. change (Z.to_nat LEADING_PAD) with 2%nat.
  assert (Hcl : (length bytes ≤ length content)%nat) by (rewrite <- Ht, length_take; lia).
  assert (Hbl : (length f + 2 ≤ length bytes)%nat) by (destruct (m_crc_fwd_en s); lia).
  rewrite load_n_le, bind_Ret by lia.
  assert (Ed : take (length f) (drop 2 content) = f).
  { unfold f at 2, payload. rewrite <- Hfl. rewrite <- Ht at 1. rewrite skipn_firstn_comm, take_take. f_equal. lia. }
  rewrite Ed, store_n_le, bind_Ret, Hd, bind_Ret by lia. do 3 f_equal.
  rewrite <- (take_drop (length f) pBuffer) at 1.
  rewrite list_inserts_0_r; [done|]. rewrite length_take. lia.
Qed.
(** The state once the packet in slot [i], control block [cb], has been taken: the
    fresh buffer [p] has replaced the one that held it. *)
Definition rx_after s (i : nat) (cb : TGEnetCB) (p : Z) (h : H) (w : list (Z * Z)) (ci d : Z) : genet H :=
  upd s h (delete (buffer cb) (<[p := garbage p RX_BUF_LENGTH]> (g_bufs s)))
    (g_out s ++ w ++ [(bd_addr cb + DMA_DESC_ADDRESS_LO, p); (bd_addr cb + DMA_DESC_ADDRESS_HI, 0);
                      (rdma_ring GENET_DESC_INDEX RDMA_CONS_INDEX, (ci + 1) `mod` 65536)])
    (<[i := mkCB (bd_addr cb) p]> (m_rx_cbs s)) (rx_ring_at ((ci + 1) `mod` 65536) d).

Section taken.
Context s (ci c n : Z) (i : nat) (cb : TGEnetCB) (p : Z) (h : H) (w : list (Z * Z)) (d : Z).
Hypothesis Hinv : genet_inv s ci c n.
Hypothesis Hcb : m_rx_cbs s !! i = Some cb.
Hypothesis Hp : 0 < p < 2 ^ 32.
Hypothesis Hfresh : heap_live (g_heap s) !! p = None.
Hypothesis Hheap : heap_ok h.
Hypothesis Hroom : heap_room h (Z.to_nat (33 - n)).
Hypothesis Hlive : heap_live h = delete (buffer cb) (<[p := FRAME_BLOCK]> (heap_live (g_heap s))).
Hypothesis Hw : Forall (λ y, fst y = rdma_ring GENET_DESC_INDEX RDMA_PROD_INDEX) w.
Hypothesis Hd : 0 ≤ d < 65536.
Let s' := rx_after s i cb p h w ci d.

Lemma taken_fresh : p ∉ held s.
Proof. apply (fresh_not_held s ci c n); [done|lia|done]. Qed.

Lemma taken_bd : bd_addr cb = rx_bd i ∧ (i < 256)%nat.
Proof.
  split; [by apply (gi_rx _ _ _ _ Hinv)|]. rewrite <- (gi_rx_len _ _ _ _ Hinv). by eapply lookup_lt_Some.
Qed.

(** The other buffers stay. *)
Lemma taken_buf j x m : held s !! j = Some x → x ≠ 0 → i ≠ j → buf_ok s m x → buf_ok s' m x.
Proof.
  intros Hx Hne Hij (Hl & y & Hy & Hlen).
  assert (x ≠ p) by (intros ->; apply taken_fresh; by eapply list_elem_of_lookup_2).
  assert (x ≠ buffer cb).
  { intros ->. apply Hij. exact (gi_held _ _ _ _ Hinv _ _ _ (held_rx _ _ _ _ _ _ Hinv Hcb) Hx Hne). }
  split; [unfold s'; cbn; by rewrite Hlive, lookup_delete_ne, lookup_insert_ne by done|].
  exists y. split; [|done]. unfold s'. cbn. by rewrite lookup_delete_ne, lookup_insert_ne by done.
Qed.

Lemma taken_bufs j x : held s !! j = Some x → x ≠ 0 → i ≠ j → g_bufs s' !! x = g_bufs s !! x.
Proof.
  intros Hx Hne Hij.
  assert (x ≠ p) by (intros ->; apply taken_fresh; by eapply list_elem_of_lookup_2).
  assert (x ≠ buffer cb).
  { intros ->. apply Hij. exact (gi_held _ _ _ _ Hinv _ _ _ (held_rx _ _ _ _ _ _ Hinv Hcb) Hx Hne). }
  unfold s'. cbn. by rewrite lookup_delete_ne, lookup_insert_ne by done.
Qed.

Lemma taken_new : buf_ok s' RX_BUF_LENGTH p.
Proof.
  assert (p ≠ buffer cb).
  { intros E. apply taken_fresh. rewrite E. eapply list_elem_of_lookup_2, held_rx; [exact Hinv|exact Hcb]. }
  split; [unfold s'; cbn; by rewrite Hlive, lookup_delete_ne, lookup_insert_eq by done|].
  exists (garbage p RX_BUF_LENGTH). split; [|apply garbage_length].
  unfold s'. cbn. by rewrite lookup_delete_ne, lookup_insert_eq by done.
Qed.

(** Registers the driver does not write *)
Lemma taken_reg a : a ≠ rdma_ring GENET_DESC_INDEX RDMA_PROD_INDEX → a ≠ rx_bd i + DMA_DESC_ADDRESS_LO →
  a ≠ rx_bd i + DMA_DESC_ADDRESS_HI → a ≠ rdma_ring GENET_DESC_INDEX RDMA_CONS_INDEX →
  last_write (g_out s') a = last_write (g_out s) a.
Proof.
  intros H2 H3 H4 H5. unfold s', rx_after, upd. cbn [g_out]. rewrite (proj1 taken_bd). apply last_write_other.
  apply Forall_app. split; [eapply Forall_impl; [exact Hw|]; cbn; congruence|].
  repeat constructor; cbn; congruence.
Qed.

Lemma taken_inv : genet_inv s' ((ci + 1) `mod` 65536) c n.
Proof.
  pose proof taken_bd as [Hbd Hi]. destruct (gi_rx_ring _ _ _ _ Hinv) as (d0 & Hd0 & Hr).
  pose proof (gi_indices _ _ _ _ Hinv) as (Hci & Hc & Hn).
  split.
  - done.
  - done.
  - assert (E : held s' = <[i := p]> (held s)).
    { unfold s', held. cbn. rewrite <- insert_app_l, list_fmap_insert; [done|].
      by rewrite (gi_rx_len _ _ _ _ Hinv). }
    rewrite E. apply distinct_insert; [apply Hinv|]. right. apply taken_fresh.
  - unfold s'. cbn. rewrite length_insert. apply Hinv.
  - apply Hinv.
  - intros j x Hx. unfold s' in Hx. cbn in Hx. rewrite Hbd in Hx.
    apply list_lookup_insert_Some in Hx as [(<- & <- & _)|[Hij Hx]].
    + cbn. split; [done|]. split; [apply taken_new|]. split; [lia|].
      rewrite last_write_app, Hbd, last_write_app. cbn [last_write].
      rewrite (proj2 (Z.eqb_neq _ _)) by regs. rewrite (proj2 (Z.eqb_neq _ _)) by regs. by rewrite Z.eqb_refl.
    + destruct (gi_rx _ _ _ _ Hinv j x Hx) as (Hxb & Hbuf & Hne & Hw').
      assert (j < 256)%nat by (rewrite <- (gi_rx_len _ _ _ _ Hinv); by eapply lookup_lt_Some).
      split; [done|]. split; [by apply (taken_buf j); [eapply held_rx| | |]|]. split; [done|].
      rewrite taken_reg; rewrite Hxb in *; [done|regs..].
  - intros j x Hx. destruct (gi_tx _ _ _ _ Hinv j x Hx) as (Hxb & Hin & Hout). split; [done|]. split; [|done].
    intros Hf. destruct (Hin Hf) as [Hne Hbuf]. split; [done|].
    apply (taken_buf (256 + j)); [by eapply held_tx|done|lia|done].
  - unfold s', rx_after, upd. cbn [g_out]. rewrite last_write_app, last_write_app. cbn [last_write].
    by rewrite Z.eqb_refl.
  - rewrite taken_reg by regs. apply Hinv.
  - by exists d.
  - apply Hinv.
  - split; [apply Z.mod_pos_bound; lia|done].
Qed.

Lemma taken_queue fs : Z.of_nat (length fs) = n → tx_queue s c fs → tx_queue s' c fs.
Proof.
  intros Hlen Hq k f Hk. pose proof (gi_indices _ _ _ _ Hinv) as (Hci & Hc & Hn). pose proof taken_bd as [_ Hi].
  destruct (Hq k f Hk) as (x & content & v & Hx & Hcont & Ha & Hv & Hf).
  apply lookup_lt_Some in Hk. pose proof (Z.mod_pos_bound (c + Z.of_nat k) 32 ltac:(lia)) as Hm.
  destruct (gi_tx _ _ _ _ Hinv _ x Hx) as (_ & Hin & _). destruct Hin as [Hne _].
  { split; [lia|]. rewrite Z2Nat.id by lia. rewrite Zminus_mod_idemp_l.
    replace (c + Z.of_nat k - c) with (Z.of_nat k) by lia. rewrite Z.mod_small; lia. }
  exists x, content, v. split; [done|].
  split; [rewrite <- Hcont; eapply taken_bufs; [by eapply held_tx|done|lia]|].
  rewrite !taken_reg by regs. done.
Qed.

Lemma taken_ring x pend : i = Z.to_nat (ci `mod` 256) → ring_holds s ci (x :: pend) →
  ring_holds s' ((ci + 1) `mod` 65536) pend.
Proof.
  intros Hi (Hprod & Hlen & Hpend). pose proof (gi_indices _ _ _ _ Hinv) as (Hci & Hc & Hn).
  split; [|split; [cbn in Hlen; lia|]].
  - unfold s'. cbn [read32 rx_after upd g_in]. unfold read32 in Hprod. rewrite Hprod, Zplus_mod_idemp_l. f_equal. cbn [length]. lia.
  - intros k flags bytes Hk. cbv zeta.
    assert (Ej : ((ci + 1) `mod` 65536 + Z.of_nat k) `mod` 256 = (ci + Z.of_nat (S k)) `mod` 256).
    { rewrite <- (Z.mod_mod_divide _ 65536 256), Zplus_mod_idemp_l by (by exists 256).
      rewrite Z.mod_mod_divide by (by exists 256). f_equal. lia. }
    rewrite Ej. destruct (Hpend (S k) flags bytes Hk) as (Hf & Hb & Hst & y & content & Hy & Hcont & Ht).
    do 2 (split; [done|]). split; [done|]. apply lookup_lt_Some in Hk. cbn in Hlen.
    assert (Hij : i ≠ Z.to_nat ((ci + Z.of_nat (S k)) `mod` 256)).
    { rewrite Hi. intros E. apply Z2Nat.inj in E; [|apply Z.mod_pos_bound; lia..].
      pose proof (Z.div_mod ci 256 ltac:(lia)). pose proof (Z.div_mod (ci + Z.of_nat (S k)) 256 ltac:(lia)). lia. }
    exists y, content. split; [unfold s'; cbn; by rewrite list_lookup_insert_ne|]. split; [|done].
    rewrite <- Hcont. eapply taken_bufs; [by eapply held_rx| |done].
    by destruct (gi_rx _ _ _ _ Hinv _ y Hy) as (_ & _ & ? & _).
Qed.
End taken.

Lemma advance_ring s ci d : 0 ≤ ci < 65536 → m_rx_ring s = rx_ring_at ci d →
  advance s = upd s (g_heap s) (g_bufs s)
    (g_out s ++ [(rdma_ring GENET_DESC_INDEX RDMA_CONS_INDEX, (ci + 1) `mod` 65536)]) (m_rx_cbs s)
    (rx_ring_at ((ci + 1) `mod` 65536) d).
Proof.
  intros Hci Hr. pose proof (Z.mod_pos_bound (ci + 1) 65536 ltac:(lia)).
  assert (Hm : (if ci `mod` 256 <? 255 then ci `mod` 256 + 1 else 0) = ((ci + 1) `mod` 65536) `mod` 256).
  { rewrite Z.mod_mod_divide by (by exists 256). rewrite <- (Zplus_mod_idemp_l ci 1 256).
    pose proof (Z.mod_pos_bound ci 256 ltac:(lia)). destruct (Z.ltb_spec (ci `mod` 256) 255).
    - symmetry. apply Z.mod_small. lia.
    - replace (ci `mod` 256) with 255 by lia. done. }
  unfold advance. rewrite Hr. cbv zeta.
  cbn [rx_ring_at read_ptr rx_end_ptr rx_cb_ptr rx_c_index rx_index rx_cbs rx_size old_discards].
  change DMA_INDEX_MASK with 0xFFFF. rewrite land_ffff, Hm. unfold write32, upd, set_rx_ring. cbn.
  by rewrite wrap_small by (unfold uword; lia).
Qed.

(** The invariant does not depend on the count of discarded frames. *)
Lemma discards_inv s ci c n pend fs d w : genet_inv s ci c n → ring_holds s ci pend → tx_queue s c fs → 0 ≤ d < 65536 →
  Forall (λ y, fst y = rdma_ring GENET_DESC_INDEX RDMA_PROD_INDEX) w →
  let s' := upd s (g_heap s) (g_bufs s) (g_out s ++ w) (m_rx_cbs s) (rx_ring_at ci d) in
  genet_inv s' ci c n ∧ ring_holds s' ci pend ∧ (Z.of_nat (length fs) = n → tx_queue s' c fs).
Proof.
  intros Hi Hh Hq Hd Hw s'.
  assert (Hreg : ∀ a, a ≠ rdma_ring GENET_DESC_INDEX RDMA_PROD_INDEX → last_write (g_out s') a = last_write (g_out s) a).
  { intros a Ha. apply last_write_other. eapply Forall_impl; [exact Hw|]. cbn. congruence. }
  split; [|split; [exact Hh|]].
  - destruct (Hi) as []. split; try done.
    + intros j x Hx. destruct (gi_rx0 j x Hx) as (Hb & ? & ? & Hl). do 3 (split; [done|]).
      rewrite Hreg; [done|]. rewrite Hb. apply lookup_lt_Some in Hx. cbn in Hx. regs.
    + rewrite Hreg; [done|regs].
    + rewrite Hreg; [done|regs].
    + by exists d.
  - intros Hlen k f Hk. destruct (Hq k f Hk) as (x & content & v & Hx & Hcont & Ha & Hv & Hf).
    exists x, content, v. rewrite !Hreg by regs. done.
Qed.

(** The slot that is read next *)
Lemma ring_head s ci c n flags bytes pend : genet_inv s ci c n → ring_holds s ci ((flags, bytes) :: pend) →
  ∃ cb content, m_rx_cbs s !! Z.to_nat (ci `mod` 256) = Some cb ∧
    bd_addr cb = rx_bd (Z.to_nat (ci `mod` 256)) ∧ buffer cb ≠ 0 ∧
    heap_live (g_heap s) !! buffer cb = Some FRAME_BLOCK ∧ g_bufs s !! buffer cb = Some content ∧
    take (length bytes) content = bytes ∧ 0 ≤ flags < 65536 ∧ (length bytes ≤ 2048)%nat ∧
    read32 s (bd_addr cb + DMA_DESC_LENGTH_STATUS) = Z.lor (Z.of_nat (length bytes) ≪ 16) flags.
Proof.
  intros Hi (_ & _ & Hh). destruct (Hh 0%nat flags bytes eq_refl) as (Hf & Hb & Hst & cb & content & Hcb & Hc & Ht).
  change (Z.of_nat 0) with 0 in *. rewrite (Z.add_0_r ci) in *. destruct (gi_rx _ _ _ _ Hi _ cb Hcb) as (Hbd & (Hl & _) & Hne & _).
  exists cb, content. rewrite Hbd. repeat (split; [done|]). exact Hst.
Qed.

Lemma receive_packet s ci c n flags bytes pend fs pBuffer d :
  genet_inv s ci c n → ring_holds s ci ((flags, bytes) :: pend) → tx_queue s c fs → Z.of_nat (length fs) = n →
  length pBuffer = 1600%nat → m_rx_ring s = rx_ring_at ci d → 0 ≤ d < 65536 →
  (faulty flags = false → (0 < length (payload (m_crc_fwd_en s) bytes) ≤ 1600)%nat) →
  ∃ s', ('(pRxBuffer, s) ← rx_refill garbage s (Z.to_nat (read_ptr (m_rx_ring s)));
         '(r, s) ← (if pRxBuffer =? 0 then Ret (None, s)
                    else cb ← deref (m_rx_cbs s) (Z.to_nat (ci `mod` 256)); take_packet s (bd_addr cb) pRxBuffer pBuffer);
         Ret (r, advance s)) = Ret (rx_result (m_crc_fwd_en s) flags bytes pBuffer, s') ∧
    genet_inv s' ((ci + 1) `mod` 65536) c n ∧ ring_holds s' ((ci + 1) `mod` 65536) pend ∧ tx_queue s' c fs ∧
    m_crc_fwd_en s' = m_crc_fwd_en s ∧ g_in s' = g_in s.
Proof.
  intros Hi Hh Hq Hfs Hp Hring Hd Hlen. pose proof (gi_indices _ _ _ _ Hi) as (Hci & Hc & Hn).
  destruct (ring_head s ci c n flags bytes pend Hi Hh) as (cb & content & Hcb & Hbd & Hne & Hlive & Hcont & Ht & Hf & Hb & Hst).
  destruct (new_frame s RX_BUF_LENGTH (Z.to_nat (32 - n))) as (p & h & Hnew & Hok & Hroom & Hpr & Hfresh & Hl); [apply Hi | | |].
  { replace (S (Z.to_nat (32 - n))) with (Z.to_nat (33 - n)) by lia. apply Hi. }
  { unfold RX_BUF_LENGTH, FRAME_BLOCK. lia. }
  rewrite Hring. cbn [read_ptr rx_ring_at].
  rewrite (rx_refill_spec s _ cb p h Hcb) by (unfold uword; lia || done). rewrite bind_Ret, (proj2 (Z.eqb_neq _ _) Hne).
  cbn [m_rx_cbs upd]. rewrite (deref_lookup _ _ (mkCB (bd_addr cb) p)), bind_Ret by
    (rewrite list_lookup_insert_eq; [done|by eapply lookup_lt_Some]). cbn [bd_addr].
  assert (Hpf : p ≠ buffer cb) by congruence.
  set (s1 := upd s h _ _ _ _).
  destruct (take_packet_spec s1 (bd_addr cb) (buffer cb) pBuffer flags bytes content (Z.to_nat (32 - n)))
    as (h' & Hpk & Hok' & Hroom' & Hl'); [done|done|exact Hst| |done|exact Hlen|done|done|done| |].
  { cbn. by rewrite lookup_insert_ne by done. }
  { cbn. by rewrite Hl, lookup_insert_ne by done. }
  rewrite Hpk, !bind_Ret. eexists. split; [reflexivity|].
  rewrite (advance_ring _ ci d) by done.
  assert (E : upd (set_heap s1 h' (delete (buffer cb) (g_bufs s1))) (g_heap (set_heap s1 h' (delete (buffer cb) (g_bufs s1))))
     (g_bufs (set_heap s1 h' (delete (buffer cb) (g_bufs s1))))
     (g_out (set_heap s1 h' (delete (buffer cb) (g_bufs s1))) ++ [(rdma_ring GENET_DESC_INDEX RDMA_CONS_INDEX, (ci + 1) `mod` 65536)])
     (m_rx_cbs (set_heap s1 h' (delete (buffer cb) (g_bufs s1)))) (rx_ring_at ((ci + 1) `mod` 65536) d)
     = rx_after s (Z.to_nat (ci `mod` 256)) cb p h' [] ci d).
  { unfold rx_after, upd, set_heap. cbn. by rewrite <- app_assoc. }
  rewrite E. assert (Hroom2 : heap_room h' (Z.to_nat (33 - n))).
  { replace (Z.to_nat (33 - n)) with (S (Z.to_nat (32 - n))) by lia. done. }
  assert (Hl2 : heap_live h' = delete (buffer cb) (<[p := FRAME_BLOCK]> (heap_live (g_heap s)))) by (by rewrite Hl', <- Hl).
  split; [by apply taken_inv|]. split; [by eapply taken_ring|]. split; [by eapply taken_queue|done].
Qed.

(** Every call of [ReceiveFrame] returns.  With an empty receive ring it returns
    FALSE; otherwise it takes the oldest packet: a fragment or a packet with an
    error is dropped and FALSE is returned, and any other is delivered to the
    caller's buffer without the two padding bytes in front and, when the
    controller forwards it, the checksum at the end.  The slot is given a fresh
    buffer and back to the controller, the packets after it and the frames
    waiting to be sent stay as they are, and no buffer is lost. *)
Lemma receive_spec s ci c n pend fs pBuffer :
  genet_inv s ci c n → ring_holds s ci pend → tx_queue s c fs → Z.of_nat (length fs) = n →
  length pBuffer = 1600%nat →
  (∀ flags bytes, pend !! 0%nat = Some (flags, bytes) → faulty flags = false →
     (0 < length (payload (m_crc_fwd_en s) bytes) ≤ 1600)%nat) →
  ∃ r s' ci', ReceiveFrame garbage s pBuffer = Ret (r, s') ∧
    genet_inv s' ci' c n ∧ ring_holds s' ci' (tail pend) ∧ tx_queue s' c fs ∧
    m_crc_fwd_en s' = m_crc_fwd_en s ∧ g_in s' = g_in s ∧
    match pend with
    | [] => r = None ∧ ci' = ci
    | (flags, bytes) :: _ => r = rx_result (m_crc_fwd_en s) flags bytes pBuffer ∧ ci' = (ci + 1) `mod` 65536
    end.
Proof.
  intros Hi Hh Hq Hfs Hp Hlen. destruct (gi_rx_ring _ _ _ _ Hi) as (d & Hd & Hring).
  pose proof (gi_indices _ _ _ _ Hi) as (Hci & _).
  unfold ReceiveFrame. cbv zeta. rewrite Hring. cbn [rx_ring_at rx_index].
  destruct (count_discards_spec s ci d (read32 s (rdma_ring GENET_DESC_INDEX RDMA_PROD_INDEX)) Hring Hd)
    as (d' & w & Hd' & Hw & E). rewrite E.
  destruct (discards_inv s ci c n pend fs d' w Hi Hh Hq Hd' Hw) as (Hi' & Hh' & Hq'). specialize (Hq' Hfs).
  set (s1 := upd s _ _ _ _ _) in *. change (m_rx_ring s1) with (rx_ring_at ci d'). cbn [rx_ring_at rx_c_index].
  rewrite diff_index. change DMA_INDEX_MASK with 0xFFFF. rewrite land_ffff, (proj1 Hh), Zminus_mod_idemp_l.
  replace (ci + Z.of_nat (length pend) - ci) with (Z.of_nat (length pend)) by lia.
  pose proof (proj1 (proj2 Hh)). rewrite Z.mod_small by lia.
  destruct pend as [|[flags bytes] pend]; [by exists None, s1, ci|].
  rewrite (proj2 (Z.ltb_lt _ _)) by (cbn [length]; lia). cbn [negb].
  destruct (receive_packet s1 ci c n flags bytes pend fs pBuffer d') as (s' & Er & Hi2 & Hh2 & Hq2 & Hc2 & Hg2); try done.
  { by apply (Hlen flags bytes). }
  exists (rx_result (m_crc_fwd_en s) flags bytes pBuffer), s', ((ci + 1) `mod` 65536).
  split; [exact Er|done].
Qed.

(** *** Sending *)

(** The state once a frame has been put into slot [j], in the fresh buffer [p] *)
Definition tx_after s (j : nat) (p : Z) (h : H) (content : list Z) (v c n : Z) : genet H :=
  mkGenet h (<[p := content]> (g_bufs s)) (g_in s)
    (g_out s ++ [(tx_bd j + DMA_DESC_ADDRESS_LO, p); (tx_bd j + DMA_DESC_ADDRESS_HI, 0);
                 (tx_bd j + DMA_DESC_LENGTH_STATUS, v); (tdma_ring 0 TDMA_PROD_INDEX, (c + (n + 1)) `mod` 65536)])
    (m_rx_cbs s) (m_rx_ring s) (<[j := mkCB (tx_bd j) p]> (m_tx_cbs s))
    (<[0%nat := tx_ring_at c (n + 1)]> (m_tx_rings s)) (m_crc_fwd_en s).

Lemma in_flight_next c n j : 0 ≤ n < 32 →
  in_flight c (n + 1) j ↔ in_flight c n j ∨ j = Z.to_nat ((c + n) `mod` 32).
Proof.
  intros Hn. unfold in_flight. pose proof (Z.mod_pos_bound (c + n) 32 ltac:(lia)) as Hm.
  pose proof (Z.mod_pos_bound (Z.of_nat j - c) 32 ltac:(lia)) as Hj.
  assert (E : (Z.of_nat j - c) `mod` 32 = n ∧ Z.of_nat j < 32 ↔ j = Z.to_nat ((c + n) `mod` 32)).
  { split.
    - intros [Ej Hj']. rewrite <- Ej, Zplus_mod_idemp_r.
      replace (c + (Z.of_nat j - c)) with (Z.of_nat j) by lia. rewrite Z.mod_small; lia.
    - intros ->. rewrite Z2Nat.id by lia. split; [|lia]. rewrite Zminus_mod_idemp_l.
      replace (c + n - c) with n by lia. apply Z.mod_small. lia. }
  rewrite <- E. lia.
Qed.

Lemma in_flight_slot c n k : 0 ≤ n ≤ 32 → 0 ≤ k < n → in_flight c n (Z.to_nat ((c + k) `mod` 32)).
Proof.
  intros Hn Hk. pose proof (Z.mod_pos_bound (c + k) 32 ltac:(lia)) as Hm. split; [lia|].
  rewrite Z2Nat.id by lia. rewrite Zminus_mod_idemp_l. replace (c + k - c) with k by lia.
  rewrite Z.mod_small; lia.
Qed.

Section sent.
Context s (ci c n : Z) (j : nat) (p : Z) (h : H) (content : list Z) (v : Z).
Hypothesis Hinv : genet_inv s ci c n.
Hypothesis Hn : n < 32.
Hypothesis Hj : j = Z.to_nat ((c + n) `mod` 32).
Hypothesis Hp : 0 < p < 2 ^ 32.
Hypothesis Hfresh : heap_live (g_heap s) !! p = None.
Hypothesis Hheap : heap_ok h.
Hypothesis Hroom : heap_room h (Z.to_nat (32 - n)).
Hypothesis Hlive : heap_live h = <[p := FRAME_BLOCK]> (heap_live (g_heap s)).
Hypothesis Hcontent : length content = Z.to_nat ENET_MAX_MTU_SIZE.
Let s' := tx_after s j p h content v c n.

Lemma sent_slot : (j < 32)%nat ∧ ¬ in_flight c n j.
Proof.
  pose proof (Z.mod_pos_bound (c + n) 32 ltac:(lia)) as Hm. split; [lia|]. intros [_ Hf].
  rewrite Hj, Z2Nat.id, Zminus_mod_idemp_l in Hf by lia. replace (c + n - c) with n in Hf by lia.
  pose proof (gi_indices _ _ _ _ Hinv) as (_ & _ & Hn'). rewrite Z.mod_small in Hf; lia.
Qed.

Lemma sent_bufs x : x ∈ held s → x ≠ 0 → g_bufs s' !! x = g_bufs s !! x.
Proof.
  intros Hx Hne. unfold s'. cbn. apply lookup_insert_ne. intros <-.
  by apply (fresh_not_held s ci c n p Hinv).
Qed.

Lemma sent_buf x m : x ∈ held s → x ≠ 0 → buf_ok s m x → buf_ok s' m x.
Proof.
  intros Hx Hne (Hl & y & Hy & Hlen). split; [|exists y; by rewrite sent_bufs].
  unfold s'. cbn. rewrite Hlive, lookup_insert_ne; [done|]. intros <-.
  by apply (fresh_not_held s ci c n p Hinv).
Qed.

Lemma sent_reg a : a ≠ tx_bd j + DMA_DESC_ADDRESS_LO → a ≠ tx_bd j + DMA_DESC_ADDRESS_HI →
  a ≠ tx_bd j + DMA_DESC_LENGTH_STATUS → a ≠ tdma_ring 0 TDMA_PROD_INDEX →
  last_write (g_out s') a = last_write (g_out s) a.
Proof. intros H2 H3 H4 H5. unfold s'. cbn. apply last_write_other. repeat constructor; cbn; congruence. Qed.

Lemma held_in_rx i x : m_rx_cbs s !! i = Some x → buffer x ∈ held s.
Proof. intros Hx. eapply list_elem_of_lookup_2, held_rx; [exact Hinv|exact Hx]. Qed.
Lemma held_in_tx i x : m_tx_cbs s !! i = Some x → buffer x ∈ held s.
Proof. intros Hx. eapply list_elem_of_lookup_2, held_tx; [exact Hinv|exact Hx]. Qed.

Lemma sent_inv : genet_inv s' ci c (n + 1).
Proof.
  pose proof sent_slot as [Hj32 Hfl]. pose proof (gi_indices _ _ _ _ Hinv) as (Hci & Hc & Hn').
  pose proof (gi_tx_len _ _ _ _ Hinv) as Htl. split.
  - done.
  - by replace (33 - (n + 1)) with (32 - n) by lia.
  - assert (E : held s' = <[(256 + j)%nat := p]> (held s)).
    { unfold s', held. cbn [tx_after m_rx_cbs m_tx_cbs].
      rewrite <- (gi_rx_len _ _ _ _ Hinv), !fmap_app, list_fmap_insert, <- insert_app_r. cbn. by rewrite length_fmap. }
    rewrite E. apply distinct_insert; [apply Hinv|]. right. apply (fresh_not_held s ci c n); [done|lia|done].
  - apply Hinv.
  - unfold s'. cbn. by rewrite length_insert.
  - intros i x Hx. destruct (gi_rx _ _ _ _ Hinv i x Hx) as (Hb & Hbuf & Hne & Hw). split; [done|].
    split; [apply sent_buf; [by eapply held_in_rx|done..]|]. split; [done|].
    apply lookup_lt_Some in Hx. pose proof (gi_rx_len _ _ _ _ Hinv) as Hrl.
    rewrite sent_reg; rewrite Hb in *; [done|unfold s' in Hx; cbn in Hx; regs..].
  - intros i x Hx. unfold s' in Hx. cbn in Hx. rewrite in_flight_next by lia.
    apply list_lookup_insert_Some in Hx as [(<- & <- & _)|[Hij Hx]].
    + cbn. split; [done|]. split; [|intros []; by right]. intros _. split; [lia|].
      split; [unfold s'; cbn; by rewrite Hlive, lookup_insert_eq|]. exists content. split; [|done].
      unfold s'. cbn. by rewrite lookup_insert_eq.
    + destruct (gi_tx _ _ _ _ Hinv i x Hx) as (Hb & Hin & Hout). split; [done|]. split.
      * intros [Hf|Hf]; [|congruence]. destruct (Hin Hf) as [Hne Hbuf]. split; [done|].
        apply sent_buf; [by eapply held_in_tx|done..].
      * intros Hf. apply Hout. intros Hf'. apply Hf. by left.
  - rewrite sent_reg by regs. apply Hinv.
  - unfold s'. cbn. rewrite last_write_app. cbn [last_write]. rewrite Z.eqb_refl. done.
  - apply Hinv.
  - destruct (gi_tx_rings _ _ _ _ Hinv) as (Hl & H0' & Hi & H16). unfold s'. cbn.
    split; [by rewrite length_insert|]. split; [by rewrite list_lookup_insert_eq by lia|].
    split; [|by rewrite list_lookup_insert_ne].
    intros i Hii. rewrite list_lookup_insert_ne by lia. by apply Hi.
  - lia.
Qed.

Lemma sent_ring pend : ring_holds s ci pend → ring_holds s' ci pend.
Proof.
  intros (Hprod & Hlen & Hpend). split; [done|]. split; [done|]. intros k flags bytes Hk. cbv zeta.
  destruct (Hpend k flags bytes Hk) as (Hf & Hb & Hst & y & x & Hy & Hx & Ht).
  do 3 (split; [done|]). exists y, x. split; [done|]. split; [|done]. rewrite sent_bufs; [done|by eapply held_in_rx|].
  by destruct (gi_rx _ _ _ _ Hinv _ y Hy) as (_ & _ & ? & _).
Qed.

Lemma sent_queue fs : Z.of_nat (length fs) = n → tx_queue s c fs → 0 ≤ v →
  tx_queue s' c (fs ++ [take (Z.to_nat (v ≫ 16)) content]).
Proof.
  intros Hfs Hq Hv k f Hk. pose proof sent_slot as [Hj32 Hfl].
  pose proof (gi_indices _ _ _ _ Hinv) as (Hci & Hc & Hn').
  pose proof (Z.mod_pos_bound (c + Z.of_nat k) 32 ltac:(lia)) as Hm.
  apply lookup_snoc_Some in Hk as [[Hk Hf]|[-> <-]].
  - assert (Hfk : in_flight c n (Z.to_nat ((c + Z.of_nat k) `mod` 32))) by (apply in_flight_slot; lia).
    assert (Hjk : j ≠ Z.to_nat ((c + Z.of_nat k) `mod` 32)) by (intros E; apply Hfl; by rewrite E).
    destruct (Hq k f Hf) as (x & y & w & Hx & Hy & Ha & Hw & Ef).
    exists x, y, w. split; [unfold s'; cbn; by rewrite list_lookup_insert_ne|].
    split; [rewrite <- Hy; apply sent_bufs; [by eapply held_in_tx|]; by apply (gi_tx _ _ _ _ Hinv _ x Hx)|].
    rewrite !sent_reg; [done|regs..].
  - rewrite Hfs, <- Hj. exists (mkCB (tx_bd j) p), content, v. cbn [buffer].
    pose proof (gi_tx_len _ _ _ _ Hinv) as Htl. unfold s'. cbn.
    rewrite list_lookup_insert_eq, lookup_insert_eq, !last_write_app by lia. cbn [last_write].
    rewrite !Z.eqb_refl.
    rewrite !(proj2 (Z.eqb_neq (tdma_ring _ _) _)) by regs.
    rewrite !(proj2 (Z.eqb_neq _ (tx_bd j + DMA_DESC_ADDRESS_LO))) by regs. done.
Qed.
End sent.

Lemma length_padded f : Z.of_nat (length (padded f)) = Z.max 60 (Z.of_nat (length f)).
Proof. unfold padded. rewrite length_app, length_replicate. lia. Qed.

Lemma inserts_app {A} (l1 l2 : list A) : (length l1 ≤ length l2)%nat → list_inserts 0 l1 l2 = l1 ++ drop (length l1) l2.
Proof.
  intros Hl. rewrite <- (take_drop (length l1) l2) at 1. apply list_inserts_0_r. rewrite length_take. lia.
Qed.

Lemma fill_spec b pBuffer nLength : length b = Z.to_nat ENET_MAX_MTU_SIZE → 0 < nLength ≤ 1536 →
  (Z.to_nat nLength ≤ length pBuffer)%nat →
  let f := padded (take (Z.to_nat nLength) pBuffer) in
  ∃ content, fill_tx_buffer b pBuffer nLength = Ret (content, Z.of_nat (length f)) ∧
    length content = Z.to_nat ENET_MAX_MTU_SIZE ∧ take (length f) content = f.
Proof.
  intros Hb Hn Hp f. change (Z.to_nat ENET_MAX_MTU_SIZE) with 1536%nat in *.
  assert (Hlt : length (take (Z.to_nat nLength) pBuffer) = Z.to_nat nLength) by (rewrite length_take; lia).
  assert (Hf : Z.of_nat (length f) = Z.max 60 nLength) by (unfold f; rewrite length_padded; lia).
  exists (f ++ drop (length f) b). rewrite length_app, length_drop, take_app_length.
  split; [|split; [lia|done]].
  unfold fill_tx_buffer. rewrite load_n_le, bind_Ret, drop_0, store_n_le, bind_Ret, inserts_app by lia.
  rewrite Hlt. unfold ETH_ZLEN. destruct (Z.ltb_spec nLength 60) as [Hs|Hs].
  - rewrite store_n_le, bind_Ret by (rewrite length_app, length_drop, length_replicate; lia).
    rewrite Hf. do 2 f_equal; [|lia].
    rewrite <- Hlt at 1. rewrite <- (Nat.add_0_r (length _)), list_inserts_app_r.
    rewrite inserts_app by (rewrite length_replicate, length_drop; lia).
    rewrite app_assoc. replace (Z.to_nat (60 - nLength)) with (60 - Z.to_nat nLength)%nat by lia.
    rewrite drop_drop, length_replicate. unfold f at 1, padded. rewrite Hlt. do 2 f_equal. lia.
  - rewrite Hf. do 2 f_equal; [|lia]. unfold f, padded. rewrite Hlt.
    replace (60 - Z.to_nat nLength)%nat with 0%nat by lia. cbn [replicate]. by rewrite app_nil_r, Hlt.
Qed.

(** The descriptor's length field *)
Lemma descriptor_length l : 0 ≤ l < 65536 →
  let v := Z.lor (Z.lor (Z.lor (l ≪ DMA_BUFLENGTH_SHIFT) (QTAG_MASK ≪ DMA_TX_QTAG_SHIFT)) DMA_TX_APPEND_CRC)
             (Z.lor DMA_SOP DMA_EOP) in
  u32 v = v ∧ 0 ≤ v ∧ v ≫ 16 = l.
Proof.
  intros Hl v.
  assert (E : v = l * 65536 + 32704).
  { unfold v. rewrite <- !Z.lor_assoc. unfold DMA_BUFLENGTH_SHIFT. rewrite lor_shiftl_add by done. done. }
  rewrite E. split; [apply wrap_small; unfold uword; lia|]. split; [lia|].
  rewrite Z.shiftr_div_pow2 by lia. change (2 ^ 16) with 65536. rewrite Z.div_add_l, Z.div_small by lia. lia.
Qed.

Lemma send_ring_eq s ci c n : genet_inv s ci c n → deref (m_tx_rings s) send_ring = Ret (tx_ring_at c n).
Proof. intros Hi. apply deref_lookup. by apply Hi. Qed.

Lemma get_txcb_eq c n : get_txcb (tx_ring_at c n) = ((c + n) `mod` 32, (c + (n + 1)) `mod` 32).
Proof.
  unfold get_txcb, tx_ring_at. cbn [write_ptr tx_cbs tx_cb_ptr tx_end_ptr]. f_equal; [lia|].
  rewrite Z.add_assoc, <- (Zplus_mod_idemp_l (c + n) 1). pose proof (Z.mod_pos_bound (c + n) 32 ltac:(lia)).
  destruct (Z.eqb_spec ((c + n) `mod` 32) 31) as [->|]; [done|]. symmetry. apply Z.mod_small. lia.
Qed.

(** Writes to registers *)
Definition log s (w : list (Z * Z)) : genet H :=
  upd s (g_heap s) (g_bufs s) (g_out s ++ w) (m_rx_cbs s) (m_rx_ring s).

Lemma write32_log s a v : is_u32 v → write32 s a v = log s [(a, v)].
Proof. intros Hv. unfold write32, log. by rewrite wrap_small. Qed.

Lemma write32_u32 s a v : write32 s a v = log s [(a, u32 v)].
Proof. done. Qed.

Lemma log_log s w w' : log (log s w) w' = log s (w ++ w').
Proof. unfold log. cbn. by rewrite app_assoc. Qed.

Lemma dmadesc_set_log s d p v : is_u32 p → u32 v = v →
  dmadesc_set s d p v
  = log s [(d + DMA_DESC_ADDRESS_LO, p); (d + DMA_DESC_ADDRESS_HI, 0); (d + DMA_DESC_LENGTH_STATUS, v)].
Proof.
  intros Hp Hv. unfold dmadesc_set, dmadesc_set_length_status, dmadesc_set_addr.
  rewrite (wrap_small 32 p Hp), (write32_log _ _ p Hp), (write32_log _ _ 0), (write32_log _ _ v), !log_log by
    (unfold uword; lia || by rewrite <- Hv; apply wrap_range).
  done.
Qed.

Lemma set_tx_index_at c n :
  set_tx_index (tx_ring_at c n) ((c + (n + 1)) `mod` 32) (free_bds (tx_ring_at c n) - 1) ((c + (n + 1)) `mod` 65536)
  = tx_ring_at c (n + 1).
Proof. unfold set_tx_index, tx_ring_at. cbn. f_equal. lia. Qed.

Lemma tx_after_log s j p h g content v c n :
  log (set_tx_rings (log (set_tx_cbs (set_contents (set_heap s h (<[p := g]> (g_bufs s))) p content)
         (<[j := mkCB (tx_bd j) p]> (m_tx_cbs s)))
       [(tx_bd j + DMA_DESC_ADDRESS_LO, p); (tx_bd j + DMA_DESC_ADDRESS_HI, 0); (tx_bd j + DMA_DESC_LENGTH_STATUS, v)])
     (<[0%nat := tx_ring_at c (n + 1)]> (m_tx_rings s)))
    [(tdma_ring 0 TDMA_PROD_INDEX, (c + (n + 1)) `mod` 65536)]
  = tx_after s j p h content v c n.
Proof.
  destruct s. unfold tx_after, set_contents, log, upd. cbn. by rewrite <- app_assoc, insert_insert_eq.
Qed.

(** Sending a frame of up to 1,536 bytes: with less than two free descriptors
    [SendFrame] returns FALSE and changes nothing; otherwise the frame, padded to
    60 bytes, is copied to a buffer of its own and queued behind the frames
    already waiting, none of which changes, and the controller is told.
    [IsSendFrameAdvisable] predicts which. *)
Lemma send_spec s ci c n pend fs pBuffer nLength :
  genet_inv s ci c n → ring_holds s ci pend → tx_queue s c fs → Z.of_nat (length fs) = n →
  0 < nLength ≤ 1536 → (Z.to_nat nLength ≤ length pBuffer)%nat →
  ∃ b s', SendFrame garbage s pBuffer nLength = Ret (b, s') ∧ IsSendFrameAdvisable s = Ret b ∧
    m_crc_fwd_en s' = m_crc_fwd_en s ∧ g_in s' = g_in s ∧
    if b then n ≤ 30 ∧ genet_inv s' ci c (n + 1) ∧ ring_holds s' ci pend ∧
      tx_queue s' c (fs ++ [padded (take (Z.to_nat nLength) pBuffer)])
    else 31 ≤ n ∧ s' = s.
Proof.
  intros Hi Hh Hq Hfs Hn Hp. pose proof (gi_indices _ _ _ _ Hi) as (Hci & Hc & Hn').
  unfold SendFrame, IsSendFrameAdvisable. rewrite (send_ring_eq s ci c n Hi), !bind_Ret. cbn [tx_ring_at free_bds].
  rewrite (proj2 (Z.ltb_lt _ _)) by lia. cbn [negb].
  destruct (Z.ltb_spec (32 - n) 2) as [Hfull|Hfree].
  { exists false, s. rewrite (proj2 (Z.leb_gt _ _)) by lia. split_and!; done || lia. }
  rewrite (proj2 (Z.leb_le _ _)) by lia.
  destruct (new_frame s ENET_MAX_MTU_SIZE (Z.to_nat (32 - n))) as (p & h & Hnew & Hok & Hroom & Hpr & Hfresh & Hl); [apply Hi | | |].
  { replace (S (Z.to_nat (32 - n))) with (Z.to_nat (33 - n)) by lia. apply Hi. }
  { unfold ENET_MAX_MTU_SIZE, FRAME_BLOCK. lia. }
  rewrite Hnew, bind_Ret. unfold contents. cbn [g_bufs set_heap]. rewrite lookup_insert_eq, bind_Ret.
  destruct (fill_spec (garbage p ENET_MAX_MTU_SIZE) pBuffer nLength) as (content & Hfill & Hcl & Ht); [apply garbage_length|done|done|].
  rewrite Hfill, bind_Ret, get_txcb_eq. cbv iota.
  set (j := Z.to_nat ((c + n) `mod` 32)).
  destruct (lookup_lt_is_Some_2 (m_tx_cbs s) j) as [t Ht'].
  { rewrite (gi_tx_len _ _ _ _ Hi). pose proof (Z.mod_pos_bound (c + n) 32 ltac:(lia)). lia. }
  cbn [m_tx_cbs set_contents set_bufs set_heap]. rewrite (deref_lookup _ _ _ Ht'), bind_Ret.
  rewrite (proj1 (gi_tx _ _ _ _ Hi j t Ht')).
  pose proof (length_padded (take (Z.to_nat nLength) pBuffer)) as Hlp. rewrite length_take in Hlp.
  destruct (descriptor_length (Z.of_nat (length (padded (take (Z.to_nat nLength) pBuffer))))) as (Hv & Hv0 & Hvs); [lia|].
  set (v := Z.lor _ (Z.lor DMA_SOP DMA_EOP)) in *.
  exists true, (tx_after s j p h content v c n).
  assert (Epi : Z.land (u32 (prod_index (tx_ring_at c n) + 1)) DMA_INDEX_MASK = (c + (n + 1)) `mod` 65536).
  { pose proof (Z.mod_pos_bound (c + n) 65536 ltac:(lia)). change DMA_INDEX_MASK with 0xFFFF. cbn [tx_ring_at prod_index].
    rewrite land_ffff, wrap_small by (unfold uword; lia). rewrite Zplus_mod_idemp_l. f_equal. lia. }
  rewrite Epi. split; [|split; [done|split; [done|split; [done|]]]].
  - rewrite (dmadesc_set_log _ _ p v), (write32_log _ _ (_ `mod` _)) by
      (done || (pose proof (Z.mod_pos_bound (c + (n + 1)) 65536); unfold uword; lia)).
    rewrite set_tx_index_at. change send_ring with 0%nat. change (tx_index (tx_ring_at c n)) with 0.
    change (m_tx_rings (log _ _)) with (m_tx_rings s). by rewrite tx_after_log.
  - assert (n < 32) by lia. split; [lia|]. split; [by apply sent_inv|]. split; [by eapply sent_ring|].
    rewrite <- Ht, <- (Nat2Z.id (length (padded _))), <- Hvs. by eapply sent_queue.
Qed.

(** The buffer has 1,536 bytes, and the length is not tested against them. *)
Lemma send_too_long s ci c n pBuffer nLength : genet_inv s ci c n → n ≤ 30 → 1536 < nLength →
  SendFrame garbage s pBuffer nLength = Ub.
Proof.
  intros Hi Hn Hlen. unfold SendFrame. rewrite (send_ring_eq s ci c n Hi), !bind_Ret. cbn [tx_ring_at free_bds].
  rewrite (proj2 (Z.ltb_lt _ _)), (proj2 (Z.ltb_ge _ _)) by lia. cbn [negb].
  destruct (new_frame s ENET_MAX_MTU_SIZE (Z.to_nat (32 - n))) as (p & h & -> & _); [apply Hi| | |].
  { replace (S (Z.to_nat (32 - n))) with (Z.to_nat (33 - n)) by lia. apply Hi. }
  { unfold ENET_MAX_MTU_SIZE, FRAME_BLOCK. lia. }
  rewrite bind_Ret. unfold contents. cbn [g_bufs set_heap]. rewrite lookup_insert_eq, bind_Ret.
  unfold fill_tx_buffer, load_n. case_decide; [|done]. rewrite bind_Ret. unfold store_n.
  rewrite decide_False; [done|]. rewrite garbage_length, length_take, length_drop. unfold ENET_MAX_MTU_SIZE. lia.
Qed.

(** *** Reclaiming sent frames *)

Definition with_ring s (c n : Z) : genet H := set_tx_rings s (<[0%nat := tx_ring_at c n]> (m_tx_rings s)).

Lemma with_ring_id s ci c n : genet_inv s ci c n → with_ring s c n = s.
Proof.
  intros Hi. unfold with_ring. rewrite list_insert_id by (by apply Hi). by destruct s.
Qed.

(** Indices modulo 65536 give the same slots. *)
Lemma mod_slot a b : (a `mod` 65536 + b) `mod` 32 = (a + b) `mod` 32.
Proof.
  rewrite <- (Zplus_mod_idemp_l (a `mod` 65536)), Z.mod_mod_divide by (by exists 2048). by rewrite Zplus_mod_idemp_l.
Qed.

Lemma mod_slot_l b a : (b - a `mod` 65536) `mod` 32 = (b - a) `mod` 32.
Proof.
  rewrite <- (Zminus_mod_idemp_r b (a `mod` 65536)), Z.mod_mod_divide by (by exists 2048). by rewrite Zminus_mod_idemp_r.
Qed.

Lemma in_flight_oldest c n k : 0 < n ≤ 32 →
  in_flight ((c + 1) `mod` 65536) (n - 1) k ↔ in_flight c n k ∧ k ≠ Z.to_nat (c `mod` 32).
Proof.
  intros Hn. unfold in_flight. rewrite mod_slot_l. replace (Z.of_nat k - (c + 1)) with (Z.of_nat k - c - 1) by lia.
  rewrite <- (Zminus_mod_idemp_l (Z.of_nat k - c) 1).
  pose proof (Z.mod_pos_bound (Z.of_nat k - c) 32 ltac:(lia)) as Hm. pose proof (Z.mod_pos_bound c 32 ltac:(lia)) as Hc.
  assert (E : Z.of_nat k < 32 → ((Z.of_nat k - c) `mod` 32 = 0 ↔ k = Z.to_nat (c `mod` 32))).
  { intros Hk. split.
    - intros E0. apply Z.mod_divide in E0 as [q E0]; [|lia]. replace c with (Z.of_nat k + (- q) * 32) by lia.
      rewrite Z.mod_add, Z.mod_small by lia. lia.
    - intros ->. rewrite Z2Nat.id, Zminus_mod_idemp_l by lia. by rewrite Z.sub_diag. }
  destruct (decide ((Z.of_nat k - c) `mod` 32 = 0)) as [E0|E0].
  - rewrite E0. change ((0 - 1) `mod` 32) with 31. split; [lia|]. intros [[Hk _] Hne]. by rewrite <- E in Hne.
  - rewrite (Z.mod_small (_ - 1)) by lia. split; [|intros [[? ?] ?]; lia].
    intros [Hk Hlt]. split; [lia|]. by rewrite <- E.
Qed.

(** The state once slot [j] has been emptied *)
Definition freed_after s (j : nat) (q : Z) (h : H) : genet H :=
  mkGenet h (delete q (g_bufs s)) (g_in s) (g_out s) (m_rx_cbs s) (m_rx_ring s)
    (<[j := mkCB (tx_bd j) 0]> (m_tx_cbs s)) (m_tx_rings s) (m_crc_fwd_en s).

Section freed.
Context s (ci c n : Z) (j : nat) (q : Z) (h : H).
Hypothesis Hinv : genet_inv (with_ring s c n) ci c n.
Hypothesis Hn : 0 < n.
Hypothesis Hj : j = Z.to_nat (c `mod` 32).
Hypothesis Hq : m_tx_cbs s !! j = Some (mkCB (tx_bd j) q).
Hypothesis Hheap : heap_ok h.
Hypothesis Hroom : heap_room h (Z.to_nat (34 - n)).
Hypothesis Hlive : heap_live h = delete q (heap_live (g_heap s)).
Let s' := freed_after s j q h.

Lemma freed_held : held s !! (256 + j)%nat = Some q.
Proof. exact (held_tx _ _ _ _ j _ Hinv Hq). Qed.

Lemma freed_bufs i x : held s !! i = Some x → x ≠ 0 → i ≠ (256 + j)%nat → g_bufs s' !! x = g_bufs s !! x.
Proof.
  intros Hx Hne Hij. unfold s'. cbn. apply lookup_delete_ne. intros <-. apply Hij.
  exact (gi_held _ _ _ _ Hinv _ _ _ Hx freed_held Hne).
Qed.

Lemma freed_buf i x m : held s !! i = Some x → x ≠ 0 → i ≠ (256 + j)%nat → buf_ok s m x → buf_ok s' m x.
Proof.
  intros Hx Hne Hij (Hl & y & Hy & Hlen). split; [|exists y; by rewrite (freed_bufs i)].
  unfold s'. cbn. rewrite Hlive, lookup_delete_ne; [done|]. intros <-. apply Hij.
  exact (gi_held _ _ _ _ Hinv _ _ _ Hx freed_held Hne).
Qed.

Lemma freed_rx i x : m_rx_cbs s !! i = Some x → held s !! i = Some (buffer x) ∧ i ≠ (256 + j)%nat.
Proof.
  intros Hx. split; [exact (held_rx _ _ _ _ _ _ Hinv Hx)|]. apply lookup_lt_Some in Hx.
  pose proof (gi_rx_len _ _ _ _ Hinv) as Hl. cbn in Hl. lia.
Qed.

Lemma freed_inv : genet_inv (with_ring s' ((c + 1) `mod` 65536) (n - 1)) ci ((c + 1) `mod` 65536) (n - 1).
Proof.
  pose proof (gi_indices _ _ _ _ Hinv) as (Hci & Hc & Hn'). split.
  - done.
  - by replace (33 - (n - 1)) with (34 - n) by lia.
  - assert (E : held (with_ring s' ((c + 1) `mod` 65536) (n - 1)) = <[(256 + j)%nat := 0]> (held s)).
    { pose proof (gi_rx_len _ _ _ _ Hinv) as Hl. unfold s', held. cbn [freed_after with_ring set_tx_rings m_rx_cbs m_tx_cbs] in *.
      rewrite <- Hl, !fmap_app, list_fmap_insert, <- insert_app_r. cbn. by rewrite length_fmap. }
    rewrite E. apply distinct_insert; [apply Hinv|by left].
  - apply Hinv.
  - unfold s'. cbn. rewrite length_insert. apply Hinv.
  - intros i x Hx. destruct (gi_rx _ _ _ _ Hinv i x Hx) as (Hb & Hbuf & Hne & Hw). split; [done|].
    destruct (freed_rx i x Hx) as [Hx1 Hx2]. split; [by apply (freed_buf i)|done].
  - intros i x Hx. unfold s' in Hx. cbn in Hx. rewrite in_flight_oldest, <- Hj by lia.
    apply list_lookup_insert_Some in Hx as [(<- & <- & _)|[Hij Hx]]; [cbn; split; [done|]; split; [by intros []|done]|].
    destruct (gi_tx _ _ _ _ Hinv i x Hx) as (Hb & Hin & Hout). split; [done|]. split.
    + intros [Hf _]. destruct (Hin Hf) as [Hne Hbuf]. split; [done|].
      apply (freed_buf (256 + i)); [exact (held_tx _ _ _ _ _ _ Hinv Hx)|done|lia|done].
    + intros Hf. apply Hout. intros Hf'. by apply Hf.
  - apply Hinv.
  - rewrite Zplus_mod_idemp_l. replace (c + 1 + (n - 1)) with (c + n) by lia. apply Hinv.
  - apply Hinv.
  - destruct (gi_tx_rings _ _ _ _ Hinv) as (Hl & H0' & Hi & H16). cbn in *. rewrite length_insert in *.
    split; [done|]. rewrite list_lookup_insert_eq by lia. split; [done|]. split.
    + intros i Hii. specialize (Hi i Hii). rewrite list_lookup_insert_ne in * by lia. done.
    + rewrite list_lookup_insert_ne in * by lia. done.
  - split; [done|]. split; [apply Z.mod_pos_bound; lia|lia].
Qed.

Lemma freed_ring pend : ring_holds s ci pend → ring_holds s' ci pend.
Proof.
  intros (Hprod & Hlen & Hpend). split; [done|]. split; [done|]. intros k flags bytes Hk. cbv zeta.
  destruct (Hpend k flags bytes Hk) as (Hf & Hb & Hst & y & x & Hy & Hx & Ht).
  do 3 (split; [done|]). exists y, x. split; [done|]. split; [|done]. destruct (freed_rx _ y Hy) as [Hx1 Hx2].
  rewrite (freed_bufs _ _ Hx1); [done| |done]. by destruct (gi_rx _ _ _ _ Hinv _ y Hy) as (_ & _ & ? & _).
Qed.

Lemma freed_queue f fs : Z.of_nat (length (f :: fs)) = n → tx_queue s c (f :: fs) → tx_queue s' ((c + 1) `mod` 65536) fs.
Proof.
  intros Hfs Hqu k g Hk. pose proof (gi_indices _ _ _ _ Hinv) as (Hci & Hc & Hn'). cbn [length] in Hfs.
  assert (Hkl : (k < length fs)%nat) by (by eapply lookup_lt_Some).
  destruct (Hqu (S k) g Hk) as (x & y & w & Hx & Hy & Hrest).
  rewrite mod_slot. replace (c + 1 + Z.of_nat k) with (c + Z.of_nat (S k)) by lia.
  set (i := Z.to_nat ((c + Z.of_nat (S k)) `mod` 32)) in *. assert (Hf : in_flight ((c + 1) `mod` 65536) (n - 1) i).
  { unfold i. replace (c + Z.of_nat (S k)) with (c + 1 + Z.of_nat k) by lia. rewrite <- mod_slot.
    apply in_flight_slot; lia. }
  apply in_flight_oldest in Hf as [Hf Hij]; [|lia]. rewrite <- Hj in Hij.
  exists x, y, w. split; [unfold s'; cbn; by rewrite list_lookup_insert_ne|]. split; [|exact Hrest].
  rewrite <- Hy. apply (freed_bufs (256 + i)); [exact (held_tx _ _ _ _ _ _ Hinv Hx)| |lia].
  by apply (gi_tx _ _ _ _ Hinv i x Hx).
Qed.
End freed.

Lemma free_tx_cb_spec s ci c n : genet_inv (with_ring s c n) ci c n → 0 < n →
  let j := Z.to_nat (c `mod` 32) in
  ∃ q h, free_tx_cb s j = Ret (freed_after s j q h) ∧ m_tx_cbs s !! j = Some (mkCB (tx_bd j) q) ∧ heap_ok h ∧
    heap_room h (Z.to_nat (34 - n)) ∧ heap_live h = delete q (heap_live (g_heap s)).
Proof.
  intros Hi Hn j. pose proof (gi_indices _ _ _ _ Hi) as (Hci & Hc & Hn').
  pose proof (Z.mod_pos_bound c 32 ltac:(lia)) as Hm. pose proof (gi_tx_len _ _ _ _ Hi) as Htl. cbn in Htl.
  destruct (lookup_lt_is_Some_2 (m_tx_cbs s) j) as [t Ht]; [lia|].
  destruct (gi_tx _ _ _ _ Hi j t Ht) as (Hb & Hin & _). destruct Hin as [Hne [Hl _]].
  { unfold j. rewrite <- (Z.add_0_r c) at 2. apply in_flight_slot; lia. }
  unfold free_tx_cb. rewrite (deref_lookup _ _ _ Ht), bind_Ret, (proj2 (Z.eqb_neq _ _) Hne), Hb.
  destruct (delete_frame (set_tx_cbs s (<[j := mkCB (tx_bd j) 0]> (m_tx_cbs s))) (Z.to_nat (33 - n)) (buffer t))
    as (h & Hd & Hok & Hr & Hl'); [apply Hi..|exact Hl|].
  exists (buffer t), h. rewrite Hd. split; [done|]. split; [rewrite Ht, <- Hb; by destruct t|]. split; [done|].
  replace (Z.to_nat (34 - n)) with (S (Z.to_nat (33 - n))) by lia. done.
Qed.

Lemma next_slot c : (if c `mod` 32 <? 31 then c `mod` 32 + 1 else 0) = ((c + 1) `mod` 65536) `mod` 32.
Proof.
  rewrite Z.mod_mod_divide by (by exists 2048). rewrite <- (Zplus_mod_idemp_l c 1 32).
  pose proof (Z.mod_pos_bound c 32 ltac:(lia)). destruct (Z.ltb_spec (c `mod` 32) 31).
  - symmetry. apply Z.mod_small. lia.
  - by replace (c `mod` 32) with 31 by lia.
Qed.

Lemma reclaim_loop_spec m : ∀ s ci c n fs pend ring, genet_inv (with_ring s c n) ci c n → ring_holds s ci pend →
  tx_queue s c fs → Z.of_nat (length fs) = n → Z.of_nat m ≤ n → tx_end_ptr ring = 31 → tx_cb_ptr ring = 0 →
  let c' := (c + Z.of_nat m) `mod` 65536 in
  ∃ s', reclaim_loop m s ring (c `mod` 32) = Ret (c' `mod` 32, s') ∧
    genet_inv (with_ring s' c' (n - Z.of_nat m)) ci c' (n - Z.of_nat m) ∧ ring_holds s' ci pend ∧
    tx_queue s' c' (drop m fs) ∧ m_tx_rings s' = m_tx_rings s ∧ m_crc_fwd_en s' = m_crc_fwd_en s ∧ g_in s' = g_in s.
Proof.
  induction m as [|m IH]; intros s ci c n fs pend ring Hi Hh Hq Hfs Hm He Hcp; cbv zeta.
  - pose proof (gi_indices _ _ _ _ Hi) as (_ & Hc & _). rewrite Z.add_0_r, Z.sub_0_r, (Z.mod_small c 65536) by lia.
    by exists s.
  - destruct fs as [|f fs]; [cbn in Hfs; lia|].
    destruct (free_tx_cb_spec s ci c n Hi) as (q & h & Hf & Hsl & Hok & Hr & Hl); [lia|].
    cbn [reclaim_loop]. rewrite Hf, bind_Ret, He, Hcp, next_slot. set (s1 := freed_after _ _ _ _).
    destruct (IH s1 ci ((c + 1) `mod` 65536) (n - 1) fs pend ring) as (s' & Hloop & Hi' & Hh' & Hq' & Hrest).
    + apply freed_inv; done || lia.
    + eapply freed_ring; done || lia.
    + eapply freed_queue; done || lia.
    + cbn [length] in Hfs. lia.
    + lia.
    + done.
    + done.
    + rewrite Zplus_mod_idemp_l in *.
      replace (c + 1 + Z.of_nat m) with (c + Z.of_nat (S m)) in * by lia.
      replace (n - 1 - Z.of_nat m) with (n - Z.of_nat (S m)) in * by lia. by exists s'.
Qed.

(** A write to a register that says nothing about the rings *)
Lemma log_other s w ci c n pend fs : genet_inv s ci c n → ring_holds s ci pend → tx_queue s c fs →
  Z.of_nat (length fs) = n →
  Forall (λ y, fst y < ARM_BCM54213_BASE + 0x2000) w →
  genet_inv (log s w) ci c n ∧ ring_holds (log s w) ci pend ∧ tx_queue (log s w) c fs.
Proof.
  intros Hi Hh Hq Hfs Hw.
  assert (Hreg : ∀ a, ARM_BCM54213_BASE + 0x2000 ≤ a → last_write (g_out (log s w)) a = last_write (g_out s) a).
  { intros a Ha. apply last_write_other. eapply Forall_impl; [exact Hw|]. cbn. lia. }
  split; [|split; [exact Hh|]].
  - destruct Hi. split; try done.
    + intros i x Hx. destruct (gi_rx0 i x Hx) as (Hb & ? & ? & Hl). do 3 (split; [done|]).
      rewrite Hreg; [done|]. rewrite Hb. regs.
    + rewrite Hreg; [done|regs].
    + rewrite Hreg; [done|regs].
  - intros k f Hk. destruct (Hq k f Hk) as (x & y & v & Hx & Hy & Ha & Hv & Hf).
    exists x, y, v. rewrite !Hreg by regs. done.
Qed.

Lemma set_tx_clean_at c n m : 0 ≤ m ≤ n → n ≤ 32 →
  set_tx_clean (tx_ring_at c n) (((c + m) `mod` 65536) `mod` 32) ((c + m) `mod` 65536) (u32 (free_bds (tx_ring_at c n) + m))
  = tx_ring_at ((c + m) `mod` 65536) (n - m).
Proof.
  intros Hm Hn. unfold set_tx_clean, tx_ring_at. cbn. rewrite wrap_small by (unfold uword; lia).
  rewrite mod_slot, Zplus_mod_idemp_l. replace (c + m + (n - m)) with (c + n) by lia. f_equal. lia.
Qed.

(** What [tx_reclaim] of ring 0 does when the controller has sent [m] frames *)
Lemma tx_reclaim_spec s ci c n fs pend m : genet_inv s ci c n → ring_holds s ci pend → tx_queue s c fs →
  Z.of_nat (length fs) = n → 0 ≤ m ≤ n →
  read32 s (tdma_ring 0 TDMA_CONS_INDEX) `mod` 65536 = (c + m) `mod` 65536 →
  let c' := (c + m) `mod` 65536 in
  ∃ s', tx_reclaim s 0 = Ret (m, s') ∧ genet_inv s' ci c' (n - m) ∧ ring_holds s' ci pend ∧
    tx_queue s' c' (drop (Z.to_nat m) fs) ∧ m_crc_fwd_en s' = m_crc_fwd_en s ∧ g_in s' = g_in s.
Proof.
  intros Hi Hh Hq Hfs Hm Hcons c'. pose proof (gi_indices _ _ _ _ Hi) as (Hci & Hc & Hn).
  unfold tx_reclaim. rewrite (deref_lookup _ _ (tx_ring_at c n)) by (by apply Hi). rewrite bind_Ret.
  change (tx_index (tx_ring_at c n)) with 0. cbn [Z.eqb GENET_DESC_INDEX]. cbv zeta.
  rewrite (write32_log s) by (split; done).
  destruct (log_other s [(intrl2_1 INTRL2_CPU_CLEAR, 1 ≪ 0)] ci c n pend fs Hi Hh Hq Hfs) as (Hi1 & Hh1 & Hq1).
  { repeat constructor. }
  set (s1 := log s _) in *. change (read32 s1 ?a) with (read32 s a).
  rewrite <- (land_ffff (read32 _ _)) in Hcons. change 0xFFFF with DMA_INDEX_MASK in Hcons.
  rewrite Hcons. change (tx_c_index (tx_ring_at c n)) with c.
  rewrite diff_index, Zminus_mod_idemp_l. replace (c + m - c) with m by lia. rewrite (Z.mod_small m) by lia.
  change (clean_ptr (tx_ring_at c n)) with (c `mod` 32).
  destruct (reclaim_loop_spec (Z.to_nat m) s1 ci c n fs pend (tx_ring_at c n)) as (s' & Hl & Hi' & Hh' & Hq' & Hr & Hcrc & Hin);
    [by rewrite (with_ring_id s1 ci)|done|done|done|lia|done|done|].
  cbv zeta in Hl. rewrite Z2Nat.id in * by lia. rewrite Hl, bind_Ret, set_tx_clean_at by lia.
  exists (with_ring s' c' (n - m)). done.
Qed.

(** The controller has sent nothing through the idle rings. *)
Definition rings_idle s : Prop :=
  ∀ i, (0 < i < 4)%nat ∨ i = 16%nat → read32 s (tdma_ring (Z.of_nat i) TDMA_CONS_INDEX) `mod` 65536 = 0.

Lemma tx_reclaim_idle s i start size : m_tx_rings s !! i = Some (idle_ring (Z.of_nat i) start size) → (i < 17)%nat →
  0 ≤ size < 2 ^ 32 → read32 s (tdma_ring (Z.of_nat i) TDMA_CONS_INDEX) `mod` 65536 = 0 →
  ∃ a v, a < ARM_BCM54213_BASE + 0x2000 ∧ tx_reclaim s i = Ret (0, log s [(a, v)]).
Proof.
  intros Hr Hi Hs Hc. unfold tx_reclaim. rewrite (deref_lookup _ _ _ Hr), bind_Ret.
  change (tx_index (idle_ring (Z.of_nat i) start size)) with (Z.of_nat i). cbv zeta.
  rewrite <- (land_ffff (read32 _ _)) in Hc. change 0xFFFF with DMA_INDEX_MASK in Hc.
  assert (Hout : ∀ w, let s1 := log s w in
    ('(clean, s) ← reclaim_loop (Z.to_nat (Z.land (u32 (Z.land (read32 s1 (tdma_ring (Z.of_nat i) TDMA_CONS_INDEX)) DMA_INDEX_MASK - 0)) DMA_INDEX_MASK)) s1
       (idle_ring (Z.of_nat i) start size) start;
     Ret (Z.land (u32 (Z.land (read32 s1 (tdma_ring (Z.of_nat i) TDMA_CONS_INDEX)) DMA_INDEX_MASK - 0)) DMA_INDEX_MASK,
       set_tx_rings s (<[i := set_tx_clean (idle_ring (Z.of_nat i) start size) clean
         (Z.land (read32 s1 (tdma_ring (Z.of_nat i) TDMA_CONS_INDEX)) DMA_INDEX_MASK)
         (u32 (size + Z.land (u32 (Z.land (read32 s1 (tdma_ring (Z.of_nat i) TDMA_CONS_INDEX)) DMA_INDEX_MASK - 0)) DMA_INDEX_MASK))]> (m_tx_rings s))))
    = Ret (0, s1)).
  { intros w s1. change (read32 s1 ?a) with (read32 s a). rewrite Hc.
    change (Z.land (u32 (0 - 0)) DMA_INDEX_MASK) with 0. change (reclaim_loop (Z.to_nat 0) s1 ?r ?x) with (Ret (x, s1)). cbv beta iota. rewrite bind_Ret, Z.add_0_r.
    rewrite wrap_small by (unfold uword; lia). do 2 f_equal. unfold s1, set_tx_rings, log, upd. cbn. f_equal.
    apply list_insert_id. exact Hr. }
  destruct (Z.of_nat i =? GENET_DESC_INDEX).
  - rewrite (write32_log s) by (split; done). eexists _, _. split; [|apply Hout]. done.
  - rewrite (write32_log s) by (assert (i ∈ seq 0 17) as Hin%list_elem_of_In by (apply elem_of_seq; lia);
      cbn in Hin; repeat (destruct Hin as [<-|Hin]; [split; done|]); done).
    eexists _, _. split; [|apply Hout]. done.
Qed.

(** The queues 1 to 3 *)
Lemma reclaim_queues_idle k : ∀ status s i,
  (0 < i)%nat → (i + k ≤ 4)%nat → rings_idle s →
  (∀ j, (0 < j < 4)%nat → m_tx_rings s !! j = Some (idle_ring (Z.of_nat j) (Z.of_nat j * 32) 32)) →
  ∃ w, Forall (λ y, fst y < ARM_BCM54213_BASE + 0x2000) w ∧ reclaim_queues k status s i = Ret (log s w).
Proof.
  induction k as [|k IH]; intros status s i Hi Hk Hidle Hr.
  - exists []. split; [constructor|]. unfold log. by rewrite app_nil_r, upd_id.
  - cbn [reclaim_queues]. destruct (_ =? 0).
    + rewrite bind_Ret. apply IH; done || lia.
    + destruct (tx_reclaim_idle s i (Z.of_nat i * 32) 32) as (a & v & Ha & E); [apply Hr; lia|lia|lia|apply Hidle; lia|].
      rewrite E, !bind_Ret. destruct (IH status (log s [(a, v)]) (S i)) as (w & Hw & Ew); [lia|lia|done|done|].
      exists ((a, v) :: w). split; [by constructor|]. rewrite Ew, log_log. done.
Qed.

(** Bit 0 of the pending interrupts *)
Definition tx_interrupt s : bool :=
  Z.testbit (read32 s (intrl2_1 INTRL2_CPU_STAT)) 0 && negb (Z.testbit (read32 s (intrl2_1 INTRL2_CPU_MASK_STATUS)) 0).

Lemma land_one x : (Z.land x 1 =? 0) = negb (Z.testbit x 0).
Proof.
  change 1 with (Z.ones 1). rewrite Z.land_ones by lia. rewrite Z.bit0_odd, Zmod_odd. by destruct (Z.odd x).
Qed.

(** The interrupt handler frees exactly the frames the controller reports as
    sent: when it has sent the [m] oldest of the frames waiting and raises the
    interrupt of the ring, their buffers return to the heap and their slots to
    the ring, and the younger frames keep waiting in their order; without the
    interrupt nothing changes.  It always returns. *)
Lemma interrupt_spec s ci c n fs pend m : genet_inv s ci c n → ring_holds s ci pend → tx_queue s c fs →
  Z.of_nat (length fs) = n → 0 ≤ m ≤ n →
  read32 s (tdma_ring 0 TDMA_CONS_INDEX) `mod` 65536 = (c + m) `mod` 65536 → rings_idle s →
  let m' := if tx_interrupt s then m else 0 in
  let c' := (c + m') `mod` 65536 in
  ∃ s', InterruptHandler1 s = Ret s' ∧ genet_inv s' ci c' (n - m') ∧ ring_holds s' ci pend ∧
    tx_queue s' c' (drop (Z.to_nat m') fs) ∧ m_crc_fwd_en s' = m_crc_fwd_en s ∧ g_in s' = g_in s.
Proof.
  intros Hi Hh Hq Hfs Hm Hcons Hidle m' c'. pose proof (gi_indices _ _ _ _ Hi) as (_ & Hc & _).
  unfold InterruptHandler1. cbv zeta. set (status := Z.land _ _). set (s1 := write32 s _ status).
  destruct (log_other s [(intrl2_1 INTRL2_CPU_CLEAR, u32 status)] ci c n pend fs Hi Hh Hq Hfs) as (Hi1 & Hh1 & Hq1).
  { repeat constructor. }
  change (log s _) with s1 in *. change TX_QUEUES with 4%nat. cbn [reclaim_queues].
  assert (Es : (Z.land status (1 ≪ Z.of_nat 0) =? 0) = negb (tx_interrupt s)).
  { change (1 ≪ Z.of_nat 0) with 1. rewrite land_one. unfold status, tx_interrupt. f_equal.
    rewrite Z.land_spec. f_equal. unfold wrap. rewrite Z.mod_pow2_bits_low by lia. by apply Z.lnot_spec. }
  rewrite Es.
  assert (Hfirst : ∃ s2, (if negb (tx_interrupt s) then Ret s1 else '(_, s) ← tx_reclaim s1 0; Ret s) = Ret s2 ∧
    genet_inv s2 ci c' (n - m') ∧ ring_holds s2 ci pend ∧ tx_queue s2 c' (drop (Z.to_nat m') fs) ∧
    m_crc_fwd_en s2 = m_crc_fwd_en s ∧ g_in s2 = g_in s).
  { unfold c', m'. destruct (tx_interrupt s); cbn [negb].
    - destruct (tx_reclaim_spec s1 ci c n fs pend m) as (s2 & E & H2); try done. rewrite E, bind_Ret. by exists s2.
    - rewrite Z.add_0_r, Z.sub_0_r, Z.mod_small by lia. by exists s1. }
  destruct Hfirst as (s2 & -> & Hi2 & Hh2 & Hq2 & Hcrc & Hin). rewrite bind_Ret.
  destruct (reclaim_queues_idle 3 status s2 1) as (w & Hw & Ew); [lia|lia| |by apply Hi2|].
  { intros i Hii. unfold read32. rewrite Hin. by apply Hidle. }
  cbn [reclaim_queues] in Ew. rewrite Ew. exists (log s2 w). split; [done|].
  destruct (log_other s2 w ci c' (n - m') pend (drop (Z.to_nat m') fs) Hi2 Hh2 Hq2) as (? & ? & ?); [|done|].
  { rewrite length_drop. unfold m' in *. destruct (tx_interrupt s); lia. }
  done.
Qed.

(** *** Setting up the rings *)

(** [alloc_rx_buffers] has filled the first [i] slots. *)
Record rx_filled s (i : nat) : Prop := {
  rf_heap : heap_ok (g_heap s);
  rf_room : heap_room (g_heap s) (289 - i);
  rf_len : length (m_rx_cbs s) = 256%nat;
  rf_distinct : distinct (buffer <$> m_rx_cbs s);
  rf_slots : ∀ j cb, m_rx_cbs s !! j = Some cb → bd_addr cb = rx_bd j ∧
    ((j < i)%nat → buf_ok s RX_BUF_LENGTH (buffer cb) ∧ buffer cb ≠ 0 ∧
       last_write (g_out s) (bd_addr cb + DMA_DESC_ADDRESS_LO) = Some (buffer cb)) ∧
    ((i ≤ j)%nat → buffer cb = 0)
}.

Lemma rx_filled_next s i : rx_filled s i → (i < 256)%nat →
  ∃ cb p h b out, rx_refill garbage s i = Ret (0, upd s h b out (<[i := mkCB (bd_addr cb) p]> (m_rx_cbs s)) (m_rx_ring s)) ∧
    p ≠ 0 ∧ rx_filled (upd s h b out (<[i := mkCB (bd_addr cb) p]> (m_rx_cbs s)) (m_rx_ring s)) (S i).
Proof.
  intros Hi Hlt. pose proof (rf_len _ _ Hi) as Hl.
  destruct (lookup_lt_is_Some_2 (m_rx_cbs s) i) as [cb Hcb]; [lia|].
  destruct (rf_slots _ _ Hi i cb Hcb) as (Hb & _ & H0'). specialize (H0' ltac:(lia)).
  destruct (new_frame s RX_BUF_LENGTH (288 - i)) as (p & h & Hnew & Hok & Hroom & Hpr & Hfresh & Hlive); [apply Hi| | |].
  { replace (S (288 - i)) with (289 - i)%nat by lia. apply Hi. }
  { unfold RX_BUF_LENGTH, FRAME_BLOCK. lia. }
  exists cb, p, h. do 2 eexists. rewrite (rx_refill_spec s i cb p h Hcb) by (done || unfold uword; lia).
  rewrite H0'. split; [reflexivity|]. split; [lia|].
  assert (Hnin : p ∉ buffer <$> m_rx_cbs s).
  { intros (x & Ex & [j Hx]%list_elem_of_lookup)%list_elem_of_fmap.
    destruct (rf_slots _ _ Hi j x Hx) as (_ & Hin & Hout).
    destruct (decide (j < i)%nat) as [Hji|Hji]; [destruct (Hin Hji) as ((? & _) & _); congruence|].
    rewrite Hout in Ex; lia. }
  split; cbn.
  - done.
  - by replace (289 - S i)%nat with (288 - i)%nat by lia.
  - by rewrite length_insert.
  - rewrite list_fmap_insert. apply distinct_insert; [apply Hi|by right].
  - intros j x Hx. apply list_lookup_insert_Some in Hx as [(<- & <- & _)|[Hij Hx]].
    + cbn. split; [done|]. split; [|lia]. intros _. split; [|split; [lia|]].
      * split; cbn; [by rewrite Hlive, lookup_insert_eq|]. exists (garbage p RX_BUF_LENGTH).
        split; [by rewrite lookup_insert_eq|apply garbage_length].
      * rewrite last_write_app. cbn [last_write]. rewrite Hb, Z.eqb_refl. by rewrite (proj2 (Z.eqb_neq _ _)) by regs.
    + destruct (rf_slots _ _ Hi j x Hx) as (Hxb & Hin & Hout). split; [done|]. split; [|intros; apply Hout; lia].
      intros Hji. destruct Hin as ((Hlx & y & Hy & Hlen) & Hne & Hw); [lia|].
      assert (p ≠ buffer x) by congruence. split; [|split; [done|]].
      * split; cbn; [by rewrite Hlive, lookup_insert_ne|]. exists y. by rewrite lookup_insert_ne.
      * rewrite last_write_other; [done|]. rewrite Hxb, Hb. repeat constructor; cbn; regs.
Qed.

(** What [alloc_rx_buffers] leaves alone *)
Definition same_tx s s' : Prop :=
  g_in s' = g_in s ∧ m_rx_ring s' = m_rx_ring s ∧ m_tx_cbs s' = m_tx_cbs s ∧ m_tx_rings s' = m_tx_rings s ∧
  m_crc_fwd_en s' = m_crc_fwd_en s.

Lemma alloc_rx_buffers_spec k : ∀ s i, rx_filled s i → (i + k = 256)%nat →
  ∃ s', alloc_rx_buffers garbage k s i = Ret (true, s') ∧ rx_filled s' 256 ∧ same_tx s s'.
Proof.
  induction k as [|k IH]; intros s i Hi Hk.
  - rewrite Nat.add_0_r in Hk. subst i. by exists s.
  - destruct (rx_filled_next s i Hi) as (cb & p & h & b & out & E & Hp & Hi'); [lia|].
    cbn [alloc_rx_buffers]. rewrite E, bind_Ret. cbn [m_rx_cbs upd].
    rewrite (deref_lookup _ _ (mkCB (bd_addr cb) p)), bind_Ret by
      (apply list_lookup_insert_eq; rewrite (rf_len _ _ Hi); lia).
    cbn [buffer]. rewrite (proj2 (Z.eqb_neq _ _) Hp).
    destruct (IH _ (S i) Hi') as (s' & E' & Hf & Hs); [lia|]. by exists s'.
Qed.

(** The registers of a transmit ring *)
Definition tx_ring_regs (index size start_ptr end_ptr : Z) : list (Z * Z) :=
  [(tdma_ring index TDMA_PROD_INDEX, 0); (tdma_ring index TDMA_CONS_INDEX, 0);
   (tdma_ring index DMA_MBUF_DONE_THRESH, 10);
   (tdma_ring index TDMA_FLOW_PERIOD, u32 (if index =? GENET_DESC_INDEX then 0 else ENET_MAX_MTU_SIZE ≪ 16));
   (tdma_ring index DMA_RING_BUF_SIZE, u32 (Z.lor (size ≪ 16) RX_BUF_LENGTH));
   (tdma_ring index DMA_START_ADDR, u32 (start_ptr * WORDS_PER_BD));
   (tdma_ring index TDMA_READ_PTR, u32 (start_ptr * WORDS_PER_BD));
   (tdma_ring index TDMA_WRITE_PTR, u32 (start_ptr * WORDS_PER_BD));
   (tdma_ring index DMA_END_ADDR, u32 (end_ptr * WORDS_PER_BD - 1))].

(** Writes behind the receive descriptors *)
Definition high (w : list (Z * Z)) : Prop := Forall (λ y, ARM_BCM54213_BASE + GENET_RDMA_REG_OFF ≤ fst y) w.

Lemma init_tx_ring_log s index size start_ptr end_ptr :
  init_tx_ring s index size start_ptr end_ptr
  = set_tx_rings (log s (tx_ring_regs index size start_ptr end_ptr))
      (<[Z.to_nat index := mkTxRing index (if index =? GENET_DESC_INDEX then 0 else index + 1) start_ptr size
           start_ptr 0 size start_ptr 0 start_ptr (end_ptr - 1)]> (m_tx_rings s)).
Proof.
  unfold init_tx_ring. cbv zeta. rewrite !write32_u32, !log_log. done.
Qed.

Lemma log_rings s w r : log (set_tx_rings s r) w = set_tx_rings (log s w) r.
Proof. done. Qed.

Lemma init_tx_queues_log s :
  ∃ w, init_tx_queues s true = set_tx_rings (log s w)
    (<[16%nat := idle_ring 16 128 128]> (<[3%nat := idle_ring 3 96 32]> (<[2%nat := idle_ring 2 64 32]>
       (<[1%nat := idle_ring 1 32 32]> (<[0%nat := tx_ring_at 0 0]> (m_tx_rings s)))))) ∧
    high w ∧ last_write w (rdma_ring GENET_DESC_INDEX RDMA_CONS_INDEX) = None ∧
    last_write w (tdma_ring 0 TDMA_PROD_INDEX) = Some 0.
Proof.
  unfold init_tx_queues. cbv zeta. change TX_QUEUES with 4%nat. cbn [init_tx_priority].
  rewrite !init_tx_ring_log, !write32_u32, !log_rings, !log_log. eexists. split; [reflexivity|].
  split; [apply (bool_decide_eq_true_1 _); vm_compute; reflexivity|]. split; vm_compute; reflexivity.
Qed.

Lemma init_rx_ring_spec s : rx_filled s 0 →
  ∃ s' w, init_rx_ring garbage s GENET_DESC_INDEX GENET_Q16_RX_BD_CNT 0 TOTAL_DESC = Ret (true, log s' w) ∧
    rx_filled s' 256 ∧ same_tx (set_rx_ring s (rx_ring_at 0 0)) s' ∧
    high w ∧ last_write w (rdma_ring GENET_DESC_INDEX RDMA_CONS_INDEX) = Some 0.
Proof.
  intros Hf. unfold init_rx_ring.
  destruct (alloc_rx_buffers_spec 256 (set_rx_ring s (rx_ring_at 0 0)) 0) as (s' & E & Hf' & Hs); [|done|].
  { destruct Hf. by split. }
  exists s'. change (Z.to_nat GENET_Q16_RX_BD_CNT) with 256%nat. change (Z.to_nat 0) with 0%nat.
  match goal with |- context [set_rx_ring s ?r] => change r with (rx_ring_at 0 0) end.
  rewrite E, bind_Ret. cbn [negb]. cbv zeta. rewrite !write32_u32, !log_log. eexists. split; [reflexivity|].
  split; [done|]. split; [done|].
  split; [apply (bool_decide_eq_true_1 _); vm_compute; reflexivity|]. vm_compute. reflexivity.
Qed.

Lemma last_write_some out out' a v : last_write out' a = Some v → last_write (out ++ out') a = Some v.
Proof. intros E. by rewrite last_write_app, E. Qed.

(** Writes behind the descriptors leave the slots as they are. *)
Lemma high_slot w j : high w → (j < 256)%nat → Forall (λ y, fst y ≠ rx_bd j + DMA_DESC_ADDRESS_LO) w.
Proof. intros Hw Hj. eapply Forall_impl; [exact Hw|]. cbn. intros y Hy E. rewrite E in Hy. revert Hy. regs. Qed.

Lemma rx_filled_log s w i : rx_filled s i → high w → rx_filled (log s w) i.
Proof.
  intros Hf Hw. pose proof (rf_len _ _ Hf) as Hlen. destruct Hf. split; try done.
  intros j cb Hcb. destruct (rf_slots0 j cb Hcb) as (Hb & Hin & Hout). split; [done|]. split; [|done].
  intros Hj. destruct (Hin Hj) as (? & ? & Hl). split; [done|]. split; [done|].
  cbn [log upd g_out]. rewrite last_write_other; [done|]. rewrite Hb. apply high_slot; [done|].
  rewrite <- Hlen. by eapply lookup_lt_Some.
Qed.

Lemma init_rx_queues_spec s : rx_filled s 0 →
  ∃ s' w, init_rx_queues garbage s = Ret (true, log s' w) ∧
    rx_filled s' 256 ∧ same_tx (set_rx_ring s (rx_ring_at 0 0)) s' ∧
    high w ∧ last_write w (rdma_ring GENET_DESC_INDEX RDMA_CONS_INDEX) = Some 0.
Proof.
  intros Hf. unfold init_rx_queues. cbv zeta. rewrite (write32_u32 s).
  destruct (init_rx_ring_spec (log s [(rdma DMA_CTRL, u32 (Z.land (read32 s (rdma DMA_CTRL)) (u32 (Z.lnot DMA_EN))))]))
    as (s' & w & E & Hf' & Hs & Hw & Hl).
  { apply rx_filled_log; [done|]. by repeat constructor. }
  rewrite E, bind_Ret. cbn [negb]. rewrite !write32_u32, !log_log. exists s'. eexists. split; [reflexivity|].
  split; [done|]. split; [done|]. split.
  - apply Forall_app. split; [exact Hw|]. by repeat constructor.
  - rewrite last_write_app. by rewrite Hl.
Qed.

Lemma fresh_cbs_lookup offset j cb : fresh_cbs offset !! j = Some cb →
  cb = mkCB (ARM_BCM54213_BASE + offset + Z.of_nat j * DMA_DESC_SIZE) 0 ∧ (j < 256)%nat.
Proof.
  intros Hj. unfold fresh_cbs in Hj. apply list_lookup_fmap_Some_1 in Hj as (i & -> & Hi).
  apply lookup_seq in Hi as [-> Hlt]. done.
Qed.

Lemma length_fresh_cbs offset : length (fresh_cbs offset) = 256%nat.
Proof. unfold fresh_cbs. by rewrite length_fmap, length_seq. Qed.

Lemma fresh_distinct (l : list TGEnetCB) : (∀ j cb, l !! j = Some cb → buffer cb = 0) → distinct (buffer <$> l).
Proof.
  intros Hl i j p Hi _ Hp. apply list_lookup_fmap_Some_1 in Hi as (cb & -> & Hcb). by rewrite (Hl i cb Hcb) in Hp.
Qed.

Lemma fresh_filled s : heap_ok (g_heap s) → heap_room (g_heap s) 289 →
  rx_filled (set_tx_cbs (set_rx_cbs s (fresh_cbs RDMA_OFFSET)) (fresh_cbs TDMA_OFFSET)) 0.
Proof.
  intros Hok Hr. split; [done|done|apply length_fresh_cbs| |].
  - apply fresh_distinct. by intros j cb [-> _]%fresh_cbs_lookup.
  - intros j cb [-> _]%fresh_cbs_lookup. split; [done|]. split; [lia|done].
Qed.

(** Without frames to send only the receive ring holds buffers. *)
Lemma setup_held s : distinct (buffer <$> m_rx_cbs s) → (∀ j cb, m_tx_cbs s !! j = Some cb → buffer cb = 0) →
  distinct (held s).
Proof.
  intros Hd Htx i j p Hi Hj Hp. unfold held in *. rewrite fmap_app in *.
  apply lookup_app_Some in Hi as [Hi|[_ Hi]].
  2:{ apply list_lookup_fmap_Some_1 in Hi as (cb & -> & Hcb). by rewrite (Htx _ _ Hcb) in Hp. }
  apply lookup_app_Some in Hj as [Hj|[_ Hj]]; [by eapply Hd|].
  apply list_lookup_fmap_Some_1 in Hj as (cb & -> & Hcb). by rewrite (Htx _ _ Hcb) in Hp.
Qed.

(** The two arrays of control blocks *)
Lemma new_cbs_spec s k : heap_ok (g_heap s) → heap_room (g_heap s) (S k) →
  ∃ p h, new_cbs s = Ret (p, set_heap s h (g_bufs s)) ∧ p ≠ 0 ∧ heap_ok h ∧ heap_room h k.
Proof.
  intros Hok Hr. destruct (heap_room_alloc _ k (TOTAL_DESC * TGEnetCB_SIZE) Hok Hr) as (p & h & Ha & Hok' & Hr' & Hf & _).
  { unfold TOTAL_DESC, TGEnetCB_SIZE, FRAME_BLOCK. lia. }
  exists p, h. unfold new_cbs. rewrite Ha, bind_Ret. split; [done|]. split; [|done].
  destruct Hf as (Hp & _). lia.
Qed.

Lemma setup_rings l : length l = 17%nat →
  let l' := <[16%nat := idle_ring 16 128 128]> (<[3%nat := idle_ring 3 96 32]> (<[2%nat := idle_ring 2 64 32]>
       (<[1%nat := idle_ring 1 32 32]> (<[0%nat := tx_ring_at 0 0]> l)))) in
  l' !! 0%nat = Some (tx_ring_at 0 0) ∧
  (∀ i, (0 < i < 4)%nat → l' !! i = Some (idle_ring (Z.of_nat i) (Z.of_nat i * 32) 32)) ∧
  l' !! 16%nat = Some (idle_ring 16 128 128).
Proof.
  intros Hl. do 17 (destruct l as [|? l]; [discriminate Hl|]). cbn. split; [done|]. split; [|done].
  intros i Hi. assert (i = 1 ∨ i = 2 ∨ i = 3)%nat as [-> | [-> | ->]] by lia; done.
Qed.

Lemma setup_done s w : rx_filled s 256 → m_rx_ring s = rx_ring_at 0 0 → m_tx_cbs s = fresh_cbs TDMA_OFFSET →
  length (m_tx_rings s) = 17%nat → high w →
  last_write w (rdma_ring GENET_DESC_INDEX RDMA_CONS_INDEX) = Some 0 →
  last_write w (tdma_ring 0 TDMA_PROD_INDEX) = Some 0 →
  genet_inv (set_tx_rings (log s w)
    (<[16%nat := idle_ring 16 128 128]> (<[3%nat := idle_ring 3 96 32]> (<[2%nat := idle_ring 2 64 32]>
       (<[1%nat := idle_ring 1 32 32]> (<[0%nat := tx_ring_at 0 0]> (m_tx_rings s))))))) 0 0 0.
Proof.
  intros Hf Hring Htx Hl Hw Hcons Hprod.
  assert (Hno : ∀ j, ¬ in_flight 0 0 j) by (intros j [_ Hj]; pose proof (Z.mod_pos_bound (Z.of_nat j - 0) 32); lia).
  split.
  - apply Hf.
  - apply Hf.
  - apply setup_held; [apply Hf|]. cbn. rewrite Htx. by intros j cb [-> _]%fresh_cbs_lookup.
  - apply Hf.
  - cbn. rewrite Htx. apply length_fresh_cbs.
  - intros j cb Hcb. destruct (rf_slots _ _ Hf j cb Hcb) as (Hb & Hin' & _).
    assert (Hj : (j < 256)%nat) by (rewrite <- (rf_len _ _ Hf); by eapply lookup_lt_Some).
    destruct (Hin' Hj) as (Hbuf & Hne & Hlw). do 3 (split; [done|]). cbn [set_tx_rings log upd g_out].
    rewrite last_write_other; [done|]. rewrite Hb. by apply high_slot.
  - intros j cb Hcb. cbn in Hcb. rewrite Htx in Hcb. apply fresh_cbs_lookup in Hcb as [-> _]. split; [done|].
    split; [by intros []%Hno|done].
  - by apply last_write_some.
  - by apply last_write_some.
  - exists 0. split; [lia|exact Hring].
  - cbn [set_tx_rings log upd m_tx_rings]. rewrite !length_insert. split; [done|].
    destruct (setup_rings (m_tx_rings s) Hl) as (? & ? & ?). done.
  - lia.
Qed.

(** After the set-up of the rings, given a heap with room for 291 frames, the
    driver's invariant holds with an empty receive ring and nothing to send: all
    256 slots have buffers of their own, and the controller knows them. *)
Lemma init_dma_spec s : heap_ok (g_heap s) → heap_room (g_heap s) 291 → length (m_tx_rings s) = 17%nat →
  ∃ s', init_dma garbage s = Ret (true, s') ∧ genet_inv s' 0 0 0 ∧ tx_queue s' 0 [] ∧
    g_in s' = g_in s ∧ m_crc_fwd_en s' = m_crc_fwd_en s.
Proof.
  intros Hok Hr Hl. unfold init_dma. cbv zeta.
  destruct (new_cbs_spec s 290 Hok Hr) as (rx & h & -> & Hrx & Hok1 & Hr1).
  rewrite bind_Ret, (proj2 (Z.eqb_neq _ _) Hrx). set (s1 := set_rx_cbs _ _).
  destruct (new_cbs_spec s1 289 Hok1 Hr1) as (tx & h' & -> & Htx & Hok2 & Hr2).
  rewrite bind_Ret, (proj2 (Z.eqb_neq _ _) Htx), write32_u32.
  destruct (init_rx_queues_spec (log (set_tx_cbs (set_heap s1 h' (g_bufs s1)) (fresh_cbs TDMA_OFFSET))
    [(rdma DMA_SCB_BURST_SIZE, u32 DMA_MAX_BURST_LENGTH)])) as (s2 & w & E & Hf & Hs & Hw & Hcons).
  { apply rx_filled_log; [|by repeat constructor].
    exact (fresh_filled (set_heap s h' (g_bufs s)) Hok2 Hr2). }
  rewrite E, bind_Ret. cbn [negb]. rewrite write32_u32, log_log.
  destruct (init_tx_queues_log (log s2 (w ++ [(tdma DMA_SCB_BURST_SIZE, u32 DMA_MAX_BURST_LENGTH)])))
    as (w' & -> & Hw' & Hcons' & Hprod). rewrite log_log.
  destruct Hs as (Hin & Hring & Htcbs & Hrings & Hcrc).
  eexists. split; [reflexivity|]. split; [|split; [by intros k f|done]].
  change (m_tx_rings (log s2 _)) with (m_tx_rings s2).
  apply setup_done; [exact Hf|exact Hring|exact Htcbs|by rewrite Hrings| | |].
  - apply Forall_app. split; [apply Forall_app; split; [exact Hw|by repeat constructor]|exact Hw'].
  - rewrite last_write_app, Hcons'. by rewrite last_write_app, Hcons.
  - by apply last_write_some.
Qed.

(** ** The controller

    What the driver relies on.  The controller changes what the registers read and
    the receive buffers, nothing else. *)
Definition set_env s (in' : Z → Z) (b' : gmap Z (list Z)) : genet H :=
  mkGenet (g_heap s) b' in' (g_out s) (m_rx_cbs s) (m_rx_ring s) (m_tx_cbs s) (m_tx_rings s) (m_crc_fwd_en s).

Definition next_slot_in s : nat :=
  Z.to_nat (read32 s (rdma_ring GENET_DESC_INDEX RDMA_PROD_INDEX) `mod` 256).

(** A packet has arrived: it is put into the buffer whose address was last written to
    the descriptor of the slot after the last one, its length and its flags into
    the descriptor, and the producer index counts it. *)
Record nic_stored s (flags : Z) (bytes : list Z) (in' : Z → Z) (b' : gmap Z (list Z)) : Prop := {
  ns_prod : in' (rdma_ring GENET_DESC_INDEX RDMA_PROD_INDEX) `mod` 65536
    = (read32 s (rdma_ring GENET_DESC_INDEX RDMA_PROD_INDEX) + 1) `mod` 65536;
  ns_status : in' (rx_bd (next_slot_in s) + DMA_DESC_LENGTH_STATUS) = Z.lor (Z.of_nat (length bytes) ≪ 16) flags;
  ns_other : ∀ j, (j < 256)%nat → j ≠ next_slot_in s →
    in' (rx_bd j + DMA_DESC_LENGTH_STATUS) = read32 s (rx_bd j + DMA_DESC_LENGTH_STATUS);
  ns_tx : ∀ i, (i < 17)%nat → in' (tdma_ring (Z.of_nat i) TDMA_CONS_INDEX) = read32 s (tdma_ring (Z.of_nat i) TDMA_CONS_INDEX);
  ns_buffer : ∃ addr content, last_write (g_out s) (rx_bd (next_slot_in s) + DMA_DESC_ADDRESS_LO) = Some addr ∧
    g_bufs s !! addr = Some content ∧ b' = <[addr := bytes ++ drop (length bytes) content]> (g_bufs s)
}.

(** The [m] oldest frames have been sent, and the interrupt of the ring is raised. *)
Record nic_sent s (m : Z) (in' : Z → Z) : Prop := {
  nt_prod : in' (rdma_ring GENET_DESC_INDEX RDMA_PROD_INDEX) = read32 s (rdma_ring GENET_DESC_INDEX RDMA_PROD_INDEX);
  nt_status : ∀ j, (j < 256)%nat → in' (rx_bd j + DMA_DESC_LENGTH_STATUS) = read32 s (rx_bd j + DMA_DESC_LENGTH_STATUS);
  nt_cons : in' (tdma_ring 0 TDMA_CONS_INDEX) `mod` 65536 = (read32 s (tdma_ring 0 TDMA_CONS_INDEX) + m) `mod` 65536;
  nt_idle : ∀ i, (0 < i < 17)%nat →
    in' (tdma_ring (Z.of_nat i) TDMA_CONS_INDEX) = read32 s (tdma_ring (Z.of_nat i) TDMA_CONS_INDEX);
  nt_interrupt : tx_interrupt (set_env s in' (g_bufs s)) = true
}.

(** The invariant allows the contents of the buffers to change. *)
Lemma env_inv s ci c n in' b' : genet_inv s ci c n →
  (∀ p x, g_bufs s !! p = Some x → ∃ x', b' !! p = Some x' ∧ length x' = length x) →
  genet_inv (set_env s in' b') ci c n.
Proof.
  intros Hi Hb. assert (Hbuf : ∀ m p, buf_ok s m p → buf_ok (set_env s in' b') m p).
  { intros m p (Hl & x & Hx & Hlen). split; [done|]. destruct (Hb p x Hx) as (x' & Hx' & E). exists x'. by rewrite E. }
  destruct Hi. split; try done.
  - intros i cb Hcb. destruct (gi_rx0 i cb Hcb) as (? & ? & ? & ?). split_and!; try done. by apply Hbuf.
  - intros j cb Hcb. destruct (gi_tx0 j cb Hcb) as (? & Hin & ?). split_and!; try done.
    intros Hf. destruct (Hin Hf). split; [done|]. by apply Hbuf.
Qed.

Lemma stored_slot s ci c n pend : genet_inv s ci c n → ring_holds s ci pend →
  next_slot_in s = Z.to_nat ((ci + Z.of_nat (length pend)) `mod` 256).
Proof.
  intros Hi (Hp & _). unfold next_slot_in. f_equal.
  rewrite <- (Z.mod_mod_divide (read32 _ _) 65536 256), Hp by (by exists 256). apply Z.mod_mod_divide. by exists 256.
Qed.

Lemma stored_ok s ci c n pend fs flags bytes in' b' : genet_inv s ci c n → ring_holds s ci pend → tx_queue s c fs →
  Z.of_nat (length fs) = n → 0 ≤ flags < 65536 → (length bytes ≤ 2048)%nat → (length pend < 256)%nat →
  nic_stored s flags bytes in' b' →
  genet_inv (set_env s in' b') ci c n ∧ ring_holds (set_env s in' b') ci (pend ++ [(flags, bytes)]) ∧
  tx_queue (set_env s in' b') c fs.
Proof.
  intros Hi Hh Hq Hfs Hfl Hby Hpend [Hprod Hst Hother _ (addr & content & Haddr & Hcont & ->)].
  pose proof (gi_indices _ _ _ _ Hi) as (Hci & Hc & Hn). pose proof (stored_slot s ci c n pend Hi Hh) as Hslot.
  set (i := next_slot_in s) in *.
  assert (Hi256 : (i < 256)%nat) by (pose proof (Z.mod_pos_bound (ci + Z.of_nat (length pend)) 256); lia).
  destruct (lookup_lt_is_Some_2 (m_rx_cbs s) i) as [cb Hcb]; [by rewrite (gi_rx_len _ _ _ _ Hi)|].
  destruct (gi_rx _ _ _ _ Hi i cb Hcb) as (Hbd & (Hlive & y & Hy & Hyl) & Hne & Hw).
  rewrite Hbd, Haddr in Hw. injection Hw as ->. rewrite Hcont in Hy. injection Hy as <-.
  change (Z.to_nat RX_BUF_LENGTH) with 2048%nat in Hyl.
  assert (Hkeep : ∀ k x, held s !! k = Some x → k ≠ i → x ≠ 0 →
    <[buffer cb := bytes ++ drop (length bytes) content]> (g_bufs s) !! x = g_bufs s !! x).
  { intros k x Hk Hki Hx. apply lookup_insert_ne. intros E. apply Hki. symmetry.
    eapply (gi_held _ _ _ _ Hi); [by eapply held_rx|by rewrite E|done]. }
  split; [|split].
  - apply env_inv; [done|]. intros p x Hx. destruct (decide (p = buffer cb)) as [->|Hp].
    + rewrite lookup_insert_eq. eexists. split; [done|]. rewrite length_app, length_drop. simplify_eq. lia.
    + exists x. by rewrite lookup_insert_ne.
  - destruct Hh as (Hp & Hlen & Hh). split; [|split; [rewrite length_app; cbn; lia|]].
    + unfold set_env, read32 in *. cbn. rewrite Hprod, <- Zplus_mod_idemp_l, Hp, Zplus_mod_idemp_l, length_app.
      f_equal. cbn. lia.
    + intros k f b Hk. cbv zeta. apply lookup_snoc_Some in Hk as [[Hk Hk']|[-> [= <- <-]]].
      * destruct (Hh k f b Hk') as (? & ? & Hs & x & cx & Hx & Hcx & Ht).
        pose proof (Z.mod_pos_bound (ci + Z.of_nat k) 256 ltac:(lia)).
        assert (Hki : Z.to_nat ((ci + Z.of_nat k) `mod` 256) ≠ i).
        { rewrite Hslot. intros E. apply Z2Nat.inj in E; [|apply Z.mod_pos_bound; lia..].
          pose proof (Z.div_mod (ci + Z.of_nat k) 256 ltac:(lia)).
          pose proof (Z.div_mod (ci + Z.of_nat (length pend)) 256 ltac:(lia)). lia. }
        do 2 (split; [done|]). split; [cbn; unfold read32 in *; cbn; rewrite Hother by (done || lia); exact Hs|].
        exists x, cx. split; [done|]. split; [|done]. cbn. rewrite <- Hcx.
        apply (Hkeep _ _ (held_rx _ _ _ _ _ _ Hi Hx) Hki). by destruct (gi_rx _ _ _ _ Hi _ x Hx) as (_ & _ & ? & _).
      * rewrite <- Hslot. do 2 (split; [done|]). split; [exact Hst|].
        exists cb, (bytes ++ drop (length bytes) content). split; [done|].
        split; [cbn; by rewrite lookup_insert_eq|apply take_app_length].
  - intros k f Hk. destruct (Hq k f Hk) as (x & y & v & Hx & Hy & Hrest). exists x, y, v. split; [done|].
    split; [|done]. cbn. rewrite <- Hy. apply lookup_lt_Some in Hk.
    apply (Hkeep _ _ (held_tx _ _ _ _ _ _ Hi Hx)); [lia|].
    apply (gi_tx _ _ _ _ Hi _ x Hx). apply in_flight_slot; lia.
Qed.

Lemma sent_ok s ci c n pend fs m in' : genet_inv s ci c n → ring_holds s ci pend → tx_queue s c fs → nic_sent s m in' →
  let s' := set_env s in' (g_bufs s) in genet_inv s' ci c n ∧ ring_holds s' ci pend ∧ tx_queue s' c fs.
Proof.
  intros Hi (Hp & Hlen & Hh) Hq [Hprod Hst _ _ _] s'. split; [apply env_inv; [done|by eauto]|]. split; [|done].
  split; [unfold s', read32 in *; cbn; by rewrite Hprod|]. split; [done|]. intros k f b Hk. cbv zeta.
  destruct (Hh k f b Hk) as (? & ? & Hs & ?). do 2 (split; [done|]). split; [|done].
  unfold s', read32 in *. cbn. rewrite Hst; [exact Hs|]. pose proof (Z.mod_pos_bound (ci + Z.of_nat k) 256). lia.
Qed.
End laws.
