(* ===== verification/Board.v ===== *)
(** * The board: the packet loop over the Ethernet driver

    The loop of [CKernel::Run] ([sample/06-ethernet-dhcp-lib/kernel.cpp]) with the
    driver it calls ([Genet]) and the packet handling of one frame ([Adapter]),
    in the presence of the Ethernet controller, which stores packets and sends
    frames between the steps of the program.  The theorems show that the rings,
    the buffers on the heap and their registers amount to two queues, one of 256
    packets and one of 31 frames, with the DHCP server between them. *)
From S2P Require Import Prelude Options Message LeaseStore ArrayPool Server Adapter Frame Heap Genet.

Open Scope Z_scope.

(** ** Frames the server sends *)

Lemma store_le_length n buf o x buf' : store_le n buf o x = Ret buf' → length buf' = length buf.
Proof. apply store_n_length. Qed.

Lemma my_memcpy_length n : ∀ dest d src s dest', my_memcpy dest d src s n = Ret dest' → length dest' = length dest.
Proof.
  induction n as [|n IH]; intros dest d src s dest' E; cbn in E; [by injection E as ->|].
  inv_ret. apply IH in E. rewrite E. match goal with Hs : store _ _ _ = Ret _ |- _ => revert Hs end.
  unfold store. case_decide; [|done]. intros [= <-]. apply length_insert.
Qed.

Lemma my_memset_length n : ∀ l p c l', my_memset l p c n = Ret l' → length l' = length l.
Proof.
  induction n as [|n IH]; intros l p c l' E; cbn in E; [by injection E as ->|].
  inv_ret. apply IH in E. rewrite E. match goal with Hs : store _ _ _ = Ret _ |- _ => revert Hs end.
  unfold store. case_decide; [|done]. intros [= <-]. apply length_insert.
Qed.

Lemma store_length {A} (l : list A) i a l' : store l i a = Ret l' → length l' = length l.
Proof. unfold store. case_decide; [|done]. intros [= <-]. apply length_insert. Qed.

Ltac lengths :=
  repeat match goal with
  | E : store _ _ _ = Ret _ |- _ => apply store_length in E
  | E : store_le _ _ _ _ = Ret _ |- _ => apply store_le_length in E
  | E : store_n _ _ _ = Ret _ |- _ => apply store_n_length in E
  | E : my_memcpy _ _ _ _ _ = Ret _ |- _ => apply my_memcpy_length in E
  | E : my_memset _ _ _ _ = Ret _ |- _ => apply my_memset_length in E
  end; congruence.

Lemma response_headers_length mac etype f : response_headers mac etype = Ret f → length f = RESPONSE_SIZE.
Proof.
  intros E. unfold response_headers in E. inv_ret.
  assert (L : length (replicate RESPONSE_SIZE 0) = RESPONSE_SIZE) by apply length_replicate.
  set (r := replicate RESPONSE_SIZE 0) in *. clearbody r. lengths.
Qed.

Lemma send_response_length f r f' : send_response f r = Ret (Some f') → length f' = length f.
Proof.
  unfold send_response, finish_frame. destruct r as [[h l]|]; [|done]. destruct (0 <? l); [|done].
  intros E. inv_ret. lengths.
Qed.

Lemma handle_frame_length {P} (mode : lease_mode P) mac fb ticks srv f srv' :
  handle_frame mode mac fb ticks srv = Ret (Some f, srv') → length f = RESPONSE_SIZE.
Proof.
  unfold handle_frame. intros E. inv_ret. destruct (negb _); [done|].
  inv_ret. destruct (negb _); [done|]. inv_ret. destruct (negb _); [done|]. inv_ret.
  match goal with Hr : response_headers _ _ = Ret _ |- _ => apply response_headers_length in Hr; rename Hr into Hl end.
  rewrite <- Hl. destruct (_ =? _); [|destruct (_ =? _); [|destruct (_ =? _)]]; inv_ret; try done.
  all: match goal with p : (_ * _)%type |- _ => destruct p as [? ?] end; inv_ret; by eapply send_response_length.
Qed.

(** ** The program: one board *)

Section board.
Context {H P : Type} `{HeapLaws H}.
Variables (garbage : Z → Z → list Z) (mode : lease_mode P) (mac : list Z).

Record board := mkBoard {
  b_driver : genet H;
  b_server : dhcp_server_t P
}.

(** One round of the loop of [CKernel::Run]: [FrameBuffer] is what the buffer on the
    stack holds before, [ticks] the clock.  The result of [SendFrame] is not
    looked at. *)
Definition run_round (b : board) (FrameBuffer : list Z) (ticks : Z) : outcome board :=
  '(r, s) ← ReceiveFrame garbage (b_driver b) FrameBuffer;
  match r with
  | None => Ret (mkBoard s (b_server b))
  | Some (FrameBuffer, nFrameLength) =>
      '(response, srv) ← handle_frame mode mac FrameBuffer ticks (b_server b);
      match response with
      | None => Ret (mkBoard s srv)
      | Some ResponseFrameBuffer =>
          '(_, s) ← SendFrame garbage s ResponseFrameBuffer (Z.of_nat RESPONSE_SIZE);
          Ret (mkBoard s srv)
      end
  end.

(** What happens on the board: the controller stores a packet, the controller has
    sent [m] frames and its interrupt is handled, or the loop makes a round. *)
Inductive event :=
  | Arrived (flags : Z) (bytes : list Z) (in' : Z → Z) (bufs' : gmap Z (list Z))
  | Transmitted (m : Z) (in' : Z → Z)
  | Round (FrameBuffer : list Z) (ticks : Z).

Definition board_step (b : board) (e : event) : outcome board :=
  match e with
  | Arrived _ _ in' bufs' => Ret (mkBoard (set_env (b_driver b) in' bufs') (b_server b))
  | Transmitted _ in' =>
      s ← InterruptHandler1 (set_env (b_driver b) in' (g_bufs (b_driver b))); Ret (mkBoard s (b_server b))
  | Round FrameBuffer ticks => run_round b FrameBuffer ticks
  end.

Fixpoint board_run (b : board) (es : list event) : outcome board :=
  match es with
  | [] => Ret b
  | e :: es => b ← board_step b e; board_run b es
  end.

(** ** The specification: two queues *)

Record queues := mkQueues {
  q_received : list (Z * list Z);
  q_waiting : list (list Z);
  q_server : dhcp_server_t P
}.

(** A frame is queued unless 31 are waiting. *)
Definition enqueue (tx : list (list Z)) (f : list Z) : list (list Z) :=
  if decide (length tx ≤ 30)%nat then tx ++ [f] else tx.

Definition queue_round (crc : bool) (q : queues) (FrameBuffer : list Z) (ticks : Z) : outcome queues :=
  match q_received q with
  | [] => Ret q
  | (flags, bytes) :: rx =>
      if faulty flags then Ret (mkQueues rx (q_waiting q) (q_server q)) else
      let f := payload crc bytes in
      '(response, srv) ← handle_frame mode mac (f ++ drop (length f) FrameBuffer) ticks (q_server q);
      Ret (mkQueues rx (match response with Some r => enqueue (q_waiting q) r | None => q_waiting q end) srv)
  end.

Definition queue_step (crc : bool) (q : queues) (e : event) : outcome queues :=
  match e with
  | Arrived flags bytes _ _ => Ret (mkQueues (q_received q ++ [(flags, bytes)]) (q_waiting q) (q_server q))
  | Transmitted m _ => Ret (mkQueues (q_received q) (drop (Z.to_nat m) (q_waiting q)) (q_server q))
  | Round FrameBuffer ticks => queue_round crc q FrameBuffer ticks
  end.

Fixpoint queue_run (crc : bool) (q : queues) (es : list event) : outcome queues :=
  match es with
  | [] => Ret q
  | e :: es => q ← queue_step crc q e; queue_run crc q es
  end.

(** A packet without an error carries between 1 and 1,600 bytes. *)
Definition deliverable (crc : bool) (p : Z * list Z) : Prop :=
  0 ≤ fst p < 65536 ∧ (length (snd p) ≤ 2048)%nat ∧
  (faulty (fst p) = false → (0 < length (payload crc (snd p)) ≤ 1600)%nat).

(** The controller stores a packet into a free slot, and has sent no frame that was
    not waiting. *)
Definition event_ok (crc : bool) (b : board) (q : queues) (e : event) : Prop :=
  match e with
  | Arrived flags bytes in' bufs' =>
      deliverable crc (flags, bytes) ∧ (length (q_received q) < 256)%nat ∧
      nic_stored (b_driver b) flags bytes in' bufs'
  | Transmitted m in' => 0 ≤ m ≤ Z.of_nat (length (q_waiting q)) ∧ nic_sent (b_driver b) m in'
  | Round FrameBuffer _ => length FrameBuffer = 1600%nat
  end.

Fixpoint events_ok (crc : bool) (b : board) (q : queues) (es : list event) : Prop :=
  match es with
  | [] => True
  | e :: es => event_ok crc b q e ∧
      ∀ b' q', board_step b e = Ret b' → queue_step crc q e = Ret q' → events_ok crc b' q' es
  end.

(** The driver's rings hold the two queues. *)
Definition linked (crc : bool) (s : genet H) (rx : list (Z * list Z)) (tx : list (list Z)) : Prop :=
  ∃ ci c, genet_inv s ci c (Z.of_nat (length tx)) ∧ ring_holds s ci rx ∧ tx_queue s c tx ∧ rings_idle s ∧
    read32 s (tdma_ring 0 TDMA_CONS_INDEX) `mod` 65536 = c ∧ m_crc_fwd_en s = crc ∧ Forall (deliverable crc) rx.

Definition implements (crc : bool) (b : board) (q : queues) : Prop :=
  linked crc (b_driver b) (q_received q) (q_waiting q) ∧ b_server b = q_server q.

Hypothesis garbage_length : ∀ p n, length (garbage p n) = Z.to_nat n.

(** ** The driver keeps the queues *)

Lemma linked_receive crc s rx tx fb : linked crc s rx tx → length fb = 1600%nat →
  ∃ r s', ReceiveFrame garbage s fb = Ret (r, s') ∧ linked crc s' (tail rx) tx ∧
    r = match rx with [] => None | (flags, bytes) :: _ => rx_result crc flags bytes fb end.
Proof.
  intros (ci & c & Hi & Hh & Hq & Hidle & Hc & <- & Hrx) Hfb.
  destruct (receive_spec garbage garbage_length s ci c _ rx tx fb Hi Hh Hq eq_refl Hfb)
    as (r & s' & ci' & E & Hi' & Hh' & Hq' & Hcrc & Hin & Hr).
  { intros flags bytes Hhd Hf. rewrite Forall_forall in Hrx. apply list_elem_of_lookup_2, Hrx in Hhd.
    destruct Hhd as (_ & _ & Hl). by apply Hl. }
  exists r, s'. split; [exact E|]. split; [|by destruct rx as [|[flags bytes] rx]; apply Hr].
  exists ci', c. split; [exact Hi'|]. split; [exact Hh'|]. split; [exact Hq'|]. unfold rings_idle, read32 in *. rewrite Hin.
  split; [exact Hidle|]. split; [exact Hc|]. split; [exact Hcrc|]. by destruct Hrx.
Qed.

Lemma RESPONSE_SIZE_eq : Z.of_nat RESPONSE_SIZE = 594.
Proof. done. Qed.

Lemma linked_send crc s rx tx f : linked crc s rx tx → length f = RESPONSE_SIZE →
  ∃ ok s', SendFrame garbage s f (Z.of_nat RESPONSE_SIZE) = Ret (ok, s') ∧ linked crc s' rx (enqueue tx f).
Proof.
  intros (ci & c & Hi & Hh & Hq & Hidle & Hc & Hcrc & Hrx) Hf.
  destruct (send_spec garbage garbage_length s ci c _ rx tx f (Z.of_nat RESPONSE_SIZE) Hi Hh Hq eq_refl)
    as (ok & s' & E & _ & Hcrc' & Hin & Hres); [by rewrite RESPONSE_SIZE_eq|by rewrite Nat2Z.id, Hf|].
  exists ok, s'. split; [exact E|]. unfold enqueue. destruct ok.
  - destruct Hres as (Hn & Hi' & Hh' & Hq'). rewrite decide_True by lia. exists ci, c.
    assert (Ef : padded (take (Z.to_nat (Z.of_nat RESPONSE_SIZE)) f) = f).
    { rewrite Nat2Z.id, <- Hf, firstn_all. unfold padded. rewrite Hf. change (60 - RESPONSE_SIZE)%nat with 0%nat.
      apply app_nil_r. }
    rewrite Ef in Hq'. rewrite length_app, Nat2Z.inj_add. unfold rings_idle, read32 in *. rewrite Hin, Hcrc'. done.
  - destruct Hres as [Hn ->]. rewrite decide_False by lia. by exists ci, c.
Qed.

Lemma linked_interrupt crc s rx tx m in' : linked crc s rx tx → 0 ≤ m ≤ Z.of_nat (length tx) → nic_sent s m in' →
  ∃ s', InterruptHandler1 (set_env s in' (g_bufs s)) = Ret s' ∧ linked crc s' rx (drop (Z.to_nat m) tx).
Proof.
  intros (ci & c & Hi & Hh & Hq & Hidle & Hc & Hcrc & Hrx) Hm Hs.
  destruct (sent_ok s ci c _ rx tx m in' Hi Hh Hq Hs) as (Hi' & Hh' & Hq').
  destruct Hs as [_ _ Hcons Hrest Hirq].
  assert (Hidle' : rings_idle (set_env s in' (g_bufs s))).
  { intros i Hii. unfold read32. cbn. rewrite Hrest by lia. by apply Hidle. }
  destruct (interrupt_spec _ ci c _ tx rx m Hi' Hh' Hq' eq_refl Hm) as (s' & E & Hi2 & Hh2 & Hq2 & Hcrc2 & Hin2); [|done|].
  { unfold read32 at 1. cbn. rewrite Hcons, <- Zplus_mod_idemp_l. unfold read32 in *. by rewrite Hc. }
  rewrite Hirq in *. exists s'. split; [exact E|]. exists ci, ((c + m) `mod` 65536).
  rewrite length_drop. replace (Z.of_nat (length tx - Z.to_nat m)) with (Z.of_nat (length tx) - m) by lia.
  split; [exact Hi2|]. split; [exact Hh2|]. split; [exact Hq2|]. unfold rings_idle, read32 in *. rewrite Hin2.
  split; [exact Hidle'|]. split; [|by split; [rewrite Hcrc2|]]. cbn. by rewrite Hcons, <- Zplus_mod_idemp_l, Hc.
Qed.

Lemma linked_arrived crc s rx tx flags bytes in' bufs' : linked crc s rx tx → deliverable crc (flags, bytes) →
  (length rx < 256)%nat → nic_stored s flags bytes in' bufs' →
  linked crc (set_env s in' bufs') (rx ++ [(flags, bytes)]) tx.
Proof.
  intros (ci & c & Hi & Hh & Hq & Hidle & Hc & Hcrc & Hrx) Hd Hl Hs. pose proof Hd as (Hf & Hb & _).
  destruct (stored_ok s ci c _ rx tx flags bytes in' bufs' Hi Hh Hq eq_refl Hf Hb Hl Hs) as (Hi' & Hh' & Hq').
  exists ci, c. split; [exact Hi'|]. split; [exact Hh'|]. split; [exact Hq'|].
  pose proof (ns_tx _ _ _ _ _ Hs) as Htx. split.
  { intros i Hii. unfold read32. cbn. rewrite Htx by lia. by apply Hidle. }
  split; [pose proof (Htx 0%nat ltac:(lia)) as H0'; change (Z.of_nat 0) with 0 in H0'; unfold read32 in *; cbn [set_env g_in]; by rewrite H0'|]. split; [exact Hcrc|].
  apply Forall_app. split; [exact Hrx|by constructor].
Qed.

Lemma round_implements crc b q fb ticks q' : implements crc b q → length fb = 1600%nat →
  queue_round crc q fb ticks = Ret q' → ∃ b', run_round b fb ticks = Ret b' ∧ implements crc b' q'.
Proof.
  intros [Hl Hsrv] Hfb E. unfold run_round, queue_round in *.
  destruct (linked_receive crc _ _ _ fb Hl Hfb) as (r & s & -> & Hl' & ->). rewrite bind_Ret.
  destruct (q_received q) as [|[flags bytes] rx] eqn:Erx.
  { injection E as <-. eexists. split; [reflexivity|]. split; [cbn; by rewrite Erx|exact Hsrv]. }
  unfold rx_result. destruct (faulty flags).
  { injection E as <-. eexists. split; [reflexivity|]. by split. }
  rewrite Hsrv. destruct (handle_frame _ _ _ _ _) as [[[f|] srv]| |] eqn:Eh; [| |done..]; rewrite bind_Ret in *;
    injection E as <-.
  - destruct (linked_send crc s rx (q_waiting q) f Hl' (handle_frame_length _ _ _ _ _ _ _ Eh)) as (ok & s' & -> & Hs).
    rewrite bind_Ret. eexists. split; [reflexivity|]. by split.
  - eexists. split; [reflexivity|]. by split.
Qed.

Lemma step_implements crc b q e q' : implements crc b q → event_ok crc b q e → queue_step crc q e = Ret q' →
  ∃ b', board_step b e = Ret b' ∧ implements crc b' q'.
Proof.
  intros Hi He E. destruct e as [flags bytes in' bufs'|m in'|fb ticks]; cbn [board_step queue_step event_ok] in *.
  - injection E as <-. eexists. split; [reflexivity|]. destruct Hi as [Hl Hs], He as (Hd & Hlt & Hn).
    split; [by apply linked_arrived|exact Hs].
  - injection E as <-. destruct Hi as [Hl Hs], He as [Hm Hn].
    destruct (linked_interrupt crc _ _ _ m in' Hl Hm Hn) as (s' & -> & Hl'). rewrite bind_Ret.
    eexists. split; [reflexivity|]. by split.
  - by eapply round_implements.
Qed.

Lemma run_implements crc es : ∀ b q q', implements crc b q → events_ok crc b q es → queue_run crc q es = Ret q' →
  ∃ b', board_run b es = Ret b' ∧ implements crc b' q'.
Proof.
  induction es as [|e es IH]; intros b q q' Hi He E; cbn [board_run queue_run] in *.
  - injection E as <-. by exists b.
  - apply bind_Ret_inv in E as (q1 & E1 & E). destruct He as [He Hes].
    destruct (step_implements crc b q e q1 Hi He E1) as (b1 & Eb & Hi1). rewrite Eb, bind_Ret.
    apply (IH b1 q1); [done|by apply Hes|done].
Qed.

(** The registers of the controller after a reset *)
Definition nic_reset (in' : Z → Z) : Prop :=
  in' (rdma_ring GENET_DESC_INDEX RDMA_PROD_INDEX) `mod` 65536 = 0 ∧
  ∀ i, (i < 4)%nat ∨ i = 16%nat → in' (tdma_ring (Z.of_nat i) TDMA_CONS_INDEX) `mod` 65536 = 0.

Lemma init_linked s : heap_ok (g_heap s) → heap_room (g_heap s) 291 → length (m_tx_rings s) = 17%nat →
  nic_reset (g_in s) →
  ∃ s', init_dma garbage s = Ret (true, s') ∧ linked (m_crc_fwd_en s) s' [] [] ∧ g_in s' = g_in s.
Proof.
  intros Hok Hr Hl [Hp Hc].
  destruct (init_dma_spec garbage garbage_length s Hok Hr Hl) as (s' & E & Hi & Hq & Hin & Hcrc).
  exists s'. split; [exact E|]. split; [|exact Hin]. exists 0, 0. cbn.
  split; [exact Hi|]. split.
  { split; [unfold read32; rewrite Hin, Hp; done|]. split; [cbn; lia|]. intros k f b Hk. done. }
  split; [exact Hq|]. unfold rings_idle, read32. rewrite Hin.
  split; [intros i Hii; apply Hc; lia|]. split; [by apply (Hc 0%nat); left; lia|]. by split.
Qed.

Lemma init_implements s srv : heap_ok (g_heap s) → heap_room (g_heap s) 291 → length (m_tx_rings s) = 17%nat →
  nic_reset (g_in s) →
  ∃ s', init_dma garbage s = Ret (true, s') ∧
    implements (m_crc_fwd_en s) (mkBoard s' srv) (mkQueues [] [] srv) ∧ g_in s' = g_in s.
Proof.
  intros Hok Hr Hl Hn. destruct (init_linked s Hok Hr Hl Hn) as (s' & E & Hi & Hin).
  exists s'. split; [exact E|]. by split; [split|].
Qed.

(** C10: Two queues.  Started on a heap with room for 291 frames, and whatever the
    controller does to its registers and its buffers within its contract, the
    driver and the packet loop behave as a server between two queues: every
    round of the loop takes the oldest packet not taken, drops it when it is
    faulty, hands it to the packet handling otherwise and queues the answer
    behind the frames waiting unless there are 31; an interrupt takes off the
    frames sent.  No step fails or hangs, unless the packet handling does. *)
Theorem board_refines_queues (s : genet H) (srv : dhcp_server_t P) :
  heap_ok (g_heap s) → heap_room (g_heap s) 291 → length (m_tx_rings s) = 17%nat → nic_reset (g_in s) →
  ∃ s', init_dma garbage s = Ret (true, s') ∧
    ∀ es q', let crc := m_crc_fwd_en s in
      events_ok crc (mkBoard s' srv) (mkQueues [] [] srv) es → queue_run crc (mkQueues [] [] srv) es = Ret q' →
      ∃ b', board_run (mkBoard s' srv) es = Ret b' ∧ implements crc b' q'.
Proof.
  intros Hok Hr Hl Hn. destruct (init_implements s srv Hok Hr Hl Hn) as (s' & E & Hi & _).
  exists s'. split; [exact E|]. intros es q'. by apply run_implements.
Qed.
End board.
Arguments mkBoard {H P} _ _.
Arguments mkQueues {P} _ _ _.

(** ** Serving a client *)

Section serving.
Context {H P : Type} `{HeapLaws H} `{LeaseStoreLaws P}.
Variables (garbage : Z → Z → list Z) (mac : list Z).
Hypothesis garbage_length : ∀ p n, length (garbage p n) = Z.to_nat n.

(** From the receive ring to the transmit ring.  When the oldest packet in the
    receive ring is a DISCOVER or REQUEST of the client, one round of the loop
    performs one step of the lease-map specification for the client's MAC; and
    when that step has an answer, a frame that the client reads as this answer
    is put behind the frames waiting to be sent, whose order and contents stay.
    With 31 frames waiting the step is performed all the same, but its answer is
    lost: the loop does not look at the result of [SendFrame]. *)
Theorem board_serves_client (crc : bool) (b : board) (q : queues) (flags : Z) (bytes : list Z)
    (rx : list (Z * list Z)) (meta : build_meta) (junk fb : list Z) (ticks : Z) :
  implements (P := P) (H := H) crc b q → q_received q = (flags, bytes) :: rx → faulty flags = false →
  payload crc bytes = client_frame meta ++ junk → length fb = 1600%nat →
  srv_inv (q_server q) → config (q_server q) = circle_config → client_ok meta → is_mac mac → is_u32 ticks →
  ∃ b' srv' a tx', run_round garbage store_mode mac b fb ticks = Ret b' ∧
    implements crc b' (mkQueues rx tx' srv') ∧ srv_inv srv' ∧
    lease_step circle_config (srv_cap (q_server q)) (ts_in_sec ticks) (b_client_mac meta) (client_items meta)
      (srv_leases (q_server q)) a (srv_leases srv') ∧
    match client_sees mac (b_xid meta) a with
    | None => tx' = q_waiting q
    | Some pm =>
        if decide (length (q_waiting q) ≤ 30)%nat then
          ∃ f, tx' = q_waiting q ++ [f] ∧ parse_frame f 594 (no_meta (b_xid meta)) = Ret (cksum_zeroed f, pm)
        else tx' = q_waiting q
    end.
Proof.
  intros Hi Hrx Hf Hp Hfb Hs Hcfg Hc Hmac Hticks.
  set (z := junk ++ drop (length (client_frame meta ++ junk)) fb).
  destruct (frame_exchange_core (q_server q) meta mac z ticks Hs Hcfg Hc Hmac Hticks)
    as (tx & srv' & a & E & Hs' & _ & _ & Hstep & Htx).
  destruct (round_implements garbage store_mode mac garbage_length crc b q fb ticks
    (mkQueues rx (match tx with Some r => enqueue (q_waiting q) r | None => q_waiting q end) srv') Hi Hfb)
    as (b' & Er & Hi').
  { unfold queue_round. rewrite Hrx, Hf, Hp. cbv zeta. rewrite <- app_assoc. fold z. by rewrite E. }
  exists b', srv', a, (match tx with Some r => enqueue (q_waiting q) r | None => q_waiting q end).
  split; [exact Er|]. split; [exact Hi'|]. split; [exact Hs'|]. split; [exact Hstep|].
  destruct (client_sees mac (b_xid meta) a) as [pm|]; [|by rewrite Htx].
  destruct Htx as (f & -> & _ & _ & Hparse). unfold enqueue. case_decide; [|done].
  exists f. split; [reflexivity|exact Hparse].
Qed.
End serving.

(** ** The contract of the controller can be met *)

Section controller.
Context {H : Type} `{Heap H}.
Implicit Types s : genet H.

Definition nic_store_in s (flags : Z) (bytes : list Z) : Z → Z := λ a,
  if a =? rdma_ring GENET_DESC_INDEX RDMA_PROD_INDEX then read32 s a + 1
  else if a =? rx_bd (next_slot_in s) + DMA_DESC_LENGTH_STATUS then Z.lor (Z.of_nat (length bytes) ≪ 16) flags
  else read32 s a.
Definition nic_store_bufs s (bytes : list Z) : gmap Z (list Z) :=
  let addr := default 0 (last_write (g_out s) (rx_bd (next_slot_in s) + DMA_DESC_ADDRESS_LO)) in
  <[addr := bytes ++ drop (length bytes) (default [] (g_bufs s !! addr))]> (g_bufs s).

Lemma nic_store_buffer s flags bytes addr content :
  last_write (g_out s) (rx_bd (next_slot_in s) + DMA_DESC_ADDRESS_LO) = Some addr → g_bufs s !! addr = Some content →
  nic_stored s flags bytes (nic_store_in s flags bytes) (nic_store_bufs s bytes).
Proof.
  intros Hw Hc.
  assert (Hslot : (next_slot_in s < 256)%nat).
  { unfold next_slot_in. pose proof (Z.mod_pos_bound (read32 s (rdma_ring GENET_DESC_INDEX RDMA_PROD_INDEX)) 256). lia. }
  unfold nic_store_in, nic_store_bufs. split.
  - by rewrite Z.eqb_refl.
  - rewrite (proj2 (Z.eqb_neq _ _)) by regs. by rewrite Z.eqb_refl.
  - intros j Hj Hne. rewrite !(proj2 (Z.eqb_neq _ _)); [done|revert Hne; regs|regs].
  - intros i Hl. rewrite !(proj2 (Z.eqb_neq _ _)); [done|regs..].
  - exists addr, content. rewrite Hw. cbn. by rewrite Hc.
Qed.

Lemma nic_store_ok crc s rx tx flags bytes : linked crc s rx tx →
  nic_stored s flags bytes (nic_store_in s flags bytes) (nic_store_bufs s bytes).
Proof.
  intros (ci & c & Hi & Hh & _).
  assert (Hslot : (next_slot_in s < 256)%nat).
  { unfold next_slot_in. pose proof (Z.mod_pos_bound (read32 s (rdma_ring GENET_DESC_INDEX RDMA_PROD_INDEX)) 256). lia. }
  destruct (lookup_lt_is_Some_2 (m_rx_cbs s) (next_slot_in s)) as [cb Hcb]; [by rewrite (gi_rx_len _ _ _ _ Hi)|].
  destruct (gi_rx _ _ _ _ Hi _ cb Hcb) as (Hbd & (_ & content & Hc & _) & _ & Hw). rewrite Hbd in Hw.
  by eapply nic_store_buffer.
Qed.

Definition nic_send_in s (m : Z) : Z → Z := λ a,
  if a =? tdma_ring 0 TDMA_CONS_INDEX then read32 s a + m
  else if a =? intrl2_1 INTRL2_CPU_STAT then 1
  else if a =? intrl2_1 INTRL2_CPU_MASK_STATUS then 0
  else read32 s a.

Lemma nic_send_ok s m : nic_sent s m (nic_send_in s m).
Proof.
  assert (Hlow : intrl2_1 INTRL2_CPU_STAT < ARM_BCM54213_BASE + 0x2000 ∧
    intrl2_1 INTRL2_CPU_MASK_STATUS < ARM_BCM54213_BASE + 0x2000) by done.
  unfold nic_send_in. split; [| | | |reflexivity].
  - rewrite !(proj2 (Z.eqb_neq _ _)); [done|revert Hlow; regs..].
  - intros j Hj. rewrite !(proj2 (Z.eqb_neq _ _)); [done|revert Hlow; regs..].
  - by rewrite Z.eqb_refl.
  - intros i Hl. rewrite !(proj2 (Z.eqb_neq _ _)); [done|revert Hlow; regs..].
Qed.
End controller.

(** ** A board with a heap of 4 MB that receives one DISCOVER *)

#[local] Instance region : Heap CHeapAllocator := circle_heap 64 0x100000.
#[local] Instance region_laws : HeapLaws CHeapAllocator.
Proof. by apply circle_heap_laws. Qed.

Definition region_heap : CHeapAllocator := Setup 64 (heap_new HEAP_BLOCK_BUCKET_SIZES) 0x100000 0x400000 0.
Definition stale (p n : Z) : list Z := replicate (Z.to_nat n) 0xA5.
Definition off_genet : genet CHeapAllocator :=
  mkGenet region_heap ∅ (λ _, 0) [] [] (rx_ring_at 0 0) [] (replicate 17 (idle_ring 0 0 0)) false.
Definition ready_genet : genet CHeapAllocator :=
  match init_dma stale off_genet with Ret (_, s) => s | _ => off_genet end.

Lemma stale_length p n : length (stale p n) = Z.to_nat n.
Proof. apply length_replicate. Qed.

Lemma region_ok : heap_ok (g_heap off_genet) ∧ heap_room (g_heap off_genet) 291.
Proof.
  split.
  - split; [|by vm_compute]. apply setup_inv; [lia|exact bucket_sizes_ok|lia|by exists 16384|lia|lia].
  - apply setup_room; [lia|lia|lia|by vm_compute].
Qed.

Lemma off_reset : nic_reset (g_in off_genet).
Proof. by split. Qed.

Definition ready_board : board (H := CHeapAllocator) (P := dhcp_arraypool_t) := mkBoard ready_genet circle_server.
Definition no_traffic : queues (P := dhcp_arraypool_t) := mkQueues [] [] circle_server.

Lemma ready_implements : implements false ready_board no_traffic.
Proof.
  destruct region_ok as [Hok Hr].
  destruct (init_implements stale stale_length off_genet circle_server Hok Hr eq_refl off_reset) as (s & E & Hi & _).
  unfold ready_board, ready_genet. by rewrite E.
Qed.

(** The DISCOVER as the controller stores it: after two bytes of padding *)
Definition discover_packet : list Z := [0; 0] ++ client_frame sample_discover.
Definition arrival : event :=
  Arrived 0x6000 discover_packet (nic_store_in ready_genet 0x6000 discover_packet) (nic_store_bufs ready_genet discover_packet).
Definition one_round : list event := [arrival; Round (replicate 1600 7) 5000000].

Lemma arrival_ok : event_ok false ready_board no_traffic arrival.
Proof.
  split; [|split; [by vm_compute; lia|]].
  - split; [cbn; lia|]. split; [by apply (bool_decide_eq_true_1 _); vm_compute|].
    intros _. by apply (bool_decide_eq_true_1 _); vm_compute.
  - destruct ready_implements as [Hl _]. by eapply nic_store_ok.
Qed.

Definition served : queues (P := dhcp_arraypool_t) :=
  match queue_run store_mode sample_dev false no_traffic one_round with Ret q => q | _ => no_traffic end.

Lemma board_refines_queues_witness :
  length (q_waiting served) = 1%nat ∧
  ∃ s' b', init_dma stale off_genet = Ret (true, s') ∧
    board_run stale store_mode sample_dev (mkBoard s' circle_server) one_round = Ret b' ∧
    implements false b' served.
Proof.
  split; [vm_compute; reflexivity|].
  destruct (board_refines_queues stale store_mode sample_dev stale_length off_genet circle_server
    (proj1 region_ok) (proj2 region_ok) eq_refl off_reset) as (s' & E & Hrun).
  assert (Es : s' = ready_genet) by (unfold ready_genet; by rewrite E).
  subst s'. exists ready_genet.
  destruct (Hrun one_round served) as (b' & Eb & Hi); [| |exists b'; exact (conj E (conj Eb Hi))].
  - split; [exact arrival_ok|]. intros b' q' _ _. split; [reflexivity|]. by intros b'' q'' _ _.
  - vm_compute. reflexivity.
Defined.

Definition arrived_board : board (H := CHeapAllocator) (P := dhcp_arraypool_t) :=
  match board_step stale store_mode sample_dev ready_board arrival with Ret b => b | _ => ready_board end.

Lemma arrived_implements : implements false arrived_board (mkQueues [(0x6000, discover_packet)] [] circle_server).
Proof.
  destruct (step_implements stale store_mode sample_dev stale_length false ready_board no_traffic arrival
    _ ready_implements arrival_ok eq_refl) as (b' & E & Hi).
  unfold arrived_board. by rewrite E.
Qed.

Lemma board_serves_client_witness :
  implements false arrived_board (mkQueues [(0x6000, discover_packet)] [] circle_server) ∧
  ∃ b' srv' a tx', run_round stale store_mode sample_dev arrived_board (replicate 1600 7) 5000000 = Ret b' ∧
    implements false b' (mkQueues [] tx' srv') ∧
    lease_step circle_config (srv_cap circle_server) 5 (b_client_mac sample_discover)
      (client_items sample_discover) (srv_leases circle_server) a (srv_leases srv') ∧
    match client_sees sample_dev 0x1234 a with
    | None => tx' = []
    | Some pm => ∃ f, tx' = [f] ∧ parse_frame f 594 (no_meta 0x1234) = Ret (cksum_zeroed f, pm)
    end.
Proof.
  split; [exact arrived_implements|].
  destruct (board_serves_client stale sample_dev stale_length false arrived_board
    (mkQueues [(0x6000, discover_packet)] [] circle_server) 0x6000 discover_packet [] sample_discover []
    (replicate 1600 7) 5000000 arrived_implements eq_refl eq_refl eq_refl eq_refl circle_server_inv eq_refl
    sample_discover_ok sample_dev_mac) as (b' & srv' & a & tx' & E & Hi & _ & Hs & Hres).
  - unfold uword. lia.
  - exists b', srv', a, tx'. exact (conj E (conj Hi (conj Hs Hres))).
Defined.
