(* ===== verification/Site.v ===== *)
(** * The site: a board, its clients, and the wire between them

    The last layer: a board that runs the packet loop over the Ethernet driver on a
    heap ([Board], [Genet], [Heap]), and any number of sessions of the load-test
    client, on one wire.  What reaches the wire is what the controller reads from
    the descriptors and buffers the driver has left for it, and what reaches the
    board is what the controller stores.  Every run of the site is, up to steps
    nobody outside the board can see, a run of the network of [Network], so what
    holds of all runs there holds here. *)
From S2P Require Import Prelude Options Message LeaseStore ArrayPool HashTab HashPool Server.
From S2P Require Import Adapter Client EndToEnd Network Heap Genet Board.
From S2P Require Import Frame.

Open Scope Z_scope.

(** ** What the controller does with the transmit ring *)

Section controller.
Context {H : Type} `{Heap H}.
Implicit Types s : genet H.

(** The frame the descriptor in slot [j] describes *)
Definition described s (j : nat) : option (list Z) :=
  addr ← last_write (g_out s) (tx_bd j + DMA_DESC_ADDRESS_LO);
  v ← last_write (g_out s) (tx_bd j + DMA_DESC_LENGTH_STATUS);
  content ← g_bufs s !! addr;
  Some (take (Z.to_nat (v ≫ 16)) content).

(** The next [m] frames of the transmit ring, from the controller's own consumer
    index on *)
Definition sent_next s (m : nat) : list (list Z) :=
  omap (λ k, described s (Z.to_nat ((read32 s (tdma_ring 0 TDMA_CONS_INDEX) `mod` 65536 + Z.of_nat k) `mod` 32)))
    (seq 0 m).

(** The indices of the rings say how many packets the driver has not taken, and how
    many frames the controller has not sent. *)
Definition rx_pending s : Z :=
  (read32 s (rdma_ring GENET_DESC_INDEX RDMA_PROD_INDEX)
   - default 0 (last_write (g_out s) (rdma_ring GENET_DESC_INDEX RDMA_CONS_INDEX))) `mod` 65536.
Definition tx_pending s : Z :=
  (default 0 (last_write (g_out s) (tdma_ring 0 TDMA_PROD_INDEX)) - read32 s (tdma_ring 0 TDMA_CONS_INDEX)) `mod` 65536.

Lemma posted_described s j f : posted s j f → described s j = Some f.
Proof. intros (cb & content & v & _ & Hb & Ha & Hv & ->). unfold described. by rewrite Ha, Hv; cbn; rewrite Hb. Qed.

Lemma omap_seq_take {A} (g : nat → option A) (l : list A) : ∀ m i, (m ≤ length l)%nat →
  (∀ k x, l !! k = Some x → g (i + k)%nat = Some x) → omap g (seq i m) = take m l.
Proof.
  intros m. revert l. induction m as [|m IH]; intros l i Hm Hg; [done|].
  destruct l as [|x l]; [cbn in Hm; lia|]. cbn. pose proof (Hg 0%nat x eq_refl) as Hx.
  rewrite Nat.add_0_r in Hx. rewrite Hx. f_equal. apply IH; [cbn in Hm; lia|].
  intros k y Hk. rewrite Nat.add_succ_comm. by apply Hg.
Qed.

Lemma linked_sent crc s rx tx m : linked crc s rx tx → (m ≤ length tx)%nat → sent_next s m = take m tx.
Proof.
  intros (ci & c & _ & _ & Hq & _ & Hc & _) Hm. unfold sent_next. rewrite Hc.
  apply omap_seq_take; [done|]. intros k f Hk. cbn [Nat.add]. apply posted_described, Hq, Hk.
Qed.

Lemma linked_pending crc s rx tx : linked crc s rx tx →
  rx_pending s = Z.of_nat (length rx) ∧ tx_pending s = Z.of_nat (length tx).
Proof.
  intros (ci & c & Hi & (Hp & Hl & _) & _ & _ & Hc & _). unfold rx_pending, tx_pending.
  rewrite (gi_cons _ _ _ _ Hi), (gi_prod _ _ _ _ Hi). cbn [default from_option id].
  destruct (gi_indices _ _ _ _ Hi) as (Hci & Hcc & Hn).
  split.
  - rewrite <- Zminus_mod_idemp_l, Hp, Zminus_mod_idemp_l.
    replace (ci + _ - ci) with (Z.of_nat (length rx)) by lia. apply Z.mod_small. lia.
  - rewrite <- Zminus_mod_idemp_r, Hc, Zminus_mod_idemp_l.
    replace (c + _ - c) with (Z.of_nat (length tx)) by lia. apply Z.mod_small. lia.
Qed.
End controller.

Section stored_frames.
Variable crc : bool.

(** The frame as the controller stores it: behind two bytes of padding, and with
    its checksum when the driver has asked for that *)
Definition as_stored (f : list Z) : list Z := [0; 0] ++ f ++ (if crc then replicate 4 0 else []).

Lemma payload_as_stored f : payload crc (as_stored f) = f.
Proof.
  unfold payload, as_stored. rewrite drop_app_length', !length_app by done. destruct crc; cbn [length replicate].
  - apply take_app_length'. lia.
  - rewrite app_nil_r. apply take_ge. lia.
Qed.

Lemma as_stored_deliverable f : (0 < length f ≤ 1600)%nat → deliverable crc (0x6000, as_stored f).
Proof.
  intros Hf. split; [cbn; lia|]. cbn [fst snd]. split; [|by rewrite payload_as_stored].
  unfold as_stored. rewrite !length_app. destruct crc; cbn [length replicate]; lia.
Qed.
End stored_frames.

(** ** The site *)

(** [s_clock]: the last value of the clock the loop has used; [s_wire]: the frames
    sent so far; [s_answers]: a record of the answers the packet loop has handed to
    [SendFrame], each with the second of its round. *)
Record site (H P : Type) := mkSite {
  s_board : board (H := H) (P := P);
  s_clock : Z;
  s_sessions : list (option verdict);
  s_wire : list (list Z);
  s_answers : list (Z * list Z)
}.
Arguments mkSite {H P} _ _ _ _ _.
Arguments s_board {H P} _.
Arguments s_clock {H P} _.
Arguments s_sessions {H P} _.
Arguments s_wire {H P} _.
Arguments s_answers {H P} _.

Inductive happening :=
  | Stored (flags : Z) (bytes : list Z) (in' : Z → Z) (bufs' : gmap Z (list Z))
  | Sent (m : Z) (in' : Z → Z)
  | Loop (FrameBuffer : list Z) (ticks : Z)
  | Begins (i : nat) (pm : parse_meta) (sbuf rbuf : list Z) (sent : bool)
  | Gets (i : nat) (r : recv_result).

Section site.
Context {H P : Type} `{HeapLaws H} `{LeaseStoreLaws P}.
Variables (garbage : Z → Z → list Z) (crc : bool).
Variables (mac : list Z) (clients : list client) (request_len : Z → list Z → Z) (pad rlen : nat).
Implicit Types st : site H P.
Implicit Types n : network P.

Definition of_board st (e : Board.event) (clock : Z) (frames answers : list (list Z)) : outcome (site H P) :=
  b ← board_step garbage store_mode mac (s_board st) e;
  Ret (mkSite b clock (s_sessions st) (s_wire st ++ frames)
         (s_answers st ++ (pair (ts_in_sec clock) <$> answers))).

(** The answer of a round of the packet loop, as [run_round] computes it *)
Definition round_answer (b : board (H := H) (P := P)) (FrameBuffer : list Z) (ticks : Z) : list (list Z) :=
  match ReceiveFrame garbage (b_driver b) FrameBuffer with
  | Ret (Some (FrameBuffer, _), _) =>
      match handle_frame store_mode mac FrameBuffer ticks (b_server b) with
      | Ret (response, _) => option_list response
      | _ => []
      end
  | _ => []
  end.

Definition site_step st (h : happening) : outcome (site H P) :=
  match h with
  | Stored flags bytes in' bufs' => of_board st (Arrived flags bytes in' bufs') (s_clock st) [] []
  | Sent m in' =>
      of_board st (Transmitted m in') (s_clock st) (sent_next (b_driver (s_board st)) (Z.to_nat m)) []
  | Loop FrameBuffer ticks => of_board st (Round FrameBuffer ticks) ticks [] (round_answer (s_board st) FrameBuffer ticks)
  | Begins i pm sbuf rbuf sent =>
      match clients !! i with
      | Some c =>
          '(f, v) ← start_session c pm sbuf rbuf sent;
          Ret (mkSite (s_board st) (s_clock st) (<[i := Some v]> (s_sessions st)) (s_wire st ++ [f]) (s_answers st))
      | None => Ret st
      end
  | Gets i r =>
      match s_sessions st !! i with
      | Some (Some v) =>
          '(fs, v) ← session_run request_len v [r];
          Ret (mkSite (s_board st) (s_clock st) (<[i := Some v]> (s_sessions st)) (s_wire st ++ fs) (s_answers st))
      | _ => Ret st
      end
  end.

(** A frame the server may receive, whatever bytes follow it in the buffer *)
Definition harmless (f : list Z) : Prop :=
  ∀ junk, other_traffic (f ++ junk) ∨ from_client clients (f ++ junk).

(** The controller stores a faulty packet, a frame that was sent, or a harmless one
    of someone else, and only into a free slot; a client receives what was sent,
    or something it makes nothing of.  The clock does not run backwards. *)
Definition possible st (h : happening) : Prop :=
  let s := b_driver (s_board st) in
  match h with
  | Stored flags bytes in' bufs' =>
      deliverable crc (flags, bytes) ∧ rx_pending s < 256 ∧ nic_stored s flags bytes in' bufs' ∧
      (faulty flags = true ∨ payload crc bytes ∈ s_wire st ∨ harmless (payload crc bytes))
  | Sent m in' => 0 ≤ m ≤ tx_pending s ∧ nic_sent s m in'
  | Loop FrameBuffer ticks => length FrameBuffer = 1600%nat ∧ s_clock st ≤ ticks < 2 ^ 32
  | Begins i _ sbuf rbuf _ => s_sessions st !! i = Some None ∧ length sbuf = 1024%nat ∧ length rbuf = rlen
  | Gets i r =>
      recv_ok rlen r ∧
      ∀ c bytes sent, clients !! i = Some c → r = Got bytes sent →
        p_dhcp_type (understood (c_xid c) bytes) ≠ DHCP_UNKNOWN → bytes ∈ s_wire st
  end.

(** The board starts with its rings set up and empty: as [init_dma] leaves them
    ([board_started]), and as the start of the kernel does ([Boot]). *)
Inductive site_reachable : site H P → Prop :=
  | site_start s srv ticks :
      implements crc (mkBoard s srv) (mkQueues [] [] srv) →
      srv_inv srv → config srv = circle_config → is_u32 ticks →
      site_reachable (mkSite (mkBoard s srv) ticks (replicate (length clients) None) [] [])
  | site_next st h st' : site_reachable st → possible st h → site_step st h = Ret st' → site_reachable st'.

(** ** The network the site refines *)

Definition packet_harmless (p : Z * list Z) : Prop := faulty (fst p) = true ∨ harmless (payload crc (snd p)).

(** The two queues of the board, and the network around the server between them.
    The network's wire also has the answers that wait to be sent, and those the
    board has dropped; what is on it is an answer of the packet loop or a frame of
    one of the clients. *)
Record simulates st n (rx : list (Z * list Z)) (tx : list (list Z)) : Prop := {
  si_board : implements crc (s_board st) (mkQueues rx tx (n_server n));
  si_clock : n_clock n ≤ s_clock st < 2 ^ 32;
  si_sessions : s_sessions st = n_sessions n;
  si_wire : s_wire st ⊆ (n_wire n).*2;
  si_waiting : tx ⊆ (n_wire n).*2;
  si_received : Forall packet_harmless rx;
  si_answers : s_answers st ⊆ n_wire n;
  si_others : ∀ p, p ∈ n_wire n → p ∈ s_answers st ∨ ∃ c, c ∈ clients ∧ sent_by c (snd p)
}.

Hypothesis garbage_length : ∀ p k, length (garbage p k) = Z.to_nat k.
Hypothesis mac_ok : is_mac mac.
Hypothesis pad_le : (pad ≤ 430)%nat.
Hypothesis request_len_eq : ∀ sbuf, length sbuf = 1024%nat →
  request_len MIN_SEND_LEN sbuf = Z.of_nat (594 + pad).
Hypothesis rlen_small : Z.of_nat rlen < 2 ^ 31.
Hypothesis clients_fresh : Forall (λ c, fresh_client c ∧ Forall byte (c_mac c)) clients.
Hypothesis xids_distinct : NoDup (c_xid <$> clients).

Abbreviation net_run := (reachable mac clients request_len rlen).
Abbreviation go_step := (net_step mac clients request_len).

(** A step of the site is one step of the network, or none. *)
Definition matched st' n : Prop :=
  ∃ n' rx tx, (n' = n ∨ ∃ a, allowed clients rlen n a ∧ go_step n a = Ret n') ∧ simulates st' n' rx tx.

Lemma net_returns n a : net_run n → allowed clients rlen n a → ∃ n', go_step n a = Ret n'.
Proof.
  intros Hr Ha. destruct (reachable_inv mac clients request_len pad rlen mac_ok pad_le request_len_eq rlen_small
    clients_fresh xids_distinct n Hr) as [acks Hi].
  destruct (net_step_inv mac clients request_len pad rlen mac_ok pad_le request_len_eq rlen_small
    clients_fresh xids_distinct acks n a Hi Ha) as (n' & _ & E & _). by exists n'.
Qed.

Lemma net_wire_harmless n f : net_run n → f ∈ (n_wire n).*2 → harmless f.
Proof.
  intros Hr Hf junk. destruct (reachable_inv mac clients request_len pad rlen mac_ok pad_le request_len_eq rlen_small
    clients_fresh xids_distinct n Hr) as [acks Hi].
  apply list_elem_of_fmap in Hf as ([t g] & -> & Hin).
  pose proof (ni_wire _ _ _ _ Hi) as Hw. rewrite Forall_forall in Hw. by destruct (Hw _ Hin) as (_ & _ & Hp & _).
Qed.

(** *** Steps of the board nobody else sees *)

Lemma stored_matched st n rx tx flags bytes in' bufs' : net_run n → simulates st n rx tx →
  possible st (Stored flags bytes in' bufs') →
  ∃ st', site_step st (Stored flags bytes in' bufs') = Ret st' ∧ matched st' n.
Proof.
  intros Hr [Hb Hc Hs Hw Ht Hrx Han Hot] (Hd & Hroom & Hn & Hf). destruct (linked_pending _ _ _ _ (proj1 Hb)) as [Hp _].
  destruct (step_implements garbage store_mode mac garbage_length crc _ _ (Arrived flags bytes in' bufs') _ Hb
    ltac:(split; [exact Hd|split; [cbn [q_received] in *; lia|exact Hn]]) eq_refl) as (b & E & Hb').
  cbn [site_step]. unfold of_board. rewrite E, bind_Ret. eexists. split; [reflexivity|].
  exists n, (rx ++ [(flags, bytes)]), tx. split; [by left|]. split; cbn [s_board s_clock s_sessions s_wire s_answers]; try done.
  - by rewrite app_nil_r.
  - apply Forall_app. split; [done|]. constructor; [|constructor]. unfold packet_harmless. cbn [fst snd].
    destruct Hf as [Hf|[Hf|Hf]]; [by left|right..]; [|done]. apply (net_wire_harmless n); [done|by apply Hw].
  - by rewrite app_nil_r.
  - intros q Hq. rewrite app_nil_r. by apply Hot.
Qed.

Lemma sent_matched st n rx tx m in' : simulates st n rx tx → possible st (Sent m in') →
  ∃ st', site_step st (Sent m in') = Ret st' ∧ matched st' n.
Proof.
  intros [Hb Hc Hs Hw Ht Hrx Han Hot] [Hm Hn]. destruct (linked_pending _ _ _ _ (proj1 Hb)) as [_ Hp].
  cbn [q_waiting] in *.
  destruct (step_implements garbage store_mode mac garbage_length crc _ _ (Transmitted m in') _ Hb
    ltac:(split; [cbn [q_waiting]; lia|exact Hn]) eq_refl) as (b & E & Hb').
  cbn [site_step]. unfold of_board. rewrite E, bind_Ret. eexists. split; [reflexivity|].
  exists n, rx, (drop (Z.to_nat m) tx). split; [by left|]. split; cbn [s_board s_clock s_sessions s_wire s_answers]; try done.
  - rewrite (linked_sent crc _ rx tx _ (proj1 Hb)) by lia.
    intros f [Hf|Hf]%elem_of_app; [by apply Hw|]. apply Ht. by eapply subseteq_take.
  - intros f Hf. apply Ht. by eapply subseteq_drop.
  - by rewrite app_nil_r.
  - intros q Hq. rewrite app_nil_r. by apply Hot.
Qed.

(** *** A round of the packet loop *)

(** What a round does to the queues, when it gets a packet without an error *)
Lemma round_of crc' q flags bytes rx f fb ticks tx srv : q_received q = (flags, bytes) :: rx →
  faulty flags = false → payload crc' bytes = f →
  handle_frame store_mode mac (f ++ drop (length f) fb) ticks (q_server q) = Ret (tx, srv) →
  queue_round store_mode mac crc' q fb ticks =
    Ret (mkQueues rx (match tx with Some r => enqueue (q_waiting q) r | None => q_waiting q end) srv).
Proof. intros Hq Hf <- E. unfold queue_round. rewrite Hq, Hf. cbv zeta. by rewrite E. Qed.

Lemma round_answered b q fb ticks : implements crc b q → length fb = 1600%nat →
  round_answer b fb ticks =
    match q_received q with
    | (flags, bytes) :: _ =>
        let f := payload crc bytes in
        if faulty flags then []
        else match handle_frame store_mode mac (f ++ drop (length f) fb) ticks (q_server q) with
             | Ret (r, _) => option_list r
             | _ => []
             end
    | [] => []
    end.
Proof.
  intros [Hl Hsrv] Hfb. unfold round_answer.
  destruct (linked_receive garbage garbage_length crc _ _ _ fb Hl Hfb) as (r & s & -> & _ & ->).
  destruct (q_received q) as [|[flags bytes] rx]; [done|]. unfold rx_result. rewrite Hsrv. by destruct (faulty flags).
Qed.

Lemma subseteq_app_r {A} (l w v : list A) : l ⊆ w → l ⊆ w ++ v.
Proof. intros Hs x Hx. apply elem_of_app. left. by apply Hs. Qed.

Lemma subseteq_app_both {A} (l w v : list A) : l ⊆ w → l ++ v ⊆ w ++ v.
Proof. intros Hs x [Hx|Hx]%elem_of_app; apply elem_of_app; [left; by apply Hs|by right]. Qed.

Lemma enqueue_subseteq tx (f : list Z) (w : list (list Z)) : tx ⊆ w → enqueue tx f ⊆ w ++ [f].
Proof. intros Hs. unfold enqueue. case_decide; [by apply subseteq_app_both|by apply subseteq_app_r]. Qed.

Lemma loop_matched st n rx tx fb ticks : net_run n → simulates st n rx tx → possible st (Loop fb ticks) →
  ∃ st', site_step st (Loop fb ticks) = Ret st' ∧ matched st' n.
Proof.
  intros Hr [Hb Hc Hs Hw Ht Hrx Han Hot] [Hfb Hticks]. cbn [site_step]. unfold of_board. cbn [board_step].
  rewrite (round_answered _ _ fb ticks Hb Hfb). cbn [q_received q_server]. cbv zeta.
  destruct rx as [|[flags bytes] rx]; [|apply Forall_cons in Hrx as [Hh Hrx]; destruct (faulty flags) eqn:Hf]; cbn [fmap list_fmap].
  - destruct (round_implements garbage store_mode mac garbage_length crc _ _ fb ticks _ Hb Hfb eq_refl) as (b & -> & Hb').
    eexists. split; [reflexivity|]. exists n, [], tx. split; [by left|].
    split; cbn [s_board s_clock s_sessions s_wire s_answers]; rewrite ?app_nil_r; try done; lia.
  - destruct (round_implements garbage store_mode mac garbage_length crc _ _ fb ticks (mkQueues rx tx (n_server n)) Hb Hfb)
      as (b & -> & Hb'); [unfold queue_round; cbn; by rewrite Hf|].
    eexists. split; [reflexivity|]. exists n, rx, tx. split; [by left|].
    split; cbn [s_board s_clock s_sessions s_wire s_answers]; rewrite ?app_nil_r; try done; lia.
  - destruct Hh as [Hh|Hh]; cbn [fst snd] in Hh; [congruence|]. set (f := payload crc bytes) in *.
    assert (Ha : allowed clients rlen n (ServerGets (f ++ drop (length f) fb) ticks)) by (split; [lia|apply Hh]).
    destruct (net_returns n _ Hr Ha) as (n' & En). pose proof En as E. cbn [net_step] in E.
    apply bind_Ret_inv in E as ([r srv] & E & En'). injection En' as En'.
    rewrite E. destruct (round_implements garbage store_mode mac garbage_length crc _ _ fb ticks _ Hb Hfb
      (round_of crc (mkQueues ((flags, bytes) :: rx) tx (n_server n)) flags bytes rx f fb ticks r srv
        eq_refl Hf eq_refl E)) as (b & -> & Hb').
    cbn [q_waiting] in Hb'. eexists. split; [reflexivity|]. subst n'.
    eexists _, rx, (match r with Some f => enqueue tx f | None => tx end).
    split; [right; eexists; split; [exact Ha|exact En]|].
    split; cbn [s_board s_clock s_sessions s_wire s_answers n_server n_clock n_sessions n_wire]; rewrite ?app_nil_r, ?fmap_app;
      try done; [lia|by apply subseteq_app_r| |by apply subseteq_app_both|].
    + destruct r as [r|]; cbn; [by apply enqueue_subseteq|by apply subseteq_app_r].
    + intros p [Hp|Hp]%elem_of_app; [|left; by apply elem_of_app; right].
      destruct (Hot p Hp) as [?|?]; [left; by apply elem_of_app; left|by right].
Qed.

(** *** Steps of the clients *)

Lemma possible_allowed st n rx tx i a : simulates st n rx tx →
  match i with
  | Begins i pm sbuf rbuf sent => a = ClientStarts i pm sbuf rbuf sent
  | Gets i r => a = ClientGets i r
  | _ => False
  end → possible st i → allowed clients rlen n a.
Proof.
  intros [_ _ Hs Hw _ _ _ _]. destruct i; try done; intros -> Hp; cbn [allowed possible] in *; rewrite <- ?Hs; [done|].
  destruct Hp as [Hok Hg]. split; [done|]. intros c bytes sent Hc Hr Hu. apply Hw. by eapply Hg.
Qed.

(** A client has put the frames [fs] on the wire. *)
Lemma client_simulates st n rx tx ss c fs : simulates st n rx tx → c ∈ clients → Forall (sent_by c) fs →
  simulates (mkSite (s_board st) (s_clock st) ss (s_wire st ++ fs) (s_answers st))
    (mkNetwork (n_server n) (n_clock n) ss (n_wire n ++ (pair (seconds n) <$> fs))) rx tx.
Proof.
  intros [Hb Hc Hs Hw Ht Hrx Han Hot] Hin Hfs.
  assert (Es : (pair (seconds n) <$> fs).*2 = fs) by (rewrite <- list_fmap_compose; apply list_fmap_id).
  split; cbn [s_board s_clock s_sessions s_wire s_answers n_server n_clock n_sessions n_wire]; rewrite ?fmap_app, ?Es;
    try done; [by apply subseteq_app_both|by apply subseteq_app_r..|].
  intros p [Hp|(f & -> & Hf)%list_elem_of_fmap]%elem_of_app; [by apply Hot|].
  right. exists c. split; [done|]. rewrite Forall_forall in Hfs. by apply Hfs.
Qed.

Lemma begins_matched st n rx tx i pm sbuf rbuf sent : net_run n → simulates st n rx tx →
  possible st (Begins i pm sbuf rbuf sent) →
  ∃ st', site_step st (Begins i pm sbuf rbuf sent) = Ret st' ∧ matched st' n.
Proof.
  intros Hr Hs Hp.
  pose proof (possible_allowed st n rx tx (Begins i pm sbuf rbuf sent) _ Hs eq_refl Hp) as Ha.
  destruct (net_returns n _ Hr Ha) as (n' & En). pose proof En as E. cbn [net_step site_step] in *.
  destruct (clients !! i) as [c|] eqn:Hc.
  - apply bind_Ret_inv in E as ([f v] & E & En'). injection En' as <-. rewrite E, bind_Ret.
    eexists. split; [reflexivity|]. eexists _, rx, tx. split; [right; eexists; split; [exact Ha|]|].
    + cbn [net_step]. rewrite Hc. exact En.
    + rewrite (si_sessions _ _ _ _ Hs). apply (client_simulates st n rx tx _ c [f]); [done| |].
      { by eapply list_elem_of_lookup_2. }
      destruct (session_starts clients pad rlen pad_le clients_fresh [] n i c pm sbuf rbuf sent Hc Ha)
        as (f' & v' & p & E' & _ & _ & Hf). rewrite E in E'. injection E' as <- <-. by constructor.
  - eexists. split; [reflexivity|]. exists n, rx, tx. by split; [left|].
Qed.

Lemma gets_matched st n rx tx i r : net_run n → simulates st n rx tx → possible st (Gets i r) →
  ∃ st', site_step st (Gets i r) = Ret st' ∧ matched st' n.
Proof.
  intros Hr Hs Hp. pose proof (possible_allowed st n rx tx (Gets i r) _ Hs eq_refl Hp) as Ha.
  destruct (net_returns n _ Hr Ha) as (n' & En). pose proof En as E. cbn [net_step site_step] in *.
  rewrite (si_sessions _ _ _ _ Hs). destruct (n_sessions n !! i) as [[v|]|] eqn:Hv.
  - apply bind_Ret_inv in E as ([fs v'] & E & En'). injection En' as <-. rewrite E, bind_Ret.
    eexists. split; [reflexivity|]. eexists _, rx, tx. split; [right; eexists; split; [exact Ha|]|].
    + cbn [net_step]. rewrite Hv. exact En.
    + destruct (reachable_inv mac clients request_len pad rlen mac_ok pad_le request_len_eq rlen_small
        clients_fresh xids_distinct n Hr) as [acks Hi].
      pose proof (lookup_lt_Some _ _ _ Hv) as Hlt. rewrite (ni_length _ _ _ _ Hi) in Hlt.
      destruct (lookup_lt_is_Some_2 _ _ Hlt) as [c Hc].
      apply (client_simulates st n rx tx _ c); [done|by eapply list_elem_of_lookup_2|].
      destruct (session_gets clients request_len pad rlen pad_le request_len_eq rlen_small clients_fresh acks n i c r v
        Hi Hc Hv Ha) as (fs' & v2 & p & E' & _ & _ & Hf). rewrite E in E'. by injection E' as <- <-.
  - eexists. split; [reflexivity|]. exists n, rx, tx. by split; [left|].
  - eexists. split; [reflexivity|]. exists n, rx, tx. by split; [left|].
Qed.

Lemma possible_matched st n rx tx h : net_run n → simulates st n rx tx → possible st h →
  ∃ st', site_step st h = Ret st' ∧ matched st' n.
Proof.
  intros Hr Hs Hp. destruct h; [by eapply stored_matched|by eapply sent_matched|by eapply loop_matched
    |by eapply begins_matched|by eapply gets_matched].
Qed.

Lemma start_simulates s srv ticks : implements crc (mkBoard s srv) (mkQueues [] [] srv) → is_u32 ticks →
  simulates (mkSite (mkBoard s srv) ticks (replicate (length clients) None) [] [])
    (mkNetwork srv ticks (replicate (length clients) None) []) [] [].
Proof.
  intros Hi Ht. unfold uword in Ht.
  split; cbn [s_board s_clock s_sessions s_wire s_answers n_server n_clock n_sessions n_wire]; try done; [lia|].
  by intros p ?%not_elem_of_nil.
Qed.

(** On a heap with room for 291 frames *)
Lemma board_started s srv ticks : heap_ok (g_heap s) → heap_room (g_heap s) 291 →
  length (m_tx_rings s) = 17%nat → nic_reset (g_in s) → m_crc_fwd_en s = crc →
  srv_inv srv → config srv = circle_config → is_u32 ticks →
  ∃ s', init_dma garbage s = Ret (true, s') ∧
    site_reachable (mkSite (mkBoard s' srv) ticks (replicate (length clients) None) [] []).
Proof.
  intros Hok Hroom Hl Hn Hcrc Hs Hcfg Ht.
  destruct (init_implements garbage garbage_length s srv Hok Hroom Hl Hn) as (s' & E & Hi & _).
  rewrite Hcrc in Hi. exists s'. split; [exact E|by apply site_start].
Qed.

Lemma site_reachable_simulates st : site_reachable st → ∃ n rx tx, net_run n ∧ simulates st n rx tx.
Proof.
  induction 1 as [s srv ticks Hi Hs Hcfg Ht|st h st' _ (n & rx & tx & Hr & Hsim) Hp E].
  - eexists _, [], []. split; [by apply (reachable_start mac clients request_len rlen srv ticks)|].
    by eapply start_simulates.
  - destruct (possible_matched st n rx tx h Hr Hsim Hp) as (st2 & E2 & n' & rx' & tx' & Hn' & Hsim').
    rewrite E in E2. injection E2 as <-. exists n', rx', tx'. split; [|exact Hsim'].
    destruct Hn' as [->|(a & Ha & En)]; [exact Hr|by eapply reachable_step].
Qed.

(** ** Runs of the site are runs of the network *)

(** C3: One server.  However the controller, the wire, the clients and the
    packet loop interleave (within [possible]: the controller keeps its contract,
    the 32-bit clock does not wrap around, there is no other server; the clients
    have distinct transaction ids), the site behaves as the network of [Network]: there
    is a run of that network with the same server and the same sessions, on whose
    wire is every frame that has left a board or a client and every frame that
    waits in the transmit ring, and nothing on it but answers of the packet loop
    and frames of the clients; the receive ring holds nothing but frames the
    server may get.  And nothing goes wrong: a step that is possible returns, and
    is one step of the network or none. *)
Theorem site_refines_network st : site_reachable st →
  ∃ n rx tx, net_run n ∧ simulates st n rx tx ∧
    ∀ h, possible st h → ∃ st', site_step st h = Ret st' ∧ matched st' n.
Proof.
  intros Hst. destruct (site_reachable_simulates st Hst) as (n & rx & tx & Hr & Hs).
  exists n, rx, tx. split; [done|]. split; [done|]. intros h. by eapply possible_matched.
Qed.

Hypothesis macs_distinct : NoDup (c_mac <$> clients).

Definition site_seconds st : Z := ts_in_sec (s_clock st).
Definition site_leases st : lease_map := srv_leases (b_server (s_board st)).

(** In second [t] the packet loop has answered with a frame that acknowledges [ip]
    to client [c]. *)
Definition acknowledged st (c : client) (t ip : Z) : Prop :=
  ∃ f, (t, f) ∈ s_answers st ∧ p_dhcp_type (understood (c_xid c) f) = DHCP_ACK ∧
    p_offered_ip (understood (c_xid c) f) = uint32_to_ip ip.

(** The acknowledgements of the network's wire are those of the packet loop: no
    client sends any. *)
Lemma acknowledged_sent st n rx tx c t ip : simulates st n rx tx → c ∈ clients →
  acknowledged st c t ip ↔ ack_sent n c t ip.
Proof.
  intros Hs Hc. split; intros (f & Hin & Hack & Hip); exists f; (split; [|by split]).
  - by apply (si_answers _ _ _ _ Hs).
  - destruct (si_others _ _ _ _ Hs _ Hin) as [?|(c' & _ & Hf)]; [done|]. exfalso. cbn [snd] in Hf.
    by rewrite (sent_by_unknown clients pad rlen pad_le clients_fresh c' c f Hf Hc) in Hack.
Qed.

(** Every acknowledgement is a record of the server. *)
Lemma acknowledged_record acks st n rx tx c t ip : net_inv clients rlen acks n → simulates st n rx tx → c ∈ clients →
  DHCP_POOL_START ≤ ip ≤ DHCP_POOL_END → acknowledged st c t ip →
  (t, c_mac c, ip) ∈ acks ∧ 0 ≤ t ≤ site_seconds st ∧
  (site_seconds st < t + 3600 → ∃ x, site_leases st !! c_mac c = Some (ip, x) ∧ t + 3600 ≤ x).
Proof.
  intros Hi Hs Hc Hip Ha. apply (acknowledged_sent st n rx tx c t ip Hs Hc) in Ha.
  assert (Hin : (t, c_mac c, ip) ∈ acks) by (by eapply (ack_recorded clients)). split; [exact Hin|].
  pose proof (ni_recorded _ _ _ _ Hi) as Hrec. rewrite Forall_forall in Hrec. destruct (Hrec _ Hin) as [Ht Hp].
  destruct Hs as [[_ Hb] Hck _ _ _ _ _ _].
  assert (Hle : seconds n ≤ site_seconds st) by (apply Z.div_le_mono; lia).
  split; [lia|]. intros Hlt. unfold site_leases. rewrite Hb. apply Hp. lia.
Qed.

(** C2: No two clients share an address, from the clients' sockets down to the rings
    of the Ethernet controller, as long as the 32-bit microsecond clock does not
    wrap around (the board's first 71 minutes; after a wrap leases can overlap),
    with a server in ARRAY or HASHMAP mode and for clients of which no two have
    the same MAC address or the same transaction id (the code draws the ids with
    rand() and does not check).  On a site that has been started with the rings
    and the heap set up, whatever the controller stores and sends within its
    contract, however the steps interleave, and with no other server on the wire
    that sends the clients replies: when two clients have both ended successfully with
    the same address, the packet loop has answered each with an acknowledgement
    of it, and whichever of these one takes, the one client's was made in a
    second at least an hour before or after the other's; and within an hour of an
    acknowledgement the server on the board still has the address leased to that
    client until the hour is over. *)
Theorem site_no_double_lease st (i j : nat) (ci cj ci' cj' : client) : site_reachable st →
  i ≠ j → clients !! i = Some ci → clients !! j = Some cj →
  s_sessions st !! i = Some (Some (Finished 0 ci')) →
  s_sessions st !! j = Some (Some (Finished 0 cj')) →
  c_assigned_ip ci' = c_assigned_ip cj' →
  ∃ ip, c_assigned_ip ci' = uint32_to_ip ip ∧ DHCP_POOL_START ≤ ip ≤ DHCP_POOL_END ∧
    (∃ t, acknowledged st ci t ip) ∧ (∃ t, acknowledged st cj t ip) ∧
    (∀ ti tj, acknowledged st ci ti ip → acknowledged st cj tj ip → ti + 3600 ≤ tj ∨ tj + 3600 ≤ ti) ∧
    ∀ c t, c = ci ∨ c = cj → acknowledged st c t ip → 0 ≤ t ≤ site_seconds st ∧
      (site_seconds st < t + 3600 → ∃ x, site_leases st !! c_mac c = Some (ip, x) ∧ t + 3600 ≤ x).
Proof.
  intros Hst Hne Hci Hcj Hvi Hvj Hsame. destruct (site_reachable_simulates st Hst) as (n & rx & tx & Hr & Hs).
  rewrite (si_sessions _ _ _ _ Hs) in Hvi, Hvj.
  destruct (reachable_inv mac clients request_len pad rlen mac_ok pad_le request_len_eq rlen_small
    clients_fresh xids_distinct n Hr) as [acks Hi].
  destruct (finished_recorded clients rlen acks n i ci ci' Hi Hci Hvi) as (ip & t1 & Hip & Ha & Hack & _).
  destruct (finished_recorded clients rlen acks n j cj cj' Hi Hcj Hvj) as (ip2 & t2 & Hip2 & Ha2 & Hack2 & _).
  assert (ip2 = ip) as -> by (apply uint32_to_ip_inj; [unfold uword, DHCP_POOL_START, DHCP_POOL_END in *; lia.. | congruence]).
  pose proof (list_elem_of_lookup_2 _ _ _ Hci) as Hini. pose proof (list_elem_of_lookup_2 _ _ _ Hcj) as Hinj.
  exists ip. split; [done|]. split; [done|].
  split; [exists t1; by apply (acknowledged_sent _ _ _ _ _ _ _ Hs Hini)|].
  split; [exists t2; by apply (acknowledged_sent _ _ _ _ _ _ _ Hs Hinj)|]. split.
  - intros ti tj [Hti _]%(acknowledged_record acks _ _ _ _ _ _ _ Hi Hs Hini Hip)
      [Htj _]%(acknowledged_record acks _ _ _ _ _ _ _ Hi Hs Hinj Hip).
    apply (ni_apart _ _ _ _ Hi _ _ Hti Htj eq_refl). intros Hm. apply Hne.
    eapply (NoDup_lookup (c_mac <$> clients)); [exact macs_distinct|..];
      rewrite list_lookup_fmap, ?Hci, ?Hcj; cbn; [reflexivity | by rewrite Hm].
  - intros c t Hc Hat. apply (acknowledged_record acks _ n rx tx); [done|done| |done|done]. by destruct Hc as [->| ->].
Qed.

(** ** The site can do what the network does *)

Inductive site_steps : site H P → list happening → site H P → Prop :=
  | steps_nil st : site_steps st [] st
  | steps_cons st h st1 hs st2 :
      possible st h → site_step st h = Ret st1 → site_steps st1 hs st2 → site_steps st (h :: hs) st2.

Lemma steps_reachable st hs st' : site_steps st hs st' → site_reachable st → site_reachable st'.
Proof. induction 1; [done|]. intros. apply IHsite_steps. by eapply site_next. Qed.

(** Nothing waits on the board: it is where the server of the network is. *)
Record settled st n : Prop := {
  se_board : implements crc (s_board st) (mkQueues [] [] (n_server n));
  se_clock : s_clock st = n_clock n;
  se_sessions : s_sessions st = n_sessions n;
  se_wire : s_wire st = (n_wire n).*2
}.

(** The server gets a frame over what the buffer of the loop held before. *)
Definition over_buffer n (a : action) : Prop :=
  match a with
  | ServerGets frame _ => ∃ f fb, frame = f ++ drop (length f) fb ∧ length fb = 1600%nat ∧
      (0 < length f ≤ 1600)%nat ∧ (f ∈ (n_wire n).*2 ∨ harmless f)
  | _ => True
  end.

(** The controller stores the frame, the loop makes its round, and the controller
    sends the answer if there is one. *)
Lemma server_followed st n frame ticks n' : settled st n → net_run n → allowed clients rlen n (ServerGets frame ticks) →
  over_buffer n (ServerGets frame ticks) → go_step n (ServerGets frame ticks) = Ret n' →
  ∃ hs st', site_steps st hs st' ∧ settled st' n'.
Proof.
  intros [Hb Hc Hs Hw] Hr [Hticks _] (f & fb & -> & Hfb & Hlen & Hf) E.
  assert (Hh : harmless f) by (destruct Hf as [Hf|Hf]; [by eapply net_wire_harmless|done]).
  cbn [net_step] in E. apply bind_Ret_inv in E as ([r srv] & E & En'). injection En' as <-.
  set (s := b_driver (s_board st)).
  pose proof (nic_store_ok crc s _ _ 0x6000 (as_stored crc f) (proj1 Hb)) as Hn. cbn [q_received] in *.
  set (in1 := nic_store_in _ _ _) in *. set (bufs1 := nic_store_bufs _ _) in *.
  assert (Hd := as_stored_deliverable crc f Hlen).
  destruct (linked_pending crc s [] [] (proj1 Hb)) as [Hp0 _].
  destruct (step_implements garbage store_mode mac garbage_length crc _ _ (Arrived 0x6000 (as_stored crc f) in1 bufs1) _ Hb
    ltac:(split; [exact Hd|split; [cbn; lia|exact Hn]]) eq_refl) as (b1 & E1 & Hb1). cbn [app] in Hb1.
  destruct (round_implements garbage store_mode mac garbage_length crc b1 _ fb ticks _ Hb1 Hfb
    (round_of crc (mkQueues [(0x6000, as_stored crc f)] [] (n_server n)) 0x6000 (as_stored crc f) [] f fb ticks r srv
      eq_refl eq_refl (payload_as_stored crc f) E)) as (b2 & E2 & Hb2). cbn [q_waiting] in Hb2.
  set (st1 := mkSite b1 (s_clock st) (s_sessions st) (s_wire st ++ []) (s_answers st ++ [])).
  set (st2 := mkSite b2 ticks (s_sessions st) ((s_wire st ++ []) ++ [])
    ((s_answers st ++ []) ++ (pair (ts_in_sec ticks) <$> round_answer b1 fb ticks))).
  assert (Hstore : possible st (Stored 0x6000 (as_stored crc f) in1 bufs1)).
  { split; [exact Hd|]. split; [fold s; rewrite Hp0; cbn; lia|]. split; [exact Hn|].
    right. right. by rewrite payload_as_stored. }
  assert (Hloop : possible st1 (Loop fb ticks)) by (split; [done|]; change (s_clock st ≤ ticks < 2 ^ 32); lia).
  assert (S1 : site_step st (Stored 0x6000 (as_stored crc f) in1 bufs1) = Ret st1)
    by (cbn [site_step]; unfold of_board; by rewrite E1).
  assert (S2 : site_step st1 (Loop fb ticks) = Ret st2)
    by (cbn [site_step]; unfold of_board; cbn [board_step st1 s_board]; by rewrite E2).
  destruct r as [r|].
  - set (s2 := b_driver b2). assert (Hl2 : linked crc s2 [] [r]) by apply Hb2.
    destruct (linked_pending crc s2 [] [r] Hl2) as [_ Hp2].
    destruct (step_implements garbage store_mode mac garbage_length crc b2 (mkQueues [] [r] srv)
      (Transmitted 1 (nic_send_in s2 1)) (mkQueues [] [] srv) Hb2
      ltac:(split; [cbn; lia|apply nic_send_ok]) eq_refl) as (b3 & E3 & Hb3).
    eexists [_; _; Sent 1 (nic_send_in s2 1)], (mkSite b3 ticks (s_sessions st) (((s_wire st ++ []) ++ []) ++ [r])
      (((s_answers st ++ []) ++ (pair (ts_in_sec ticks) <$> round_answer b1 fb ticks)) ++ [])).
    split.
    + eapply steps_cons; [exact Hstore|exact S1|]. eapply steps_cons; [exact Hloop|exact S2|].
      eapply steps_cons; [|cbn [site_step]; unfold of_board; cbn [st2 s_board]; by rewrite E3|].
      * split; [|apply nic_send_ok]. cbn [st2 s_board]. fold s2. rewrite Hp2. cbn. lia.
      * fold s2. rewrite (linked_sent crc s2 [] [r] _ Hl2) by (cbn; lia). cbn. constructor.
    + split; cbn [s_board s_clock s_sessions s_wire s_answers n_server n_clock n_sessions n_wire]; try done.
      rewrite !app_nil_r, fmap_app, Hw. done.
  - exists [Stored 0x6000 (as_stored crc f) in1 bufs1; Loop fb ticks], st2. split.
    + eapply steps_cons; [exact Hstore|exact S1|]. eapply steps_cons; [exact Hloop|exact S2|]. constructor.
    + split; cbn [st2 s_board s_clock s_sessions s_wire s_answers n_server n_clock n_sessions n_wire]; try done.
      cbn. by rewrite !app_nil_r.
Qed.

Lemma client_followed st n h st1 n1 : possible st h → site_step st h = Ret st1 →
  settled st n → s_board st1 = s_board st → s_clock st1 = s_clock st → n_server n1 = n_server n → n_clock n1 = n_clock n →
  s_sessions st1 = n_sessions n1 → s_wire st1 = (n_wire n1).*2 → ∃ hs st', site_steps st hs st' ∧ settled st' n1.
Proof.
  intros Hp E [Hb Hc _ _] Eb Ec En Enc Es Ew. exists [h], st1.
  split; [eapply steps_cons; [exact Hp|exact E|constructor]|].
  split; [by rewrite Eb, En|by rewrite Ec, Enc|done..].
Qed.

Lemma step_followed st n (a : action) n' : settled st n → net_run n → allowed clients rlen n a →
  over_buffer n a → go_step n a = Ret n' →
  ∃ hs st', site_steps st hs st' ∧ settled st' n'.
Proof.
  intros Hse Hr Ha Ho E. destruct a as [frame ticks|i pm sbuf rbuf sent|i r]; [by eapply server_followed|..].
  all: pose proof Hse as [_ _ Ess Ew]; cbn [allowed net_step] in *.
  - destruct (clients !! i) as [c|] eqn:Hc; [|injection E as <-; exists [], st; by split; [constructor|]].
    apply bind_Ret_inv in E as ([f v] & E & En). injection En as <-.
    eapply (client_followed st n (Begins i pm sbuf rbuf sent)); [| |exact Hse| | |done|done| |].
    + by rewrite <- Ess in Ha.
    + cbn [site_step]. rewrite Hc, E, bind_Ret. reflexivity.
    + done.
    + done.
    + cbn. by rewrite Ess.
    + cbn. by rewrite fmap_app, Ew.
  - destruct (n_sessions n !! i) as [[v|]|] eqn:Hv;
      [|injection E as <-; exists [], st; by split; [constructor|]..].
    apply bind_Ret_inv in E as ([fs v'] & E & En). injection En as <-.
    eapply (client_followed st n (Gets i r)); [| |exact Hse| | |done|done| |].
    + by rewrite <- Ew in Ha.
    + cbn [site_step]. rewrite Ess, Hv, E, bind_Ret. reflexivity.
    + done.
    + done.
    + done.
    + cbn. rewrite fmap_app, Ew. f_equal. rewrite <- list_fmap_compose. symmetry. apply list_fmap_id.
Qed.
Lemma site_steps_app st hs st1 hs' st2 : site_steps st hs st1 → site_steps st1 hs' st2 → site_steps st (hs ++ hs') st2.
Proof. induction 1; [done|]. intros. cbn. eapply steps_cons; [done..|by apply IHsite_steps]. Qed.

(** A run of the network whose server gets its frames in the loop's buffer *)
Inductive net_steps : network P → list action → network P → Prop :=
  | net_nil n : net_steps n [] n
  | net_cons n a n1 l n2 : allowed clients rlen n a → over_buffer n a → go_step n a = Ret n1 →
      net_steps n1 l n2 → net_steps n (a :: l) n2.

(** C11: The site can do whatever the network can.  From a board whose rings are
    empty, every run of the network is followed by a run of the site that ends
    with the same server, the same sessions and the same frames on the wire: for
    each frame the server gets, the controller stores it, a round of the loop
    handles it, and the controller sends the answer, after which the rings are
    empty again (the frames the server gets are those of the wire or harmless
    ones, of at most 1,600 bytes, over what the loop's buffer held before).  So a dialogue that leads to a lease on the network leads to it
    on the site. *)
Theorem site_follows_network st n (l : list action) n' : settled st n → net_run n → net_steps n l n' →
  ∃ hs st', site_steps st hs st' ∧ settled st' n'.
Proof.
  intros Hs Hr Hl. revert st Hs. induction Hl as [n|n a n1 l n2 Ha Ho E _ IH]; intros st Hs.
  - exists [], st. split; [constructor|done].
  - destruct (step_followed st n a n1 Hs Hr Ha Ho E) as (hs & st1 & Hst1 & Hs1).
    destruct (IH ltac:(by eapply reachable_step) st1 Hs1) as (hs' & st2 & Hst2 & Hs2).
    exists (hs ++ hs'), st2. split; [by eapply site_steps_app|done].
Qed.
End site.

(** ** A site with two clients and one lease

    The run of [Network] in which both clients ask for the one address, on the
    board with a heap of 4 MB: the first gets it; an hour later, the second. *)
#[local] Existing Instance region.
#[local] Existing Instance region_laws.

Definition site0 : site CHeapAllocator dhcp_arraypool_t :=
  mkSite (mkBoard ready_genet net_server) 1000000 (replicate 2 None) [] [].

Definition on_site : site CHeapAllocator dhcp_arraypool_t → Prop :=
  site_reachable stale false sample_dev net_clients sent_length 1024.
Definition settles : site CHeapAllocator dhcp_arraypool_t → network dhcp_arraypool_t → Prop := settled false.

Lemma site0_reachable : on_site site0.
Proof.
  destruct region_ok as [Hok Hr].
  destruct (board_started stale false sample_dev net_clients sent_length 1024 stale_length off_genet net_server 1000000
    Hok Hr eq_refl off_reset eq_refl net_server_inv eq_refl) as (s & E & Hs); [unfold uword; lia|].
  unfold on_site, site0, ready_genet. rewrite E. exact Hs.
Qed.

Lemma site0_settles : settles site0 net0.
Proof.
  destruct region_ok as [Hok Hr].
  destruct (init_implements stale stale_length off_genet net_server Hok Hr eq_refl off_reset) as (s & E & Hi & _).
  split; [|done..]. unfold site0, ready_genet. by rewrite E.
Qed.

(** The frames of the run fit into the loop's buffer. *)
Definition fits (n : network dhcp_arraypool_t) (e : delivery) : bool :=
  match e with
  | AtServer k _ => (0 <? length (nth_frame n k))%nat && (length (nth_frame n k) <=? 1600)%nat
  | _ => true
  end.
Fixpoint all_fit (es : list delivery) (n : network dhcp_arraypool_t) : bool :=
  match es with [] => true | e :: es => fits n e && all_fit es (happens n e) end.

Lemma delivery_over_buffer n e : Network.deliverable n e = true → fits n e = true →
  over_buffer net_clients n (action_of n e).
Proof.
  intros Hd Hf. destruct e as [i|k ticks|i k]; [done| |done].
  cbn [Network.deliverable fits action_of over_buffer] in *.
  apply andb_true_iff in Hd as [[Hk%Nat.ltb_lt _]%andb_true_iff _].
  apply andb_true_iff in Hf as [H1%Nat.ltb_lt H2%Nat.leb_le].
  exists (nth_frame n k), (replicate 1600 7). split; [done|]. split; [apply length_replicate|]. split; [lia|]. left.
  destruct (nth_frame_on_wire n k Hk) as [t Hin]. by apply (list_elem_of_fmap_2 snd _ (t, _)).
Qed.

Lemma deliveries_net_steps es : ∀ n n', net_reachable n → deliveries es n = Some n' → all_fit es n = true →
  ∃ l, net_steps sample_dev net_clients sent_length 1024 n l n'.
Proof.
  induction es as [|e es IH]; intros n n' Hn E Hf; cbn [deliveries all_fit] in *.
  - injection E as <-. exists []. constructor.
  - destruct (Network.deliverable n e) eqn:Hd; [|done]. apply andb_true_iff in Hf as [Hf Hes].
    destruct (IH (happens n e) n' ltac:(by apply happens_reachable) E Hes) as [l Hl].
    exists (action_of n e :: l). eapply net_cons; [by apply deliverable_allowed| |by apply happens_step|exact Hl].
    by apply delivery_over_buffer.
Qed.

(** The steps of the site along a run of deliveries *)
Lemma deliveries_followed es : ∀ st n n', settles st n → on_site st → net_reachable n →
  deliveries es n = Some n' → all_fit es n = true → ∃ st', on_site st' ∧ settles st' n'.
Proof.
  induction es as [|e es IH]; intros st n n' Hs Hst Hn E Hf; cbn [deliveries all_fit] in *.
  - injection E as <-. by exists st.
  - destruct (Network.deliverable n e) eqn:Hd; [|done]. apply andb_true_iff in Hf as [Hf Hes].
    destruct (step_followed stale false sample_dev net_clients sent_length 0 1024 stale_length sample_dev_mac
      ltac:(lia) sent_length_eq ltac:(lia) net_clients_ok net_xids_distinct st n (action_of n e) (happens n e)
      Hs Hn (deliverable_allowed n e Hn Hd) (delivery_over_buffer n e Hd Hf) (happens_step n e Hn Hd))
      as (hs & st1 & Hst1 & Hs1).
    apply (IH st1 (happens n e)); [exact Hs1|by eapply steps_reachable|by apply happens_reachable|exact E|exact Hes].
Qed.

Lemma net0_reachable : net_reachable net0.
Proof.
  apply (reachable_start sample_dev net_clients sent_length 1024 net_server 1000000);
    [exact net_server_inv | reflexivity | unfold uword; lia].
Qed.

Lemma runs_fit : all_fit deliveries_a net0 = true ∧ all_fit deliveries_ab net_a = true.
Proof. split; vm_compute; reflexivity. Qed.

Lemma site_ab : ∃ st, on_site st ∧ settles st net_ab.
Proof.
  destruct (deliveries_followed deliveries_a site0 net0 net_a site0_settles site0_reachable net0_reachable net_a_run
    (proj1 runs_fit)) as (st & Hst & Hs).
  by apply (deliveries_followed deliveries_ab st net_a net_ab Hs Hst net_a_reachable net_ab_run (proj2 runs_fit)).
Qed.

Lemma site_no_double_lease_witness : ∃ st, on_site st ∧
  s_sessions st !! 0%nat = Some (Some (Finished 0 (session_client net_ab 0))) ∧
  s_sessions st !! 1%nat = Some (Some (Finished 0 (session_client net_ab 1))) ∧
  ∃ ip ti tj, c_assigned_ip (session_client net_ab 0) = uint32_to_ip ip ∧
    acknowledged st (client_of 0) ti ip ∧ acknowledged st (client_of 1) tj ip ∧
    (ti + 3600 ≤ tj ∨ tj + 3600 ≤ ti).
Proof.
  destruct site_ab as (st & Hst & Hs). exists st. split; [exact Hst|].
  assert (H0 : s_sessions st !! 0%nat = Some (Some (Finished 0 (session_client net_ab 0))))
    by (rewrite (se_sessions _ _ _ Hs); vm_compute; reflexivity).
  assert (H1 : s_sessions st !! 1%nat = Some (Some (Finished 0 (session_client net_ab 1))))
    by (rewrite (se_sessions _ _ _ Hs); vm_compute; reflexivity).
  assert (Hsame : c_assigned_ip (session_client net_ab 0) = c_assigned_ip (session_client net_ab 1))
    by (vm_compute; reflexivity).
  split; [exact H0|]. split; [exact H1|].
  destruct (site_no_double_lease stale false sample_dev net_clients sent_length 0 1024 stale_length sample_dev_mac
    ltac:(lia) sent_length_eq ltac:(lia) net_clients_ok net_xids_distinct net_macs_distinct st 0 1
    (client_of 0) (client_of 1) (session_client net_ab 0) (session_client net_ab 1)
    Hst ltac:(lia) eq_refl eq_refl H0 H1 Hsame) as (ip & Ha & _ & (ti & Hi) & (tj & Hj) & Hor & _).
  exists ip, ti, tj. exact (conj Ha (conj Hi (conj Hj (Hor ti tj Hi Hj)))).
Defined.

Lemma site_refines_network_witness : on_site site0 ∧
  ∃ n rx tx, net_reachable n ∧ simulates false net_clients site0 n rx tx ∧
    ∃ st, site_step stale sample_dev net_clients sent_length site0 (Loop (replicate 1600 7) 2000000) = Ret st.
Proof.
  split; [exact site0_reachable|].
  destruct (site_refines_network stale false sample_dev net_clients sent_length 0 1024 stale_length sample_dev_mac
    ltac:(lia) sent_length_eq ltac:(lia) net_clients_ok net_xids_distinct site0 site0_reachable)
    as (n & rx & tx & Hn & Hs & Hgo).
  destruct (Hgo (Loop (replicate 1600 7) 2000000)) as (st & E & _); [split; [done|cbn; lia]|].
  exists n, rx, tx. exact (conj Hn (conj Hs (ex_intro _ st E))).
Defined.

Lemma site_follows_network_witness : ∃ hs st l,
  net_steps sample_dev net_clients sent_length 1024 net0 l net_a ∧
  site_steps stale false sample_dev net_clients sent_length 1024 site0 hs st ∧ settles st net_a ∧
  s_sessions st !! 0%nat = Some (Some (Finished 0 (session_client net_a 0))).
Proof.
  destruct (deliveries_net_steps deliveries_a net0 net_a net0_reachable net_a_run (proj1 runs_fit)) as [l Hl].
  destruct (site_follows_network stale false sample_dev net_clients sent_length 0 1024 stale_length sample_dev_mac
    ltac:(lia) sent_length_eq ltac:(lia) net_clients_ok net_xids_distinct site0 net0 l net_a
    site0_settles net0_reachable Hl) as (hs & st & Hst & Hs).
  exists hs, st, l. split; [exact Hl|]. split; [exact Hst|]. split; [exact Hs|].
  rewrite (se_sessions _ _ _ Hs). vm_compute. reflexivity.
Defined.
