(* ===== verification/Phy.v ===== *)
(** * The Ethernet controller's MAC and PHY

    The rest of [circle/lib/bcm54213.cpp]: the resets, the MAC address and the
    receive filter, the MDIO bus, the state of the link and what is programmed into
    the MAC for it, and [CBcm54213Device::Initialize] around the rings of [Genet].
    Also the clock the driver and the packet loop read,
    [CTimer::GetClockTicks] and [CTimer::SimpleusDelay] ([circle/lib/timer.cpp],
    with the physical counter, on 64 bits).

    The register blocks it shares with the rings are those of [Genet].  The device is
    that of [Periph]: loads and stores that may change it, and a
    counter.  What the registers of the MAC keep and how the counter counts are
    stated as classes.  The log messages and the connection of the interrupt
    handlers are left out; the assertions are not compiled in. *)
From S2P Require Import Prelude Heap Genet Periph.

Open Scope Z_scope.

(** ** Constants *)
Definition GENET_V5 : Z := 5.
Definition HFB_FILTER_CNT : nat := 48.
Definition HFB_FILTER_SIZE : nat := 128.
Definition HFB_OFFSET : Z := 0x8000.
Definition HFB_REG_OFFSET : Z := 0xFC00.
Definition ARM_BCM54213_MDIO : Z := 0xFD580E14.

Definition UMAC_CMD : Z := 0x008.
Definition CMD_TX_EN : Z := 1 ≪ 0.
Definition CMD_RX_EN : Z := 1 ≪ 1.
Definition UMAC_SPEED_10 : Z := 0.
Definition UMAC_SPEED_100 : Z := 1.
Definition UMAC_SPEED_1000 : Z := 2.
Definition CMD_SPEED_SHIFT : Z := 2.
Definition CMD_SPEED_MASK : Z := 3.
Definition CMD_PROMISC : Z := 1 ≪ 4.
Definition CMD_CRC_FWD : Z := 1 ≪ 6.
Definition CMD_RX_PAUSE_IGNORE : Z := 1 ≪ 8.
Definition CMD_HD_EN : Z := 1 ≪ 10.
Definition CMD_SW_RESET : Z := 1 ≪ 13.
Definition CMD_LCL_LOOP_EN : Z := 1 ≪ 15.
Definition CMD_TX_PAUSE_IGNORE : Z := 1 ≪ 28.
Definition UMAC_MAC0 : Z := 0x00C.
Definition UMAC_MAC1 : Z := 0x010.
Definition UMAC_MAX_FRAME_LEN : Z := 0x014.
Definition UMAC_TX_FLUSH : Z := 0x334.
Definition UMAC_MDIO_CMD : Z := 0x614.
Definition MDIO_START_BUSY : Z := 1 ≪ 29.
Definition MDIO_READ_FAIL : Z := 1 ≪ 28.
Definition MDIO_RD : Z := 2 ≪ 26.
Definition MDIO_WR : Z := 1 ≪ 26.
Definition MDIO_PMD_SHIFT : Z := 21.
Definition MDIO_REG_SHIFT : Z := 16.
Definition UMAC_MDF_CTRL : Z := 0x650.
Definition UMAC_MDF_ADDR : Z := 0x654.
Definition UMAC_MIB_CTRL : Z := 0x580.
Definition MIB_RESET_RX : Z := 1 ≪ 0.
Definition MIB_RESET_RUNT : Z := 1 ≪ 1.
Definition MIB_RESET_TX : Z := 1 ≪ 2.
Definition RBUF_CTRL : Z := 0x00.
Definition RBUF_ALIGN_2B : Z := 1 ≪ 1.
Definition RBUF_TBUF_SIZE_CTRL : Z := 0xB4.
Definition HFB_CTRL : Z := 0x00.
Definition HFB_FLT_ENABLE_V3PLUS : Z := 0x04.
Definition HFB_FLT_LEN_V3PLUS : Z := 0x1C.
Definition INTRL2_CPU_MASK_SET : Z := 0x10.
Definition INTRL2_CPU_MASK_CLEAR : Z := 0x14.
Definition UMAC_IRQ_LINK_EVENT : Z := Z.lor (1 ≪ 4) (1 ≪ 5).
Definition UMAC_IRQ_RXDMA_DONE : Z := 1 ≪ 13.
Definition SYS_REV_CTRL : Z := 0x00.
Definition SYS_PORT_CTRL : Z := 0x04.
Definition PORT_MODE_EXT_GPHY : Z := 3.
Definition SYS_RBUF_FLUSH_CTRL : Z := 0x08.
Definition EXT_RGMII_OOB_CTRL : Z := 0x0C.
Definition RGMII_LINK : Z := 1 ≪ 4.
Definition OOB_DISABLE : Z := 1 ≪ 5.
Definition RGMII_MODE_EN : Z := 1 ≪ 6.

Definition MDIO_CMD : Z := 0x00.
Definition MII_BMSR : Z := 0x01.
Definition BMSR_LSTATUS : Z := 0x0004.
Definition MII_ADVERTISE : Z := 0x04.
Definition MII_LPA : Z := 0x05.
Definition LPA_10FULL : Z := 0x0040.
Definition LPA_100HALF : Z := 0x0080.
Definition LPA_100FULL : Z := 0x0100.
Definition LPA_PAUSE_CAP : Z := 0x0400.
Definition MII_CTRL1000 : Z := 0x09.
Definition MII_STAT1000 : Z := 0x0A.
Definition LPA_1000MSFAIL : Z := 0x8000.
Definition LPA_1000FULL : Z := 0x0800.
Definition LPA_1000HALF : Z := 0x0400.

Definition MAX_MC_COUNT : Z := 16.
Definition CLOCKHZ : Z := 1000000.

(** The register blocks *)
Definition ext (off : Z) : Z := ARM_BCM54213_BASE + 0x0080 + off.
Definition umac (off : Z) : Z := ARM_BCM54213_BASE + 0x0800 + off.
Definition sys (off : Z) : Z := ARM_BCM54213_BASE + 0x0000 + off.
Definition hfb (off : Z) : Z := ARM_BCM54213_BASE + HFB_OFFSET + off.
Definition hfb_reg (off : Z) : Z := ARM_BCM54213_BASE + HFB_REG_OFFSET + off.
Definition rbuf (off : Z) : Z := ARM_BCM54213_BASE + 0x0300 + off.

(** As [dma_regs] gives it *)
Definition DMA_INDEX2RING_0 : Z := 0x70.

(** ** The state of the driver that concerns the link *)
Record phy_state := mkPhy {
  m_phy_id : Z;
  m_link : Z;
  m_speed : Z;
  m_duplex : Z;
  m_pause : Z;
  m_old_link : Z;
  m_old_speed : Z;
  m_old_duplex : Z;
  m_old_pause : Z
}.

Definition set_link s (l : Z) : phy_state :=
  mkPhy (m_phy_id s) l (m_speed s) (m_duplex s) (m_pause s) (m_old_link s) (m_old_speed s) (m_old_duplex s) (m_old_pause s).
Definition set_mode s (speed duplex pause : Z) : phy_state :=
  mkPhy (m_phy_id s) (m_link s) speed duplex pause (m_old_link s) (m_old_speed s) (m_old_duplex s) (m_old_pause s).
Definition set_old s (link speed duplex pause : Z) : phy_state :=
  mkPhy (m_phy_id s) (m_link s) (m_speed s) (m_duplex s) (m_pause s) link speed duplex pause.
Definition set_phy_id s (i : Z) : phy_state :=
  mkPhy i (m_link s) (m_speed s) (m_duplex s) (m_pause s) (m_old_link s) (m_old_speed s) (m_old_duplex s) (m_old_pause s).

Inductive TNetDeviceSpeed :=
  | NetDeviceSpeed10Half | NetDeviceSpeed10Full
  | NetDeviceSpeed100Half | NetDeviceSpeed100Full
  | NetDeviceSpeed1000Half | NetDeviceSpeed1000Full
  | NetDeviceSpeedUnknown.

Section mac.
Context {D : Type} `{Device D}.
Implicit Types d : D.

(** ** The clock *)

Definition GetClockTicks d : Z * D :=
  let '(nCNTPCT, nCNTFRQ, d) := counter d in (u32 (u64 (nCNTPCT * CLOCKHZ) / nCNTFRQ), d).

Fixpoint delay_loop (fuel : nat) d (nStartTicks nTicks : Z) : outcome D :=
  match fuel with
  | O => Diverge
  | S fuel =>
      let '(t, d) := GetClockTicks d in
      if t ⊟ nStartTicks <? nTicks then delay_loop fuel d nStartTicks nTicks else Ret d
  end.

Definition SimpleusDelay (fuel : nat) d (nMicroSeconds : Z) : outcome D :=
  if 0 <? nMicroSeconds then
    let nTicks := u32 (nMicroSeconds * (CLOCKHZ / 1000000) + 1) in
    let '(nStartTicks, d) := GetClockTicks d in
    delay_loop fuel d nStartTicks nTicks
  else Ret d.

Definition udelay (fuel : nat) d (nMicroSeconds : Z) : outcome D := SimpleusDelay fuel d nMicroSeconds.

(** ** The MAC *)

Definition not32 (x : Z) : Z := u32 (Z.lnot x).

Definition reset_umac (fuel : nat) d : outcome D :=
  let d := PUT32 d (sys SYS_RBUF_FLUSH_CTRL) 0 in
  d ← udelay fuel d 10;
  let d := PUT32 d (umac UMAC_CMD) 0 in
  let d := PUT32 d (umac UMAC_CMD) (Z.lor CMD_SW_RESET CMD_LCL_LOOP_EN) in
  d ← udelay fuel d 2;
  Ret (PUT32 d (umac UMAC_CMD) 0).

Definition umac_reset2 (fuel : nat) d : outcome D :=
  let '(reg, d) := GET32 d (sys SYS_RBUF_FLUSH_CTRL) in
  let reg := Z.lor reg (1 ≪ 1) in
  let d := PUT32 d (sys SYS_RBUF_FLUSH_CTRL) reg in
  d ← udelay fuel d 10;
  let reg := Z.land reg (not32 (1 ≪ 1)) in
  let d := PUT32 d (sys SYS_RBUF_FLUSH_CTRL) reg in
  udelay fuel d 10.

Definition intr_disable d : D :=
  let d := PUT32 d (intrl2_0 INTRL2_CPU_MASK_SET) 0xFFFFFFFF in
  let d := PUT32 d (intrl2_0 INTRL2_CPU_CLEAR) 0xFFFFFFFF in
  let d := PUT32 d (intrl2_1 INTRL2_CPU_MASK_SET) 0xFFFFFFFF in
  PUT32 d (intrl2_1 INTRL2_CPU_CLEAR) 0xFFFFFFFF.

Definition init_umac (fuel : nat) d : outcome D :=
  d ← reset_umac fuel d;
  let d := PUT32 d (umac UMAC_MIB_CTRL) (Z.lor (Z.lor MIB_RESET_RX MIB_RESET_TX) MIB_RESET_RUNT) in
  let d := PUT32 d (umac UMAC_MIB_CTRL) 0 in
  let d := PUT32 d (umac UMAC_MAX_FRAME_LEN) ENET_MAX_MTU_SIZE in
  let '(reg, d) := GET32 d (rbuf RBUF_CTRL) in
  let reg := Z.lor reg RBUF_ALIGN_2B in
  let d := PUT32 d (rbuf RBUF_CTRL) reg in
  let d := PUT32 d (rbuf RBUF_TBUF_SIZE_CTRL) 1 in
  Ret (intr_disable d).

Definition umac_enable_set (fuel : nat) d (mask : Z) (enable : bool) : outcome D :=
  let '(reg, d) := GET32 d (umac UMAC_CMD) in
  let reg := if enable then Z.lor reg mask else Z.land reg (not32 mask) in
  let d := PUT32 d (umac UMAC_CMD) reg in
  if enable then Ret d else udelay fuel d 2000.

Definition tx_ring16_int_enable d : D := PUT32 d (intrl2_0 INTRL2_CPU_MASK_CLEAR) UMAC_IRQ_TXDMA_DONE.
Definition tx_ring_int_enable d (index : Z) : D := PUT32 d (intrl2_1 INTRL2_CPU_MASK_CLEAR) (1 ≪ index).
Definition rx_ring16_int_enable d : D := PUT32 d (intrl2_0 INTRL2_CPU_MASK_CLEAR) UMAC_IRQ_RXDMA_DONE.
Definition link_intr_enable d : D := PUT32 d (intrl2_0 INTRL2_CPU_MASK_CLEAR) UMAC_IRQ_LINK_EVENT.
Definition enable_rx_intr d : D := rx_ring16_int_enable d.

(** [ring->int_enable] of ring [i] is as [init_tx_ring] sets it. *)
Definition enable_tx_intr d : D :=
  tx_ring16_int_enable (foldl (λ d i, tx_ring_int_enable d (Z.of_nat i)) d (seq 0 TX_QUEUES)).

(** [tag]: the address the property tag gives, if it can be had *)
Definition set_hw_addr d (tag : option (list Z)) : outcome (option (list Z) * D) :=
  match tag with
  | None => Ret (None, d)
  | Some Address =>
      a0 ← deref Address 0; a1 ← deref Address 1; a2 ← deref Address 2;
      a3 ← deref Address 3; a4 ← deref Address 4; a5 ← deref Address 5;
      let d := PUT32 d (umac UMAC_MAC0) (Z.lor (Z.lor (Z.lor (u32 (a0 ≪ 24)) (a1 ≪ 16)) (a2 ≪ 8)) a3) in
      Ret (Some Address, PUT32 d (umac UMAC_MAC1) (Z.lor (a4 ≪ 8) a5))
  end.

(** A shift by a negative amount is undefined. *)
Definition set_mdf_addr d (addr : list Z) (i mc : Z) : outcome (D * Z * Z) :=
  a0 ← deref addr 0; a1 ← deref addr 1; a2 ← deref addr 2;
  a3 ← deref addr 3; a4 ← deref addr 4; a5 ← deref addr 5;
  let d := PUT32 d (umac (UMAC_MDF_ADDR + i * 4)) (Z.lor (a0 ≪ 8) a1) in
  let d := PUT32 d (umac (UMAC_MDF_ADDR + (i + 1) * 4)) (Z.lor (Z.lor (Z.lor (u32 (a2 ≪ 24)) (a3 ≪ 16)) (a4 ≪ 8)) a5) in
  let '(reg, d) := GET32 d (umac UMAC_MDF_CTRL) in
  if MAX_MC_COUNT - mc <? 0 then Ub else
  let reg := Z.lor reg (1 ≪ (MAX_MC_COUNT - mc)) in
  Ret (PUT32 d (umac UMAC_MDF_CTRL) reg, i + 2, mc + 1).

(** The loop ends at the first group whose first byte is 0. *)
Fixpoint set_groups d (mc_groups : list (list Z)) (i mc : Z) : outcome D :=
  match mc_groups with
  | [] => Ub
  | g :: mc_groups =>
      g0 ← deref g 0;
      if g0 =? 0 then Ret d else
      '(d, i, mc) ← set_mdf_addr d g i mc;
      set_groups d mc_groups i mc
  end.

Definition Broadcast : list Z := replicate 6 0xFF.

Definition set_rx_mode d (m_MACAddress : list Z) (mc_groups : option (list (list Z))) : outcome D :=
  let '(reg, d) := GET32 d (umac UMAC_CMD) in
  let reg := Z.land reg (not32 CMD_PROMISC) in
  let d := PUT32 d (umac UMAC_CMD) reg in
  let d := PUT32 d (umac UMAC_MDF_CTRL) 0 in
  '(d, i, mc) ← set_mdf_addr d Broadcast 0 0;
  '(d, i, mc) ← set_mdf_addr d m_MACAddress i mc;
  match mc_groups with
  | Some mc_groups => set_groups d mc_groups i mc
  | None => Ret d
  end.

Definition SetMulticastFilter d (m_MACAddress : list Z) (Groups : list (list Z)) : outcome (bool * D) :=
  d ← set_rx_mode d m_MACAddress (Some Groups); Ret (true, d).

Definition hfb_init d : D :=
  let '(_, d) := GET32 d (hfb_reg HFB_CTRL) in
  let '(_, d) := GET32 d (hfb 0) in
  let d := PUT32 d (hfb_reg HFB_CTRL) 0 in
  let d := PUT32 d (hfb_reg HFB_FLT_ENABLE_V3PLUS) 0 in
  let d := PUT32 d (hfb_reg (HFB_FLT_ENABLE_V3PLUS + 4)) 0 in
  let d := foldl (λ d i, PUT32 d (Genet.rdma (DMA_INDEX2RING_0 + 4 * Z.of_nat i)) 0) d (seq 0 8) in
  let d := foldl (λ d i, PUT32 d (hfb_reg (HFB_FLT_LEN_V3PLUS + Z.of_nat i * 4)) 0) d (seq 0 (HFB_FILTER_CNT / 4)) in
  foldl (λ d i, PUT32 d (hfb (Z.of_nat i * 4)) 0) d (seq 0 (HFB_FILTER_CNT * HFB_FILTER_SIZE)).

Definition netif_start (fuel : nat) d : outcome D :=
  d ← umac_enable_set fuel d (Z.lor CMD_TX_EN CMD_RX_EN) true;
  Ret (enable_tx_intr d).

Definition dma_disable (fuel : nat) d : outcome (Z * D) :=
  let dma_ctrl := Z.lor (1 ≪ (GENET_DESC_INDEX + DMA_RING_BUF_EN_SHIFT)) DMA_EN in
  let '(reg, d) := GET32 d (Genet.tdma DMA_CTRL) in
  let d := PUT32 d (Genet.tdma DMA_CTRL) (Z.land reg (not32 dma_ctrl)) in
  let '(reg, d) := GET32 d (Genet.rdma DMA_CTRL) in
  let d := PUT32 d (Genet.rdma DMA_CTRL) (Z.land reg (not32 dma_ctrl)) in
  let d := PUT32 d (umac UMAC_TX_FLUSH) 1 in
  d ← udelay fuel d 10;
  Ret (dma_ctrl, PUT32 d (umac UMAC_TX_FLUSH) 0).

Definition enable_dma d (dma_ctrl : Z) : D :=
  let '(reg, d) := GET32 d (Genet.rdma DMA_CTRL) in
  let d := PUT32 d (Genet.rdma DMA_CTRL) (Z.lor reg dma_ctrl) in
  let '(reg, d) := GET32 d (Genet.tdma DMA_CTRL) in
  PUT32 d (Genet.tdma DMA_CTRL) (Z.lor reg dma_ctrl).

(** ** The MDIO bus *)

Definition mdio_start d : D :=
  let '(reg, d) := GET32 d (ARM_BCM54213_MDIO + MDIO_CMD) in
  PUT32 d (ARM_BCM54213_MDIO + MDIO_CMD) (Z.lor reg MDIO_START_BUSY).

(** The loop of [mdio_wait] *)
Fixpoint mdio_loop (fuel : nat) d (nStartTicks : Z) : outcome D :=
  match fuel with
  | O => Diverge
  | S fuel =>
      let '(t, d) := GetClockTicks d in
      if CLOCKHZ / 100 <=? t ⊟ nStartTicks then Ret d else
      let '(v, d) := GET32 d (umac UMAC_MDIO_CMD) in
      if truth (Z.land v MDIO_START_BUSY) then mdio_loop fuel d nStartTicks else Ret d
  end.

Definition mdio_wait (fuel : nat) d : outcome D :=
  let '(nStartTicks, d) := GetClockTicks d in mdio_loop fuel d nStartTicks.

Definition mdio_read (fuel : nat) d (s : phy_state) (reg : Z) : outcome (Z * D) :=
  let cmd := Z.lor (Z.lor MDIO_RD (m_phy_id s ≪ MDIO_PMD_SHIFT)) (reg ≪ MDIO_REG_SHIFT) in
  let d := PUT32 d (ARM_BCM54213_MDIO + MDIO_CMD) cmd in
  let d := mdio_start d in
  d ← mdio_wait fuel d;
  let '(cmd, d) := GET32 d (ARM_BCM54213_MDIO + MDIO_CMD) in
  if truth (Z.land cmd MDIO_READ_FAIL) then Ret (-1, d) else Ret (Z.land cmd 0xFFFF, d).

Definition mdio_write (fuel : nat) d (s : phy_state) (reg val : Z) : outcome D :=
  let cmd := Z.lor (Z.lor (Z.lor MDIO_WR (m_phy_id s ≪ MDIO_PMD_SHIFT)) (reg ≪ MDIO_REG_SHIFT)) (Z.land 0xFFFF val) in
  let d := PUT32 d (ARM_BCM54213_MDIO + MDIO_CMD) cmd in
  let d := mdio_start d in
  mdio_wait fuel d.

Definition mdio_reset (fuel : nat) d (s : phy_state) : outcome (Z * D) :=
  '(ret, d) ← mdio_read fuel d s MII_BMSR;
  if ret <? 0 then Ret (ret, d) else Ret (0, d).

(** ** The link *)

(** The mode both ends can do, from what they advertise *)
Definition resolve_mode (common_adv_gb common_adv lpa : Z) (s : phy_state) : phy_state :=
  let '(speed, duplex) :=
    if truth (Z.land common_adv_gb (Z.lor LPA_1000FULL LPA_1000HALF)) then
      (1000, if truth (Z.land common_adv_gb LPA_1000FULL) then 1 else 0)
    else if truth (Z.land common_adv (Z.lor LPA_100FULL LPA_100HALF)) then
      (100, if truth (Z.land common_adv LPA_100FULL) then 1 else 0)
    else (10, if truth (Z.land common_adv LPA_10FULL) then 1 else 0) in
  let pause := if duplex =? 1 then (if truth (Z.land lpa LPA_PAUSE_CAP) then 1 else 0) else 0 in
  set_mode s speed duplex pause.

Definition phy_read_status (fuel : nat) d (s : phy_state) : outcome (Z * phy_state * D) :=
  '(bmsr, d) ← mdio_read fuel d s MII_BMSR;
  if bmsr <? 0 then Ret (bmsr, s, d) else
  if Z.land bmsr BMSR_LSTATUS =? 0 then Ret (0, set_link s 0, d) else
  let s := set_link s 1 in
  '(lpagb, d) ← mdio_read fuel d s MII_STAT1000;
  if lpagb <? 0 then Ret (lpagb, s, d) else
  '(ctrl1000, d) ← mdio_read fuel d s MII_CTRL1000;
  if ctrl1000 <? 0 then Ret (ctrl1000, s, d) else
  if truth (Z.land lpagb LPA_1000MSFAIL) then Ret (-1, s, d) else
  let common_adv_gb := Z.land lpagb (ctrl1000 ≪ 2) in
  '(lpa, d) ← mdio_read fuel d s MII_LPA;
  if lpa <? 0 then Ret (lpa, s, d) else
  '(adv, d) ← mdio_read fuel d s MII_ADVERTISE;
  if adv <? 0 then Ret (adv, s, d) else
  let common_adv := Z.land lpa adv in
  Ret (0, resolve_mode common_adv_gb common_adv lpa s, d).

(** What [mii_setup] puts into [UMAC_CMD] for a mode *)
Definition cmd_bits (speed duplex pause : Z) : Z :=
  let bits := (if speed =? 1000 then UMAC_SPEED_1000
               else if speed =? 100 then UMAC_SPEED_100 else UMAC_SPEED_10) ≪ CMD_SPEED_SHIFT in
  let bits := if duplex =? 0 then Z.lor bits CMD_HD_EN else bits in
  if pause =? 0 then Z.lor bits (Z.lor CMD_RX_PAUSE_IGNORE CMD_TX_PAUSE_IGNORE) else bits.

Definition mode_mask : Z :=
  Z.lor (Z.lor (Z.lor (CMD_SPEED_MASK ≪ CMD_SPEED_SHIFT) CMD_HD_EN) CMD_RX_PAUSE_IGNORE) CMD_TX_PAUSE_IGNORE.

Definition mii_setup d (s : phy_state) : phy_state * D :=
  let status_changed := negb (m_old_link s =? m_link s) in
  let s := set_old s (m_link s) (m_old_speed s) (m_old_duplex s) (m_old_pause s) in
  if m_link s =? 0 then (s, d) else
  let status_changed := status_changed || negb (m_old_speed s =? m_speed s)
    || negb (m_old_duplex s =? m_duplex s) || negb (m_old_pause s =? m_pause s) in
  let s := set_old s (m_old_link s) (m_speed s) (m_duplex s) (m_pause s) in
  if negb status_changed then (s, d) else
  let '(reg, d) := GET32 d (ext EXT_RGMII_OOB_CTRL) in
  let reg := Z.land reg (not32 OOB_DISABLE) in
  let reg := Z.lor reg RGMII_LINK in
  let d := PUT32 d (ext EXT_RGMII_OOB_CTRL) reg in
  let '(reg, d) := GET32 d (umac UMAC_CMD) in
  let reg := Z.land reg (not32 mode_mask) in
  let reg := Z.lor reg (cmd_bits (m_speed s) (m_duplex s) (m_pause s)) in
  (s, PUT32 d (umac UMAC_CMD) reg).

Definition mii_config d (init : bool) : Z * D :=
  let id_mode_dis := 1 ≪ 16 in
  let d := PUT32 d (sys SYS_PORT_CTRL) PORT_MODE_EXT_GPHY in
  let '(reg, d) := GET32 d (ext EXT_RGMII_OOB_CTRL) in
  let reg := Z.lor reg (Z.lor RGMII_MODE_EN id_mode_dis) in
  (0, PUT32 d (ext EXT_RGMII_OOB_CTRL) reg).

Definition mii_probe (fuel : nat) d (s : phy_state) : outcome (Z * phy_state * D) :=
  let s := set_old s (-1) (-1) (-1) (-1) in
  let s := set_phy_id s 0x01 in
  '(ret, d) ← mdio_reset fuel d s;
  '(ret, s, d) ← (if truth ret then
      let s := set_phy_id s 0x00 in
      '(ret, d) ← mdio_reset fuel d s; Ret (ret, s, d)
    else Ret (ret, s, d));
  if truth ret then Ret (ret, s, d) else
  '(ret, s, d) ← phy_read_status fuel d s;
  if truth ret then Ret (ret, s, d) else
  let '(s, d) := mii_setup d s in
  let '(ret, d) := mii_config d true in
  Ret (ret, s, d).

Definition IsLinkUp (s : phy_state) : bool := truth (m_link s).

Definition GetLinkSpeed (s : phy_state) : TNetDeviceSpeed :=
  if negb (truth (m_link s)) then NetDeviceSpeedUnknown else
  if m_speed s =? 10 then (if truth (m_duplex s) then NetDeviceSpeed10Full else NetDeviceSpeed10Half)
  else if m_speed s =? 100 then (if truth (m_duplex s) then NetDeviceSpeed100Full else NetDeviceSpeed100Half)
  else if m_speed s =? 1000 then (if truth (m_duplex s) then NetDeviceSpeed1000Full else NetDeviceSpeed1000Half)
  else NetDeviceSpeedUnknown.

Definition UpdatePHY (fuel : nat) d (s : phy_state) : outcome (bool * phy_state * D) :=
  '(ret, s, d) ← phy_read_status fuel d s;
  if ret =? 0 then let '(s, d) := mii_setup d s in Ret (true, s, d) else Ret (true, s, d).

Definition MsDelay (fuel : nat) d (nMilliSeconds : Z) : outcome D :=
  if 0 <? nMilliSeconds then SimpleusDelay fuel d (u32 (nMilliSeconds * 1000)) else Ret d.

(** The loop of [CKernel::Run] that waits for the link, before the packet loop *)
Fixpoint wait_for_link (rounds fuel : nat) d (s : phy_state) : outcome (phy_state * D) :=
  match rounds with
  | O => Diverge
  | S rounds =>
      if IsLinkUp s then Ret (s, d) else
      '(ok, s, d) ← UpdatePHY fuel d s;
      if (ok : bool) then d ← MsDelay fuel d 2000; wait_for_link rounds fuel d s else Ret (s, d)
  end.

(** ** Set-up *)

(** [Initialize] up to the call of [init_dma]: the result where it returns early,
    or [m_crc_fwd_en], the MAC address and the bits of the DMA control registers *)
Definition prepare (fuel : nat) d (tag : option (list Z)) : outcome (bool * option (list Z * Z) * D) :=
  let '(reg, d) := GET32 d (sys SYS_REV_CTRL) in
  let major := Z.land (reg ≫ 24) 0x0f in
  let major := if major =? 6 then 5 else if major =? 5 then 4 else if major =? 0 then 1 else major in
  if negb (major =? GENET_V5) then Ret (false, None, d) else
  d ← reset_umac fuel d;
  d ← umac_reset2 fuel d;
  d ← init_umac fuel d;
  let '(reg, d) := GET32 d (umac UMAC_CMD) in
  let m_crc_fwd_en := truth (Z.land reg CMD_CRC_FWD) in
  '(addr, d) ← set_hw_addr d tag;
  match addr with
  | None => Ret (m_crc_fwd_en, None, d)
  | Some m_MACAddress =>
      '(dma_ctrl, d) ← dma_disable fuel d; Ret (m_crc_fwd_en, Some (m_MACAddress, dma_ctrl), d)
  end.

(** [Initialize] from there on, when the rings are set up *)
Definition finish (fuel : nat) d (m_MACAddress : list Z) (dma_ctrl : Z) (s : phy_state) : outcome (bool * phy_state * D) :=
  let d := enable_dma d dma_ctrl in
  let d := hfb_init d in
  '(ret, s, d) ← mii_probe fuel d s;
  if truth ret then Ret (false, s, d) else
  d ← netif_start fuel d;
  d ← set_rx_mode d m_MACAddress None;
  Ret (true, s, d).

(** [init_dma]: the set-up of the rings, that of [Genet].  The results are whether
    the device is there, [m_crc_fwd_en], the MAC address, and the state of the
    link. *)
Definition Initialize (init_dma : D → outcome (bool * D)) (fuel : nat) d (tag : option (list Z)) (s : phy_state)
  : outcome (bool * bool * option (list Z) * phy_state * D) :=
  '(m_crc_fwd_en, opened, d) ← prepare fuel d tag;
  match opened with
  | None => Ret (false, m_crc_fwd_en, None, s, d)
  | Some (m_MACAddress, dma_ctrl) =>
      '(ok, d) ← init_dma d;
      if negb ok then Ret (false, m_crc_fwd_en, Some m_MACAddress, s, d) else
      '(ok, s, d) ← finish fuel d m_MACAddress dma_ctrl s;
      Ret (ok, m_crc_fwd_en, Some m_MACAddress, s, d)
  end.
End mac.

(** ** The registers of the rings

    The descriptors and the registers of the rings, which nothing in this file
    stores to.  A state is accessed from another when loads, stores elsewhere and
    readings of the counter lead there. *)
Definition in_rings (a : Z) : bool :=
  let o := a - ARM_BCM54213_BASE in
  ((RDMA_OFFSET <=? o) && (o <? GENET_RDMA_REG_OFF + DMA_RINGS_SIZE))
  || ((TDMA_OFFSET <=? o) && (o <? GENET_TDMA_REG_OFF + DMA_RINGS_SIZE)).

Section accesses.
Context {D : Type} `{Device D}.
Implicit Types d : D.

Inductive access : D → D → Prop :=
  | access_load d a v d' : GET32 d a = (v, d') → access d d'
  | access_store d a v : in_rings a = false → access d (PUT32 d a v)
  | access_counter d x d' : counter d = (x, d') → access d d'.

Definition accessed : D → D → Prop := rtc access.

Lemma load_accessed d a v d' : GET32 d a = (v, d') → accessed d d'.
Proof. intros E. by eapply rtc_once, access_load. Qed.

Lemma store_accessed d a v : in_rings a = false → accessed d (PUT32 d a v).
Proof. intros Ha. by apply rtc_once, access_store. Qed.

Lemma clock_accessed d t d' : GetClockTicks d = (t, d') → accessed d d'.
Proof.
  unfold GetClockTicks. destruct (counter d) as [[p f] d1] eqn:E. intros [= _ <-].
  by eapply rtc_once, access_counter.
Qed.
End accesses.

(** ** The clock counts microseconds *)

(** The counter goes on with every access, by a second at most; [now] is its value. *)
Class Clock (D : Type) `{Device D} := {
  now : D → Z;
  freq : Z;
  freq_range : 1000000 ≤ freq < 2 ^ 32;
  now_start d : 0 ≤ now d;
  counter_time d : ∃ d', counter d = (now d', freq, d') ∧ now d < now d' ≤ now d + freq;
  load_time d a : now d ≤ now (snd (GET32 d a)) ≤ now d + freq;
  store_time d a v : now d ≤ now (PUT32 d a v) ≤ now d + freq
}.

Section clock.
Context {D : Type} `{Clock D}.
Implicit Types d : D.

(** The microseconds since the counter started *)
Definition micros d : Z := now d * CLOCKHZ / freq.

(** For [us] microseconds more, the product in [GetClockTicks] fits 64 bits. *)
Definition in_time d (us : Z) : Prop := (micros d + us) * freq < 2 ^ 64.

Lemma micros_pos d : 0 ≤ micros d.
Proof. pose proof freq_range. pose proof (now_start d). apply Z.div_pos; unfold CLOCKHZ; lia. Qed.

Lemma micros_bounds d : freq * micros d ≤ now d * CLOCKHZ < freq * (micros d + 1).
Proof.
  pose proof freq_range. split; [apply Z.mul_div_le; lia|].
  apply Z.mul_succ_div_gt. lia.
Qed.

Lemma micros_step d d' : now d ≤ now d' ≤ now d + freq → micros d ≤ micros d' ≤ micros d + 1000000.
Proof.
  pose proof freq_range. intros Hn. unfold micros, CLOCKHZ. split; [apply Z.div_le_mono; lia|].
  rewrite <- Z.div_add by lia. apply Z.div_le_mono; lia.
Qed.

Lemma in_time_mono d us us' : us' ≤ us → in_time d us → in_time d us'.
Proof. pose proof freq_range. unfold in_time. intros. nia. Qed.

Lemma in_time_step d d' us k : micros d' ≤ micros d + k → in_time d us → in_time d' (us - k).
Proof. pose proof freq_range. unfold in_time. intros. nia. Qed.

(** A reading of the clock: the low 32 bits of the microseconds. *)
Lemma clock_reading d : in_time d 1000001 →
  ∃ d', GetClockTicks d = (u32 (micros d'), d') ∧ now d < now d' ≤ now d + freq.
Proof.
  intros Ht. pose proof freq_range. destruct (counter_time d) as (d' & E & Hn). exists d'. split; [|exact Hn].
  unfold GetClockTicks. rewrite E. pose proof (now_start d').
  rewrite (wrap_small 64); [done|]. unfold uword. split; [unfold CLOCKHZ; lia|].
  pose proof (micros_step d d' ltac:(lia)). unfold in_time in Ht.
  pose proof (micros_bounds d'). nia.
Qed.

(** A difference of readings is the time between them. *)
Lemma reading_diff a b : 0 ≤ b - a < 2 ^ 32 → u32 b ⊟ u32 a = b - a.
Proof.
  intros Hd. unfold wrap. rewrite <- Zminus_mod. apply Z.mod_small. lia.
Qed.

(** A reading of the clock in a loop that has run for less than [n] microseconds
    since [t0]: the true time since then, and progress. *)
Lemma loop_reading t0 n d : 0 ≤ t0 → 0 ≤ n < 2 ^ 31 → t0 ≤ micros d < t0 + n + 1000001 →
  (t0 + n + 3000000) * freq (D := D) < 2 ^ 64 →
  ∃ d', GetClockTicks d = (u32 (micros d'), d') ∧ now d < now d' ≤ now d + freq ∧
    u32 (micros d') ⊟ u32 t0 = micros d' - t0 ∧ micros d ≤ micros d' ≤ micros d + 1000000.
Proof.
  intros Ht0 Hn Hd Hin. destruct (clock_reading d) as (d' & E & Hnow).
  { unfold in_time. pose proof freq_range. nia. }
  pose proof (micros_step d d' ltac:(lia)) as Hm. exists d'. split; [exact E|]. split; [exact Hnow|].
  split; [apply reading_diff; lia|exact Hm].
Qed.

(** While fewer than [n] microseconds have passed, the counter is below a bound. *)
Lemma counter_bound t0 n d : 0 ≤ n → micros d - t0 < n → now d < (t0 + n) * freq.
Proof.
  intros Hn Hd. pose proof freq_range. pose proof (now_start d).
  pose proof (micros_bounds d). unfold CLOCKHZ in *. nia.
Qed.

(** The loop of the delay ends once [n] microseconds have passed since [t0]. *)
Lemma delay_loop_ends t0 n : 0 ≤ t0 → 0 ≤ n < 2 ^ 31 → (t0 + n + 3000000) * freq (D := D) < 2 ^ 64 →
  ∀ d, t0 ≤ micros d < t0 + n + 1000001 →
  ∃ d', ends (λ fuel, delay_loop fuel d (u32 t0) n) d' ∧ n ≤ micros d' - t0 ∧ micros d ≤ micros d' ≤ t0 + n + 2000001 ∧
    now d ≤ now d' ∧ accessed d d'.
Proof.
  intros Ht0 Hn Hin d. remember (Z.to_nat ((t0 + n) * freq - now d)) as m eqn:Hm. revert d Hm.
  induction (Nat.lt_wf_0 m) as [m _ IH]. intros d -> Hd.
  destruct (loop_reading t0 n d Ht0 Hn Hd Hin) as (d1 & E & Hnow & Hdiff & Hmic).
  pose proof (clock_accessed _ _ _ E) as Hacc.
  destruct (Z.ltb_spec (micros d1 - t0) n) as [Hlt|Hge].
  - pose proof (counter_bound t0 n d1 ltac:(lia) Hlt).
    destruct (IH (Z.to_nat ((t0 + n) * freq - now d1)) ltac:(lia) d1 eq_refl ltac:(lia)) as (d' & [k Hk] & Ha & Hb & Hc & Hacc').
    exists d'. split; [|split_and!; [lia..|by etrans]]. exists (S k). intros [|fuel] Hf; [lia|]. cbn [delay_loop].
    rewrite E, Hdiff, (proj2 (Z.ltb_lt _ _) Hlt). apply Hk. lia.
  - exists d1. split; [|split_and!; [lia..|done]]. exists 1%nat. intros [|fuel] Hf; [lia|]. cbn [delay_loop].
    by rewrite E, Hdiff, (proj2 (Z.ltb_ge _ _) Hge).
Qed.

(** A delay lasts.  In the first 94 hours of a counter at 54 MHz, and as long as
    [GetClockTicks] does not overflow in general, [SimpleusDelay] ends, and not
    before the given number of microseconds is over: the two readings of the
    clock may be cut anywhere in a microsecond, and the 32-bit ticks may wrap
    around in between. *)
Theorem delay_waits d (n : Z) : 0 ≤ n < 2 ^ 30 → in_time d (n + 5000000) →
  ∃ d', ends (λ fuel, SimpleusDelay fuel d n) d' ∧ n * freq (D := D) ≤ (now d' - now d) * CLOCKHZ ∧
    micros d ≤ micros d' ≤ micros d + n + 3000002 ∧ accessed d d'.
Proof.
  intros Hn Hin. pose proof freq_range as Hf. pose proof (micros_pos d). unfold SimpleusDelay, in_time in *.
  destruct (Z.ltb_spec 0 n) as [Hpos|].
  2:{ exists d. split; [apply enough_ret|]. split; [nia|]. split; [lia|reflexivity]. }
  change (CLOCKHZ / 1000000) with 1. rewrite Z.mul_1_r, (wrap_small 32 (n + 1)) by (unfold uword; lia).
  destruct (clock_reading d) as (d0 & E & Hnow); [unfold in_time; nia|]. rewrite E.
  pose proof (micros_step d d0 ltac:(lia)) as Hm.
  destruct (delay_loop_ends (micros d0) (n + 1)) with (d := d0) as (d' & Hends & Ha & Hb & Hc & Hacc); [lia|lia|nia|lia|].
  exists d'. split; [exact Hends|]. split; [|split; [lia|etrans; [by eapply clock_accessed|exact Hacc]]].
  pose proof (micros_bounds d'). pose proof (micros_bounds d0). unfold CLOCKHZ in *. nia.
Qed.
End clock.

(** ** The registers the driver sets up the MAC with

    The command register, the one of the pins, and those of the receive filter with
    the 34 words of its 17 addresses: they keep what is stored and change with no
    other access; the command register of the MDIO bus is none of them. *)
Definition mdf_word (k : Z) : Z := umac (UMAC_MDF_ADDR + k * 4).

Definition control (a : Z) : Prop :=
  a = umac UMAC_CMD ∨ a = ext EXT_RGMII_OOB_CTRL ∨ a = umac UMAC_MDF_CTRL ∨ ∃ k, 0 ≤ k < 34 ∧ a = mdf_word k.

Class MacRegs (D : Type) `{Device D} := {
  ctl : D → Z → Z;
  load_ctl d a v d' c : control c → GET32 d a = (v, d') → ctl d' c = ctl d c;
  load_value d a v d' : control a → GET32 d a = (v, d') → v = ctl d a;
  store_ctl d a v c : control c → ctl (PUT32 d a v) c = if a =? c then v else ctl d c;
  counter_ctl d x d' c : control c → counter d = (x, d') → ctl d' c = ctl d c
}.

Definition same_ctl {D} `{MacRegs D} (d d' : D) : Prop := ∀ c, control c → ctl d' c = ctl d c.

(** ** The best mode

    The modes of Ethernet in their order of preference, as speed and duplex, with
    what the ends advertise: the partner in [lpagb] and [lpa], this one in
    [ctrl1000] and [adv].  Half duplex at 10 Mbit/s is taken without a test. *)
Definition shared (lpagb ctrl1000 lpa adv : Z) : list ((Z * Z) * bool) :=
  [((1000, 1), Z.testbit lpagb 11 && Z.testbit ctrl1000 9);
   ((1000, 0), Z.testbit lpagb 10 && Z.testbit ctrl1000 8);
   ((100, 1), Z.testbit lpa 8 && Z.testbit adv 8);
   ((100, 0), Z.testbit lpa 7 && Z.testbit adv 7);
   ((10, 1), Z.testbit lpa 6 && Z.testbit adv 6);
   ((10, 0), true)].

Definition best_mode (lpagb ctrl1000 lpa adv : Z) : Z * Z :=
  match find snd (shared lpagb ctrl1000 lpa adv) with Some (m, _) => m | None => (10, 0) end.

Lemma land_bit x k : 0 ≤ k → Z.land x (2 ^ k) = if Z.testbit x k then 2 ^ k else 0.
Proof.
  intros Hk. apply Z.bits_inj'. intros i Hi. rewrite Z.land_spec, Z.pow2_bits_eqb by lia.
  destruct (Z.eqb_spec k i) as [->|Hne].
  - destruct (Z.testbit x i); [by rewrite Z.pow2_bits_true|by rewrite Z.bits_0].
  - rewrite andb_false_r. destruct (Z.testbit x k); [by rewrite Z.pow2_bits_false by lia|by rewrite Z.bits_0].
Qed.

Lemma truth_bit x k : 0 ≤ k → truth (Z.land x (2 ^ k)) = Z.testbit x k.
Proof.
  intros Hk. rewrite land_bit by done. unfold truth. pose proof (Z.pow_pos_nonneg 2 k).
  destruct (Z.testbit x k); [by rewrite (proj2 (Z.eqb_neq _ _)) by lia|done].
Qed.

Lemma truth_bits x j k : 0 ≤ j → 0 ≤ k → truth (Z.land x (Z.lor (2 ^ j) (2 ^ k))) = Z.testbit x j || Z.testbit x k.
Proof.
  intros Hj Hk. rewrite Z.land_lor_distr_r. unfold truth.
  assert (E : (Z.lor (Z.land x (2 ^ j)) (Z.land x (2 ^ k)) =? 0) = (Z.land x (2 ^ j) =? 0) && (Z.land x (2 ^ k) =? 0)).
  { apply eq_bool_prop_intro. rewrite andb_True, !Is_true_true, !Z.eqb_eq. apply Z.lor_eq_0_iff. }
  rewrite E, negb_andb. f_equal; by apply truth_bit.
Qed.

Lemma resolve_best lpagb ctrl1000 lpa adv s : let s' := resolve_mode (Z.land lpagb (ctrl1000 ≪ 2)) (Z.land lpa adv) lpa s in
  (m_speed s', m_duplex s') = best_mode lpagb ctrl1000 lpa adv ∧ m_link s' = m_link s ∧
  m_pause s' = (if (m_duplex s' =? 1) && Z.testbit lpa 10 then 1 else 0) ∧
  m_old_link s' = m_old_link s ∧ m_old_speed s' = m_old_speed s ∧ m_old_duplex s' = m_old_duplex s ∧
  m_old_pause s' = m_old_pause s.
Proof.
  unfold resolve_mode. change LPA_1000FULL with (2 ^ 11). change LPA_1000HALF with (2 ^ 10).
  change LPA_100FULL with (2 ^ 8). change LPA_100HALF with (2 ^ 7). change LPA_10FULL with (2 ^ 6). change LPA_PAUSE_CAP with (2 ^ 10).
  rewrite !truth_bits, !truth_bit, !Z.land_spec, !Z.shiftl_spec by lia.
  change (11 - 2) with 9. change (10 - 2) with 8. unfold best_mode, shared. cbn [find snd].
  destruct (Z.testbit lpagb 11 && Z.testbit ctrl1000 9), (Z.testbit lpagb 10 && Z.testbit ctrl1000 8),
    (Z.testbit lpa 8 && Z.testbit adv 8), (Z.testbit lpa 7 && Z.testbit adv 7), (Z.testbit lpa 6 && Z.testbit adv 6),
    (Z.testbit lpa 10); cbn; done.
Qed.

Lemma best_mode_speed lpagb ctrl1000 lpa adv : fst (best_mode lpagb ctrl1000 lpa adv) ≠ -1.
Proof. unfold best_mode, shared. cbn [find snd]. repeat case_match; simplify_eq; done. Qed.

Section bus.
Context {D : Type} `{!Device D, !Clock D, !MacRegs D}.
Implicit Types d : D.

Lemma same_ctl_trans d1 d2 d3 : same_ctl d1 d2 → same_ctl d2 d3 → same_ctl d1 d3.
Proof. intros H1 H2 c Hc. by rewrite H2, H1. Qed.

(** Accesses that leave the set-up as it is *)
Definition kept d d' : Prop := same_ctl d d' ∧ accessed d d'.

Lemma kept_refl d : kept d d.
Proof. split; [by intros c Hc|reflexivity]. Qed.

Lemma kept_trans d1 d2 d3 : kept d1 d2 → kept d2 d3 → kept d1 d3.
Proof. intros [S1 A1] [S2 A2]. split; [by eapply same_ctl_trans|by etrans]. Qed.

(** [d'] comes after [d], by [k] microseconds at most, with the same set-up. *)
Definition after (k : Z) d d' : Prop := micros d ≤ micros d' ≤ micros d + k ∧ kept d d'.

Lemma after_trans k1 k2 d1 d2 d3 : after k1 d1 d2 → after k2 d2 d3 → after (k1 + k2) d1 d3.
Proof. intros [H1 S1] [H2 S2]. split; [lia|by eapply kept_trans]. Qed.

Lemma after_le k k' d d' : after k d d' → k ≤ k' → after k' d d'.
Proof. intros [H1 S1] Hk. split; [lia|done]. Qed.

Lemma load_after d a : ∃ v d', GET32 d a = (v, d') ∧ after 1000000 d d'.
Proof.
  destruct (GET32 d a) as [v d'] eqn:E. exists v, d'. split; [done|]. split.
  - pose proof (load_time d a) as Ht. rewrite E in Ht. by apply micros_step.
  - split; [intros c Hc; by eapply load_ctl|by eapply load_accessed].
Qed.

Lemma store_same d a v : ¬ control a → same_ctl d (PUT32 d a v).
Proof. intros Ha c Hc. rewrite store_ctl by done. destruct (Z.eqb_spec a c); [by subst|done]. Qed.

Lemma store_after d a v : ¬ control a → in_rings a = false → after 1000000 d (PUT32 d a v).
Proof.
  intros Ha Hr. split; [apply micros_step, store_time|]. split; [by apply store_same|by apply store_accessed].
Qed.

Lemma clock_kept d t d' : GetClockTicks d = (t, d') → kept d d'.
Proof.
  intros Et. split; [|by eapply clock_accessed]. revert Et. unfold GetClockTicks. destruct (counter d) as [[p f] d1] eqn:E. intros [= _ <-] c Hc.
  by eapply (counter_ctl d (p, f)).
Qed.

(** The wait for the bus is over after 10 ms, whether or not the bus answers. *)
Lemma mdio_loop_ends t0 : 0 ≤ t0 → (t0 + 10000 + 3000000) * freq (D := D) < 2 ^ 64 →
  ∀ d, t0 ≤ micros d < t0 + 10000 + 1000001 →
  ∃ d', ends (λ fuel, mdio_loop fuel d (u32 t0)) d' ∧ micros d ≤ micros d' ≤ t0 + 10000 + 2000001 ∧ kept d d'.
Proof.
  intros Ht0 Hin d. remember (Z.to_nat ((t0 + 10000) * freq - now d)) as m eqn:Hm. revert d Hm.
  induction (Nat.lt_wf_0 m) as [m _ IH]. intros d -> Hd.
  destruct (loop_reading t0 10000 d Ht0 ltac:(lia) Hd Hin) as (d1 & E & Hnow & Hdiff & Hmic).
  pose proof (clock_kept d _ d1 E) as Hs1.
  destruct (Z.leb_spec 10000 (micros d1 - t0)) as [Hge|Hlt].
  { exists d1. split; [|split; [lia|done]]. exists 1%nat. intros [|fuel] Hf; [lia|]. cbn [mdio_loop].
    rewrite E, Hdiff. change (CLOCKHZ / 100) with 10000. by rewrite (proj2 (Z.leb_le _ _) Hge). }
  destruct (load_after d1 (umac UMAC_MDIO_CMD)) as (v & d2 & El & [Hm2 Hs2]).
  assert (Hs : kept d d2) by (by eapply kept_trans).
  destruct (truth (Z.land v MDIO_START_BUSY)) eqn:Hb.
  - assert (Hbound : now d1 < (t0 + 10000) * freq (D := D)) by (apply counter_bound; lia).
    pose proof (load_time d1 (umac UMAC_MDIO_CMD)) as Hl. rewrite El in Hl. cbn [snd] in Hl.
    destruct (IH (Z.to_nat ((t0 + 10000) * freq - now d2)) ltac:(lia) d2 eq_refl ltac:(lia)) as (d' & [k Hk] & Ha & Hs').
    exists d'. split; [|split; [lia|by eapply kept_trans]]. exists (S k). intros [|fuel] Hf; [lia|]. cbn [mdio_loop].
    rewrite E, Hdiff. change (CLOCKHZ / 100) with 10000. rewrite (proj2 (Z.leb_gt _ _) Hlt), El, Hb. apply Hk. lia.
  - exists d2. split; [|split; [lia|done]]. exists 1%nat. intros [|fuel] Hf; [lia|]. cbn [mdio_loop].
    rewrite E, Hdiff. change (CLOCKHZ / 100) with 10000. by rewrite (proj2 (Z.leb_gt _ _) Hlt), El, Hb.
Qed.

Lemma mdio_not_control : ¬ control (ARM_BCM54213_MDIO + MDIO_CMD).
Proof.
  intros [H|[H|[H|(k & Hk & H)]]]; [discriminate H..|revert H].
  cbv [mdf_word umac UMAC_MDF_ADDR ARM_BCM54213_MDIO MDIO_CMD ARM_BCM54213_BASE]. lia.
Qed.

Lemma in_time_after us k d d' : after k d d' → in_time d us → in_time d' (us - k).
Proof. intros [Ha _]. apply in_time_step. lia. Qed.

Lemma mdio_wait_ends d : in_time d 5000000 →
  ∃ d', ends (λ fuel, mdio_wait fuel d) d' ∧ after 4000000 d d'.
Proof.
  intros Hin. pose proof freq_range as Hf. pose proof (micros_pos d). unfold mdio_wait, in_time in *.
  destruct (clock_reading d) as (d0 & E & Hnow); [unfold in_time; nia|]. rewrite E.
  assert (Hm : micros d ≤ micros d0 ≤ micros d + 1000000) by (apply micros_step; lia).
  destruct (mdio_loop_ends (micros d0)) with (d := d0) as (d' & Hends & Ha & Hs); [lia|nia|lia|].
  exists d'. split; [exact Hends|]. split; [lia|]. eapply kept_trans; [by eapply clock_kept|exact Hs].
Qed.

(** What a register of the PHY can be read as *)
Definition mdio_value (v : Z) : Prop := v = -1 ∨ 0 ≤ v < 65536.

Lemma mdio_read_ends d s reg : in_time d 9000000 →
  ∃ v d', ends (λ fuel, mdio_read fuel d s reg) (v, d') ∧ mdio_value v ∧ after 9000000 d d'.
Proof.
  intros Hin. unfold mdio_read, mdio_start.
  set (cmd := Z.lor (Z.lor _ _) _). pose proof (store_after d _ cmd mdio_not_control eq_refl) as A1.
  set (d1 := PUT32 d _ cmd) in *.
  destruct (load_after d1 (ARM_BCM54213_MDIO + MDIO_CMD)) as (r & d2 & E2 & A2). rewrite E2.
  pose proof (store_after d2 _ (Z.lor r MDIO_START_BUSY) mdio_not_control eq_refl) as A3.
  set (d3 := PUT32 d2 _ _) in *.
  pose proof (after_trans _ _ _ _ _ (after_trans _ _ _ _ _ A1 A2) A3) as A.
  destruct (mdio_wait_ends d3) as (d4 & H4 & A4); [by apply (in_time_after 9000000 _ d d3) in A; [eapply in_time_mono; [|exact A]; lia|]|].
  destruct (load_after d4 (ARM_BCM54213_MDIO + MDIO_CMD)) as (v & d5 & E5 & A5).
  pose proof (after_trans _ _ _ _ _ (after_trans _ _ _ _ _ A A4) A5) as A'.
  destruct (truth (Z.land v MDIO_READ_FAIL)) eqn:Hv; eexists _, d5;
    (split; [apply (enough_bind _ _ _ _ H4); rewrite E5, Hv; apply enough_ret|]); (split; [|eapply after_le; [exact A'|lia]]).
  - by left.
  - right. change 0xFFFF with (Z.ones 16). rewrite Z.land_ones by lia. apply Z.mod_pos_bound. lia.
Qed.

(** The registers [regs] of the PHY, read one after the other, gave [vs]. *)
Inductive reads (s : phy_state) : D → list Z → list Z → D → Prop :=
  | reads_nil d : reads s d [] [] d
  | reads_cons d r v d1 regs vs d' : mdio_value v →
      ends (λ fuel, mdio_read fuel d s r) (v, d1) → after 9000000 d d1 → reads s d1 regs vs d' →
      reads s d (r :: regs) (v :: vs) d'.

Lemma reads_exist s regs : ∀ d, in_time d (9000000 * Z.of_nat (length regs)) → ∃ vs d', reads s d regs vs d'.
Proof.
  induction regs as [|r regs IH]; intros d Hin; [exists [], d; constructor|].
  destruct (mdio_read_ends d s r) as (v & d1 & Hends & Hv & A); [eapply in_time_mono; [|exact Hin]; cbn [length]; lia|].
  destruct (IH d1) as (vs & d' & Hr).
  { eapply in_time_mono; [|exact (in_time_after _ _ _ _ A Hin)]. cbn [length]. lia. }
  exists (v :: vs), d'. by econstructor.
Qed.

(** What is read for the link, in the order of [phy_read_status] *)
Definition link_regs : list Z := [MII_BMSR; MII_STAT1000; MII_CTRL1000; MII_LPA; MII_ADVERTISE].

(** The result of [phy_read_status] on what was read *)
Definition status_of (s : phy_state) (bmsr lpagb ctrl1000 lpa adv : Z) : Z * phy_state :=
  if bmsr <? 0 then (bmsr, s) else
  if Z.land bmsr BMSR_LSTATUS =? 0 then (0, set_link s 0) else
  let s := set_link s 1 in
  if lpagb <? 0 then (lpagb, s) else
  if ctrl1000 <? 0 then (ctrl1000, s) else
  if truth (Z.land lpagb LPA_1000MSFAIL) then (-1, s) else
  if lpa <? 0 then (lpa, s) else
  if adv <? 0 then (adv, s) else
  (0, resolve_mode (Z.land lpagb (ctrl1000 ≪ 2)) (Z.land lpa adv) lpa s).

Lemma mdio_read_set_link fuel d s l r : mdio_read fuel d (set_link s l) r = mdio_read fuel d s r.
Proof. reflexivity. Qed.

Lemma bind_step {A B} (f : nat → outcome A) (g : nat → A → outcome (B * D)) a r (Q : D → Prop) :
  ends f a → (∃ d', ends (λ fuel, g fuel a) (r, d') ∧ Q d') →
  ∃ d', ends (λ fuel, f fuel ≫= g fuel) (r, d') ∧ Q d'.
Proof. intros Hf (d' & Hg & HQ). exists d'. split; [by apply (enough_bind _ _ _ _ Hf)|done]. Qed.

Lemma ret_step {B} (r : B) d (Q : D → Prop) : Q d → ∃ d', ends (λ _, Ret (r, d)) (r, d') ∧ Q d'.
Proof. exists d. split; [apply enough_ret|done]. Qed.

Lemma read_status_ends d s bmsr lpagb ctrl1000 lpa adv d5 :
  reads s d link_regs [bmsr; lpagb; ctrl1000; lpa; adv] d5 →
  ∃ d', ends (λ fuel, phy_read_status fuel d s) (status_of s bmsr lpagb ctrl1000 lpa adv, d') ∧ kept d d'.
Proof.
  intros Hr. inversion Hr as [|? ? ? d1 ? ? ? _ H1 [_ S1] Hr1]; subst. inversion Hr1 as [|? ? ? d2 ? ? ? _ H2 [_ S2] Hr2]; subst.
  inversion Hr2 as [|? ? ? d3 ? ? ? _ H3 [_ S3] Hr3]; subst. inversion Hr3 as [|? ? ? d4 ? ? ? _ H4 [_ S4] Hr4]; subst.
  inversion Hr4 as [|? ? ? d6 ? ? ? _ H5 [_ S5] Hr5]; subst. clear Hr Hr1 Hr2 Hr3 Hr4 Hr5.
  pose proof (kept_trans _ _ _ S1 S2) as T2. pose proof (kept_trans _ _ _ T2 S3) as T3.
  pose proof (kept_trans _ _ _ T3 S4) as T4. pose proof (kept_trans _ _ _ T4 S5) as T5.
  unfold phy_read_status, status_of.
  apply (bind_step _ _ _ _ _ H1). destruct (bmsr <? 0); [by apply ret_step|].
  destruct (_ =? 0); [by apply ret_step|].
  apply (bind_step _ _ _ _ _ H2). destruct (lpagb <? 0); [by apply ret_step|].
  apply (bind_step _ _ _ _ _ H3). destruct (ctrl1000 <? 0); [by apply ret_step|].
  destruct (truth _); [by apply ret_step|].
  apply (bind_step _ _ _ _ _ H4). destruct (lpa <? 0); [by apply ret_step|].
  apply (bind_step _ _ _ _ _ H5). destruct (adv <? 0); by apply ret_step.
Qed.

(** *** What is programmed *)

(** The MAC is set up for the mode the driver remembers, once it remembers one. *)
Definition programmed d (s : phy_state) : Prop :=
  m_old_speed s = -1 ∨ Z.land (ctl d (umac UMAC_CMD)) mode_mask = cmd_bits (m_old_speed s) (m_old_duplex s) (m_old_pause s).

Lemma cmd_bits_mask speed duplex pause : Z.land (cmd_bits speed duplex pause) mode_mask = cmd_bits speed duplex pause ∧
  Z.land (cmd_bits speed duplex pause) (not32 mode_mask) = 0.
Proof.
  unfold cmd_bits. destruct (speed =? 1000), (speed =? 100), (duplex =? 0), (pause =? 0); split; reflexivity.
Qed.

Lemma mode_stored reg speed duplex pause :
  let reg' := Z.lor (Z.land reg (not32 mode_mask)) (cmd_bits speed duplex pause) in
  Z.land reg' mode_mask = cmd_bits speed duplex pause ∧ Z.land reg' (not32 mode_mask) = Z.land reg (not32 mode_mask).
Proof.
  destruct (cmd_bits_mask speed duplex pause) as [H1 H2]. cbv zeta. rewrite !Z.land_lor_distr_l, H1, H2, <- !Z.land_assoc.
  change (Z.land (not32 mode_mask) mode_mask) with 0. rewrite Z.land_diag, Z.land_0_r. by rewrite Z.lor_0_l, Z.lor_0_r.
Qed.

(** [mii_setup] keeps what is programmed in step with the link: with a link, the MAC
    gets its mode, and the other bits of the command register stay. *)
Lemma mii_setup_spec d s : programmed d s → (m_link s ≠ 0 → m_speed s ≠ -1) →
  let '(s', d') := mii_setup d s in
  programmed d' s' ∧ m_link s' = m_link s ∧ m_speed s' = m_speed s ∧ m_duplex s' = m_duplex s ∧ m_pause s' = m_pause s ∧
  (m_link s = 0 → d' = d) ∧
  (m_link s ≠ 0 → Z.land (ctl d' (umac UMAC_CMD)) mode_mask = cmd_bits (m_speed s) (m_duplex s) (m_pause s) ∧
     Z.land (ctl d' (umac UMAC_CMD)) (not32 mode_mask) = Z.land (ctl d (umac UMAC_CMD)) (not32 mode_mask)).
Proof.
  intros Hp Hs. unfold mii_setup. set (changed := negb (m_old_link s =? m_link s)). cbn [m_link set_old].
  destruct (Z.eqb_spec (m_link s) 0) as [H0|H0].
  { cbn. split; [exact Hp|]. repeat (split; [done|]). done. }
  cbn [m_old_speed m_old_duplex m_old_pause m_speed m_duplex m_pause m_old_link m_link set_old].
  destruct (changed || _ || _ || _) eqn:Hc; cbn [negb].
  2:{ cbn. rewrite !orb_false_iff, !negb_false_iff, !Z.eqb_eq in Hc.
    destruct Hc as [[[_ H1] H2] H3]. assert (E : Z.land (ctl d (umac UMAC_CMD)) mode_mask = cmd_bits (m_speed s) (m_duplex s) (m_pause s)).
    { destruct Hp as [Hp|Hp]; [by destruct (Hs H0); rewrite <- H1|]. by rewrite Hp, H1, H2, H3. }
    split; [by right|]. repeat (split; [done|]). done. }
  destruct (GET32 d (ext EXT_RGMII_OOB_CTRL)) as [r1 d1] eqn:E1.
  set (d2 := PUT32 d1 _ _). destruct (GET32 d2 (umac UMAC_CMD)) as [r2 d3] eqn:E2.
  assert (Hcmd : control (umac UMAC_CMD)) by by left.
  assert (Er : r2 = ctl d (umac UMAC_CMD)).
  { rewrite (load_value _ _ _ _ Hcmd E2). unfold d2. rewrite store_ctl by done.
    change (_ =? _) with false. by apply (load_ctl _ _ _ _ _ Hcmd E1). }
  destruct (mode_stored r2 (m_speed s) (m_duplex s) (m_pause s)) as [M1 M2].
  assert (Ec : ∀ v, ctl (PUT32 d3 (umac UMAC_CMD) v) (umac UMAC_CMD) = v) by (intros v; rewrite store_ctl by done; by rewrite Z.eqb_refl).
  split; [right; rewrite Ec; exact M1|]. repeat (split; [done|]). intros _. rewrite Ec, <- Er. by split.
Qed.

(** All five registers could be read, the link is up, and the gigabit ends have
    agreed on who is master. *)
Definition negotiated (bmsr lpagb ctrl1000 lpa adv : Z) : Prop :=
  0 ≤ bmsr ∧ Z.testbit bmsr 2 = true ∧ 0 ≤ lpagb ∧ 0 ≤ ctrl1000 ∧ Z.testbit lpagb 15 = false ∧ 0 ≤ lpa ∧ 0 ≤ adv.

Ltac no_mode :=
  right; right; split; [intros (? & ? & ? & ? & ? & ? & ?); (lia || congruence)|];
  split; [first [by left|by right]|split; [lia|done]].

Lemma status_cases s bmsr lpagb ctrl1000 lpa adv :
  mdio_value bmsr → mdio_value lpagb → mdio_value ctrl1000 → mdio_value lpa → mdio_value adv →
  let '(r, s') := status_of s bmsr lpagb ctrl1000 lpa adv in
  (negotiated bmsr lpagb ctrl1000 lpa adv ∧ r = 0 ∧
     s' = resolve_mode (Z.land lpagb (ctrl1000 ≪ 2)) (Z.land lpa adv) lpa (set_link s 1)) ∨
  (0 ≤ bmsr ∧ Z.testbit bmsr 2 = false ∧ r = 0 ∧ s' = set_link s 0) ∨
  (¬ negotiated bmsr lpagb ctrl1000 lpa adv ∧ (bmsr < 0 ∨ Z.testbit bmsr 2 = true) ∧ r ≠ 0 ∧
     s' = if bmsr <? 0 then s else set_link s 1).
Proof.
  intros V1 V2 V3 V4 V5. unfold status_of, negotiated, mdio_value in *.
  assert (E2 : (Z.land bmsr BMSR_LSTATUS =? 0) = negb (Z.testbit bmsr 2))
    by (rewrite <- (truth_bit bmsr 2) by lia; unfold truth; by rewrite negb_involutive).
  assert (E15 : truth (Z.land lpagb LPA_1000MSFAIL) = Z.testbit lpagb 15) by (apply (truth_bit lpagb 15); lia).
  rewrite E2, E15. clear E2 E15.
  destruct (Z.ltb_spec bmsr 0); [no_mode|].
  destruct (Z.testbit bmsr 2); cbn [negb]; [|by right; left].
  destruct (Z.ltb_spec lpagb 0); [no_mode|].
  destruct (Z.ltb_spec ctrl1000 0); [no_mode|].
  destruct (Z.testbit lpagb 15); [no_mode|].
  destruct (Z.ltb_spec lpa 0); [no_mode|].
  destruct (Z.ltb_spec adv 0); [no_mode|].
  left. done.
Qed.

(** C31: The MAC follows the link.  As long as the 64-bit product of the clock does not
    overflow (the first 94.9 hours of a counter at 54 MHz, less 45 seconds),
    [UpdatePHY] ends, in spite of a bus that never
    answers, and keeps what is programmed in step with what the driver remembers.
    When the five registers of the PHY could be read and show a negotiated link,
    the link is up in the first mode of the order of preference that both ends
    advertise, with pause frames on full duplex if the partner can; and the
    command register of the MAC holds this mode, its other bits unchanged.
    Otherwise nothing is programmed and the mode stays; but the link counts as up
    as soon as the PHY shows one, also when a later register could not be read. *)
Theorem update_phy_follows_link d s : programmed d s → in_time d 45000000 →
  ∃ bmsr lpagb ctrl1000 lpa adv d5 s' d', reads s d link_regs [bmsr; lpagb; ctrl1000; lpa; adv] d5 ∧
    ends (λ fuel, UpdatePHY fuel d s) (true, s', d') ∧ programmed d' s' ∧
    (negotiated bmsr lpagb ctrl1000 lpa adv → m_link s' = 1 ∧
       (m_speed s', m_duplex s') = best_mode lpagb ctrl1000 lpa adv ∧
       m_pause s' = (if (m_duplex s' =? 1) && Z.testbit lpa 10 then 1 else 0) ∧
       Z.land (ctl d' (umac UMAC_CMD)) mode_mask = cmd_bits (m_speed s') (m_duplex s') (m_pause s') ∧
       Z.land (ctl d' (umac UMAC_CMD)) (not32 mode_mask) = Z.land (ctl d (umac UMAC_CMD)) (not32 mode_mask)) ∧
    (0 ≤ bmsr → m_link s' = if Z.testbit bmsr 2 then 1 else 0) ∧
    (¬ negotiated bmsr lpagb ctrl1000 lpa adv → same_ctl d d' ∧ m_speed s' = m_speed s ∧ m_duplex s' = m_duplex s).
Proof.
  intros Hp Hin. destruct (reads_exist s link_regs d) as (vs & d5 & Hr); [exact Hin|].
  inversion Hr as [|? ? bmsr ? ? ? ? V1 _ _ Hr1]; subst. inversion Hr1 as [|? ? lpagb ? ? ? ? V2 _ _ Hr2]; subst.
  inversion Hr2 as [|? ? ctrl1000 ? ? ? ? V3 _ _ Hr3]; subst. inversion Hr3 as [|? ? lpa ? ? ? ? V4 _ _ Hr4]; subst.
  inversion Hr4 as [|? ? adv ? ? ? ? V5 _ _ Hr5]; subst. inversion Hr5; subst. clear Hr1 Hr2 Hr3 Hr4 Hr5.
  destruct (read_status_ends d s bmsr lpagb ctrl1000 lpa adv _ Hr) as (e & Hends & [Hs1 _]).
  pose proof (status_cases s bmsr lpagb ctrl1000 lpa adv V1 V2 V3 V4 V5) as Hc.
  destruct (status_of s bmsr lpagb ctrl1000 lpa adv) as [r s1].
  assert (Hp1 : ∀ x, m_old_speed x = m_old_speed s → m_old_duplex x = m_old_duplex s → m_old_pause x = m_old_pause s →
    programmed e x).
  { intros x E1 E2 E3. unfold programmed. rewrite E1, E2, E3, (Hs1 (umac UMAC_CMD)) by by left. exact Hp. }
  exists bmsr, lpagb, ctrl1000, lpa, adv, d5. unfold UpdatePHY.
  destruct Hc as [(Hneg & -> & ->)|[(Hb & Hno & -> & ->)|(Hneg & Hb & Hr0 & ->)]].
  - destruct (resolve_best lpagb ctrl1000 lpa adv (set_link s 1)) as (Hbest & Hlink & Hpause & O1 & O2 & O3 & O4).
    set (s1 := resolve_mode _ _ _ _) in *.
    pose proof (mii_setup_spec e s1 (Hp1 s1 O2 O3 O4)) as Hm. destruct (mii_setup e s1) as [s' d'] eqn:Em.
    destruct Hm as (Hpr & El & Es & Ed & Epa & _ & Hcmd).
    { intros _. change (m_speed s1) with (fst (m_speed s1, m_duplex s1)). rewrite Hbest. apply best_mode_speed. }
    exists s', d'. split; [exact Hr|]. split; [apply (enough_bind _ _ _ _ Hends); rewrite Em; apply enough_ret|].
    split; [exact Hpr|]. split; [|split; [|by intros []]].
    + intros _. rewrite El, Es, Ed, Epa. split; [exact Hlink|]. split; [exact Hbest|]. split; [exact Hpause|].
      rewrite <- (Hs1 (umac UMAC_CMD)) by by left. apply Hcmd. by rewrite Hlink.
    + intros _. destruct Hneg as (_ & Hyes & _). rewrite Hyes, El. exact Hlink.
  - pose proof (mii_setup_spec e (set_link s 0) (Hp1 _ eq_refl eq_refl eq_refl)) as Hm.
    destruct (mii_setup e (set_link s 0)) as [s' d'] eqn:Em.
    destruct Hm as (Hpr & El & Es & Ed & Epa & Hsame & _); [done|].
    exists s', d'. split; [exact Hr|]. split; [apply (enough_bind _ _ _ _ Hends); rewrite Em; apply enough_ret|].
    split; [exact Hpr|]. split; [intros (_ & Hyes & _); by rewrite Hno in Hyes|].
    split; [intros _; by rewrite Hno|].
    intros _. rewrite (Hsame eq_refl). by split.
  - exists (if bmsr <? 0 then s else set_link s 1), e. split; [exact Hr|].
    split; [apply (enough_bind _ _ _ _ Hends); rewrite (proj2 (Z.eqb_neq _ _) Hr0); apply enough_ret|].
    split; [by destruct (bmsr <? 0); apply Hp1|]. split; [by intros|]. split.
    + intros H0. destruct Hb as [Hb|Hb]; [lia|]. by rewrite Hb, (proj2 (Z.ltb_ge _ _) H0).
    + intros _. split; [exact Hs1|]. by destruct (bmsr <? 0).
Qed.

(** The program goes on to the packet loop only with a link. *)
Lemma wait_for_link_up rounds : ∀ fuel d s s' d', wait_for_link rounds fuel d s = Ret (s', d') → IsLinkUp s' = true.
Proof.
  induction rounds as [|rounds IH]; intros fuel d s s' d' E; cbn [wait_for_link] in E; [done|].
  destruct (IsLinkUp s) eqn:Hl; [by injection E as <- <-|]. inv_ret. destruct v as [[ok s1] d1]. inv_ret.
  assert (ok = true) as ->.
  { unfold UpdatePHY in *. inv_ret. destruct v as [[r s2] d2]. destruct (r =? 0); [destruct (mii_setup d2 s2)|]; by simplify_eq. }
  inv_ret. by eapply IH.
Qed.

(** *** The receive filter *)

(** The filter has 17 slots, switched on by the bits 16 down to 0. *)
Definition slots_on (x mc : Z) : Prop := ∀ i, 0 ≤ i → Z.testbit x i = bool_decide (16 - mc < i ≤ 16).

Lemma slots_on_next x mc : 0 ≤ mc ≤ 16 → slots_on x mc → slots_on (Z.lor x (1 ≪ (MAX_MC_COUNT - mc))) (mc + 1).
Proof.
  intros Hmc Hx i Hi. unfold MAX_MC_COUNT. rewrite Z.lor_spec, Hx, Z.shiftl_1_l, Z.pow2_bits_eqb by lia.
  destruct (Z.eqb_spec (16 - mc) i) as [<-|Hne]; rewrite ?orb_true_r, ?orb_false_r.
  - symmetry. apply bool_decide_eq_true. lia.
  - apply bool_decide_ext. lia.
Qed.

Lemma control_mdf : control (umac UMAC_MDF_CTRL).
Proof. by right; right; left. Qed.

Lemma control_word k : 0 ≤ k < 34 → control (mdf_word k).
Proof. intros Hk. right; right; right. by exists k. Qed.

Lemma mdf_word_ne k a : 0 ≤ k → a = umac UMAC_CMD ∨ a = umac UMAC_MDF_CTRL → mdf_word k ≠ a.
Proof. intros Hk [->| ->]; cbv [mdf_word umac UMAC_MDF_ADDR UMAC_CMD UMAC_MDF_CTRL ARM_BCM54213_BASE]; lia. Qed.

Lemma mdf_word_inj j k : mdf_word j = mdf_word k → j = k.
Proof. cbv [mdf_word umac]. lia. Qed.

(** The bytes of a word, the first one the highest *)
Definition word_of (l : list Z) : Z := foldl (λ x b, x * 256 + b) 0 l.

(** Slot [k] of the filter holds the address. *)
Definition slot_holds d (k : nat) (addr : list Z) : Prop :=
  ctl d (mdf_word (2 * Z.of_nat k)) = word_of (take 2 addr) ∧
  ctl d (mdf_word (2 * Z.of_nat k + 1)) = word_of (drop 2 addr).

Lemma mdf_words a0 a1 a2 a3 a4 a5 : Forall byte [a0; a1; a2; a3; a4; a5] →
  Z.lor (a0 ≪ 8) a1 = word_of [a0; a1] ∧
  Z.lor (Z.lor (Z.lor (u32 (a2 ≪ 24)) (a3 ≪ 16)) (a4 ≪ 8)) a5 = word_of [a2; a3; a4; a5].
Proof.
  intros Hb. repeat apply Forall_cons in Hb as [? Hb]. unfold uword in *. cbn [word_of foldl].
  split; [rewrite lor_shiftl_add by lia; lia|].
  rewrite (wrap_small 32) by (rewrite Z.shiftl_mul_pow2 by lia; unfold uword; lia).
  assert (E1 : Z.lor (a2 ≪ 24) (a3 ≪ 16) = (a2 * 256 + a3) ≪ 16).
  { change 24 with (8 + 16). by rewrite <- Z.shiftl_shiftl, <- Z.shiftl_lor, lor_shiftl_add by lia. }
  assert (E2 : Z.lor ((a2 * 256 + a3) ≪ 16) (a4 ≪ 8) = ((a2 * 256 + a3) * 256 + a4) ≪ 8).
  { change 16 with (8 + 8). by rewrite <- Z.shiftl_shiftl, <- Z.shiftl_lor, lor_shiftl_add by lia. }
  rewrite E1, E2, lor_shiftl_add by lia. lia.
Qed.

(** The next address is put into its slot, which is switched on; nothing else of what
    the driver sets up changes. *)
Lemma set_mdf_addr_spec d addr (mc : nat) : length addr = 6%nat → Forall byte addr →
  slots_on (ctl d (umac UMAC_MDF_CTRL)) (Z.of_nat mc) → let n := Z.of_nat mc in
  if (16 <? mc)%nat then set_mdf_addr d addr (2 * n) n = Ub else
  ∃ d', set_mdf_addr d addr (2 * n) n = Ret (d', 2 * Z.of_nat (S mc), Z.of_nat (S mc)) ∧
    slots_on (ctl d' (umac UMAC_MDF_CTRL)) (Z.of_nat (S mc)) ∧ ctl d' (umac UMAC_CMD) = ctl d (umac UMAC_CMD) ∧
    slot_holds d' mc addr ∧ ∀ k g, (k < mc)%nat → slot_holds d k g → slot_holds d' k g.
Proof.
  intros Hl Hb Hs. cbv zeta. destruct addr as [|a0 [|a1 [|a2 [|a3 [|a4 [|a5 [|]]]]]]]; try discriminate Hl. clear Hl.
  unfold set_mdf_addr, deref. cbn [lookup list_lookup]. rewrite !bind_Ret.
  destruct (mdf_words _ _ _ _ _ _ Hb) as [-> ->]. fold (mdf_word (2 * Z.of_nat mc)). fold (mdf_word (2 * Z.of_nat mc + 1)).
  set (d1 := PUT32 d _ _). set (d2 := PUT32 d1 _ _). destruct (GET32 d2 (umac UMAC_MDF_CTRL)) as [reg d3] eqn:E.
  assert (Hmdf : ctl d2 (umac UMAC_MDF_CTRL) = ctl d (umac UMAC_MDF_CTRL) ∧ ctl d2 (umac UMAC_CMD) = ctl d (umac UMAC_CMD)).
  { unfold d2, d1. split; (rewrite !store_ctl by (apply control_mdf || by left));
      by rewrite !(proj2 (Z.eqb_neq _ _)) by (apply mdf_word_ne; [lia|auto]). }
  destruct Hmdf as [Hmdf Hcmd].
  assert (Hreg : reg = ctl d (umac UMAC_MDF_CTRL)) by (by rewrite (load_value _ _ _ _ control_mdf E)).
  change (MAX_MC_COUNT - Z.of_nat mc <? 0) with (16 - Z.of_nat mc <? 0).
  destruct (Nat.ltb_spec 16 mc) as [Hgt|Hle]; [by rewrite (proj2 (Z.ltb_lt _ 0)) by lia|].
  rewrite (proj2 (Z.ltb_ge _ 0)) by lia. eexists. split; [f_equal; repeat f_equal; lia|].
  assert (Hword : ∀ k, 0 ≤ k < 34 → ctl (PUT32 d3 (umac UMAC_MDF_CTRL) (Z.lor reg (1 ≪ (MAX_MC_COUNT - Z.of_nat mc)))) (mdf_word k)
    = ctl d2 (mdf_word k)).
  { intros k Hk. rewrite store_ctl by by apply control_word.
    rewrite (proj2 (Z.eqb_neq _ _)) by (apply not_eq_sym, mdf_word_ne; [lia|auto]). by apply (load_ctl _ _ _ _ _ (control_word k Hk) E). }
  split; [|split; [|split]].
  - rewrite store_ctl, Z.eqb_refl by apply control_mdf. rewrite Hreg, Nat2Z.inj_succ. by apply slots_on_next; [lia|].
  - rewrite store_ctl by by left. change (_ =? _) with false.
    by rewrite (load_ctl d2 _ _ d3 (umac UMAC_CMD) ltac:(by left) E).
  - split; rewrite Hword by lia; unfold d2, d1; rewrite !store_ctl by (apply control_word; lia).
    + rewrite (proj2 (Z.eqb_neq (mdf_word _) (mdf_word (2 * Z.of_nat mc)))) by (intros Hw%mdf_word_inj; lia). by rewrite Z.eqb_refl.
    + by rewrite Z.eqb_refl.
  - intros k g Hk [H1 H2]. split; rewrite Hword by lia; unfold d2, d1; rewrite !store_ctl by (apply control_word; lia);
      rewrite !(proj2 (Z.eqb_neq (mdf_word _) (mdf_word _))) by (intros Hw%mdf_word_inj; lia); done.
Qed.

(** The first slots of the filter hold the addresses. *)
Definition filter_holds d (addrs : list (list Z)) : Prop := ∀ k g, addrs !! k = Some g → slot_holds d k g.

Lemma filter_holds_next d d' addrs addr : filter_holds d addrs → slot_holds d' (length addrs) addr →
  (∀ k g, (k < length addrs)%nat → slot_holds d k g → slot_holds d' k g) → filter_holds d' (addrs ++ [addr]).
Proof.
  intros Hd Hnew Hold k g [Hk|[Hk Hg]]%lookup_app_Some.
  - apply Hold; [by eapply lookup_lt_Some|by apply Hd].
  - apply list_lookup_singleton_Some in Hg as [Hk0 <-]. by replace k with (length addrs) by lia.
Qed.

Lemma set_groups_spec stop rest groups : ∀ d addrs, Forall (λ g, length g = 6%nat ∧ Forall byte g ∧ head g ≠ Some 0) groups →
  head stop = Some 0 → let mc := length addrs in
  (mc ≤ 17)%nat → slots_on (ctl d (umac UMAC_MDF_CTRL)) (Z.of_nat mc) → filter_holds d addrs →
  if (17 <? length (addrs ++ groups))%nat then set_groups d (groups ++ stop :: rest) (2 * Z.of_nat mc) (Z.of_nat mc) = Ub else
  ∃ d', set_groups d (groups ++ stop :: rest) (2 * Z.of_nat mc) (Z.of_nat mc) = Ret d' ∧
    slots_on (ctl d' (umac UMAC_MDF_CTRL)) (Z.of_nat (length (addrs ++ groups))) ∧
    ctl d' (umac UMAC_CMD) = ctl d (umac UMAC_CMD) ∧ filter_holds d' (addrs ++ groups).
Proof.
  induction groups as [|g groups IH]; intros d addrs Hg Hstop mc Hmc Hs Hd; cbn [app set_groups].
  - rewrite app_nil_r, (proj2 (Nat.ltb_ge 17 _)) by done. destruct stop as [|z stop]; [done|]. injection Hstop as ->.
    by exists d.
  - apply Forall_cons in Hg as [(Hl & Hb & Hh) Hg]. destruct g as [|g0 g]; [done|].
    change (deref (g0 :: g) 0) with (Ret g0). rewrite bind_Ret.
    destruct (Z.eqb_spec g0 0) as [->|_]; [done|]. pose proof (set_mdf_addr_spec d (g0 :: g) mc Hl Hb Hs) as Hone.
    cbv zeta in Hone. destruct (Nat.ltb_spec 16 mc).
    + rewrite Hone, length_app, (proj2 (Nat.ltb_lt _ _)) by (cbn [length]; fold mc; lia). done.
    + destruct Hone as (d1 & -> & Hs1 & Hc1 & Hnew & Hold). rewrite bind_Ret.
      assert (Es : S mc = length (addrs ++ [g0 :: g])) by (rewrite length_app, Nat.add_1_r; done). rewrite Es in *.
      specialize (IH d1 (addrs ++ [g0 :: g]) Hg Hstop ltac:(lia) Hs1 (filter_holds_next _ _ _ _ Hd Hnew Hold)).
      rewrite <- app_assoc in IH. destruct (17 <? _)%nat; [exact IH|]. destruct IH as (d' & E & Hs' & Hc' & Hd').
      exists d'. split; [exact E|]. split; [exact Hs'|]. split; [by rewrite Hc'|exact Hd'].
Qed.

(** C32: The receive filter.  For groups whose first byte is not 0, ended by one whose
    first byte is: [SetMulticastFilter] leaves promiscuous mode, with the other
    bits of the command register as they were; it writes the broadcast address,
    the own address and those of the groups into the slots of the filter from the
    first on, in this order and each with its bytes in the order of the wire (two in
    the first word of the slot, four in the second); and it switches these slots on
    and all others off.  The filter has room for 15 groups: with one more the shift
    is by a negative amount. *)
Theorem receive_filter d addr groups stop rest : length addr = 6%nat → Forall byte addr →
  Forall (λ g, length g = 6%nat ∧ Forall byte g ∧ head g ≠ Some 0) groups → head stop = Some 0 →
  let addrs := [replicate 6 0xFF; addr] ++ groups in
  if (15 <? length groups)%nat then SetMulticastFilter d addr (groups ++ stop :: rest) = Ub else
  ∃ d', SetMulticastFilter d addr (groups ++ stop :: rest) = Ret (true, d') ∧
    slots_on (ctl d' (umac UMAC_MDF_CTRL)) (Z.of_nat (length addrs)) ∧
    (∀ k g, addrs !! k = Some g → slot_holds d' k g) ∧
    ctl d' (umac UMAC_CMD) = Z.land (ctl d (umac UMAC_CMD)) (not32 CMD_PROMISC).
Proof.
  intros Hl Hb Hg Hstop. unfold SetMulticastFilter, set_rx_mode. destruct (GET32 d (umac UMAC_CMD)) as [reg d0] eqn:E0.
  assert (Hcmd : control (umac UMAC_CMD)) by by left. rewrite (load_value _ _ _ _ Hcmd E0). clear reg E0.
  set (d1 := PUT32 d0 (umac UMAC_CMD) _). set (d2 := PUT32 d1 (umac UMAC_MDF_CTRL) 0). cbv zeta.
  assert (Hc2 : ctl d2 (umac UMAC_CMD) = Z.land (ctl d (umac UMAC_CMD)) (not32 CMD_PROMISC)).
  { unfold d2, d1. rewrite store_ctl by done. change (_ =? _) with false. rewrite store_ctl by done. by rewrite Z.eqb_refl. }
  assert (Hs2 : slots_on (ctl d2 (umac UMAC_MDF_CTRL)) 0).
  { unfold d2. rewrite store_ctl, Z.eqb_refl by apply control_mdf. intros i Hi. rewrite Z.bits_0.
    symmetry. apply bool_decide_eq_false. lia. }
  assert (Hd2 : filter_holds d2 []) by (by intros k g).
  destruct (set_mdf_addr_spec d2 Broadcast 0 eq_refl ltac:(repeat constructor; vm_compute; (done || discriminate)) Hs2)
    as (d3 & E3 & Hs3 & Hc3 & Hn3 & Ho3). change (set_mdf_addr d2 Broadcast 0 0 = Ret (d3, 2, 1)) in E3. rewrite E3, bind_Ret.
  pose proof (filter_holds_next d2 d3 [] Broadcast Hd2 Hn3 Ho3) as Hd3.
  destruct (set_mdf_addr_spec d3 addr 1 Hl Hb Hs3) as (d4 & E4 & Hs4 & Hc4 & Hn4 & Ho4).
  change (set_mdf_addr d3 addr 2 1 = Ret (d4, 4, 2)) in E4. rewrite E4, bind_Ret.
  pose proof (filter_holds_next d3 d4 [Broadcast] addr Hd3 Hn4 Ho4) as Hd4.
  pose proof (set_groups_spec stop rest groups d4 [Broadcast; addr] Hg Hstop ltac:(cbn; lia) Hs4 Hd4) as H.
  cbv zeta in H. change (2 * Z.of_nat (length [Broadcast; addr])) with 4 in H. change (Z.of_nat (length [Broadcast; addr])) with 2 in H.
  rewrite length_app in H. change (length [Broadcast; addr]) with 2%nat in H.
  destruct (Nat.ltb_spec 15 (length groups)).
  - rewrite (proj2 (Nat.ltb_lt _ _)) in H by lia. by rewrite H.
  - rewrite (proj2 (Nat.ltb_ge _ _)) in H by lia. destruct H as (d' & -> & Hs' & Hc' & Hd'). rewrite bind_Ret.
    exists d'. split; [reflexivity|]. split; [by rewrite length_app|]. split; [exact Hd'|]. by rewrite Hc', Hc4, Hc3.
Qed.
End bus.

(** ** Initialize ends *)

Section set_up.
Context {D : Type} `{!Device D, !Clock D, !MacRegs D}.
Implicit Types d : D.

(** [d'] comes after [d], by [k] seconds at most, *)
Definition elapsed (k : Z) d d' : Prop := micros d ≤ micros d' ≤ micros d + k * CLOCKHZ.

(** with accesses outside the rings only. *)
Definition within (k : Z) d d' : Prop := elapsed k d d' ∧ accessed d d'.

Lemma elapsed_trans k1 k2 d1 d2 d3 : elapsed k1 d1 d2 → elapsed k2 d2 d3 → elapsed (k1 + k2) d1 d3.
Proof. unfold elapsed, CLOCKHZ. lia. Qed.

Lemma elapsed_le k k' d d' : elapsed k d d' → k ≤ k' → elapsed k' d d'.
Proof. unfold elapsed, CLOCKHZ. lia. Qed.

Lemma within_trans k1 k2 d1 d2 d3 : within k1 d1 d2 → within k2 d2 d3 → within (k1 + k2) d1 d3.
Proof. intros [T1 A1] [T2 A2]. split; [by eapply elapsed_trans|by etrans]. Qed.

Lemma within_le k k' d d' : within k d d' → k ≤ k' → within k' d d'.
Proof. intros [T A] Hk. split; [by eapply elapsed_le|done]. Qed.

Lemma within_refl k d : 0 ≤ k → within k d d.
Proof. intros Hk. split; [unfold elapsed, CLOCKHZ; lia|reflexivity]. Qed.

Lemma store_within d a v : in_rings a = false → within 1 d (PUT32 d a v).
Proof. intros Ha. split; [apply micros_step, store_time|by apply store_accessed]. Qed.

Lemma load_within d a v d' : GET32 d a = (v, d') → within 1 d d'.
Proof.
  intros E. split; [|by eapply load_accessed].
  pose proof (load_time d a) as Ht. rewrite E in Ht. apply micros_step, Ht.
Qed.

(** [f] ends from any state from which there are [k] seconds of clock left, and takes
    no longer; [st] is the device in its result. *)
Definition takes {B} (st : B → D) (k : Z) d (f : nat → outcome B) : Prop :=
  0 ≤ k ∧ (in_time d (k * CLOCKHZ) → ∃ b, ends f b ∧ within k d (st b)).

Lemma left_in_time k1 k2 d d' : elapsed k1 d d' → in_time d ((k1 + k2) * CLOCKHZ) → in_time d' (k2 * CLOCKHZ).
Proof. intros Hw. pose proof freq_range. unfold in_time, elapsed in *. nia. Qed.

Lemma takes_le {B} (st : B → D) k k' d f : takes st k d f → k ≤ k' → takes st k' d f.
Proof.
  intros [H0 Hf] Hk. split; [lia|]. intros Hin. destruct Hf as (b & He & Hw).
  - eapply in_time_mono; [|exact Hin]. unfold CLOCKHZ. lia.
  - exists b. split; [exact He|by eapply within_le].
Qed.

Lemma takes_ret {B} (st : B → D) b : takes st 0 (st b) (λ _, Ret b).
Proof. split; [lia|]. intros _. exists b. split; [apply enough_ret|by apply within_refl]. Qed.

Lemma takes_ret_pair {A} (a : A) d : takes snd 0 d (λ _, Ret (a, d)).
Proof. apply (takes_ret snd (a, d)). Qed.

(** After an access *)
Lemma takes_after {B} (st : B → D) k j d d0 f : within j d d0 → 0 ≤ j → takes st k d0 f → takes st (j + k) d f.
Proof.
  intros Hw Hj [H0 Hf]. split; [lia|]. intros Hin. destruct (Hf (left_in_time _ _ _ _ (proj1 Hw) Hin)) as (b & He & Hw').
  exists b. split; [exact He|by eapply within_trans].
Qed.

(** In sequence *)
Lemma takes_bind {A B} (st1 : A → D) (st2 : B → D) j k d (f : nat → outcome A) (g : nat → A → outcome B) :
  takes st1 j d f → 0 ≤ k → (∀ a, takes st2 k (st1 a) (λ fuel, g fuel a)) →
  takes st2 (j + k) d (λ fuel, f fuel ≫= g fuel).
Proof.
  intros [Hj Hf] Hk Hg. split; [lia|]. intros Hin. destruct Hf as (a & He & Hw).
  { eapply in_time_mono; [|exact Hin]. unfold CLOCKHZ. lia. }
  destruct (Hg a) as [_ Hg']. destruct (Hg' (left_in_time _ _ _ _ (proj1 Hw) Hin)) as (b & He2 & Hw2).
  exists b. split; [by apply (enough_bind _ _ _ _ He)|by eapply within_trans].
Qed.

Lemma takes_known {A B} (st : B → D) k d (a : A) (g : nat → A → outcome B) :
  takes st k d (λ fuel, g fuel a) → takes st k d (λ fuel, Ret a ≫= g fuel).
Proof. done. Qed.

Lemma takes_if {B} (st : B → D) (b : bool) k1 k2 d f g : takes st k1 d f → takes st k2 d g →
  takes st (Z.max k1 k2) d (λ fuel, if b then f fuel else g fuel).
Proof. intros Hf Hg. destruct b; eapply takes_le; [exact Hf|lia|exact Hg|lia]. Qed.

(** A store or a load of the state the goal is at *)
Ltac store :=
  match goal with |- takes _ _ ?d _ =>
    match goal with |- context [PUT32 d ?a ?v] =>
      eapply (takes_after _ _ 1 d (PUT32 d a v)); [apply store_within; reflexivity|lia|];
      let e := fresh "d" in generalize (PUT32 d a v) as e; intros e
    end
  end.
Ltac load :=
  match goal with |- takes _ _ ?d _ =>
    match goal with |- context [GET32 d ?a] =>
      let E := fresh "E" in let v := fresh "v" in let e := fresh "d" in
      destruct (GET32 d a) as [v e] eqn:E; eapply takes_after; [eapply load_within, E|lia|]; clear E
    end
  end.

Lemma udelay_takes d n : 0 ≤ n ≤ 5000 → takes id 6 d (λ fuel, udelay fuel d n).
Proof.
  intros Hn. split; [lia|]. intros Hin. destruct (delay_waits d n) as (d' & He & _ & Hw & Ha); [lia| |].
  - eapply in_time_mono; [|exact Hin]. unfold CLOCKHZ. lia.
  - exists d'. split; [exact He|]. split; [unfold elapsed, CLOCKHZ; cbn [id]; lia|exact Ha].
Qed.

(** A call of something that is known to end *)
Ltac call H := eapply takes_bind; [apply H; lia|shelve|let e := fresh "d" in intros e; cbn [id]].

Lemma reset_umac_takes d : takes id 16 d (λ fuel, reset_umac fuel d).
Proof.
  eapply takes_le; [unfold reset_umac; store; call udelay_takes; store; store; call udelay_takes; store; apply (takes_ret id)|].
  Unshelve. all: lia.
Qed.

Lemma umac_reset2_takes d : takes id 15 d (λ fuel, umac_reset2 fuel d).
Proof.
  eapply takes_le; [unfold umac_reset2; load; store; call udelay_takes; store; apply udelay_takes; lia|].
  Unshelve. all: lia.
Qed.

Lemma init_umac_takes d : takes id 30 d (λ fuel, init_umac fuel d).
Proof.
  eapply takes_le; [unfold init_umac, intr_disable; call reset_umac_takes; store; store; store; load; store; store;
    store; store; store; store; apply (takes_ret id)|].
  Unshelve. all: lia.
Qed.

Lemma dma_disable_takes d : takes snd 15 d (λ fuel, dma_disable fuel d).
Proof.
  eapply takes_le; [unfold dma_disable; load; store; load; store; store; call udelay_takes; store; apply takes_ret_pair|].
  Unshelve. all: lia.
Qed.

(** Stores in a loop *)
Lemma stores_within (a : nat → Z) (v : Z) n : (∀ i, (i < n)%nat → in_rings (a i) = false) →
  ∀ d, within (Z.of_nat n) d (foldl (λ d i, PUT32 d (a i) v) d (seq 0 n)).
Proof.
  intros Ha d. induction n as [|n IH]; [by apply within_refl|].
  rewrite seq_S, foldl_app. cbn [foldl Nat.add]. rewrite Nat2Z.inj_succ. unfold Z.succ.
  eapply within_trans; [apply IH; intros i Hi; apply Ha; lia|apply store_within, Ha; lia].
Qed.

Ltac not_rings :=
  cbv [in_rings Genet.rdma hfb_reg hfb ARM_BCM54213_BASE RDMA_OFFSET TDMA_OFFSET GENET_RDMA_REG_OFF GENET_TDMA_REG_OFF
       DMA_RINGS_SIZE DMA_RING_SIZE GENET_DESC_INDEX TOTAL_DESC DMA_DESC_SIZE DMA_INDEX2RING_0 HFB_REG_OFFSET
       HFB_FLT_LEN_V3PLUS HFB_OFFSET]; lia.

Lemma hfb_init_within d : within 7000 d (hfb_init d).
Proof.
  unfold hfb_init. destruct (GET32 d _) as [v1 d1] eqn:E1. destruct (GET32 d1 _) as [v2 d2] eqn:E2.
  apply (within_le (1 + 1 + (1 + 1 + 1) + 8 + 12 + 6144)); [|lia].
  pose proof (within_trans _ _ _ _ _ (load_within _ _ _ _ E1) (load_within _ _ _ _ E2)) as W.
  eapply within_trans; [eapply within_trans; [eapply within_trans; [eapply within_trans; [exact W|]|]|]|];
    [|apply (stores_within (λ i, Genet.rdma (DMA_INDEX2RING_0 + 4 * Z.of_nat i)) 0 8)
     |apply (stores_within (λ i, hfb_reg (HFB_FLT_LEN_V3PLUS + Z.of_nat i * 4)) 0 12)
     |apply (stores_within (λ i, hfb (Z.of_nat i * 4)) 0 (HFB_FILTER_CNT * HFB_FILTER_SIZE))].
  - eapply within_trans; [eapply within_trans|]; by apply store_within.
  - intros i Hi. not_rings.
  - intros i Hi. not_rings.
  - change (HFB_FILTER_CNT * HFB_FILTER_SIZE)%nat with (Z.to_nat 6144). intros i Hi. not_rings.
Qed.

Lemma mdio_read_takes s reg d : takes snd 9 d (λ fuel, mdio_read fuel d s reg).
Proof.
  split; [lia|]. intros Hin. destruct (mdio_read_ends d s reg Hin) as (v & d' & He & _ & Hw).
  exists (v, d'). split; [exact He|]. destruct Hw as [Hw [_ Ha]]. by split.
Qed.

Ltac callp H := eapply takes_bind; [apply H|shelve|let e := fresh "d" in let v := fresh "v" in intros [v e]; cbn [snd]].
Ltac branch := eapply takes_if; [apply takes_ret_pair|].

Lemma phy_read_status_takes s d : takes snd 45 d (λ fuel, phy_read_status fuel d s).
Proof.
  eapply takes_le; [unfold phy_read_status; callp mdio_read_takes; branch; branch; callp mdio_read_takes; branch;
    callp mdio_read_takes; branch; branch; callp mdio_read_takes; branch; callp mdio_read_takes; branch; apply takes_ret_pair|].
  Unshelve. all: lia.
Qed.

Lemma mdio_reset_takes s d : takes snd 9 d (λ fuel, mdio_reset fuel d s).
Proof.
  eapply takes_le; [unfold mdio_reset; callp mdio_read_takes; branch; apply takes_ret_pair|].
  Unshelve. all: lia.
Qed.

Lemma mii_setup_within d s : within 4 d (snd (mii_setup d s)).
Proof.
  assert (H0 : within 4 d d) by (by apply within_refl). unfold mii_setup.
  destruct (_ =? 0); [exact H0|]. destruct (negb (_ || _)); [exact H0|].
  destruct (GET32 d _) as [v1 d1] eqn:E1. destruct (GET32 (PUT32 d1 _ _) _) as [v2 d2] eqn:E2. cbn [snd].
  change 4 with (1 + 1 + 1 + 1). eapply within_trans; [|by apply store_within]. eapply within_trans; [|by eapply load_within].
  eapply within_trans; [by eapply load_within|by apply store_within].
Qed.

Lemma mii_config_within d init : within 3 d (snd (mii_config d init)).
Proof.
  unfold mii_config. destruct (GET32 _ _) as [v1 d1] eqn:E1. cbn [snd].
  change 3 with (1 + 1 + 1). eapply within_trans; [|by apply store_within]. eapply within_trans; [|by eapply load_within]. by apply store_within.
Qed.

Lemma mii_probe_takes s d : takes snd 80 d (λ fuel, mii_probe fuel d s).
Proof.
  eapply takes_le; [unfold mii_probe; callp mdio_reset_takes; eapply takes_bind; [|shelve|]|].
  - apply takes_if; [callp mdio_reset_takes; apply takes_ret_pair|apply takes_ret_pair].
  - intros [[ret s1] d1]. cbn [snd]. branch. eapply takes_bind; [apply phy_read_status_takes|shelve|].
    intros [[ret2 s2] d2]. cbn [snd]. branch.
    pose proof (mii_setup_within d2 s2) as W1. destruct (mii_setup d2 s2) as [s3 d3]. cbn [snd] in W1.
    eapply (takes_after _ _ 4); [exact W1|lia|].
    pose proof (mii_config_within d3 true) as W2. destruct (mii_config d3 true) as [r3 d4]. cbn [snd] in W2.
    eapply (takes_after _ _ 3); [exact W2|lia|]. apply takes_ret_pair.
  - Unshelve. all: lia.
Qed.

Lemma netif_start_takes d : takes id 10 d (λ fuel, netif_start fuel d).
Proof.
  eapply takes_le; [unfold netif_start, umac_enable_set; eapply (takes_bind id); [load; store; apply (takes_ret id)|shelve|]|].
  - intros d1. cbn [id]. unfold enable_tx_intr, tx_ring_int_enable, tx_ring16_int_enable. change TX_QUEUES with 4%nat.
    cbn [seq foldl]. store; store; store; store; store. apply (takes_ret id).
  - Unshelve. all: lia.
Qed.

Lemma set_rx_mode_takes d addr : length addr = 6%nat → takes id 20 d (λ _, set_rx_mode d addr None).
Proof.
  intros Hl. destruct addr as [|a0 [|a1 [|a2 [|a3 [|a4 [|a5 [|]]]]]]]; try discriminate Hl.
  eapply takes_le; [unfold set_rx_mode, set_mdf_addr, deref; cbn [lookup list_lookup Broadcast replicate]; load; store; store|].
  - rewrite !bind_Ret. store; store; load. change (MAX_MC_COUNT - 0 <? 0) with false. cbv iota. store. rewrite !bind_Ret.
    store; store; load. change (MAX_MC_COUNT - (0 + 1) <? 0) with false. cbv iota. store. rewrite !bind_Ret.
    apply (takes_ret id).
  - lia.
Qed.

Lemma set_hw_addr_spec d tag : (∀ a, tag = Some a → length a = 6%nat) →
  ∃ d', set_hw_addr d tag = Ret (tag, d') ∧ within 2 d d'.
Proof.
  intros Hl. destruct tag as [a|]; [|exists d; split; [done|by apply within_refl]].
  specialize (Hl a eq_refl). destruct a as [|a0 [|a1 [|a2 [|a3 [|a4 [|a5 [|]]]]]]]; try discriminate Hl.
  eexists. split; [reflexivity|]. change 2 with (1 + 1). eapply within_trans; by apply store_within.
Qed.

Lemma enable_dma_within d c : within 4 d (enable_dma d c).
Proof.
  unfold enable_dma. destruct (GET32 d _) as [v1 d1] eqn:E1. destruct (GET32 (PUT32 d1 _ _) _) as [v2 d2] eqn:E2.
  change 4 with (1 + 1 + 1 + 1). eapply within_trans; [|by apply store_within]. eapply within_trans; [|by eapply load_within].
  eapply within_trans; [by eapply load_within|by apply store_within].
Qed.

Lemma prepare_takes d tag : (∀ a, tag = Some a → length a = 6%nat) →
  takes snd 90 d (λ fuel, prepare fuel d tag).
Proof.
  intros Htag. eapply takes_le; [unfold prepare; load; cbv zeta; branch; call reset_umac_takes; call umac_reset2_takes;
    call init_umac_takes; load|].
  - destruct (set_hw_addr_spec d4 tag Htag) as (d5 & -> & W). eapply (takes_after _ _ 2); [exact W|lia|].
    apply takes_known. apply (takes_le _ 15); [|reflexivity].
    destruct tag as [a|]; [|eapply takes_le; [apply takes_ret_pair|lia]].
    eapply takes_le; [callp dma_disable_takes; apply takes_ret_pair|]. Unshelve. all: lia.
  - Unshelve. all: lia.
Qed.

Lemma prepare_addr fuel d tag crc a c d' : prepare fuel d tag = Ret (crc, Some (a, c), d') → tag = Some a.
Proof.
  unfold prepare, set_hw_addr. intros E. destruct (GET32 d _) as [reg d0]. cbv zeta in E.
  destruct (negb _); [discriminate E|]. do 3 apply bind_Ret_inv in E as (? & _ & E).
  destruct (GET32 _ _) as [reg' d1]. apply bind_Ret_inv in E as ([addr d2] & Ha & E).
  assert (Et : addr = tag) by (destruct tag; by inv_ret).
  destruct addr as [b|]; [|discriminate E]. apply bind_Ret_inv in E as ([c0 d3] & _ & E). by injection E as _ -> _ _.
Qed.

Lemma finish_takes d addr dma_ctrl s : length addr = 6%nat → takes snd 7120 d (λ fuel, finish fuel d addr dma_ctrl s).
Proof.
  intros Hl. eapply takes_le; [unfold finish; cbv zeta|].
  - eapply (takes_after _ _ 4); [apply enable_dma_within|lia|]. eapply (takes_after _ _ 7000); [apply hfb_init_within|lia|].
    eapply takes_bind; [apply mii_probe_takes|shelve|]. intros [[ret s1] d8]. cbn [snd]. branch.
    call netif_start_takes. eapply takes_bind; [by apply set_rx_mode_takes|shelve|]. intros d10. apply takes_ret_pair.
  - Unshelve. all: lia.
Qed.

(** C33: [Initialize] ends.  Whatever the registers of the controller and of the PHY
    read, and also when the MDIO bus never answers, as long as the clock has
    [7,300 + k] seconds left until its 64-bit product overflows (after 94.9 hours at
    54 MHz): if the set-up of the rings
    ends within [k] seconds, so does the set-up of the device, within [7,300 + k]
    seconds if an access takes as long as one.  The delays and the waits are
    bounded by the clock alone.  Unless it fails early the rings are set up once,
    and before and after that nothing is stored to their registers. *)
Theorem initialize_ends init_dma k d tag s :
  (∀ e, accessed d e → ∃ ok e', init_dma e = Ret (ok, e') ∧ elapsed k e e') → (∀ a, tag = Some a → length a = 6%nat) →
  0 ≤ k → in_time d ((7300 + k) * CLOCKHZ) →
  ∃ ready crc addr s' d', ends (λ fuel, Initialize init_dma fuel d tag s) (ready, crc, addr, s', d') ∧
    elapsed (7300 + k) d d' ∧
    (addr = None ∧ ready = false ∧ accessed d d' ∨
     ∃ a e ok e', addr = Some a ∧ tag = Some a ∧ accessed d e ∧ init_dma e = Ret (ok, e') ∧ accessed e' d' ∧
       if ok then ∃ fuel ctrl, finish fuel e' a ctrl s = Ret (ready, s', d') else ready = false).
Proof.
  intros Hdma Htag Hk Hin. destruct (prepare_takes d tag Htag) as [_ Hp].
  destruct Hp as ([[crc opened] e] & He & [Te Ae]); [eapply in_time_mono; [|exact Hin]; unfold CLOCKHZ; lia|].
  cbn [snd] in *. destruct opened as [[a c]|].
  2:{ exists false, crc, None, s, e. split; [apply (enough_bind _ _ _ _ He), enough_ret|].
    split; [eapply elapsed_le; [exact Te|lia]|]. by left. }
  assert (Ea : tag = Some a) by (destruct He as [n He]; exact (prepare_addr _ _ _ _ _ _ _ (He n (le_n n)))).
  destruct (Hdma e Ae) as (ok & e' & E & Ti). destruct ok.
  - destruct (finish_takes e' a c s (Htag a Ea)) as [_ Hf].
    destruct Hf as ([[ready s'] d'] & Hf & [Tf Af]).
    { apply (left_in_time k _ e); [exact Ti|]. apply (left_in_time 90 _ d); [exact Te|].
      eapply in_time_mono; [|exact Hin]. unfold CLOCKHZ. lia. }
    exists ready, crc, (Some a), s', d'. split.
    { apply (enough_bind _ _ _ _ He). rewrite E. cbn [negb]. apply (enough_bind _ _ _ _ Hf), enough_ret. }
    split; [eapply elapsed_le; [eapply elapsed_trans; [exact Te|eapply elapsed_trans; [exact Ti|exact Tf]]|lia]|].
    right. exists a, e, true, e'. do 5 (split; [done|]). destruct Hf as [n Hf]. exists n, c. by apply Hf.
  - exists false, crc, (Some a), s, e'. split; [apply (enough_bind _ _ _ _ He); rewrite E; apply enough_ret|].
    split; [eapply elapsed_le; [by eapply elapsed_trans|lia]|]. right. exists a, e, false, e'. by do 5 (split; [done|]).
Qed.
End set_up.


(** ** A controller with a PHY

    Registers that keep what is stored, a counter that goes on by a millisecond with
    every access, and a PHY whose registers are read through the MDIO bus. *)
Record nic := mkNic {
  k_now : N;
  k_regs : gmap Z Z
}.

Definition nic_tick (d : nic) : nic := mkNic (k_now d + 54000) (k_regs d).
Definition nic_reg (d : nic) (a : Z) : Z := default 0 (k_regs d !! a).

Section nic.
Variable phy : Z → Z.

(** A transaction that has been started is over at the next load. *)
Definition nic_load (d : nic) (a : Z) : Z * nic :=
  let v := nic_reg d a in
  (if (a =? umac UMAC_MDIO_CMD) && Z.testbit v 29 then phy (Z.land (v ≫ 16) 31) else v, nic_tick d).
Definition nic_store (d : nic) (a v : Z) : nic := mkNic (k_now d + 54000) (<[a := v]> (k_regs d)).

#[local] Instance nic_device : Device nic := {
  GET32 := nic_load;
  PUT32 := nic_store;
  words_at _ _ _ := [];
  place d _ _ := d;
  counter d := (Z.of_N (k_now d + 54000), 54000000, nic_tick d);
  elapse d _ := d
}.

#[local] Instance nic_clock : Clock nic.
Proof.
  refine {| now d := Z.of_N (k_now d); freq := 54000000 |}.
  - lia.
  - intros d. lia.
  - intros d. exists (nic_tick d). split; [reflexivity|]. cbn. lia.
  - intros d a. cbn. lia.
  - intros d a v. cbn. lia.
Defined.

#[local] Instance nic_regs : MacRegs nic.
Proof.
  refine {| ctl := nic_reg |}.
  - intros d a v d' c _ [= _ <-]. done.
  - intros d a v d' Ha [= <- _]. destruct (Z.eqb_spec a (umac UMAC_MDIO_CMD)) as [->|]; [|done].
    by apply mdio_not_control in Ha.
  - intros d a v c _. unfold nic_reg. cbn. destruct (Z.eqb_spec a c) as [->|]; [by rewrite lookup_insert_eq|by rewrite lookup_insert_ne].
  - intros d x d' c _ [= _ <-]. done.
Defined.
End nic.

(** A PHY whose link is up, and whose partner does gigabit, full and half duplex,
    with pause frames; of which it advertises 10 Mbit/s only, or all *)
Definition phy_all (r : Z) : Z :=
  if r =? MII_BMSR then 0x796D else if r =? MII_STAT1000 then 0x7C00 else if r =? MII_CTRL1000 then 0x0300
  else if r =? MII_LPA then 0xC5E1 else if r =? MII_ADVERTISE then 0x0DE1 else 0.
Definition phy_slow (r : Z) : Z :=
  if r =? MII_CTRL1000 then 0 else if r =? MII_ADVERTISE then 0x0061 else phy_all r.

Definition cold_nic : nic := mkNic 0 {[ sys SYS_REV_CTRL := 0x06000000; umac UMAC_CMD := 0x40 ]}.
Definition unplugged : phy_state := mkPhy 1 0 0 0 0 (-1) (-1) (-1) (-1).

Definition link_after (r : outcome (bool * phy_state * nic)) : option (TNetDeviceSpeed * Z * Z) :=
  match r with
  | Ret (_, s, d) => Some (GetLinkSpeed s, m_pause s, nic_reg d (umac UMAC_CMD))
  | _ => None
  end.

Example gigabit : link_after (UpdatePHY (H := nic_device phy_all) 20 cold_nic unplugged) = Some (NetDeviceSpeed1000Full, 1, 0x48).
Proof. vm_compute. reflexivity. Qed.

Example slow_link : link_after (UpdatePHY (H := nic_device phy_slow) 20 cold_nic unplugged) = Some (NetDeviceSpeed10Full, 1, 0x40).
Proof. vm_compute. reflexivity. Qed.

(** The partner of a gigabit link is lost to the bus after the link was seen: the
    driver reports the link, and the MAC is not set up for it. *)
Definition phy_fails (r : Z) : Z := if r =? MII_STAT1000 then MDIO_READ_FAIL else phy_all r.

Example link_without_mode : link_after (UpdatePHY (H := nic_device phy_fails) 20 cold_nic unplugged) = Some (NetDeviceSpeedUnknown, 0, 0x40) ∧
  match UpdatePHY (H := nic_device phy_fails) 20 cold_nic unplugged with Ret (_, s, _) => IsLinkUp s | _ => false end = true.
Proof. split; vm_compute; reflexivity. Qed.

Lemma delay_waits_witness : in_time (H0 := nic_clock phy_all) cold_nic (10 + 5000000) ∧
  ∃ d', ends (λ fuel, SimpleusDelay (H := nic_device phy_all) fuel cold_nic 10) d' ∧ 540 ≤ Z.of_N (k_now d').
Proof.
  assert (Hin : in_time (H0 := nic_clock phy_all) cold_nic (10 + 5000000)) by (vm_compute; reflexivity).
  split; [exact Hin|].
  destruct (delay_waits (H0 := nic_clock phy_all) cold_nic 10 ltac:(lia) Hin) as (d' & Hends & Hw & _).
  exists d'. split; [exact Hends|]. change (10 * 54000000 ≤ (Z.of_N (k_now d') - 0) * 1000000) in Hw. lia.
Defined.

Lemma update_phy_follows_link_witness :
  programmed (MacRegs0 := nic_regs phy_all) cold_nic unplugged ∧
  ∃ s' d', ends (λ fuel, UpdatePHY (H := nic_device phy_all) fuel cold_nic unplugged) (true, s', d') ∧
    programmed (MacRegs0 := nic_regs phy_all) d' s'.
Proof.
  assert (Hp : programmed (MacRegs0 := nic_regs phy_all) cold_nic unplugged) by by left.
  assert (Hin : in_time (H0 := nic_clock phy_all) cold_nic 45000000) by (vm_compute; reflexivity).
  split; [exact Hp|].
  destruct (update_phy_follows_link (Clock0 := nic_clock phy_all) (MacRegs0 := nic_regs phy_all) cold_nic unplugged Hp Hin)
    as (_ & _ & _ & _ & _ & _ & s' & d' & _ & Hends & Hp' & _).
  exists s', d'. exact (conj Hends Hp').
Defined.

Lemma receive_filter_witness : ∃ d',
  SetMulticastFilter (H := nic_device phy_all) cold_nic [0xDC; 0xA6; 0x32; 1; 2; 3] ([[1; 0; 0x5E; 0; 0; 1]] ++ replicate 6 0 :: []) = Ret (true, d') ∧
  slots_on (nic_reg d' (umac UMAC_MDF_CTRL)) 3 ∧ nic_reg d' (umac UMAC_MDF_ADDR + 8) = 0xDCA6 ∧
  nic_reg d' (umac UMAC_MDF_ADDR + 20) = 0x5E000001.
Proof.
  assert (Ha : Forall byte [0xDC; 0xA6; 0x32; 1; 2; 3])
    by (repeat constructor; vm_compute; (reflexivity || discriminate)).
  assert (Hg : Forall (λ g : list Z, length g = 6%nat ∧ Forall byte g ∧ head g ≠ Some 0) [[1; 0; 0x5E; 0; 0; 1]])
    by (repeat constructor; vm_compute; (reflexivity || discriminate)).
  destruct (receive_filter (MacRegs0 := nic_regs phy_all) cold_nic [0xDC; 0xA6; 0x32; 1; 2; 3] [[1; 0; 0x5E; 0; 0; 1]]
    (replicate 6 0) [] eq_refl Ha Hg eq_refl) as (d' & E & Hs & Hk & _).
  exists d'. exact (conj E (conj Hs (conj (proj1 (Hk 1%nat _ eq_refl)) (proj2 (Hk 2%nat _ eq_refl))))).
Defined.

Lemma initialize_ends_witness :
  in_time (H0 := nic_clock phy_all) cold_nic (7300 * CLOCKHZ) ∧
  ∃ r d', ends (λ fuel, Initialize (H := nic_device phy_all) (λ d, Ret (true, d)) fuel cold_nic
    (Some [0xDC; 0xA6; 0x32; 1; 2; 3]) unplugged) (r, d').
Proof.
  assert (Hin : in_time (H0 := nic_clock phy_all) cold_nic (7300 * CLOCKHZ)) by (vm_compute; reflexivity).
  split; [exact Hin|].
  destruct (initialize_ends (Clock0 := nic_clock phy_all) (MacRegs0 := nic_regs phy_all) (λ d, Ret (true, d)) 0 cold_nic
    (Some [0xDC; 0xA6; 0x32; 1; 2; 3]) unplugged) as (ready & crc & addr & s' & d' & He & _).
  - intros e _. exists true, e. split; [reflexivity|]. unfold elapsed, CLOCKHZ. lia.
  - intros a [= <-]. reflexivity.
  - lia.
  - exact Hin.
  - exists (ready, crc, addr, s'), d'. exact He.
Defined.
