(* ===== verification/Boot.v ===== *)
(** * The start of the kernel

    From the initialization of the Ethernet device to the packet loop: the driver's
    set-up ([Phy.Initialize]) around the set-up of its rings ([Genet.init_dma]) on
    one machine, and the wait for the link, as [CKernel] goes through them
    ([sample/06-ethernet-dhcp-lib/kernel.cpp]).  What the kernel does before (the
    screen, the serial port, the logger, the interrupt system and the timer) and
    the constructor of the DHCP server are not modelled here.  The machine is the
    driver's data with the registers of the rings, which [Genet] reads and logs,
    and the other hardware, which [Phy] loads from and stores to.  From the moment
    the rings are set up, the controller may store packets between any two
    accesses of the driver.  The theorem joins the layers: the machine reaches, in
    bounded time, a state in which a site can be. *)
From S2P Require Import Prelude LeaseStore ArrayPool Server Adapter Client Network Heap Genet Board Site.
From S2P Require Import Periph Phy.

Open Scope Z_scope.

(** ** The machine *)

(** [m_live]: the rings are set up, so that packets may be stored. *)
Record machine (H D : Type) := mkMachine { m_nic : genet H; m_hw : D; m_live : bool }.
Arguments mkMachine {H D} _ _ _.
Arguments m_nic {H D} _.
Arguments m_hw {H D} _.
Arguments m_live {H D} _.

(** What the controller has stored when the driver's next access is over, as a
    function of the state of the hardware *)
Class Traffic (H D : Type) := arrive : D → genet H → genet H.

Section machine.
Context {H D : Type} `{Heap H} `{Device D} `{Traffic H D}.
Variable garbage : Z → Z → list Z.

Definition arrives (m : machine H D) : machine H D :=
  if m_live m then mkMachine (arrive (m_hw m) (m_nic m)) (m_hw m) true else m.

Definition set_crc (s : genet H) (crc : bool) : genet H :=
  mkGenet (g_heap s) (g_bufs s) (g_in s) (g_out s) (m_rx_cbs s) (m_rx_ring s) (m_tx_cbs s) (m_tx_rings s) crc.

(** What the driver stores is logged with the stores of the rings. *)
#[export] Instance machine_device : Device (machine H D) := {
  GET32 m a := let '(v, d) := GET32 (m_hw m) a in (v, arrives (mkMachine (m_nic m) d (m_live m)));
  PUT32 m a v := arrives (mkMachine (write32 (m_nic m) a v) (PUT32 (m_hw m) a v) (m_live m));
  words_at m := words_at (m_hw m);
  place m a l := mkMachine (m_nic m) (place (m_hw m) a l) (m_live m);
  counter m := let '(x, d) := counter (m_hw m) in (x, arrives (mkMachine (m_nic m) d (m_live m)));
  elapse m n := mkMachine (m_nic m) (elapse (m_hw m) n) (m_live m)
}.

Definition stores (d : D) (w : list (Z * Z)) : D := foldl (λ d y, PUT32 d (fst y) (snd y)) d w.

(** [init_dma]: its stores take their time on the hardware, too.  The MAC receives
    nothing yet. *)
Definition set_up_rings (m : machine H D) : outcome (bool * machine H D) :=
  '(ok, s) ← init_dma garbage (m_nic m);
  Ret (ok, mkMachine s (stores (m_hw m) (drop (length (g_out (m_nic m))) (g_out s))) true).

(** The initialization of the device and the way of [CKernel::Run] to the packet
    loop.  [None]: the system is halted, the device could not be set up. *)
Definition kernel_start (rounds fuel : nat) (m : machine H D) (tag : option (list Z)) (s : phy_state)
  : outcome (option (list Z) * phy_state * machine H D) :=
  '(ready, crc, addr, s, m) ← Initialize set_up_rings fuel m tag s;
  let m := mkMachine (set_crc (m_nic m) crc) (m_hw m) (m_live m) in
  if negb ready then Ret (None, s, m) else
  '(s, m) ← wait_for_link rounds fuel m s;
  Ret (addr, s, m).
End machine.

(** ** The clock and the registers of the machine are those of its hardware. *)

Lemma arrives_hw {H D} `{Traffic H D} (m : machine H D) : m_hw (arrives m) = m_hw m.
Proof. unfold arrives. by destruct (m_live m). Qed.

#[export] Instance machine_clock {H D} `{Heap H} `{Clock D} `{Traffic H D} : Clock (machine H D).
Proof.
  refine {| now m := now (m_hw m); freq := freq (D := D) |}.
  - exact freq_range.
  - intros m. apply now_start.
  - intros m. destruct (counter_time (m_hw m)) as (d' & E & Hn). exists (arrives (mkMachine (m_nic m) d' (m_live m))).
    cbn [counter machine_device]. rewrite arrives_hw. by rewrite E.
  - intros m a. cbn [GET32 machine_device]. pose proof (load_time (m_hw m) a) as Ht.
    destruct (GET32 (m_hw m) a) as [v d]. cbn [snd]. by rewrite arrives_hw.
  - intros m a v. cbn [PUT32 machine_device]. rewrite arrives_hw. apply store_time.
Defined.

#[export] Instance machine_regs {H D} `{Heap H} `{MacRegs D} `{Traffic H D} : MacRegs (machine H D).
Proof.
  refine {| ctl m := ctl (m_hw m) |}.
  - intros m a v m' c Hc. cbn [GET32 machine_device]. destruct (GET32 (m_hw m) a) as [x d] eqn:E.
    intros [= _ <-]. rewrite arrives_hw. by eapply load_ctl.
  - intros m a v m' Ha. cbn [GET32 machine_device]. destruct (GET32 (m_hw m) a) as [x d] eqn:E.
    intros [= <- _]. by eapply load_value.
  - intros m a v c Hc. cbn [PUT32 machine_device]. rewrite arrives_hw. by apply store_ctl.
  - intros m x m' c Hc. cbn [counter machine_device]. destruct (counter (m_hw m)) as [y d] eqn:E.
    intros [= _ <-]. rewrite arrives_hw. by eapply counter_ctl.
Defined.

(** ** The stores of the set-up of the rings *)

Section ring_stores.
Context {H : Type} `{Heap H}.
Variable garbage : Z → Z → list Z.
Implicit Types s : genet H.

(** At most [n] stores lead from [s] to [s']. *)
Definition logged (n : nat) s s' : Prop := ∃ w, g_out s' = g_out s ++ w ∧ (length w ≤ n)%nat.

Lemma logged_same s s' : g_out s' = g_out s → logged 0 s s'.
Proof. intros E. exists []. rewrite app_nil_r. by split. Qed.

Lemma logged_trans a b s1 s2 s3 : logged a s1 s2 → logged b s2 s3 → logged (a + b) s1 s3.
Proof.
  intros (w & E & Hw) (v & E' & Hv). exists (w ++ v). rewrite E', E, app_assoc, length_app. split; [done|lia].
Qed.

Lemma logged_le a b s s' : logged a s s' → (a ≤ b)%nat → logged b s s'.
Proof. intros (w & E & Hw) Hab. exists w. split; [done|lia]. Qed.

Lemma logged_log s w : logged (length w) s (log s w).
Proof. by exists w. Qed.

Lemma logged_write s a v : logged 1 s (write32 s a v).
Proof. by eexists [_]. Qed.

Lemma new_u8_logged s n p s' : new_u8 garbage s n = Ret (p, s') → logged 0 s s'.
Proof.
  unfold new_u8. intros E. inv_ret. destruct v as [[q| |] h]; inv_ret; by apply logged_same.
Qed.

Lemma rx_refill_logged s cb b s' : rx_refill garbage s cb = Ret (b, s') → logged 2 s s'.
Proof.
  unfold rx_refill, free_rx_cb. intros E. apply bind_Ret_inv in E as ([buf s1] & E1 & E).
  apply new_u8_logged in E1. destruct (buf =? 0).
  { injection E as _ <-. eapply logged_le; [exact E1|lia]. }
  inv_ret. unfold dmadesc_set_addr. eapply (logged_trans 0 2); [exact E1|].
  eexists [_; _]. cbn. split; [by rewrite <- app_assoc|lia].
Qed.

Lemma alloc_rx_buffers_logged n : ∀ s i ok s', alloc_rx_buffers garbage n s i = Ret (ok, s') → logged (2 * n) s s'.
Proof.
  induction n as [|n IH]; intros s i ok s' E; cbn [alloc_rx_buffers] in E.
  - injection E as _ <-. by apply logged_same.
  - apply bind_Ret_inv in E as ([b s1] & E1 & E). apply rx_refill_logged in E1.
    apply bind_Ret_inv in E as (c & _ & E). destruct (buffer c =? 0).
    + injection E as _ <-. eapply logged_le; [exact E1|lia].
    + apply IH in E. eapply logged_le; [eapply logged_trans; [exact E1|exact E]|lia].
Qed.

Lemma init_rx_queues_logged s ok s' : init_rx_queues garbage s = Ret (ok, s') → logged 523 s s'.
Proof.
  unfold init_rx_queues, init_rx_ring. cbv zeta. rewrite (write32_u32 s). intros E.
  apply bind_Ret_inv in E as ([ok1 s1] & E1 & E).
  apply bind_Ret_inv in E1 as ([ok2 s2] & E2 & E1). apply alloc_rx_buffers_logged in E2.
  assert (L2 : logged (1 + 2 * 256) s s2).
  { eapply logged_trans; [|exact E2]. by eexists [_]. }
  assert (L1 : logged (1 + 2 * 256 + 8) s s1).
  { destruct ok2; cbn [negb] in E1; injection E1 as _ <-; [|eapply logged_le; [exact L2|lia]].
    rewrite !write32_u32, !log_log. eapply logged_trans; [exact L2|apply logged_log]. }
  destruct ok1; cbn [negb] in E; injection E as _ <-; [|eapply logged_le; [exact L1|lia]].
  rewrite !write32_u32, !log_log. eapply (logged_le (1 + 2 * 256 + 8 + 2)); [eapply logged_trans; [exact L1|apply logged_log]|lia].
Qed.

Lemma init_tx_queues_logged s : logged 60 s (init_tx_queues s true).
Proof.
  unfold init_tx_queues. cbv zeta. change TX_QUEUES with 4%nat. cbn [init_tx_priority].
  rewrite !init_tx_ring_log, !write32_u32, !log_rings, !log_log.
  eapply logged_le; [apply logged_log|]. apply Nat.leb_le. vm_compute. reflexivity.
Qed.

(** Two writes for each of the 256 slots of the receive ring, and the registers *)
Lemma init_dma_logged s s' : init_dma garbage s = Ret (true, s') → logged 600 s s'.
Proof.
  unfold init_dma, new_cbs. cbv zeta. intros E.
  apply bind_Ret_inv in E as ([rx s1] & E1 & E). destruct (rx =? 0); [discriminate E|].
  apply bind_Ret_inv in E as ([tx s2] & E2 & E). destruct (tx =? 0); [by inv_ret|].
  assert (G1 : g_out s1 = g_out s) by (apply bind_Ret_inv in E1 as ([[p| |] h] & _ & E1); by inv_ret).
  assert (G2 : g_out s2 = g_out s1) by (apply bind_Ret_inv in E2 as ([[p| |] h] & _ & E2); by inv_ret).
  apply bind_Ret_inv in E as ([ok s3] & E3 & E). apply init_rx_queues_logged in E3.
  destruct ok; cbn [negb] in E; [|by inv_ret]. injection E as <-.
  eapply (logged_le (0 + (1 + 523) + (1 + 60))); [|lia].
  eapply logged_trans; [|eapply logged_trans; [|apply init_tx_queues_logged]; apply logged_write].
  eapply logged_trans; [|eapply logged_trans; [|exact E3]; apply (logged_write (set_tx_cbs s2 _))].
  apply logged_same. cbn. by rewrite G2.
Qed.
End ring_stores.

(** ** Accesses outside the rings leave the rings as they are *)

Section kept_rings.
Context {H D : Type} `{HeapLaws H} `{!Device D} `{!Traffic H D}.
Variable clients : list client.
Implicit Types s : genet H.
Implicit Types m : machine H D.

Definition outside (w : list (Z * Z)) : Prop := Forall (λ y, in_rings (fst y) = false) w.

Lemma outside_ne w a : outside w → in_rings a = true → Forall (λ y, fst y ≠ a) w.
Proof. intros Hw Ha. eapply Forall_impl; [exact Hw|]. intros y Hy E. cbn in Hy. by rewrite E, Ha in Hy. Qed.

Lemma slot_in_rings i : (i < 256)%nat → in_rings (rx_bd i + DMA_DESC_ADDRESS_LO) = true.
Proof.
  intros Hi. unfold in_rings, rx_bd, DMA_DESC_ADDRESS_LO, DMA_DESC_SIZE, GENET_RDMA_REG_OFF, DMA_RINGS_SIZE, TOTAL_DESC,
    DMA_DESC_SIZE, DMA_RING_SIZE, GENET_DESC_INDEX, RDMA_OFFSET, ARM_BCM54213_BASE. lia.
Qed.

Lemma genet_inv_log s ci c n w : genet_inv s ci c n → outside w → genet_inv (log s w) ci c n.
Proof.
  intros Hi Hw. pose proof (gi_rx_len _ _ _ _ Hi) as Hlen. destruct Hi as [? ? ? ? ? Hrx ? ? ? ? ? ?].
  split; try assumption.
  - intros i cb Hcb. destruct (Hrx i cb Hcb) as (Hb & ? & ? & Hl). do 3 (split; [done|]).
    cbn [log upd g_out]. rewrite last_write_other; [done|]. apply outside_ne; [done|]. rewrite Hb.
    apply slot_in_rings. rewrite <- Hlen. by eapply lookup_lt_Some.
  - cbn [log upd g_out]. rewrite last_write_other; [done|]. by apply outside_ne.
  - cbn [log upd g_out]. rewrite last_write_other; [done|]. by apply outside_ne.
Qed.

(** Nothing waits in the rings, so nothing else of them is in the log. *)
Lemma empty_rings_log crc s w crc' : linked crc s [] [] → outside w → linked crc' (set_crc (log s w) crc') [] [].
Proof.
  intros (ci & c & Hi & Hh & _ & Hidle & Hc & _ & _) Hw. exists ci, c.
  split; [|split; [exact Hh|split; [by intros k f|split; [exact Hidle|split; [exact Hc|by split]]]]].
  destruct (genet_inv_log _ _ _ _ w Hi Hw). by split.
Qed.

(** *** What the controller stores meanwhile

    A faulty packet or a harmless one, and only into a free slot: the steps of a
    site before its loop runs and its clients have begun *)
Inductive received : genet H → genet H → Prop :=
  | received_none s : received s s
  | received_next s s1 flags bytes in' bufs' : received s s1 →
      deliverable false (flags, bytes) → rx_pending s1 < 256 → nic_stored s1 flags bytes in' bufs' →
      faulty flags = true ∨ harmless clients (payload false bytes) → received s (set_env s1 in' bufs').

Lemma received_trans s1 s2 s3 : received s1 s2 → received s2 s3 → received s1 s3.
Proof. intros Ha. induction 1; [done|]. apply received_next with flags bytes; auto. Qed.

Lemma last_write_log s w a : outside w → in_rings a = true → last_write (g_out (log s w)) a = last_write (g_out s) a.
Proof. intros Hw Ha. cbn [log upd g_out]. rewrite last_write_other; [done|]. by apply outside_ne. Qed.

(** Neither the stores outside the rings nor the driver's note on checksums matter
    to what the controller does. *)
Lemma stored_log s w flags bytes in' bufs' : outside w → nic_stored s flags bytes in' bufs' →
  nic_stored (log s w) flags bytes in' bufs'.
Proof.
  intros Hw [? ? ? ? (addr & content & Ha & Hb)]. split; [done..|]. exists addr, content. split; [|exact Hb].
  assert (Hslot : (next_slot_in s < 256)%nat).
  { unfold next_slot_in. pose proof (Z.mod_pos_bound (read32 s (rdma_ring GENET_DESC_INDEX RDMA_PROD_INDEX)) 256). lia. }
  change (next_slot_in (log s w)) with (next_slot_in s). rewrite <- Ha. apply last_write_log; [done|by apply slot_in_rings].
Qed.

Lemma received_log s s' w : outside w → received s s' → received (log s w) (log s' w).
Proof.
  intros Hw. induction 1 as [s|s s1 flags bytes in' bufs' _ IH Hd Hp Hn Hf]; [constructor|].
  change (log (set_env s1 in' bufs') w) with (set_env (log s1 w) in' bufs').
  apply received_next with flags bytes; [exact IH|done| |by apply stored_log|done].
  unfold rx_pending in *. rewrite last_write_log by done. exact Hp.
Qed.

Lemma received_crc s s' crc : received s s' → received (set_crc s crc) (set_crc s' crc).
Proof.
  induction 1 as [s|s s1 flags bytes in' bufs' _ IH Hd Hp Hn Hf]; [constructor|].
  change (set_crc (set_env s1 in' bufs') crc) with (set_env (set_crc s1 crc) in' bufs').
  apply received_next with flags bytes; [exact IH|done..| |done]. by destruct Hn.
Qed.

Hypothesis arrivals : ∀ (d : D) s, received s (arrive d s).

(** Before the rings are set up accesses leave the driver's data as it is, up to the
    log; after that, the controller stores packets. *)
Definition runs_on m m' : Prop :=
  m_live m' = m_live m ∧ ∃ w, outside w ∧
    if m_live m then received (log (m_nic m) w) (m_nic m') else m_nic m' = log (m_nic m) w.

Lemma log_nil s : log s [] = s.
Proof. unfold log. rewrite app_nil_r. apply upd_id. Qed.

Lemma runs_on_refl m : runs_on m m.
Proof. split; [done|]. exists []. split; [constructor|]. rewrite log_nil. destruct (m_live m); [constructor|done]. Qed.

Lemma runs_on_trans m1 m2 m3 : runs_on m1 m2 → runs_on m2 m3 → runs_on m1 m3.
Proof.
  intros [L1 (w1 & O1 & R1)] [L2 (w2 & O2 & R2)]. split; [by rewrite L2|]. exists (w1 ++ w2).
  split; [by apply Forall_app|]. rewrite L1 in R2. rewrite <- log_log. destruct (m_live m1); [|by rewrite R2, R1].
  eapply received_trans; [|exact R2]. by apply received_log.
Qed.

Lemma runs_on_arrives m s d w : outside w → s = log (m_nic m) w → runs_on m (arrives (mkMachine s d (m_live m))).
Proof.
  intros Hw ->. unfold arrives, runs_on. cbn [m_live m_nic m_hw]. destruct (m_live m) eqn:E; cbn [m_live m_nic].
  - split; [done|]. exists w. split; [done|]. apply arrivals.
  - split; [done|]. by exists w.
Qed.

Lemma access_runs_on m m' : access m m' → runs_on m m'.
Proof.
  destruct 1 as [m a v m' E|m a v Ha|m x m' E].
  - cbn [GET32 machine_device] in E. destruct (GET32 (m_hw m) a) as [y d]. injection E as _ <-.
    apply (runs_on_arrives m _ _ []); [constructor|by rewrite log_nil].
  - apply (runs_on_arrives m _ _ [(a, u32 v)]); [by constructor|done].
  - cbn [counter machine_device] in E. destruct (counter (m_hw m)) as [y d]. injection E as _ <-.
    apply (runs_on_arrives m _ _ []); [constructor|by rewrite log_nil].
Qed.

Lemma accessed_runs_on m m' : accessed m m' → runs_on m m'.
Proof. induction 1; [apply runs_on_refl|]. eapply runs_on_trans; [by apply access_runs_on|done]. Qed.

End kept_rings.

(** ** A controller and a PHY that answer *)

Section answers.
Context {D : Type} `{Device D}.
Implicit Types d : D.

(** The PHY answers at either address: its registers can be read, the link is up,
    and the gigabit ends have agreed on who is master. *)
Definition phy_answers : Prop := ∀ fuel d s reg v d',
  m_phy_id s = 0 ∨ m_phy_id s = 1 → reg ∈ link_regs → mdio_read fuel d s reg = Ret (v, d') →
  0 ≤ v ∧ (reg = MII_BMSR → Z.testbit v 2 = true) ∧ (reg = MII_STAT1000 → Z.testbit v 15 = false).

(** The controller is a GENET of version 5. *)
Definition version_5 d : Prop := ∃ reg d', GET32 d (sys SYS_REV_CTRL) = (reg, d') ∧ Z.land (reg ≫ 24) 0x0f = 6.

Hypothesis answers : phy_answers.

Lemma mdio_reset_answers fuel d s ret d' : m_phy_id s = 0 ∨ m_phy_id s = 1 →
  mdio_reset fuel d s = Ret (ret, d') → ret = 0.
Proof.
  intros Hi E. unfold mdio_reset in E. apply bind_Ret_inv in E as ([v d1] & Ev & E).
  apply answers in Ev as (Hv & _ & _); [|done|by left].
  rewrite (proj2 (Z.ltb_ge v 0) Hv) in E. by injection E as <- _.
Qed.

Lemma bmsr_link v : Z.testbit v 2 = true → (Z.land v BMSR_LSTATUS =? 0) = false.
Proof.
  intros Hb. apply Z.eqb_neq. intros E. assert (Hz : Z.testbit (Z.land v BMSR_LSTATUS) 2 = false) by (rewrite E; apply Z.bits_0).
  rewrite Z.land_spec, Hb in Hz. done.
Qed.

Lemma no_fault v : Z.testbit v 15 = false → truth (Z.land v LPA_1000MSFAIL) = false.
Proof.
  intros Hb. unfold truth. apply negb_false_iff, Z.eqb_eq. change LPA_1000MSFAIL with (2 ^ 15).
  apply Z.bits_inj'. intros i Hi. rewrite Z.land_spec, Z.pow2_bits_eqb, Z.bits_0 by lia.
  destruct (Z.eqb_spec 15 i) as [<-|]; [by rewrite Hb|apply andb_false_r].
Qed.

Lemma read_known fuel d s reg v d' : m_phy_id s = 0 ∨ m_phy_id s = 1 →
  mdio_read fuel d s reg = Ret (v, d') → reg ∈ link_regs → (v <? 0) = false.
Proof. intros Hi E Hr. apply Z.ltb_ge. by destruct (answers fuel d s reg v d' Hi Hr E). Qed.

(** The next read in [E], of a register that could be read *)
Ltac read_answer Hi E Ev :=
  let v := fresh "v" in let d := fresh "d" in
  apply bind_Ret_inv in E as ([v d] & Ev & E); rewrite ?mdio_read_set_link in Ev;
  rewrite (read_known _ _ _ _ _ _ Hi Ev ltac:(by repeat constructor)) in E.

Lemma phy_read_status_answers fuel d s ret s' d' : m_phy_id s = 0 ∨ m_phy_id s = 1 →
  phy_read_status fuel d s = Ret (ret, s', d') → ret = 0 ∧ m_link s' = 1.
Proof.
  intros Hi E. unfold phy_read_status in E. read_answer Hi E E1.
  apply answers in E1 as (_ & E1 & _); [|done|by repeat constructor]. rewrite (bmsr_link _ (E1 eq_refl)) in E.
  read_answer Hi E E2. read_answer Hi E E3.
  apply answers in E2 as (_ & _ & E2); [|done|by repeat constructor]. rewrite (no_fault _ (E2 eq_refl)) in E.
  read_answer Hi E E4. read_answer Hi E E5.
  injection E as <- <- _. split; [done|]. unfold resolve_mode. by destruct (truth _), (truth _).
Qed.

Lemma mii_setup_link d s : m_link (fst (mii_setup d s)) = m_link s.
Proof.
  unfold mii_setup. destruct (_ =? 0); [done|]. destruct (negb (_ || _)); [done|].
  destruct (GET32 d _) as [v1 d1]. by destruct (GET32 (PUT32 d1 _ _) _) as [v2 d2].
Qed.

(** With both, the device is there after its set-up, and its link is up. *)
Lemma finish_answers fuel d addr ctrl s ready s' d' :
  finish fuel d addr ctrl s = Ret (ready, s', d') → ready = true ∧ m_link s' = 1.
Proof.
  unfold finish. cbv zeta. intros E. apply bind_Ret_inv in E as ([[ret s1] d1] & Ep & E).
  assert (Hp : ret = 0 ∧ m_link s1 = 1).
  { unfold mii_probe in Ep. cbv zeta in Ep. apply bind_Ret_inv in Ep as ([r d2] & Er & Ep).
    apply mdio_reset_answers in Er as ->; [|by right]. change (truth 0) with false in Ep.
    cbv iota in Ep. rewrite bind_Ret in Ep. change (truth 0) with false in Ep. cbv iota in Ep. apply bind_Ret_inv in Ep as ([[r s2] d3] & Es & Ep).
    apply phy_read_status_answers in Es as [-> Hl]; [|by right]. change (truth 0) with false in Ep. cbv iota in Ep.
    pose proof (mii_setup_link d3 s2) as Hm. destruct (mii_setup d3 s2) as [s3 d4]. cbn [fst] in Hm.
    unfold mii_config in Ep. cbv zeta in Ep. destruct (GET32 _ _) as [v d5]. injection Ep as <- <- _.
    split; [done|]. by rewrite Hm. }
  destruct Hp as [-> Hl]. change (truth 0) with false in E. cbv iota in E. inv_ret. done.
Qed.

Lemma prepare_version fuel d a crc opened d' : version_5 d → prepare fuel d (Some a) = Ret (crc, opened, d') →
  ∃ ctrl, opened = Some (a, ctrl).
Proof.
  intros (reg & d0 & E0 & Hreg) E. unfold prepare in E. rewrite E0, Hreg in E. cbv zeta in E.
  change (negb _) with false in E. cbv iota in E. do 3 apply bind_Ret_inv in E as (? & _ & E).
  destruct (GET32 _ (umac UMAC_CMD)) as [reg' d1]. apply bind_Ret_inv in E as ([addr d2] & Ha & E).
  assert (addr = Some a) as -> by (unfold set_hw_addr in Ha; by inv_ret).
  apply bind_Ret_inv in E as ([c d3] & _ & E). injection E as _ <- _. by exists c.
Qed.
End answers.

(** ** The checksums of the frames

    The command register has been cleared when the driver looks whether the
    controller forwards them: it takes them not to be in the buffers. *)
Section command.
Context {D : Type} `{!Device D, !MacRegs D}.
Implicit Types d : D.

Lemma other_store d a v : (a =? umac UMAC_CMD) = false → ctl (PUT32 d a v) (umac UMAC_CMD) = ctl d (umac UMAC_CMD).
Proof. intros Ha. rewrite store_ctl by by left. by rewrite Ha. Qed.

Lemma init_umac_cmd fuel d d' : init_umac fuel d = Ret d' → ctl d' (umac UMAC_CMD) = 0.
Proof.
  unfold init_umac, intr_disable. intros E. apply bind_Ret_inv in E as (d1 & E1 & E).
  destruct (GET32 _ (rbuf RBUF_CTRL)) as [reg d2] eqn:E2. injection E as <-. rewrite !other_store by done.
  rewrite (load_ctl _ _ _ _ (umac UMAC_CMD) ltac:(by left) E2), !other_store by done.
  unfold reset_umac in E1. apply bind_Ret_inv in E1 as (d3 & _ & E1). apply bind_Ret_inv in E1 as (d4 & _ & E1).
  injection E1 as <-. rewrite store_ctl by by left. by rewrite Z.eqb_refl.
Qed.

Lemma prepare_crc fuel d a crc ctrl d' tag : prepare fuel d tag = Ret (crc, Some (a, ctrl), d') → crc = false.
Proof.
  unfold prepare. cbv zeta. intros E. destruct (GET32 d _) as [reg0 d0]. destruct (negb _); [discriminate E|].
  apply bind_Ret_inv in E as (d1 & _ & E). apply bind_Ret_inv in E as (d2 & _ & E).
  apply bind_Ret_inv in E as (d3 & E3 & E). apply init_umac_cmd in E3.
  destruct (GET32 d3 (umac UMAC_CMD)) as [reg d4] eqn:E4. apply load_value in E4; [|by left]. rewrite E3 in E4.
  apply bind_Ret_inv in E as ([[b|] d5] & _ & E); [|discriminate E].
  apply bind_Ret_inv in E as ([c d6] & _ & E). injection E as <- _ _ _. by rewrite E4.
Qed.
End command.

(** ** From the set-up to the packet loop *)

Section start.
Context {H D P : Type} `{HeapLaws H} `{!Device D, !Clock D, !MacRegs D, !Traffic H D} `{LeaseStoreLaws P}.
Variable garbage : Z → Z → list Z.
Variables (clients : list client) (request_len : Z → list Z → Z) (rlen : nat).
Hypothesis garbage_length : ∀ p n, length (garbage p n) = Z.to_nat n.
Hypothesis arrivals : ∀ (d : D) (s : genet H), received clients s (arrive d s).
Implicit Types m : machine H D.

Lemma stores_elapsed w : ∀ d : D, elapsed (Z.of_nat (length w)) d (stores d w).
Proof.
  induction w as [|y w IH]; intros d; cbn [stores foldl length]; [unfold elapsed, CLOCKHZ; lia|].
  replace (Z.of_nat (S (length w))) with (1 + Z.of_nat (length w)) by lia.
  eapply elapsed_trans; [apply micros_step, store_time|apply IH].
Qed.

(** The machine before its rings are set up *)
Definition powered m : Prop :=
  heap_ok (g_heap (m_nic m)) ∧ heap_room (g_heap (m_nic m)) 291 ∧ length (m_tx_rings (m_nic m)) = 17%nat ∧
  nic_reset (g_in (m_nic m)) ∧ m_live m = false.

Lemma powered_accessed m e : powered m → accessed m e → powered e.
Proof.
  intros Hp Ha. apply (accessed_runs_on clients arrivals) in Ha as (L & w & _ & E). unfold powered in *.
  destruct Hp as (? & ? & ? & ? & Hl). rewrite Hl in E. by rewrite L, E.
Qed.

Lemma opened_at_start m a s ready crc addr s' m' : version_5 m →
  ends (λ fuel, Initialize (set_up_rings garbage) fuel m (Some a) s) (ready, crc, addr, s', m') →
  crc = false ∧ addr ≠ None.
Proof.
  intros Hv [n He]. specialize (He n (le_n n)). unfold Initialize in He.
  apply bind_Ret_inv in He as ([[c opened] d] & Ep & He).
  destruct (prepare_version _ _ _ _ _ _ Hv Ep) as [ctrl ->]. apply prepare_crc in Ep as ->.
  apply bind_Ret_inv in He as ([ok d1] & _ & He). destruct (negb ok); [by inv_ret|].
  apply bind_Ret_inv in He as ([[ok' s1] d2] & _ & He). by inv_ret.
Qed.

Lemma rings_set_up m : powered m → ∃ crc m', set_up_rings garbage m = Ret (true, m') ∧ elapsed 600 m m' ∧
  linked crc (m_nic m') [] [] ∧ m_live m' = true.
Proof.
  intros (Hok & Hr & Hl & Hn & _).
  destruct (init_linked garbage garbage_length (m_nic m) Hok Hr Hl Hn) as (s' & E & Hi & _).
  exists (m_crc_fwd_en (m_nic m)). eexists. unfold set_up_rings. rewrite E, bind_Ret. split; [reflexivity|].
  split; [|by split]. apply init_dma_logged in E as (w & E & Hw).
  rewrite E, drop_app_length. eapply elapsed_le; [apply stores_elapsed|lia].
Qed.

(** A site whose controller has stored packets since its rings were set up *)
Lemma received_reachable s s' srv ticks a : linked false s [] [] → received clients s s' →
  srv_inv srv → config srv = circle_config → is_u32 ticks →
  site_reachable garbage false a clients request_len rlen
    (mkSite (mkBoard s' srv) ticks (replicate (length clients) None) [] []).
Proof.
  intros Hl Hr Hs Hcfg Ht. induction Hr as [s|s s1 flags bytes in' bufs' _ IH Hd Hp Hn Hf].
  - apply site_start; [by split|done..].
  - eapply (site_next _ _ _ _ _ _ _ (Stored flags bytes in' bufs')); [by apply IH| |reflexivity].
    split; [exact Hd|]. split; [exact Hp|]. split; [exact Hn|]. destruct Hf as [Hf|Hf]; [by left|by right; right].
Qed.

(** C1: From the initialization of the Ethernet device to the packet loop.  With a heap with
    room for 291 frames, a controller of version 5 with the ring indices of a reset
    and with MAC registers that keep what is stored, a PHY that answers with a link,
    and a clock that has 7,900 seconds left until its 64-bit product overflows
    (after 94.9 hours at 54 MHz), whatever the other registers read: when the
    firmware gives the six bytes of the MAC address, the kernel sets up the device and
    comes to its packet loop, within 7,900 seconds even if every access takes as long
    as one; when it gives none, the kernel halts.  Once the rings are set up nothing
    else stores to them, and the driver has seen that frames come without checksums.
    From then on the controller may store packets into free slots, between any two
    accesses: faulty ones, and frames that a site may see before its clients begin
    (traffic that is not for the server, or well-formed messages of clients).  None is
    lost or mistaken: the loop starts as a site does that has stored the same ones, so
    what holds of all reachable states of a site holds of the machine from there on. *)
Theorem kernel_starts m tag s rounds : powered m → version_5 m → phy_answers (D := machine H D) →
  (∀ a, tag = Some a → length a = 6%nat) → in_time m (7900 * CLOCKHZ) →
  ∃ s' m', ends (λ fuel, kernel_start garbage (S rounds) fuel m tag s) (tag, s', m') ∧ elapsed 7900 m m' ∧
    ∀ a, tag = Some a → IsLinkUp s' = true ∧
      ∀ (srv : dhcp_server_t P) ticks, srv_inv srv → config srv = circle_config → is_u32 ticks →
        site_reachable garbage false a clients request_len rlen
          (mkSite (mkBoard (m_nic m') srv) ticks (replicate (length clients) None) [] []).
Proof.
  intros Hp Hv Hans Ha Hin.
  destruct (initialize_ends (set_up_rings garbage) 600 m tag s) as (ready & crc & addr & s' & m' & He & Ht & Hres).
  - intros e He. destruct (rings_set_up e (powered_accessed m e Hp He)) as (c & e' & E & Hel & _). by exists true, e'.
  - done.
  - lia.
  - eapply in_time_mono; [|exact Hin]. unfold CLOCKHZ. lia.
  - destruct Hres as [(-> & -> & _)|(b & e & ok & e' & -> & -> & Hae & Edma & Hae' & Hfin)].
    { destruct tag as [a|]; [by destruct (opened_at_start _ _ _ _ _ _ _ _ Hv He) as [_ ?]|].
      eexists s', _. split; [|split; [|done]].
      - unfold kernel_start. apply (enough_bind _ _ _ _ He). apply enough_ret.
      - eapply elapsed_le; [exact Ht|lia]. }
    destruct (opened_at_start _ _ _ _ _ _ _ _ Hv He) as [-> _].
    destruct (rings_set_up e (powered_accessed m e Hp Hae)) as (c & e2 & E2 & _ & Hl & Hlive). rewrite E2 in Edma.
    injection Edma as <- <-. destruct Hfin as (fuel & ctrl & Ef). apply (finish_answers Hans) in Ef as [-> Hlink].
    apply (accessed_runs_on clients arrivals) in Hae' as (_ & w & Hw & Hrec). rewrite Hlive in Hrec.
    exists s', (mkMachine (set_crc (m_nic m') false) (m_hw m') (m_live m')). unfold IsLinkUp.
    split; [|split; [eapply elapsed_le; [exact Ht|lia]|]].
    + unfold kernel_start. apply (enough_bind _ _ _ _ He). cbn [negb wait_for_link]. unfold IsLinkUp. rewrite Hlink.
      apply enough_ret.
    + intros a [= <-]. split; [by rewrite Hlink|]. intros srv ticks Hs Hcfg Hticks.
      apply (received_reachable (set_crc (log (m_nic e2) w) false)); [|by apply received_crc|done..].
      by eapply empty_rings_log.
Qed.
End start.

(** ** A machine that starts

    The controller and the PHY of [Phy], the heap of 4 MB of [Board]; and from the
    moment there are buffers, a frame nobody knows arrives at every access until
    ten are waiting. *)
#[local] Existing Instance region.
#[local] Existing Instance region_laws.
#[local] Instance link_device : Device nic := nic_device phy_all.
#[local] Instance link_clock : Clock nic := nic_clock phy_all.
#[local] Instance link_regs_kept : MacRegs nic := nic_regs phy_all.

Definition stray : list Z := replicate 60 0.

#[local] Instance stray_traffic : Traffic CHeapAllocator nic := λ _ s,
  match last_write (g_out s) (rx_bd (next_slot_in s) + DMA_DESC_ADDRESS_LO) ≫= λ addr, g_bufs s !! addr with
  | Some _ =>
      if rx_pending s <? 10 then
        set_env s (nic_store_in s 0x6000 (as_stored false stray)) (nic_store_bufs s (as_stored false stray))
      else s
  | None => s
  end.

Lemma stray_received (d : nic) s : received net_clients s (arrive d s).
Proof.
  unfold arrive, stray_traffic.
  destruct (last_write _ _) as [addr|] eqn:Ha; cbn [mbind option_bind]; [|constructor].
  destruct (g_bufs s !! addr) as [content|] eqn:Hc; [|constructor].
  destruct (Z.ltb_spec (rx_pending s) 10); [|constructor].
  apply received_next with 0x6000 (as_stored false stray); [constructor| |lia|by eapply nic_store_buffer|right].
  - apply as_stored_deliverable. unfold stray. rewrite length_replicate. lia.
  - rewrite payload_as_stored. intros junk. left. exists 0. split; [reflexivity|by left].
Qed.

Abbreviation kit := (machine CHeapAllocator nic).

Definition cold_machine : kit := mkMachine off_genet cold_nic false.

Lemma loop_regs fuel : ∀ (m : kit) t m', mdio_loop fuel m t = Ret m' → k_regs (m_hw m') = k_regs (m_hw m).
Proof.
  induction fuel as [|fuel IH]; intros m t m' E; [done|]. cbn [mdio_loop] in E.
  unfold GetClockTicks in E. cbn [counter machine_device link_device nic_device] in E.
  destruct (_ <=? _); [injection E as <-; by rewrite arrives_hw|].
  cbn [GET32 machine_device link_device nic_device] in E. unfold nic_load in E. cbv zeta in E.
  destruct (truth _); [apply IH in E; rewrite E|injection E as <-]; rewrite ?arrives_hw; cbn [m_hw];
    rewrite ?arrives_hw; reflexivity.
Qed.

Lemma reg_stored d a v : nic_reg (nic_store d a v) a = v.
Proof. unfold nic_reg. cbn. by rewrite lookup_insert_eq. Qed.

(** What is read is what the PHY has in the register of the command. *)
Lemma kit_read fuel (m : kit) s reg v m' : mdio_read fuel m s reg = Ret (v, m') →
  let cmd := Z.lor (Z.lor MDIO_RD (m_phy_id s ≪ MDIO_PMD_SHIFT)) (reg ≪ MDIO_REG_SHIFT) in
  Z.testbit cmd 29 = false → Z.testbit (Z.lor cmd MDIO_START_BUSY) 29 = true →
  let x := phy_all (Z.land (Z.lor cmd MDIO_START_BUSY ≫ 16) 31) in
  v = if truth (Z.land x MDIO_READ_FAIL) then -1 else Z.land x 0xFFFF.
Proof.
  intros E cmd H0 H1. unfold mdio_read, mdio_start, mdio_wait, GetClockTicks in E. fold cmd in E.
  cbn [GET32 PUT32 counter machine_device link_device nic_device] in E. rewrite !arrives_hw in E. cbn [m_hw] in E.
  rewrite ?arrives_hw in E. cbn [m_hw] in E. unfold nic_load in E. rewrite reg_stored, H0, andb_false_r in E. cbv zeta in E.
  apply bind_Ret_inv in E as (m1 & E1 & E). apply loop_regs in E1. cbn [m_hw] in E1.
  assert (Hr : nic_reg (m_hw m1) (ARM_BCM54213_MDIO + MDIO_CMD) = Z.lor cmd MDIO_START_BUSY).
  { unfold nic_reg. rewrite E1, !arrives_hw. cbn [m_hw]. rewrite ?arrives_hw. cbn [k_regs nic_tick nic_store]. by rewrite lookup_insert_eq. }
  rewrite Hr, H1 in E. change (ARM_BCM54213_MDIO + MDIO_CMD =? umac UMAC_MDIO_CMD) with true in E.
  cbn [andb] in E. cbv iota in E. cbv zeta. destruct (truth _); by injection E as <- _.
Qed.

Lemma kit_answers : phy_answers (D := kit).
Proof.
  intros fuel m s reg v m' Hi Hreg E0. pose proof (kit_read _ _ _ _ _ _ E0) as E. cbv zeta in E. clear E0.
  unfold link_regs in Hreg. rename Hreg into Hr.
  repeat (apply elem_of_cons in Hr as [->|Hr]; [destruct Hi as [Hi|Hi]; rewrite Hi in E; specialize (E eq_refl eq_refl);
    vm_compute in E; subst v;
    (split; [lia|split; intros Hq; (reflexivity || (vm_compute in Hq; discriminate Hq))])|]).
  by apply not_elem_of_nil in Hr.
Qed.

Lemma kernel_starts_witness : ∃ s' m',
  ends (λ fuel, kernel_start stale 1 fuel cold_machine (Some sample_dev) unplugged) (Some sample_dev, s', m') ∧
  IsLinkUp s' = true ∧
  site_reachable stale false sample_dev net_clients sent_length 1024
    (mkSite (mkBoard (m_nic m') net_server) 1000000 (replicate 2 None) [] []).
Proof.
  assert (Hp : powered cold_machine).
  { destruct region_ok as [Hok Hr]. exact (conj Hok (conj Hr (conj eq_refl (conj off_reset eq_refl)))). }
  assert (Hv : version_5 cold_machine) by (do 2 eexists; split; reflexivity).
  assert (Hin : in_time cold_machine (7900 * CLOCKHZ)) by (vm_compute; reflexivity).
  assert (Ha : ∀ a, Some sample_dev = Some a → length a = 6%nat) by (intros a [= <-]; reflexivity).
  destruct (kernel_starts stale net_clients sent_length 1024 stale_length stray_received cold_machine
    (Some sample_dev) unplugged 0 Hp Hv kit_answers Ha Hin) as (s' & m' & He & _ & Hsite).
  destruct (Hsite sample_dev eq_refl) as [Hl Hgo].
  exists s', m'. split; [exact He|]. split; [exact Hl|].
  apply Hgo; [exact net_server_inv|reflexivity|unfold uword; lia].
Defined.
